(** * SRTF + Best-Fit simulator engine (simulador_motor.py): model and properties

    The engine keeps Python objects (processes, partitions) that are shared
    between several queues.  The model is an arena: [todos_procesos] is the
    list of all supplied process objects and a reference to a process is its
    position in that list; a partition object is referred to by its position
    in [particiones].  Every queue holds references, so a mutation of an
    object is seen through every queue that holds it, as in the source.
    The constructor [Simulador_init] is the one for a list of distinct
    objects; [Simulador_init_lista] is the one for a list that may hold the
    same object at several positions.

    A Python exception (indexing [self.particiones] with [None] or out of
    range, [deque.remove] of an absent element) is the result [None]. *)

From Stdlib Require Import ZArith Lia List Permutation.
From stdpp Require Import base tactics option list numbers sorting sets relations strings gmap.

Local Open Scope Z_scope.

(** ** Data model *)

Abbreviation ref := nat.

Inductive Estado := NUEVO | LS | LISTO | EJECUCION | TERMINADO.

Global Instance Estado_eq_dec : EqDecision Estado.
Proof. solve_decision. Defined.

Record Proceso := mkProceso {
  id_proceso : Z;
  tamano : Z;
  t_arribo : Z;
  t_irrupcion : Z;
  estado : Estado;
  t_restante : Z;
  id_particion : option nat;
  t_fin : Z;
  t_primera_ejecucion : Z;
  t_llegada_listo : Z
}.

(** [Proceso.__init__] *)
Definition Proceso_init (id_proceso tamano t_arribo t_irrupcion : Z) : Proceso :=
  mkProceso id_proceso tamano t_arribo t_irrupcion NUEVO t_irrupcion None (-1) (-1) (-1).

Global Instance Proceso_inhabited : Inhabited Proceso := populate (Proceso_init 0 0 0 0).

Definition con_estado (e : Estado) (p : Proceso) : Proceso :=
  mkProceso (id_proceso p) (tamano p) (t_arribo p) (t_irrupcion p) e (t_restante p)
            (id_particion p) (t_fin p) (t_primera_ejecucion p) (t_llegada_listo p).
Definition con_t_restante (r : Z) (p : Proceso) : Proceso :=
  mkProceso (id_proceso p) (tamano p) (t_arribo p) (t_irrupcion p) (estado p) r
            (id_particion p) (t_fin p) (t_primera_ejecucion p) (t_llegada_listo p).
Definition con_id_particion (k : option nat) (p : Proceso) : Proceso :=
  mkProceso (id_proceso p) (tamano p) (t_arribo p) (t_irrupcion p) (estado p) (t_restante p)
            k (t_fin p) (t_primera_ejecucion p) (t_llegada_listo p).
Definition con_t_fin (t : Z) (p : Proceso) : Proceso :=
  mkProceso (id_proceso p) (tamano p) (t_arribo p) (t_irrupcion p) (estado p) (t_restante p)
            (id_particion p) t (t_primera_ejecucion p) (t_llegada_listo p).
Definition con_t_primera_ejecucion (t : Z) (p : Proceso) : Proceso :=
  mkProceso (id_proceso p) (tamano p) (t_arribo p) (t_irrupcion p) (estado p) (t_restante p)
            (id_particion p) (t_fin p) t (t_llegada_listo p).
Definition con_t_llegada_listo (t : Z) (p : Proceso) : Proceso :=
  mkProceso (id_proceso p) (tamano p) (t_arribo p) (t_irrupcion p) (estado p) (t_restante p)
            (id_particion p) (t_fin p) (t_primera_ejecucion p) t.

Record Particion := mkParticion {
  par_id_particion : nat;
  par_tamano : Z;
  es_so : bool;
  base : Z;
  proceso_asignado : option ref
}.

Global Instance Particion_inhabited : Inhabited Particion :=
  populate (mkParticion 0 0 true 0 None).

Definition con_proceso_asignado (o : option ref) (p : Particion) : Particion :=
  mkParticion (par_id_particion p) (par_tamano p) (es_so p) (base p) o.

(** [Particion.esta_libre] *)
Definition esta_libre (p : Particion) : bool :=
  match proceso_asignado p with
  | None => negb (es_so p)
  | Some _ => false
  end.

(** The entries of [eventos_del_tick]: each constructor carries the values
    that the source interpolates into the corresponding message. *)
Inductive Evento :=
| EvArriban (ids : list Z)
| EvNoCabe (id tam : Z)
| EvTermina (id : Z) (part : nat) (part_tam : Z)
| EvArribanSistema (ids : list Z)
| EvGDMLleno (ids : list Z)
| EvAdmision (id tam : Z) (part : nat) (part_tam fi : Z)
| EvSwap (id_sale r_sale id_entra r_entra : Z) (part : nat)
| EvInicia (id r : Z)
| EvDesalojo (id_sale id_entra r_entra : Z).

Record Simulador := mkSimulador {
  reloj : Z;
  eventos_del_tick : list Evento;
  todos_procesos : list Proceso;
  procesos_nuevos : list ref;
  cola_listos : list ref;
  cola_listos_suspendidos : list ref;
  proceso_en_ejecucion : option ref;
  procesos_terminados : list ref;
  procesos_reporte : list ref;
  particiones : list Particion
}.

Definition con_reloj (t : Z) (s : Simulador) : Simulador :=
  mkSimulador t (eventos_del_tick s) (todos_procesos s) (procesos_nuevos s) (cola_listos s)
    (cola_listos_suspendidos s) (proceso_en_ejecucion s) (procesos_terminados s)
    (procesos_reporte s) (particiones s).
Definition con_eventos (e : list Evento) (s : Simulador) : Simulador :=
  mkSimulador (reloj s) e (todos_procesos s) (procesos_nuevos s) (cola_listos s)
    (cola_listos_suspendidos s) (proceso_en_ejecucion s) (procesos_terminados s)
    (procesos_reporte s) (particiones s).
Definition con_todos (h : list Proceso) (s : Simulador) : Simulador :=
  mkSimulador (reloj s) (eventos_del_tick s) h (procesos_nuevos s) (cola_listos s)
    (cola_listos_suspendidos s) (proceso_en_ejecucion s) (procesos_terminados s)
    (procesos_reporte s) (particiones s).
Definition con_nuevos (l : list ref) (s : Simulador) : Simulador :=
  mkSimulador (reloj s) (eventos_del_tick s) (todos_procesos s) l (cola_listos s)
    (cola_listos_suspendidos s) (proceso_en_ejecucion s) (procesos_terminados s)
    (procesos_reporte s) (particiones s).
Definition con_listos (l : list ref) (s : Simulador) : Simulador :=
  mkSimulador (reloj s) (eventos_del_tick s) (todos_procesos s) (procesos_nuevos s) l
    (cola_listos_suspendidos s) (proceso_en_ejecucion s) (procesos_terminados s)
    (procesos_reporte s) (particiones s).
Definition con_suspendidos (l : list ref) (s : Simulador) : Simulador :=
  mkSimulador (reloj s) (eventos_del_tick s) (todos_procesos s) (procesos_nuevos s) (cola_listos s)
    l (proceso_en_ejecucion s) (procesos_terminados s)
    (procesos_reporte s) (particiones s).
Definition con_ejecucion (o : option ref) (s : Simulador) : Simulador :=
  mkSimulador (reloj s) (eventos_del_tick s) (todos_procesos s) (procesos_nuevos s) (cola_listos s)
    (cola_listos_suspendidos s) o (procesos_terminados s)
    (procesos_reporte s) (particiones s).
Definition con_terminados (l : list ref) (s : Simulador) : Simulador :=
  mkSimulador (reloj s) (eventos_del_tick s) (todos_procesos s) (procesos_nuevos s) (cola_listos s)
    (cola_listos_suspendidos s) (proceso_en_ejecucion s) l
    (procesos_reporte s) (particiones s).
Definition con_reporte (l : list ref) (s : Simulador) : Simulador :=
  mkSimulador (reloj s) (eventos_del_tick s) (todos_procesos s) (procesos_nuevos s) (cola_listos s)
    (cola_listos_suspendidos s) (proceso_en_ejecucion s) (procesos_terminados s)
    l (particiones s).
Definition con_particiones (l : list Particion) (s : Simulador) : Simulador :=
  mkSimulador (reloj s) (eventos_del_tick s) (todos_procesos s) (procesos_nuevos s) (cola_listos s)
    (cola_listos_suspendidos s) (proceso_en_ejecucion s) (procesos_terminados s)
    (procesos_reporte s) l.

(** The object behind a process reference, and the mutation of one object. *)
Abbreviation proc s r := (todos_procesos s !!! r).
Definition mut (r : ref) (f : Proceso → Proceso) (s : Simulador) : Simulador :=
  con_todos (alter f r (todos_procesos s)) s.

(** The partition object at position [i], and its mutation. *)
Abbreviation part s i := (particiones s !!! i).
Definition mut_part (i : nat) (f : Particion → Particion) (s : Simulador) : Simulador :=
  con_particiones (alter f i (particiones s)) s.

(** [eventos.append(e)]: the local list [eventos] of [tick] and of
    [_guardar_estado_inicial] is stored into [eventos_del_tick] when the
    method returns and nothing reads the attribute in between, so the model
    accumulates the events in the attribute directly. *)
Definition registrar (e : Evento) (s : Simulador) : Simulador :=
  con_eventos (eventos_del_tick s ++ [e]) s.

(** ** Python library functions *)

(** Tuples of integers are compared lexicographically. *)
Definition lex2_ltb (a b : Z * Z) : bool :=
  (a.1 <? b.1) || ((a.1 =? b.1) && (a.2 <? b.2)).
Definition lex2_leb (a b : Z * Z) : bool := negb (lex2_ltb b a).
Definition lex3_ltb (a b : Z * Z * Z) : bool :=
  lex2_ltb a.1 b.1 || (negb (lex2_ltb b.1 a.1) && (a.2 <? b.2)).
Definition lex3_leb (a b : Z * Z * Z) : bool := negb (lex3_ltb b a).

Section PythonLists.
Context {A K : Type} (key : A → K) (leb : K → K → bool).

(** [sorted(l, key=key)]: Python's sort is stable, which determines its
    result; it is the result of this stable insertion sort. *)
Fixpoint insertar (x : A) (l : list A) : list A :=
  match l with
  | [] => [x]
  | y :: l' => if leb (key x) (key y) then x :: l else y :: insertar x l'
  end.
Definition sorted (l : list A) : list A := foldr insertar [] l.

(** [max(l, key=key)] on a non-empty list whose first element is [best]:
    the first element with the largest key. *)
Fixpoint max_desde (best : A) (l : list A) : A :=
  match l with
  | [] => best
  | x :: l' => max_desde (if leb (key x) (key best) then best else x) l'
  end.
Definition py_max (l : list A) : option A :=
  match l with
  | [] => None
  | x :: l' => Some (max_desde x l')
  end.

(** The order of the keys, on the elements. *)
Definition key_le (x y : A) : Prop := leb (key x) (key y) = true.
End PythonLists.

(** [l.remove(x)]: removes the first occurrence, raises when there is none. *)
Fixpoint py_remove (x : ref) (l : list ref) : option (list ref) :=
  match l with
  | [] => None
  | y :: l' => if decide (x = y) then Some l' else (y ::.) <$> py_remove x l'
  end.

(** ** The engine *)

(** [Simulador._cabe_en_alguna_particion] *)
Definition _cabe_en_alguna_particion (s : Simulador) (r : ref) : bool :=
  existsb (λ p, negb (es_so p) && (tamano (proc s r) <=? par_tamano p)) (particiones s).

(** [Particion.fragmentacion_interna] of the partition at position [i] *)
Definition fragmentacion_interna (s : Simulador) (i : nat) : Z :=
  match proceso_asignado (part s i) with
  | Some q => par_tamano (part s i) - tamano (proc s q)
  | None => 0
  end.

(** [Particion.asignar_proceso] on the partition at position [i] *)
Definition asignar_proceso (i : nat) (r : ref) (s : Simulador) : bool * Simulador :=
  if esta_libre (part s i) && (tamano (proc s r) <=? par_tamano (part s i)) then
    (true, mut r (con_id_particion (Some (par_id_particion (part s i))))
             (mut_part i (con_proceso_asignado (Some r)) s))
  else (false, s).

(** [Particion.liberar_particion] on the partition at position [i] *)
Definition liberar_particion (i : nat) (s : Simulador) : Simulador :=
  let s1 := match proceso_asignado (part s i) with
            | Some q => mut q (con_id_particion None) s
            | None => s
            end in
  mut_part i (con_proceso_asignado None) s1.

(** The comparisons of [_encontrar_mejor_particion] against [menor_fi],
    which starts as [float("inf")], here [None]. *)
Definition lt_inf (fi : Z) (m : option Z) : bool :=
  match m with None => true | Some m => fi <? m end.
Definition eq_inf (fi : Z) (m : option Z) : bool :=
  match m with None => false | Some m => fi =? m end.

(** The loop of [Simulador._encontrar_mejor_particion] over the partition
    objects [l], from the current pair ([mejor], [menor_fi]). *)
Fixpoint mejor_particion_desde (s : Simulador) (r : ref) (mejor : option nat)
    (menor_fi : option Z) (l : list nat) : option nat :=
  match l with
  | [] => mejor
  | i :: l' =>
    if esta_libre (part s i) && (tamano (proc s r) <=? par_tamano (part s i)) then
      let fi := par_tamano (part s i) - tamano (proc s r) in
      if lt_inf fi menor_fi
         || (eq_inf fi menor_fi
             && match mejor with
                | None => true
                | Some m => par_tamano (part s i) <? par_tamano (part s m)
                end)
      then mejor_particion_desde s r (Some i) (Some fi) l'
      else mejor_particion_desde s r mejor menor_fi l'
    else mejor_particion_desde s r mejor menor_fi l'
  end.

(** [Simulador._encontrar_mejor_particion] *)
Definition _encontrar_mejor_particion (s : Simulador) (r : ref) (l : list nat) : option nat :=
  mejor_particion_desde s r None None l.

(** [[pp for pp in self.particiones if pp.esta_libre]] *)
Definition libres (s : Simulador) : list nat :=
  filter (λ i, esta_libre (part s i)) (seq 0 (length (particiones s))).

(** [len(self.cola_listos) + (1 if self.proceso_en_ejecucion else 0)] *)
Definition procesos_en_memoria (s : Simulador) : nat :=
  (length (cola_listos s) + length (option_list (proceso_en_ejecucion s)))%nat.

Definition clave_ls (s : Simulador) (r : ref) : Z * Z :=
  (t_restante (proc s r), id_proceso (proc s r)).
Definition clave_srtf (s : Simulador) (r : ref) : Z * Z * Z :=
  (t_restante (proc s r), t_llegada_listo (proc s r), id_proceso (proc s r)).
Definition clave_arribo (s : Simulador) (r : ref) : Z * Z :=
  (t_arribo (proc s r), id_proceso (proc s r)).

(** The loop that fills [victimas_validas] in [_intentar_admision]. *)
Fixpoint victimas_validas (s : Simulador) (c : ref) (l : list ref) : option (list ref) :=
  match l with
  | [] => Some []
  | v :: l' =>
    k ← id_particion (proc s v);
    p ← particiones s !! k;
    resto ← victimas_validas s c l';
    Some (if par_tamano p >=? tamano (proc s c) then v :: resto else resto)
  end.

(** What one iteration of [for candidato in ...] of [_intentar_admision]
    decides: a normal admission of [c] into partition [i], or a swap that
    evicts [v] from partition [i] and loads [c] there. *)
Inductive Cambio :=
| CAdmision (c : ref) (i : nat)
| CSwap (c v : ref) (i : nat).

(** The decision of the loop body for candidate [c]: [Some None] when the
    iteration changes nothing and the loop goes on to the next candidate. *)
Definition decidir (s : Simulador) (c : ref) : option (option Cambio) :=
  if (procesos_en_memoria s <? 3)%nat && negb (bool_decide (libres s = [])) then
    Some (CAdmision c <$> _encontrar_mejor_particion s c (libres s))
  else if (procesos_en_memoria s =? 3)%nat then
    validas ← victimas_validas s c (cola_listos s ++ option_list (proceso_en_ejecucion s));
    match py_max (clave_ls s) lex2_leb validas with
    | None => Some None
    | Some v =>
      if t_restante (proc s c) <? t_restante (proc s v) then
        k ← id_particion (proc s v);
        _ ← particiones s !! k;
        Some (Some (CSwap c v k))
      else Some None
    end
  else Some None.

(** The [for] loop: the first candidate whose iteration ends in [break]. *)
Fixpoint buscar_cambio (s : Simulador) (l : list ref) : option (option Cambio) :=
  match l with
  | [] => Some None
  | c :: l' =>
    d ← decidir s c;
    match d with
    | Some ch => Some (Some ch)
    | None => buscar_cambio s l'
    end
  end.

(** The victim leaves memory: from the CPU or the Ready queue to L/S, and
    its partition is freed. *)
Definition sacar_de_memoria (v : ref) (i : nat) (s : Simulador) : option Simulador :=
  s ← (if bool_decide (Some v = proceso_en_ejecucion s)
       then Some (con_ejecucion None s)
       else l ← py_remove v (cola_listos s); Some (con_listos l s));
  let s := mut v (con_estado LS) s in
  let s := mut v (con_id_particion None) s in
  let s := liberar_particion i s in
  Some (con_suspendidos (cola_listos_suspendidos s ++ [v]) s).

(** The candidate leaves L/S, takes partition [i] and becomes Ready. *)
Definition entrar_a_memoria (i : nat) (c : ref) (s : Simulador) : option Simulador :=
  ls ← py_remove c (cola_listos_suspendidos s);
  let s := con_suspendidos ls s in
  let s := (asignar_proceso i c s).2 in
  let s := mut c (con_estado LISTO) s in
  let s := mut c (con_t_llegada_listo (reloj s)) s in
  Some (con_listos (cola_listos s ++ [c]) s).

(** The two branches that end in [break]. *)
Definition aplicar (ch : Cambio) (s : Simulador) : option Simulador :=
  match ch with
  | CAdmision c i =>
    s ← entrar_a_memoria i c s;
    Some (registrar (EvAdmision (id_proceso (proc s c)) (tamano (proc s c))
                       (par_id_particion (part s i)) (par_tamano (part s i))
                       (fragmentacion_interna s i)) s)
  | CSwap c v i =>
    s ← sacar_de_memoria v i s;
    s ← entrar_a_memoria i c s;
    Some (registrar (EvSwap (id_proceso (proc s v)) (t_restante (proc s v))
                       (id_proceso (proc s c)) (t_restante (proc s c))
                       (par_id_particion (part s i))) s)
  end.

(** The sort of the L/S queue at the start of an iteration of [while True]. *)
Definition ordenar_suspendidos (s : Simulador) : Simulador :=
  con_suspendidos (sorted (clave_ls s) lex2_leb (cola_listos_suspendidos s)) s.

(** What the [for] loop of one iteration of [while True] decides. *)
Definition cambio_pasada (s : Simulador) : option (option Cambio) :=
  let s := ordenar_suspendidos s in
  buscar_cambio s (cola_listos_suspendidos s).

(** One iteration of [while True]: the state after it and [hubo_cambio]. *)
Definition pasada (s : Simulador) : option (Simulador * bool) :=
  d ← cambio_pasada s;
  match d with
  | Some ch => s' ← aplicar ch (ordenar_suspendidos s); Some (s', true)
  | None => Some (ordenar_suspendidos s, false)
  end.

(** [while True] with a bound [n] on the number of iterations. *)
Fixpoint bucle_admision (n : nat) (s : Simulador) : option Simulador :=
  match n with
  | O => None
  | S n' =>
    '(s', cambio) ← pasada s;
    if cambio : bool then bucle_admision n' s' else Some s'
  end.

(** A bound on the number of iterations that change the state, computed
    from the state; [bucle_admision_cota] shows that it is never reached. *)
Definition residentes (s : Simulador) : list ref :=
  cola_listos s ++ option_list (proceso_en_ejecucion s).
Definition en_sistema (s : Simulador) : list ref :=
  cola_listos_suspendidos s ++ residentes s.
Definition rango (s : Simulador) (r : ref) : nat :=
  length (filter (λ q, t_restante (proc s q) < t_restante (proc s r)) (en_sistema s)).
Definition medida (s : Simulador) : nat :=
  ((3 - procesos_en_memoria s) * (length (en_sistema s) + 1)
   + sum_list_with (rango s) (residentes s))%nat.

(** [Simulador._intentar_admision] *)
Definition _intentar_admision (s : Simulador) : option Simulador :=
  bucle_admision (S (medida s)) s.

(** [Simulador._encontrar_proceso_srtf]: sorts [cola_listos] in place and
    returns its head, or returns [None] at once when the queue is empty. *)
Definition _encontrar_proceso_srtf (s : Simulador) : option ref * Simulador :=
  match cola_listos s with
  | [] => (None, s)
  | _ :: _ =>
    let s := con_listos (sorted (clave_srtf s) lex3_leb (cola_listos s)) s in
    (head (cola_listos s), s)
  end.

(** The dispatch of [r]: state [EJECUCION] and the first-run time when it
    is still unset. *)
Definition entrar_cpu (r : ref) (s : Simulador) : Simulador :=
  let s := mut r (con_estado EJECUCION) s in
  if t_primera_ejecucion (proc s r) =? -1
  then mut r (con_t_primera_ejecucion (reloj s)) s
  else s.

(** [Simulador._ejecutar_planificador]; [popleft] of an empty deque raises. *)
Definition _ejecutar_planificador (s : Simulador) : option Simulador :=
  let '(corto, s) := _encontrar_proceso_srtf s in
  match proceso_en_ejecucion s with
  | None =>
    match corto with
    | Some _ =>
      match cola_listos s with
      | r :: l =>
        let s := con_ejecucion (Some r) (con_listos l s) in
        let s := entrar_cpu r s in
        Some (registrar (EvInicia (id_proceso (proc s r)) (t_restante (proc s r))) s)
      | [] => None
      end
    | None => Some s
    end
  | Some run =>
    match corto with
    | Some c =>
      if (t_restante (proc s c) <? t_restante (proc s run))
         || ((t_restante (proc s c) =? t_restante (proc s run))
             && (t_llegada_listo (proc s c) <? t_llegada_listo (proc s run)))
      then
        let s := mut run (con_estado LISTO) s in
        let s := mut run (con_t_llegada_listo (reloj s)) s in
        let s := con_listos (cola_listos s ++ [run]) s in
        let s := con_listos (sorted (clave_srtf s) lex3_leb (cola_listos s)) s in
        match cola_listos s with
        | ent :: l =>
          let s := con_listos l s in
          let s := entrar_cpu ent s in
          let s := con_ejecucion (Some ent) s in
          Some (registrar (EvDesalojo (id_proceso (proc s run)) (id_proceso (proc s ent))
                             (t_restante (proc s ent))) s)
        | [] => None
        end
      else Some s
    | None => Some s
    end
  end.

(** Step 1 of [tick]: one unit of CPU service and the termination of the
    running process. *)
Definition servicio_cpu (s : Simulador) : option Simulador :=
  match proceso_en_ejecucion s with
  | Some cur =>
    let s := mut cur (λ p, con_t_restante (t_restante p - 1) p) s in
    if t_restante (proc s cur) =? 0 then
      let s := mut cur (con_estado TERMINADO) s in
      let s := mut cur (con_t_fin (reloj s + 1)) s in
      let s := con_terminados (procesos_terminados s ++ [cur]) s in
      let s := con_ejecucion None s in
      k ← id_particion (proc s cur);
      _ ← particiones s !! k;
      let s := liberar_particion k s in
      Some (registrar (EvTermina (id_proceso (proc s cur)) (par_id_particion (part s k))
                         (par_tamano (part s k))) s)
    else Some s
  | None => Some s
  end.

(** [while nuevos and cond(nuevos[0]) and gdm_actual < 5: popleft ...]: the
    processes taken, the queue left and the final [gdm_actual]. *)
Fixpoint popleft_gdm (cond : ref → bool) (gdm : nat) (l : list ref)
    : list ref * list ref * nat :=
  match l with
  | [] => ([], [], gdm)
  | p :: l' =>
    if cond p && (gdm <? 5)%nat then
      let '(t, r, g) := popleft_gdm cond (S gdm) l' in (p :: t, r, g)
    else ([], l, gdm)
  end.

(** [while nuevos and cond(nuevos[0]): popleft ...] *)
Fixpoint popleft_mientras (cond : ref → bool) (l : list ref) : list ref * list ref :=
  match l with
  | [] => ([], [])
  | p :: l' =>
    if cond p then let '(t, r) := popleft_mientras cond l' in (p :: t, r)
    else ([], l)
  end.

(** [p.estado = "L/S"; self.cola_listos_suspendidos.append(p)] *)
Definition a_suspendidos (s : Simulador) (p : ref) : Simulador :=
  let s := mut p (con_estado LS) s in
  con_suspendidos (cola_listos_suspendidos s ++ [p]) s.

Definition ids (s : Simulador) (l : list ref) : list Z := (λ r, id_proceso (proc s r)) <$> l.

(** [len(cola_listos) + len(cola_listos_suspendidos) + (1 if proceso_en_ejecucion else 0)] *)
Definition gdm_actual (s : Simulador) : nat :=
  (length (cola_listos s) + length (cola_listos_suspendidos s)
   + length (option_list (proceso_en_ejecucion s)))%nat.

(** Step 2 of [tick]: arrivals into the system under the limit of 5. *)
Definition arribos (s : Simulador) : Simulador :=
  let gdm := gdm_actual s in
  let recien_arriban_ids :=
    ids s (filter (λ r, t_arribo (proc s r) = reloj s) (procesos_nuevos s)) in
  let '(a1, n1, gdm1) :=
    popleft_gdm (λ r, t_arribo (proc s r) =? reloj s) gdm (procesos_nuevos s) in
  let movidos_ids := ids s a1 in
  let rechazados_ids := filter (λ pid, pid ∉ movidos_ids) recien_arriban_ids in
  let s := con_nuevos n1 s in
  let s := if bool_decide (a1 = []) then s else registrar (EvArribanSistema movidos_ids) s in
  let s := if bool_decide (rechazados_ids = []) then s
           else registrar (EvGDMLleno rechazados_ids) s in
  let '(a2, n2, _) :=
    popleft_gdm (λ r, t_arribo (proc s r) <? reloj s) gdm1 (procesos_nuevos s) in
  let s := con_nuevos n2 s in
  foldl a_suspendidos s (a1 ++ a2).

(** [Simulador.tick] *)
Definition tick (s : Simulador) : option Simulador :=
  let s := con_eventos [] s in
  s ← servicio_cpu s;
  let s := arribos s in
  s ← _intentar_admision s;
  _ejecutar_planificador s.

(** [App.siguiente_tick] (gui.py), the only caller of [tick]: it advances
    the clock and then runs the engine's step. *)
Definition siguiente_tick (s : Simulador) : option Simulador :=
  let s := if reloj s =? 0 then con_reloj 1 s else con_reloj (reloj s + 1) s in
  tick s.

(** The reset of the dynamic fields in [_preparar_colas]. *)
Definition reiniciar (p : Proceso) : Proceso :=
  mkProceso (id_proceso p) (tamano p) (t_arribo p) (t_irrupcion p)
            NUEVO (t_irrupcion p) None (-1) (-1) (-1).

(** [Simulador._preparar_colas] *)
Definition _preparar_colas (s : Simulador) : Simulador :=
  let candidatos := sorted (clave_arribo s) lex2_leb (seq 0 (length (todos_procesos s))) in
  let seleccion := take 10 candidatos in
  let s := foldl (λ s p, mut p reiniciar s) s seleccion in
  con_reporte seleccion (con_nuevos seleccion s).

(** The loop over [arribados] in [_guardar_estado_inicial]: both branches
    move the process to L/S, the first one also records an event. *)
Definition arribo_inicial (s : Simulador) (p : ref) : Simulador :=
  if negb (_cabe_en_alguna_particion s p) then
    let s := a_suspendidos s p in
    registrar (EvNoCabe (id_proceso (proc s p)) (tamano (proc s p))) s
  else a_suspendidos s p.

(** [Simulador._guardar_estado_inicial] *)
Definition _guardar_estado_inicial (s : Simulador) : option Simulador :=
  let '(arribados, n) :=
    popleft_mientras (λ r, t_arribo (proc s r) =? 0) (procesos_nuevos s) in
  let s := con_nuevos n s in
  let s := if bool_decide (arribados = []) then s else registrar (EvArriban (ids s arribados)) s in
  let s := foldl arribo_inicial s arribados in
  s ← _intentar_admision s;
  _ejecutar_planificador s.

Definition particiones_iniciales : list Particion :=
  [ mkParticion 0 100 true 0 None;
    mkParticion 1 250 false 100 None;
    mkParticion 2 150 false 350 None;
    mkParticion 3 50 false 500 None ].

(** [Simulador.__init__] on a list of distinct objects: the object at
    position [i] of [procesos] is the object [i] of the arena. *)
Definition Simulador_init (procesos : list Proceso) : option Simulador :=
  let s := mkSimulador 0 [] procesos [] [] [] None [] [] particiones_iniciales in
  _guardar_estado_inicial (_preparar_colas s).

(** [Simulador.is_running] *)
Definition is_running (s : Simulador) : bool :=
  if bool_decide (is_Some (proceso_en_ejecucion s)) then true
  else if negb (bool_decide (cola_listos s = [])) then true
  else
    let max_part :=
      foldr Z.max 0 (par_tamano <$> filter (λ p, negb (es_so p)) (particiones s)) in
    if max_part =? 0 then false
    else if existsb (λ r, tamano (proc s r) <=? max_part) (cola_listos_suspendidos s) then true
    else existsb (λ r, tamano (proc s r) <=? max_part) (procesos_nuevos s).

(** ** Snapshot and final report *)

Inductive Contenido := SistemaOperativo | Ocupada (id tam : Z) | SinProceso.
Inductive EstadoParticion := FI (kb : Z) | EspacioLibre.

Record InfoParticion := mkInfoParticion {
  info_id : nat;
  info_base : Z;
  info_tamano : Z;
  info_contenido : Contenido;
  info_estado : EstadoParticion
}.

(** [get_info_particion] of [get_datos_gui], for the partition at position [i] *)
Definition get_info_particion (s : Simulador) (i : nat) : InfoParticion :=
  let p := part s i in
  let '(contenido, est) :=
    if es_so p then (SistemaOperativo, FI 0)
    else match proceso_asignado p with
         | Some pr => (Ocupada (id_proceso (proc s pr)) (tamano (proc s pr)),
                       FI (fragmentacion_interna s i))
         | None => (SinProceso, EspacioLibre)
         end in
  mkInfoParticion (par_id_particion p) (base p) (par_tamano p) contenido est.

(** [Simulador.get_datos_gui] without [tabla_procesos], whose progress
    column is a floating-point percentage. *)
Record DatosGui := mkDatosGui {
  gui_reloj : Z;
  gui_eventos : list Evento;
  gui_ejecutando : option (Z * Z);
  gui_listos : list Z;
  gui_listos_suspendidos : list Z;
  gui_nuevos : list Z;
  gui_terminados : list Z;
  gui_particiones : list InfoParticion
}.

Definition get_datos_gui (s : Simulador) : DatosGui :=
  mkDatosGui (reloj s) (eventos_del_tick s)
    ((λ run, (id_proceso (proc s run), t_restante (proc s run))) <$> proceso_en_ejecucion s)
    (ids s (cola_listos s)) (ids s (cola_listos_suspendidos s))
    (ids s (procesos_nuevos s)) (ids s (procesos_terminados s))
    (get_info_particion s <$> seq 0 (length (particiones s))).

(** The quotient [a / b] of two integers as Python's true division gives
    it, kept as the exact fraction.  [None] is an exception:
    [ZeroDivisionError] when [b] is zero, and [OverflowError] when the
    quotient, rounded to the nearest float, is beyond the largest float
    [2^1024 - 2^971], that is when [|a| / |b| >= 2^1024 - 2^970]. *)
Record Cociente := mkCociente { numerador : Z; denominador : Z }.
Definition limite_float : Z := 2 ^ 1024 - 2 ^ 970.
Definition desborda (a b : Z) : bool := limite_float * Z.abs b <=? Z.abs a.
Definition dividir (a b : Z) : option Cociente :=
  if b =? 0 then None
  else if desborda a b then None
  else Some (mkCociente a b).

(** A formatted number: the literal ["0.000"], or a quotient printed with a
    number of decimals ([f"{q:.2f}"], [f"{q:.3f}"]). *)
Inductive Texto := Cero3 | Formato (q : Cociente) (decimales : nat).

Inductive Fila :=
| FilaMetricas (pid arribo primera_cpu fin servicio espera respuesta retorno : Z)
| FilaNoAdmitido (pid arribo servicio tam : Z).

Record Promedios := mkPromedios {
  prom_espera : Texto;
  prom_respuesta : Texto;
  prom_retorno : Texto
}.

Record Reporte := mkReporte {
  rep_procesos : list Fila;
  rep_promedios : option Promedios;
  rep_throughput : Texto;
  rep_procesos_contados : Z;
  rep_tiempo_final : Z
}.

Record Acumulado := mkAcumulado {
  ac_filas : list Fila;
  ac_retorno : Z;
  ac_espera : Z;
  ac_respuesta : Z;
  ac_contados : Z
}.

(** The body of [for p in self.procesos_reporte] in [get_reporte_final]. *)
Definition acumular (s : Simulador) (a : Acumulado) (r : ref) : Acumulado :=
  let p := proc s r in
  if negb (t_fin p =? -1) then
    let T := t_fin p - t_arribo p in
    let W := T - t_irrupcion p in
    let R := t_primera_ejecucion p - t_arribo p in
    mkAcumulado
      (ac_filas a ++ [FilaMetricas (id_proceso p) (t_arribo p) (t_primera_ejecucion p)
                        (t_fin p) (t_irrupcion p) W R T])
      (ac_retorno a + T) (ac_espera a + W) (ac_respuesta a + R) (ac_contados a + 1)
  else if bool_decide (estado p = LS) && negb (_cabe_en_alguna_particion s r) then
    mkAcumulado
      (ac_filas a ++ [FilaNoAdmitido (id_proceso p) (t_arribo p) (t_irrupcion p) (tamano p)])
      (ac_retorno a) (ac_espera a) (ac_respuesta a) (ac_contados a)
  else a.

(** [Simulador.get_reporte_final]: the report and the state, whose
    [procesos_reporte] the method sorts in place. *)
Definition get_reporte_final (s : Simulador) : option (Reporte * Simulador) :=
  let s := con_reporte (sorted (λ r, id_proceso (proc s r)) Z.leb (procesos_reporte s)) s in
  let a := foldl (acumular s) (mkAcumulado [] 0 0 0 0) (procesos_reporte s) in
  promedios ←
    (if ac_contados a >? 0 then
       e ← dividir (ac_espera a) (ac_contados a);
       r ← dividir (ac_respuesta a) (ac_contados a);
       t ← dividir (ac_retorno a) (ac_contados a);
       Some (Some (mkPromedios (Formato e 2) (Formato r 2) (Formato t 2)))
     else Some None);
  throughput ←
    (if reloj s >? 0 then
       q ← dividir (ac_contados a) (reloj s); Some (Formato q 3)
     else Some Cero3);
  Some (mkReporte (ac_filas a) promedios throughput (ac_contados a) (reloj s), s).

(** ** The console engine (simulador.py) *)

(** [Simulador._preparar_colas] of simulador.py: as the GUI engine's, after
    keeping only the processes whose id lies in 1..10. *)
Definition consola_preparar_colas (s : Simulador) : Simulador :=
  let candidatos :=
    filter (λ r, 1 ≤ id_proceso (proc s r) ∧ id_proceso (proc s r) ≤ 10)
           (seq 0 (length (todos_procesos s))) in
  let candidatos := sorted (clave_arribo s) lex2_leb candidatos in
  let seleccion := take 10 candidatos in
  let s := foldl (λ s p, mut p reiniciar s) s seleccion in
  con_reporte seleccion (con_nuevos seleccion s).

(** The state of the console engine after its [__init__]. *)
Definition consola_init (procesos : list Proceso) : Simulador :=
  mkSimulador 0 [] procesos [] [] [] None [] [] particiones_iniciales.

(** ** Reachable states and their invariant *)

(** The states the GUI can observe: the constructor's result, followed by
    any number of Tick presses, with the final report requested at any
    point in between (it reorders [procesos_reporte]). *)
Inductive alcanzable (procesos : list Proceso) : Simulador → Prop :=
| alc_init s :
    Simulador_init procesos = Some s → alcanzable procesos s
| alc_tick s s' :
    alcanzable procesos s → siguiente_tick s = Some s' → alcanzable procesos s'
| alc_reporte s rep s' :
    alcanzable procesos s → get_reporte_final s = Some (rep, s') → alcanzable procesos s'.

(** The five populations, in life-cycle order. *)
Definition colas (s : Simulador) : list ref :=
  procesos_nuevos s ++ cola_listos_suspendidos s ++ cola_listos s
  ++ option_list (proceso_en_ejecucion s) ++ procesos_terminados s.

(** The immutable part of a process. *)
Definition datos (p : Proceso) : Z * Z * Z * Z :=
  (id_proceso p, tamano p, t_arribo p, t_irrupcion p).

(** Partition [i] is free and large enough for process [r]. *)
Definition cabe_libre (s : Simulador) (r : ref) (i : nat) : Prop :=
  esta_libre (part s i) = true ∧ tamano (proc s r) ≤ par_tamano (part s i).

(** A state with the two processes of the reference scenario waiting in L/S. *)
Definition ejemplo_admision : Simulador :=
  mkSimulador 0 [] [Proceso_init 1 120 0 5; Proceso_init 2 40 0 3]
    [] [] [0%nat; 1%nat] None [] [0%nat; 1%nat] particiones_iniciales.

(** A state with three residents and a shorter process arriving at tick 1. *)
Definition ejemplo_swap : Simulador :=
  default ejemplo_admision
    (s ← Simulador_init [Proceso_init 1 100 0 10; Proceso_init 2 100 0 8;
                          Proceso_init 3 40 0 6; Proceso_init 4 40 1 2];
     s ← servicio_cpu (con_eventos [] (con_reloj 1 s));
     Some (arribos s)).

(** No Ready process should be running instead of the Running one. *)
Definition srtf_respetado (s : Simulador) : Prop :=
  ∀ run p, proceso_en_ejecucion s = Some run → p ∈ cola_listos s →
    ¬ t_restante (proc s p) < t_restante (proc s run) ∧
    ¬ (t_restante (proc s p) = t_restante (proc s run) ∧
       t_llegada_listo (proc s p) < t_llegada_listo (proc s run)).

(** The reference scenario: P1(size 120, arrival 0, burst 5) and
    P2(size 40, arrival 0, burst 3). *)
Definition procesos_escenario : list Proceso :=
  [Proceso_init 1 120 0 5; Proceso_init 2 40 0 3].

(** The preemption test of [_ejecutar_planificador]. *)
Definition desaloja (s : Simulador) (c run : ref) : bool :=
  (t_restante (proc s c) <? t_restante (proc s run))
  || ((t_restante (proc s c) =? t_restante (proc s run))
      && (t_llegada_listo (proc s c) <? t_llegada_listo (proc s run))).

(** The preempted process goes back to Ready with a fresh [t_llegada_listo]. *)
Definition a_listo (run : ref) (s : Simulador) : Simulador :=
  mut run (con_t_llegada_listo (reloj s)) (mut run (con_estado LISTO) s).

(** Where a row of the final report comes from: a numeric row from a
    process of the cohort whose [t_fin] is set, a "No admitido" row from a
    process in L/S with [t_fin] unset that fits no user partition. *)
Definition fila_justificada (s : Simulador) (f : Fila) : Prop :=
  match f with
  | FilaMetricas pid arribo primera fin servicio espera respuesta retorno =>
    ∃ r, r ∈ procesos_reporte s ∧ t_fin (proc s r) ≠ -1 ∧
         pid = id_proceso (proc s r) ∧ arribo = t_arribo (proc s r) ∧
         primera = t_primera_ejecucion (proc s r) ∧ fin = t_fin (proc s r) ∧
         servicio = t_irrupcion (proc s r) ∧
         retorno = t_fin (proc s r) - t_arribo (proc s r) ∧
         espera = retorno - t_irrupcion (proc s r) ∧
         respuesta = t_primera_ejecucion (proc s r) - t_arribo (proc s r)
  | FilaNoAdmitido pid arribo servicio tam =>
    ∃ r, r ∈ procesos_reporte s ∧ t_fin (proc s r) = -1 ∧
         estado (proc s r) = LS ∧ _cabe_en_alguna_particion s r = false ∧
         pid = id_proceso (proc s r) ∧ arribo = t_arribo (proc s r) ∧
         servicio = t_irrupcion (proc s r) ∧ tam = tamano (proc s r)
  end.

(** The denominator of a formatted quotient is not zero. *)
Definition texto_definido (t : Texto) : Prop :=
  match t with
  | Cero3 => True
  | Formato q _ => denominador q ≠ 0
  end.

(** The order of the cohort selection, on the supplied definitions:
    ascending (arrival time, id). *)
Definition antes_por_arribo (procesos : list Proceso) (a b : ref) : Prop :=
  t_arribo (procesos !!! a) < t_arribo (procesos !!! b)
  ∨ (t_arribo (procesos !!! a) = t_arribo (procesos !!! b)
     ∧ id_proceso (procesos !!! a) ≤ id_proceso (procesos !!! b)).

(** A process as [_preparar_colas] leaves it: New, nothing served, no
    partition, no times recorded, and the supplied definition [p]. *)
Definition recien_preparado (p q : Proceso) : Prop :=
  datos q = datos p ∧ estado q = NUEVO ∧ t_restante q = t_irrupcion p ∧
  id_particion q = None ∧ t_fin q = -1 ∧ t_primera_ejecucion q = -1 ∧
  t_llegada_listo q = -1.

(** The engine before [_preparar_colas]. *)
Definition estado_vacio (procesos : list Proceso) : Simulador :=
  mkSimulador 0 [] procesos [] [] [] None [] [] particiones_iniciales.

(** The cohort that [_preparar_colas] selects from the supplied objects. *)
Definition cohorte (procesos : list Proceso) : list ref :=
  take 10 (sorted (clave_arribo (estado_vacio procesos)) lex2_leb
             (seq 0 (length procesos))).

(** The immutable part of a partition. *)
Definition forma (p : Particion) : nat * Z * bool * Z :=
  (par_id_particion p, par_tamano p, es_so p, base p).

(** The resident [r] and its partition refer to each other, and the
    partition is a user partition. *)
Definition bien_alojado (s : Simulador) (r : ref) : Prop :=
  ∃ k, id_particion (proc s r) = Some k ∧ (k < length (particiones s))%nat ∧
       proceso_asignado (part s k) = Some r ∧ es_so (part s k) = false.

(** The invariant of the observable states of an engine built from
    [procesos]. *)
Record inv (procesos : list Proceso) (s : Simulador) : Prop := mkInv {
  inv_nodup : NoDup (colas s);
  inv_reporte : colas s ≡ₚ procesos_reporte s;
  inv_cohorte : procesos_reporte s ≡ₚ cohorte procesos;
  inv_datos : datos <$> todos_procesos s = datos <$> procesos;
  inv_forma : forma <$> particiones s = forma <$> particiones_iniciales;
  inv_residentes : ∀ r, r ∈ residentes s → bien_alojado s r;
  inv_tfin : ∀ r, r ∈ procesos_nuevos s ++ en_sistema s → t_fin (proc s r) = -1;
  inv_ls : ∀ r, r ∈ cola_listos_suspendidos s → estado (proc s r) = LS
}.

(** The fields of a process that the admission loop never writes. *)
Definition campo_fijo {B} (g : Proceso → B) : Prop :=
  (∀ e p, g (con_estado e p) = g p) ∧
  (∀ k p, g (con_id_particion k p) = g p) ∧
  (∀ t p, g (con_t_llegada_listo t p) = g p).

(** What the admission loop and the scheduler leave alone: they only move
    processes between L/S, Ready and the CPU, and never touch the
    definitions, the remaining times nor the finish times. *)
Definition mismo_sistema (s s' : Simulador) : Prop :=
  procesos_nuevos s' = procesos_nuevos s ∧
  procesos_terminados s' = procesos_terminados s ∧
  procesos_reporte s' = procesos_reporte s ∧
  reloj s' = reloj s ∧
  en_sistema s' ≡ₚ en_sistema s ∧
  datos <$> todos_procesos s' = datos <$> todos_procesos s ∧
  (∀ q, t_restante (proc s' q) = t_restante (proc s q)) ∧
  (∀ q, t_fin (proc s' q) = t_fin (proc s q)).

(** One unit of CPU service for [cur]. *)
Definition servir (cur : ref) (s : Simulador) : Simulador :=
  mut cur (λ p, con_t_restante (t_restante p - 1) p) s.

(** The termination of [cur], before its partition is freed. *)
Definition terminar (cur : ref) (s : Simulador) : Simulador :=
  con_ejecucion None
    (con_terminados (procesos_terminados s ++ [cur])
       (mut cur (con_t_fin (reloj s + 1)) (mut cur (con_estado TERMINADO) s))).

(** The length of the longest prefix of [l] whose elements satisfy [cond]. *)
Fixpoint cuenta_prefijo (cond : ref → bool) (l : list ref) : nat :=
  match l with
  | [] => 0
  | x :: l' => if cond x then S (cuenta_prefijo cond l') else 0
  end.

(** How many processes the two arrival loops of [tick] take from New. *)
Definition arribos_tomados (s : Simulador) : nat :=
  let k1 := ((5 - gdm_actual s) `min`
             cuenta_prefijo (λ r, (t_arribo (proc s r) =? reloj s)%Z) (procesos_nuevos s))%nat in
  let k2 := ((5 - (gdm_actual s + k1)) `min`
             cuenta_prefijo (λ r, (t_arribo (proc s r) <? reloj s)%Z)
               (drop k1 (procesos_nuevos s)))%nat in
  (k1 + k2)%nat.

(** Two states that differ at most in their event list. *)
Definition salvo_eventos (s s' : Simulador) : Prop :=
  con_eventos [] s = con_eventos [] s'.

(** The state of [_guardar_estado_inicial] once the arrivals of tick 0 are
    in L/S, before admission and dispatch. *)
Definition arribados_iniciales (s : Simulador) : Simulador :=
  let '(arribados, n) :=
    popleft_mientras (λ r, t_arribo (proc s r) =? 0) (procesos_nuevos s) in
  let s := con_nuevos n s in
  let s := if bool_decide (arribados = []) then s else registrar (EvArriban (ids s arribados)) s in
  foldl arribo_inicial s arribados.

(** Six small processes that all arrive at tick 0. *)
Definition seis_procesos : list Proceso :=
  (λ i, Proceso_init i 10 0 5) <$> [1; 2; 3; 4; 5; 6].

(** One definition whose id is outside 1..10. *)
Definition proceso_once : list Proceso := [Proceso_init 11 10 0 1].

(** The positions of the definitions that the console engine keeps: those
    whose id lies in 1..10. *)
Definition ids_validos (procesos : list Proceso) : list ref :=
  filter (λ r, 1 ≤ id_proceso (procesos !!! r) ∧ id_proceso (procesos !!! r) ≤ 10)
         (seq 0 (length procesos)).

(** What a selection step leaves in the state [s]: the queue New holds the
    first ten of [candidatos] in ascending (arrival time, id) order, the
    report list is the same, every other queue is empty, the selected
    processes are reset and the others are untouched. *)
Definition seleccion_de (procesos : list Proceso) (candidatos : list ref)
    (s : Simulador) : Prop :=
  (∃ resto, procesos_nuevos s ++ resto ≡ₚ candidatos ∧
            StronglySorted (antes_por_arribo procesos) (procesos_nuevos s ++ resto)) ∧
  length (procesos_nuevos s) = (10 `min` length candidatos)%nat ∧
  procesos_reporte s = procesos_nuevos s ∧
  cola_listos_suspendidos s = [] ∧ cola_listos s = [] ∧
  proceso_en_ejecucion s = None ∧ procesos_terminados s = [] ∧
  (∀ r, r ∈ procesos_nuevos s → recien_preparado (procesos !!! r) (proc s r)) ∧
  (∀ r, r ∉ procesos_nuevos s → proc s r = procesos !!! r).

(** The clock update of [App.siguiente_tick]. *)
Definition avanzar_reloj (s : Simulador) : Simulador :=
  if reloj s =? 0 then con_reloj 1 s else con_reloj (reloj s + 1) s.

(** The state on which the arrival step of the tick after [s] works: the
    clock advanced, the events cleared and the CPU served. *)
Definition antes_de_arribos (s : Simulador) : option Simulador :=
  servicio_cpu (con_eventos [] (avanzar_reloj s)).

(** The processes of New that are due: [t_arribo <= reloj]. *)
Definition vencidos (s : Simulador) : list ref :=
  filter (λ r, t_arribo (proc s r) ≤ reloj s) (procesos_nuevos s).

(** The supplied definitions pass the loader's validation of arrival times. *)
Definition arribos_validos (procesos : list Proceso) : Prop :=
  ∀ p, p ∈ procesos → 0 ≤ t_arribo p.

(** What the observable states guarantee to the arrival step of the next
    tick: New is a suffix of the cohort, and a due process is left in New
    only when the system is full. *)
Record inv_arribo (procesos : list Proceso) (s : Simulador) : Prop := mkInvArribo {
  arr_reloj : 0 ≤ reloj s;
  arr_nuevos : ∃ n, procesos_nuevos s = drop n (cohorte procesos);
  arr_lleno : (5 ≤ gdm_actual s)%nat ∨
              ∀ r, r ∈ procesos_nuevos s → reloj s < t_arribo (procesos !!! r)
}.


(** Four processes that arrive at tick 0 and three that arrive at tick 1. *)
Definition procesos_rafaga : list Proceso :=
  [Proceso_init 1 10 0 5; Proceso_init 2 10 0 5; Proceso_init 3 10 0 5;
   Proceso_init 4 10 0 5; Proceso_init 5 10 1 5; Proceso_init 6 10 1 5;
   Proceso_init 7 10 1 5].

(** The engine built from [procesos_rafaga], and its state before the
    arrival step of tick 1. *)
Definition ejemplo_rafaga : Simulador :=
  default ejemplo_admision (Simulador_init procesos_rafaga).
Definition ejemplo_rafaga_1 : Simulador :=
  default ejemplo_admision (antes_de_arribos ejemplo_rafaga).

(** The state [s] with the process [r] taken out of the L/S queue. *)
Definition sin_suspendido (r : ref) (s : Simulador) : Simulador :=
  con_suspendidos (filter (λ q, q ≠ r) (cola_listos_suspendidos s)) s.

(** The rows that the loop body of [get_reporte_final] adds for [r]. *)
Definition filas_de (s : Simulador) (r : ref) : list Fila :=
  ac_filas (acumular s (mkAcumulado [] 0 0 0 0) r).


(** One observable step of the GUI: a Tick, or a request of the final
    report. *)
Definition paso (s s' : Simulador) : Prop :=
  siguiente_tick s = Some s' ∨ ∃ rep, get_reporte_final s = Some (rep, s').

(** Five processes larger than every partition that arrive at tick 0, and
    a small one that arrives at tick 1. *)
Definition procesos_bloqueo : list Proceso :=
  [Proceso_init 1 300 0 4; Proceso_init 2 300 0 4; Proceso_init 3 300 0 4;
   Proceso_init 4 300 0 4; Proceso_init 5 300 0 4; Proceso_init 6 10 1 1].

(** The engine built from [procesos_bloqueo]. *)
Definition ejemplo_bloqueo : Simulador :=
  default ejemplo_admision (Simulador_init procesos_bloqueo).

(** The supplied definitions pass the loader's validation of bursts. *)
Definition irrupciones_validas (procesos : list Proceso) : Prop :=
  ∀ p, p ∈ procesos → 1 ≤ t_irrupcion p.

(** The fields of a process that the accounting of time is about. *)
Definition tiempos (p : Proceso) : Z * Z * Z * Z * Z :=
  (t_restante p, t_primera_ejecucion p, t_fin p, t_arribo p, t_irrupcion p).

(** A process that has been in the system since its arrival: it has
    arrived, it still needs CPU, and either it has never run, or the CPU
    time it has received fits between its first dispatch and now. *)
Definition en_curso (s : Simulador) (r : ref) : Prop :=
  1 ≤ t_restante (proc s r) ∧ t_arribo (proc s r) ≤ reloj s ∧
  ((t_primera_ejecucion (proc s r) = -1 ∧
    t_restante (proc s r) = t_irrupcion (proc s r)) ∨
   (0 ≤ t_primera_ejecucion (proc s r) ∧
    t_arribo (proc s r) ≤ t_primera_ejecucion (proc s r) ≤ reloj s ∧
    t_restante (proc s r) ≤ t_irrupcion (proc s r) ∧
    t_irrupcion (proc s r) - t_restante (proc s r)
    ≤ reloj s - t_primera_ejecucion (proc s r))).

(** A terminated process: nothing is left to serve, and its first dispatch,
    its burst and one more tick fit before its finish time. *)
Definition concluido (s : Simulador) (r : ref) : Prop :=
  t_restante (proc s r) = 0 ∧
  0 ≤ t_primera_ejecucion (proc s r) ∧
  t_arribo (proc s r) ≤ t_primera_ejecucion (proc s r) ∧
  t_primera_ejecucion (proc s r) + t_irrupcion (proc s r) + 1 ≤ t_fin (proc s r) ∧
  t_fin (proc s r) ≤ reloj s + 1.

(** The accounting of time in the observable states. *)
Record inv_tiempo (s : Simulador) : Prop := mkInvTiempo {
  tie_reloj : 0 ≤ reloj s;
  tie_nuevos : ∀ r, r ∈ procesos_nuevos s →
    t_restante (proc s r) = t_irrupcion (proc s r) ∧
    t_primera_ejecucion (proc s r) = -1 ∧ 1 ≤ t_irrupcion (proc s r);
  tie_sistema : ∀ r, r ∈ en_sistema s → en_curso s r;
  tie_run : ∀ r, proceso_en_ejecucion s = Some r →
    t_primera_ejecucion (proc s r) ≠ -1;
  tie_terminados : ∀ r, r ∈ procesos_terminados s → concluido s r
}.

(** The memory picture of the observable states: a partition holds a
    process exactly when that process is Ready or Running and points back
    to the partition, the process fits, processes outside memory hold no
    partition, and the [estado] field names the queue of the process. *)
Record inv_memoria (s : Simulador) : Prop := mkInvMemoria {
  mem_ocupada : ∀ k r, (k < length (particiones s))%nat →
    proceso_asignado (part s k) = Some r →
    r ∈ residentes s ∧ id_particion (proc s r) = Some k;
  mem_cabe : ∀ r k, r ∈ residentes s → id_particion (proc s r) = Some k →
    tamano (proc s r) ≤ par_tamano (part s k);
  mem_fuera : ∀ r,
    r ∈ procesos_nuevos s ++ cola_listos_suspendidos s ++ procesos_terminados s →
    id_particion (proc s r) = None;
  est_nuevos : ∀ r, r ∈ procesos_nuevos s → estado (proc s r) = NUEVO;
  est_listos : ∀ r, r ∈ cola_listos s → estado (proc s r) = LISTO;
  est_run : ∀ r, proceso_en_ejecucion s = Some r → estado (proc s r) = EJECUCION;
  est_terminados : ∀ r, r ∈ procesos_terminados s → estado (proc s r) = TERMINADO
}.

(** The supplied definitions fit the largest user partition. *)
Definition tamanos_validos (procesos : list Proceso) : Prop :=
  ∀ p, p ∈ procesos → tamano p ≤ 250.

(** [n] presses of the Tick button. *)
Fixpoint ticks (n : nat) (s : Simulador) : option Simulador :=
  match n with
  | O => Some s
  | S n' => s' ← siguiente_tick s; ticks n' s'
  end.

(** The CPU time that the processes of [l] still need. *)
Definition suma_restante (s : Simulador) (l : list ref) : Z :=
  foldr Z.add 0 ((λ r, t_restante (proc s r)) <$> l).

(** The time until the last arrival that is still in New. *)
Definition espera_max (s : Simulador) : Z :=
  foldr Z.max 0 ((λ r, t_arribo (proc s r) - reloj s) <$> procesos_nuevos s).

(** The work that is left in a state. *)
Definition pendiente (s : Simulador) : Z :=
  suma_restante s (colas s) + espera_max s.

(** The bursts of the cohort plus its last arrival time. *)
Definition carga (procesos : list Proceso) : Z :=
  foldr Z.add 0 ((λ r, t_irrupcion (procesos !!! r)) <$> cohorte procesos) +
  foldr Z.max 0 ((λ r, t_arribo (procesos !!! r)) <$> cohorte procesos).

(** One process that fits no partition, and the engine built from it. *)
Definition procesos_detenido : list Proceso := [Proceso_init 1 300 0 4].
Definition ejemplo_detenido : Simulador :=
  default ejemplo_admision (Simulador_init procesos_detenido).

(** The label of a process in [tabla_procesos] of [get_datos_gui].
    [EtCruda] is the value of [p.estado] itself, which the chain of
    conditions leaves in place when none of them holds. *)
Inductive Etiqueta :=
| EtCruda (e : Estado) | EtTerminado | EtEjecutando | EtListo
| EtListoSuspendido | EtNuevo.

Definition etiqueta_tabla (s : Simulador) (p : ref) : Etiqueta :=
  if bool_decide (p ∈ procesos_terminados s)
     || bool_decide (estado (proc s p) = TERMINADO) then EtTerminado
  else if bool_decide (proceso_en_ejecucion s = Some p) then EtEjecutando
  else if bool_decide (p ∈ cola_listos s) then EtListo
  else if bool_decide (p ∈ cola_listos_suspendidos s) then EtListoSuspendido
  else if bool_decide (p ∈ procesos_nuevos s) then EtNuevo
  else EtCruda (estado (proc s p)).

(** The progress column of [tabla_procesos]: [0.0], [100.0], or the float
    [max(0.0, min(100.0, (ejecutado / p.t_irrupcion) * 100.0))], kept as
    its two integer operands. *)
Inductive Progreso := ProgCero | ProgCien | ProgParcial (ejecutado irrupcion : Z).

Definition progreso_tabla (s : Simulador) (p : ref) : Progreso :=
  if 0 <? t_irrupcion (proc s p) then
    if bool_decide (p ∈ procesos_terminados s)
       || bool_decide (estado (proc s p) = TERMINADO) then ProgCien
    else ProgParcial (Z.max 0 (t_irrupcion (proc s p) - t_restante (proc s p)))
                     (t_irrupcion (proc s p))
  else ProgCero.

Record FilaTabla := mkFilaTabla {
  ft_pid : Z; ft_ta : Z; ft_ti : Z; ft_mem : Z;
  ft_estado : Etiqueta; ft_progreso : Progreso
}.

(** [tabla_procesos] of [Simulador.get_datos_gui] *)
Definition tabla_procesos (s : Simulador) : list FilaTabla :=
  (λ p, mkFilaTabla (id_proceso (proc s p)) (t_arribo (proc s p))
          (t_irrupcion (proc s p)) (tamano (proc s p))
          (etiqueta_tabla s p) (progreso_tabla s p)) <$> procesos_reporte s.

(** The label that corresponds to a value of [estado]. *)
Definition etiqueta_de (e : Estado) : Etiqueta :=
  match e with
  | NUEVO => EtNuevo | LS => EtListoSuspendido | LISTO => EtListo
  | EJECUCION => EtEjecutando | TERMINADO => EtTerminado
  end.

(** ** The CSV loader (lector_csv.py)

    The loader works on the rows that [csv.reader] returns.  The library
    functions it calls on the cells are parameters of the model: [norm] is
    [_norm] (Unicode normalisation and upper case), [strip] is [str.strip]
    and [py_int] is [int], with [None] for [ValueError]. *)

Inductive Motivo :=
| IdNoPositivo | IdDuplicado | TamanoNoPositivo | TaNegativo | TiNoPositivo.

Inductive ErrorFila :=
| NoEnteros (fila : nat)
| FilaInvalida (fila : nat) (pid : Z) (motivos : list Motivo).

(** The second component of the result: ["Archivo CSV vacío."], the
    warning with the list of errors, or the empty string. *)
Inductive Mensaje := ArchivoVacio | ConErrores (errores : list ErrorFila) | SinErrores.

Record Indices := mkIndices {
  id_idx : option nat; tam_idx : option nat; ta_idx : option nat; ti_idx : option nat
}.

(** [procs], [ids_vistos] and [errores] *)
Record Lectura := mkLectura {
  procs : list Proceso; ids_vistos : gset Z; errores : list ErrorFila
}.

Definition IDN : list string := ["ID"; "IDP"; "PID"]%string.
Definition TAMN : list string := ["TAMANO"; "TAMANIO"; "TAM"; "SIZE"; "TAMM"]%string.
Definition TAN : list string := ["TA"; "ARRIBO"; "LLEGADA"]%string.
Definition TIN : list string :=
  ["TI"; "IRRUPCION"; "IRRUPCIONCPU"; "BURST"; "CPU"; "SERVICIO"; "DURACION"]%string.

(** The body of [for i, h in enumerate(headers)] *)
Definition paso_encabezado (ix : Indices) (i : nat) (h : string) : Indices :=
  if bool_decide (id_idx ix = None) && bool_decide (h ∈ IDN) then
    mkIndices (Some i) (tam_idx ix) (ta_idx ix) (ti_idx ix)
  else if bool_decide (tam_idx ix = None) && bool_decide (h ∈ TAMN) then
    mkIndices (id_idx ix) (Some i) (ta_idx ix) (ti_idx ix)
  else if bool_decide (ta_idx ix = None) && bool_decide (h ∈ TAN) then
    mkIndices (id_idx ix) (tam_idx ix) (Some i) (ti_idx ix)
  else if bool_decide (ti_idx ix = None) && bool_decide (h ∈ TIN) then
    mkIndices (id_idx ix) (tam_idx ix) (ta_idx ix) (Some i)
  else ix.

Fixpoint indices_por_nombre (ix : Indices) (i : nat) (headers : list string) : Indices :=
  match headers with
  | [] => ix
  | h :: hs => indices_por_nombre (paso_encabezado ix i h) (S i) hs
  end.

Definition indices_por_posicion : Indices :=
  mkIndices (Some 0%nat) (Some 1%nat) (Some 2%nat) (Some 3%nat).

(** [None in (id_idx, tam_idx, ta_idx, ti_idx)] *)
Definition falta_indice (ix : Indices) : bool :=
  bool_decide (id_idx ix = None) || bool_decide (tam_idx ix = None)
  || bool_decide (ta_idx ix = None) || bool_decide (ti_idx ix = None).

(** The validations of a row whose four fields are integers. *)
Definition motivos_de (vistos : gset Z) (pid tam ta ti : Z) : list Motivo :=
  (if pid <=? 0 then [IdNoPositivo] else []) ++
  (if bool_decide (pid ∈ vistos) then [IdDuplicado] else []) ++
  (if tam <=? 0 then [TamanoNoPositivo] else []) ++
  (if ta <? 0 then [TaNegativo] else []) ++
  (if ti <=? 0 then [TiNoPositivo] else []).

Section Lector.
Variable norm : string → string.
Variable strip : string → string.
Variable py_int : string → option Z.

(** [is_int] *)
Definition is_int (x : string) : bool := bool_decide (is_Some (py_int (strip x))).

(** [get], for the row [row] *)
Definition get (row : list string) (i : option nat) : string :=
  match i with
  | None => ""
  | Some i => match row !! i with Some c => strip c | None => "" end
  end.

(** [not any([sid, stam, sta, sti])] *)
Definition en_blanco (ix : Indices) (row : list string) : bool :=
  bool_decide (get row (id_idx ix) = ""%string) &&
  bool_decide (get row (tam_idx ix) = ""%string) &&
  bool_decide (get row (ta_idx ix) = ""%string) &&
  bool_decide (get row (ti_idx ix) = ""%string).

(** The body of [for off, row in enumerate(data_rows, start=start_line)] *)
Definition leer_fila (ix : Indices) (st : Lectura) (off : nat) (row : list string)
    : Lectura :=
  if en_blanco ix row then st
  else
    match py_int (get row (id_idx ix)), py_int (get row (tam_idx ix)),
          py_int (get row (ta_idx ix)), py_int (get row (ti_idx ix)) with
    | Some pid, Some tam, Some ta, Some ti =>
      match motivos_de (ids_vistos st) pid tam ta ti with
      | [] => mkLectura (procs st ++ [Proceso_init pid tam ta ti])
                        ({[pid]} ∪ ids_vistos st) (errores st)
      | motivos => mkLectura (procs st) (ids_vistos st)
                             (errores st ++ [FilaInvalida off pid motivos])
      end
    | _, _, _, _ =>
      mkLectura (procs st) (ids_vistos st) (errores st ++ [NoEnteros off])
    end.

Fixpoint leer_filas (ix : Indices) (st : Lectura) (off : nat)
    (rows : list (list string)) : Lectura :=
  match rows with
  | [] => st
  | row :: rows => leer_filas ix (leer_fila ix st off row) (S off) rows
  end.

(** The columns, the data rows and the line number of the first data row
    that [_parsear_csv_data] works with, for a file whose first row is
    [first]. *)
Definition plan_lectura (first : list string) (resto : list (list string))
    : Indices * list (list string) * nat :=
  let first_is_data := (4 <=? length first)%nat && forallb is_int (take 4 first) in
  if first_is_data then (indices_por_posicion, first :: resto, 1%nat)
  else
    let headers := norm <$> first in
    let ix := indices_por_nombre (mkIndices None None None None) 0 headers in
    let ix := if falta_indice ix && (4 <=? length first)%nat
              then indices_por_posicion else ix in
    (ix, resto, 2%nat).

(** [_parsear_csv_data] *)
Definition _parsear_csv_data (raw : list (list string)) : list Proceso * Mensaje :=
  match raw with
  | [] => ([], ArchivoVacio)
  | first :: resto =>
    let '(ix, data_rows, start_line) := plan_lectura first resto in
    let st := leer_filas ix (mkLectura [] ∅ []) start_line data_rows in
    (procs st, match errores st with [] => SinErrores | es => ConErrores es end)
  end.
End Lector.

(** What the loader's validation lets through. *)
Definition proceso_valido (p : Proceso) : Prop :=
  p = Proceso_init (id_proceso p) (tamano p) (t_arribo p) (t_irrupcion p) ∧
  0 < id_proceso p ∧ 0 < tamano p ∧ 0 ≤ t_arribo p ∧ 0 < t_irrupcion p.

(** The line number that an error message names. *)
Definition fila_de (e : ErrorFila) : nat :=
  match e with NoEnteros fila => fila | FilaInvalida fila _ _ => fila end.

(** The position of the first header that is one of [nombres]. *)
Definition primera_columna (nombres : list string) (headers : list string) : option nat :=
  fst <$> list_find (λ h, h ∈ nombres) headers.

(** ** The console program (simulador.py): reading and editing the processes *)

(** A line that [_leer_csv] prints for a row that it ignores. *)
Inductive LineaConsola :=
| ConsolaNoEnteros (fila : nat)
| ConsolaInvalida (fila : nat) (motivos : list Motivo).

(** [procs], [ids_vistos] and the lines printed *)
Record LecturaConsola := mkLecturaConsola {
  lc_procs : list Proceso; lc_ids_vistos : gset Z; lc_salida : list LineaConsola
}.

Section LectorConsola.
Variable norm : string → string.
Variable strip : string → string.
Variable py_int : string → option Z.

(** The body of the loop over the data rows in [Simulador._leer_csv] *)
Definition consola_leer_fila (ix : Indices) (st : LecturaConsola) (off : nat)
    (row : list string) : LecturaConsola :=
  if en_blanco strip ix row then st
  else
    match py_int (get strip row (id_idx ix)), py_int (get strip row (tam_idx ix)),
          py_int (get strip row (ta_idx ix)), py_int (get strip row (ti_idx ix)) with
    | Some pid, Some tam, Some ta, Some ti =>
      match motivos_de (lc_ids_vistos st) pid tam ta ti with
      | [] => mkLecturaConsola (lc_procs st ++ [Proceso_init pid tam ta ti])
                               ({[pid]} ∪ lc_ids_vistos st) (lc_salida st)
      | motivos => mkLecturaConsola (lc_procs st) (lc_ids_vistos st)
                                    (lc_salida st ++ [ConsolaInvalida off motivos])
      end
    | _, _, _, _ =>
      mkLecturaConsola (lc_procs st) (lc_ids_vistos st)
                       (lc_salida st ++ [ConsolaNoEnteros off])
    end.

Fixpoint consola_leer_filas (ix : Indices) (st : LecturaConsola) (off : nat)
    (rows : list (list string)) : LecturaConsola :=
  match rows with
  | [] => st
  | row :: rows => consola_leer_filas ix (consola_leer_fila ix st off row) (S off) rows
  end.

(** [Simulador._leer_csv] of the console program, from the rows that
    [csv.reader] returns: the processes and the lines printed.  The
    detection of the header is, statement by statement, the one of
    [lector_csv._parsear_csv_data]. *)
Definition consola_leer_csv (raw : list (list string)) : list Proceso * list LineaConsola :=
  match raw with
  | [] => ([], [])
  | first :: resto =>
    let '(ix, data_rows, start_line) := plan_lectura norm strip py_int first resto in
    let st := consola_leer_filas ix (mkLecturaConsola [] ∅ []) start_line data_rows in
    (lc_procs st, lc_salida st)
  end.
End LectorConsola.

(** [Simulador._siguiente_id] *)
Definition _siguiente_id (todos : list Proceso) : Z :=
  match todos with
  | [] => 1
  | p :: ps => foldr Z.max (id_proceso p) (id_proceso <$> ps) + 1
  end.

(** What the user types at a prompt of the editing menu that is read with
    [int(input(...))]: text that [int] accepts, or text on which it raises. *)
Inductive Entrada := Entero (z : Z) | NoEntero.

(** What the user types at a prompt read with [int(input(...) or actual)]:
    nothing, or some text. *)
Inductive EntradaEdicion := Vacia | Escrito (e : Entrada).

(** A turn of the menu loop that changes the list: options 1, 2 and 3 with
    the answers to their prompts. *)
Inductive OpMenu :=
| OpAgregar (tam ta ti : Entrada)
| OpEditar (pid : Entrada) (tam ta ti : EntradaEdicion)
| OpEliminar (pid : Entrada).

Definition valor (e : Entrada) : option Z :=
  match e with Entero z => Some z | NoEntero => None end.

Definition valor_edicion (e : EntradaEdicion) (actual : Z) : option Z :=
  match e with Vacia => Some actual | Escrito e => valor e end.

(** The assignment [p.tamano, p.t_arribo, p.t_irrupcion = tam, ta, ti] *)
Definition editar (tam ta ti : Z) (p : Proceso) : Proceso :=
  mkProceso (id_proceso p) tam ta ti (estado p) (t_restante p) (id_particion p)
            (t_fin p) (t_primera_ejecucion p) (t_llegada_listo p).

(** One turn of the loop of [Simulador._menu_edicion]; an exception in the
    [try] block leaves the list as it was. *)
Definition menu_op (todos : list Proceso) (op : OpMenu) : list Proceso :=
  match op with
  | OpAgregar tam ta ti =>
    let pid := _siguiente_id todos in
    match valor tam, valor ta, valor ti with
    | Some tam, Some ta, Some ti => todos ++ [Proceso_init pid tam ta ti]
    | _, _, _ => todos
    end
  | OpEditar pid tam ta ti =>
    match valor pid with
    | None => todos
    | Some pid =>
      match list_find (λ p, id_proceso p = pid) todos with
      | None => todos
      | Some (i, p) =>
        match valor_edicion tam (tamano p) with
        | None => todos
        | Some tam =>
          match valor_edicion ta (t_arribo p) with
          | None => todos
          | Some ta =>
            match valor_edicion ti (t_irrupcion p) with
            | None => todos
            | Some ti => alter (editar tam ta ti) i todos
            end
          end
        end
      end
    end
  | OpEliminar pid =>
    match valor pid with
    | None => todos
    | Some pid => filter (λ p, id_proceso p ≠ pid) todos
    end
  end.

(** The list that [_menu_edicion] saves after the turns [ops]. *)
Definition _menu_edicion (todos : list Proceso) (ops : list OpMenu) : list Proceso :=
  foldl menu_op todos ops.

(** ** The console program (simulador.py): the simulation

    The console engine keeps the local list [eventos] of a tick only to
    print it; the model keeps it in [eventos_del_tick].  The statements of
    its CPU step, of its loop over the arrived processes, of Best-Fit and of
    its scheduler are those of the GUI engine, whose definitions are used
    for them; the message of a preemption interpolates fewer values than
    the one of the GUI engine, whose entry is kept. *)

(** Steps 2 and 3 of [_tick]: every process at the head of New whose arrival
    time is the clock moves to L/S. *)
Definition consola_arribos (s : Simulador) : Simulador :=
  let '(arribados, n) :=
    popleft_mientras (λ r, t_arribo (proc s r) =? reloj s) (procesos_nuevos s) in
  let s := con_nuevos n s in
  let s := if bool_decide (arribados = []) then s
           else registrar (EvArriban (ids s arribados)) s in
  foldl arribo_inicial s arribados.

(** [sel_proc], [sel_part], [sel_idx] and [sel_r] once a process has been
    selected; before that they are [None], [None], [None] and
    [float("inf")]. *)
Record Seleccion := mkSeleccion {
  sel_proc : ref; sel_part : nat; sel_idx : nat; sel_r : Z
}.

(** [for i, pr in enumerate(self.cola_listos_suspendidos)] of step 4 *)
Fixpoint consola_seleccionar (s : Simulador) (libres : list nat) (i : nat)
    (l : list ref) (sel : option Seleccion) : option Seleccion :=
  match l with
  | [] => sel
  | pr :: l' =>
    let sel :=
      match _encontrar_mejor_particion s pr libres with
      | Some mp =>
        if lt_inf (t_restante (proc s pr)) (sel_r <$> sel)
           || (eq_inf (t_restante (proc s pr)) (sel_r <$> sel)
               && match sel with
                  | None => true
                  | Some x => (i <? sel_idx x)%nat
                  end)
        then Some (mkSeleccion pr mp i (t_restante (proc s pr)))
        else sel
      | None => sel
      end in
    consola_seleccionar s libres (S i) l' sel
  end.

(** One iteration of the [while True] of step 4: [Some None] is a [break],
    [None] an exception. *)
Definition consola_admitir (s : Simulador) : option (option Simulador) :=
  if (5 <=? procesos_en_memoria s)%nat then Some None
  else if bool_decide (libres s = []) then Some None
  else
    match consola_seleccionar s (libres s) 0 (cola_listos_suspendidos s) None with
    | None => Some None
    | Some x => s' ← aplicar (CAdmision (sel_proc x) (sel_part x)) s; Some (Some s')
    end.

(** [while True] with a bound [n] on the number of iterations. *)
Fixpoint consola_bucle_admision (n : nat) (s : Simulador) : option Simulador :=
  match n with
  | O => None
  | S n' =>
    r ← consola_admitir s;
    match r with
    | None => Some s
    | Some s' => consola_bucle_admision n' s'
    end
  end.

(** Step 4 of [_tick]: every iteration but the last takes a process out
    of L/S. *)
Definition consola_admision (s : Simulador) : option Simulador :=
  consola_bucle_admision (S (length (cola_listos_suspendidos s))) s.

(** [Simulador._tick] of simulador.py, without what it prints. *)
Definition consola_tick (s : Simulador) : option Simulador :=
  let s := con_eventos [] s in
  s ← servicio_cpu s;
  let s := consola_arribos s in
  s ← consola_admision s;
  _ejecutar_planificador s.

(** The condition of the [while] loop of [run]. *)
Definition consola_activo (s : Simulador) : bool :=
  negb (bool_decide (procesos_nuevos s = []))
  || negb (bool_decide (cola_listos_suspendidos s = []))
  || negb (bool_decide (cola_listos s = []))
  || bool_decide (is_Some (proceso_en_ejecucion s)).

(** One iteration of the loop of [run]: the tick and [self.reloj += 1]. *)
Definition consola_paso (s : Simulador) : option Simulador :=
  s ← consola_tick s; Some (con_reloj (reloj s + 1) s).

(** The [while] loop of [run] with a bound [n] on the number of
    iterations; the flag tells whether the loop ended at the limit of 500
    time units. *)
Fixpoint consola_bucle (n : nat) (s : Simulador) : option (Simulador * bool) :=
  match n with
  | O => None
  | S n' =>
    if consola_activo s then
      s ← consola_paso s;
      if 500 <? reloj s then Some (s, true) else consola_bucle n' s
    else Some (s, false)
  end.

(** [Simulador.run] up to the final report, for the list of processes that
    the editing menu saved. *)
Definition consola_run (procesos : list Proceso) : option (Simulador * bool) :=
  consola_bucle 502 (consola_preparar_colas (consola_init procesos)).

(** The ids that the console engine simulates. *)
Definition ids_consola (procesos : list Proceso) : Prop :=
  ∀ p, p ∈ procesos → 1 ≤ id_proceso p ≤ 10.

(** The states at the head of the loop of [run]. *)
Inductive consola_alcanzable (procesos : list Proceso) : Simulador → Prop :=
| calc_init :
    consola_alcanzable procesos (consola_preparar_colas (consola_init procesos))
| calc_paso s s' :
    consola_alcanzable procesos s → consola_paso s = Some s' →
    consola_alcanzable procesos s'.

(** What the states at the head of the loop keep about the clock, the
    arrivals and the remaining times. *)
Record inv_consola (procesos : list Proceso) (s : Simulador) : Prop := mkInvConsola {
  cons_reloj : 0 ≤ reloj s;
  cons_nuevos : ∃ n, procesos_nuevos s = drop n (cohorte procesos);
  cons_futuros : ∀ r, r ∈ procesos_nuevos s → reloj s ≤ t_arribo (procesos !!! r);
  cons_rest_nuevos : ∀ r, r ∈ procesos_nuevos s →
    t_restante (proc s r) = t_irrupcion (procesos !!! r);
  cons_rest_sistema : ∀ r, r ∈ en_sistema s →
    1 ≤ t_restante (proc s r) ≤ t_irrupcion (procesos !!! r);
  cons_rest_terminados : ∀ r, r ∈ procesos_terminados s → t_restante (proc s r) = 0;
  cons_ocio : proceso_en_ejecucion s = None →
    cola_listos s = [] ∧
    ∀ c, c ∈ cola_listos_suspendidos s → 250 < tamano (proc s c)
}.

(** The time until the tick after the last arrival that is still in New. *)
Definition espera_consola (s : Simulador) : Z :=
  foldr Z.max 0 ((λ r, t_arribo (proc s r) - reloj s + 1) <$> procesos_nuevos s).

(** The work that is left in a state of the console engine. *)
Definition pendiente_consola (s : Simulador) : Z :=
  suma_restante s (colas s) + espera_consola s.

(** ** Lists that hold an object more than once

    [Simulador_init] takes [procesos] as a list of distinct objects:
    position [i] of the list is the object [i] of the arena, which is how
    both loaders build the list (one fresh [Proceso] per row).  A Python
    list can also hold the same object at several positions: such an input
    is the arena [objetos] together with the list [lista] of the references
    that the caller's list holds. *)

(** [Simulador._preparar_colas] when [self.todos_procesos] is [lista] *)
Definition _preparar_colas_lista (lista : list ref) (s : Simulador) : Simulador :=
  let candidatos := sorted (clave_arribo s) lex2_leb lista in
  let seleccion := take 10 candidatos in
  let s := foldl (λ s p, mut p reiniciar s) s seleccion in
  con_reporte seleccion (con_nuevos seleccion s).

(** [Simulador.__init__] when the caller's list is [lista] *)
Definition Simulador_init_lista (objetos : list Proceso) (lista : list ref)
    : option Simulador :=
  let s := mkSimulador 0 [] objetos [] [] [] None [] [] particiones_iniciales in
  _guardar_estado_inicial (_preparar_colas_lista lista s).

(** Four objects, and a list that holds the first of them twice. *)
Definition objetos_repetidos : list Proceso :=
  [Proceso_init 1 10 0 1; Proceso_init 2 10 0 5; Proceso_init 3 10 0 5;
   Proceso_init 4 10 0 5].
Definition lista_repetida : list ref := [0; 0; 1; 2; 3]%nat.

(** The times that the final report subtracts and adds up, for the
    processes whose [t_fin] is set, are far inside the range of the
    floats. *)
Definition tiempos_en_rango (s : Simulador) : Prop :=
  ∀ r, r ∈ procesos_reporte s → t_fin (proc s r) ≠ -1 →
    Z.abs (t_arribo (proc s r)) < 2 ^ 1000 ∧
    Z.abs (t_irrupcion (proc s r)) < 2 ^ 1000 ∧
    Z.abs (t_fin (proc s r)) < 2 ^ 1000 ∧
    Z.abs (t_primera_ejecucion (proc s r)) < 2 ^ 1000.

(** One process whose arrival time is far below the range of the floats. *)
Definition procesos_desborde : list Proceso := [Proceso_init 1 10 (- 10 ^ 400) 1].

(** The sums of the report stay below [B] times the number of processes
    counted. *)
Definition cota_acumulado (B : Z) (a : Acumulado) : Prop :=
  0 ≤ ac_contados a ∧ Z.abs (ac_retorno a) ≤ B * ac_contados a ∧
  Z.abs (ac_espera a) ≤ B * ac_contados a ∧
  Z.abs (ac_respuesta a) ≤ B * ac_contados a.


(** Five processes larger than every partition that arrive at tick 0, and
    a sixth one that arrives at tick 1. *)
Definition seis_grandes : list Proceso :=
  [Proceso_init 1 300 0 4; Proceso_init 2 300 0 4; Proceso_init 3 300 0 4;
   Proceso_init 4 300 0 4; Proceso_init 5 300 0 4; Proceso_init 6 300 1 4].


(** [int] on the cells of the example file of [lector_toma_encabezado]. *)
Definition int_ejemplo (x : string) : option Z :=
  (λ r, r.2.2) <$> list_find (λ p, p.1 = x)
    [("0", 0); ("1", 1); ("2", 2); ("3", 3); ("10", 10); ("20", 20)]%string.


(** The sums and the count that [get_reporte_final] computes in the state
    [s], and the condition under which none of its three averages is
    beyond the range of the floats. *)
Definition totales (s : Simulador) : Acumulado :=
  let s := con_reporte (sorted (λ r, id_proceso (proc s r)) Z.leb (procesos_reporte s)) s in
  foldl (acumular s) (mkAcumulado [] 0 0 0 0) (procesos_reporte s).
Definition promedios_en_rango (s : Simulador) : Prop :=
  0 < ac_contados (totales s) →
  desborda (ac_espera (totales s)) (ac_contados (totales s)) = false ∧
  desborda (ac_respuesta (totales s)) (ac_contados (totales s)) = false ∧
  desborda (ac_retorno (totales s)) (ac_contados (totales s)) = false.

(** * Properties *)

Arguments asignar_proceso : simpl never.
Arguments liberar_particion : simpl never.
Arguments entrar_cpu : simpl never.

(** ** Basic facts about objects and their mutation *)

Section Objetos.
Context {A : Type} `{!Inhabited A}.
Implicit Types (h : list A) (f : A → A).

Lemma alter_fuera h f (r q : nat) :
  (length h ≤ r)%nat → alter f r h !!! q = h !!! q.
Proof.
  intros Hr. rewrite !list_lookup_total_alt.
  destruct (decide (r = q)) as [->|Hne].
  - rewrite list_lookup_alter_eq, (lookup_ge_None_2 _ q) by done. done.
  - by rewrite list_lookup_alter_ne.
Qed.

(** A field that [f] leaves alone reads the same after the mutation. *)
Lemma alter_campo {B} (g : A → B) h f (r q : nat) :
  (∀ p, g (f p) = g p) → g (alter f r h !!! q) = g (h !!! q).
Proof.
  intros Hg. destruct (decide (q = r)) as [->|Hne];
    [|by rewrite list_lookup_total_alter_ne].
  destruct (decide (r < length h)%nat).
  - by rewrite list_lookup_total_alter_eq.
  - rewrite alter_fuera; [done|lia].
Qed.

Lemma lookup_total_Some h (k : nat) p :
  h !! k = Some p → (k < length h)%nat ∧ h !!! k = p.
Proof.
  intros Hk. split; [by eapply lookup_lt_Some|].
  by apply list_lookup_total_correct.
Qed.
End Objetos.

Lemma lookup_particiones (s : Simulador) (k : nat) p :
  particiones s !! k = Some p → (k < length (particiones s))%nat ∧ part s k = p.
Proof. apply lookup_total_Some. Qed.

(** ** The lexicographic orders of the sort keys *)

Ltac lex_solve :=
  unfold lex3_leb, lex3_ltb, lex2_leb, lex2_ltb; simpl;
  repeat match goal with
         | |- context [Z.ltb ?a ?b] => destruct (Z.ltb_spec a b)
         | |- context [Z.eqb ?a ?b] => destruct (Z.eqb_spec a b)
         end; simpl; intros; try done; try lia.

Lemma lex2_leb_total a b : lex2_leb a b = false → lex2_leb b a = true.
Proof. destruct a, b. lex_solve. Qed.

Lemma lex2_leb_trans a b c :
  lex2_leb a b = true → lex2_leb b c = true → lex2_leb a c = true.
Proof. destruct a, b, c. lex_solve. Qed.

Lemma lex2_leb_spec a b :
  lex2_leb a b = true ↔ a.1 < b.1 ∨ (a.1 = b.1 ∧ a.2 ≤ b.2).
Proof. destruct a, b. split; lex_solve. Qed.

Lemma lex3_leb_total a b : lex3_leb a b = false → lex3_leb b a = true.
Proof. destruct a as [[??]?], b as [[??]?]. lex_solve. Qed.

Lemma lex3_leb_spec (a b : Z * Z * Z) :
  lex3_leb a b = true ↔
  a.1.1 < b.1.1 ∨ (a.1.1 = b.1.1 ∧ (a.1.2 < b.1.2 ∨ (a.1.2 = b.1.2 ∧ a.2 ≤ b.2))).
Proof. destruct a as [[??]?], b as [[??]?]. split; lex_solve. Qed.

Lemma lex3_leb_trans a b c :
  lex3_leb a b = true → lex3_leb b c = true → lex3_leb a c = true.
Proof.
  rewrite !lex3_leb_spec.
  destruct a as [[??]?], b as [[??]?], c as [[??]?]; simpl. lia.
Qed.

(** ** Python's [sorted] and [max] *)

Section Ordenar.
Context {A K : Type} (key : A → K) (leb : K → K → bool).
Hypothesis leb_total : ∀ a b, leb a b = false → leb b a = true.
Hypothesis leb_trans : ∀ a b c, leb a b = true → leb b c = true → leb a c = true.

Local Abbreviation kle := (key_le key leb).

Lemma leb_refl a : leb a a = true.
Proof. destruct (leb a a) eqn:E; [done|]. pose proof (leb_total _ _ E). congruence. Qed.

Lemma sorted_cons x l :
  sorted key leb (x :: l) = insertar key leb x (sorted key leb l).
Proof. done. Qed.

Lemma insertar_perm x l : insertar key leb x l ≡ₚ x :: l.
Proof.
  induction l as [|y l IH]; simpl; [done|].
  destruct (leb (key x) (key y)); [done|].
  rewrite IH. apply perm_swap.
Qed.

Lemma sorted_perm l : sorted key leb l ≡ₚ l.
Proof.
  induction l as [|x l IH]; [done|].
  by rewrite sorted_cons, insertar_perm, IH.
Qed.

Lemma sorted_length l : length (sorted key leb l) = length l.
Proof. by rewrite sorted_perm. Qed.

Lemma elem_of_sorted x l : x ∈ sorted key leb l ↔ x ∈ l.
Proof. by rewrite sorted_perm. Qed.

Lemma insertar_sorted x l :
  StronglySorted kle l → StronglySorted kle (insertar key leb x l).
Proof.
  induction 1 as [|y l Hl IH Hy]; simpl.
  - repeat constructor.
  - destruct (leb (key x) (key y)) eqn:E.
    + constructor; [by constructor|].
      constructor; [done|].
      eapply Forall_impl; [exact Hy|]. intros z Hz. unfold key_le in *. eauto.
    + constructor; [done|].
      rewrite insertar_perm. constructor; [|done].
      by apply leb_total.
Qed.

Lemma sorted_sorted l : StronglySorted kle (sorted key leb l).
Proof.
  induction l as [|x l IH]; [constructor|].
  rewrite sorted_cons. by apply insertar_sorted.
Qed.

(** The head of a sorted queue has the least key. *)
Lemma sorted_head x l' l y :
  sorted key leb l = x :: l' → y ∈ l → kle x y.
Proof.
  intros Hs Hy. pose proof (sorted_sorted l) as HS. rewrite Hs in HS.
  apply elem_of_sorted in Hy. rewrite Hs in Hy.
  apply StronglySorted_inv in HS as [_ HF].
  apply elem_of_cons in Hy as [->|Hy]; [apply leb_refl|].
  by eapply Forall_forall in HF.
Qed.

Lemma insertar_sorted_id x l :
  Forall (kle x) l → insertar key leb x l = x :: l.
Proof. destruct 1 as [|y l Hy _]; simpl; [done|]. unfold key_le in Hy. by rewrite Hy. Qed.

(** Sorting a sorted list leaves it as it is. *)
Lemma sorted_id l : StronglySorted kle l → sorted key leb l = l.
Proof.
  induction 1 as [|x l Hl IH Hx]; [done|].
  rewrite sorted_cons, IH. by apply insertar_sorted_id.
Qed.

Lemma sorted_idemp l : sorted key leb (sorted key leb l) = sorted key leb l.
Proof. apply sorted_id, sorted_sorted. Qed.

(** A stable sort commutes with the removal of elements. *)
Lemma insertar_filter (P : A → Prop) `{!∀ x, Decision (P x)} x l :
  StronglySorted kle l →
  filter P (insertar key leb x l) =
  if decide (P x) then insertar key leb x (filter P l) else filter P l.
Proof.
  induction 1 as [|y l Hl IH Hy]; simpl.
  - rewrite filter_cons, filter_nil. by destruct (decide (P x)).
  - destruct (leb (key x) (key y)) eqn:E.
    + rewrite (filter_cons _ x). destruct (decide (P x)); [|done].
      symmetry. apply insertar_sorted_id.
      apply Forall_forall. intros z Hz.
      apply list_elem_of_filter in Hz as [_ Hz].
      apply elem_of_cons in Hz as [->|Hz]; [done|].
      eapply Forall_forall in Hy; [|done]. unfold key_le in *. eauto.
    + rewrite !(filter_cons _ y). destruct (decide (P y)).
      * rewrite IH. destruct (decide (P x)); [|done]. simpl. by rewrite E.
      * by rewrite IH.
Qed.

Lemma sorted_filter (P : A → Prop) `{!∀ x, Decision (P x)} l :
  filter P (sorted key leb l) = sorted key leb (filter P l).
Proof.
  induction l as [|x l IH]; [done|].
  rewrite sorted_cons, insertar_filter by apply sorted_sorted.
  rewrite filter_cons.
  destruct (decide (P x)); by rewrite ?sorted_cons, IH.
Qed.

(** [max] returns an element of the list whose key is the largest, and
    the first of those. *)
Lemma max_desde_elem_of best l :
  max_desde key leb best l ∈ best :: l.
Proof.
  revert best. induction l as [|x l IH]; intros best; simpl; [by left|].
  destruct (leb (key x) (key best)).
  - destruct (proj1 (elem_of_cons _ _ _) (IH best)) as [->|?];
      [by left|by do 2 right].
  - right. apply IH.
Qed.

Lemma max_desde_ge best l y :
  y ∈ best :: l → kle y (max_desde key leb best l).
Proof.
  revert best y. induction l as [|x l IH]; intros best y Hy; simpl.
  - apply list_elem_of_singleton in Hy as ->. apply leb_refl.
  - assert (∀ b, kle b (max_desde key leb b l)) as Hb by (intros b; apply IH; by left).
    destruct (leb (key x) (key best)) eqn:E.
    + apply elem_of_cons in Hy as [->|Hy]; [apply Hb|].
      apply elem_of_cons in Hy as [->|Hy]; [|apply IH; by right].
      unfold key_le. eapply leb_trans; [exact E|]. apply Hb.
    + apply elem_of_cons in Hy as [->|Hy]; [|by apply IH].
      unfold key_le. eapply leb_trans; [by apply leb_total|]. apply Hb.
Qed.

Lemma py_max_spec l v :
  py_max key leb l = Some v → v ∈ l ∧ ∀ y, y ∈ l → kle y v.
Proof.
  destruct l as [|x l]; simpl; [done|]. intros [= <-].
  split; [apply max_desde_elem_of|]. intros y. apply max_desde_ge.
Qed.

Lemma py_max_None l : py_max key leb l = None ↔ l = [].
Proof. by destruct l. Qed.
End Ordenar.

Opaque sorted.

Section MejorParticion.
Implicit Types (s : Simulador) (r c : ref) (i j : nat).

Lemma mejor_desde_spec s r l : ∀ mejor fi i,
  match mejor, fi with
  | None, None => True
  | Some m, Some f => f = par_tamano (part s m) - tamano (proc s r) ∧ cabe_libre s r m
  | _, _ => False
  end →
  mejor_particion_desde s r mejor fi l = Some i →
  (i ∈ l ∨ mejor = Some i) ∧ cabe_libre s r i ∧
  (∀ j, j ∈ l → cabe_libre s r j → par_tamano (part s i) ≤ par_tamano (part s j)) ∧
  (∀ m, mejor = Some m → par_tamano (part s i) ≤ par_tamano (part s m)).
Proof.
  induction l as [|k l IH]; intros mejor fi i Hco Hres; simpl in Hres.
  - subst mejor. destruct fi; [|done]. destruct Hco as [_ Hm].
    split_and!; [by right|done|by intros j ?%elem_of_nil|by intros m [= ->]].
  - destruct (esta_libre (part s k)) eqn:Hlib; simpl in Hres;
      [destruct (Z.leb_spec (tamano (proc s r)) (par_tamano (part s k))) as [Hfit|Hfit]|];
      simpl in Hres.
    + match type of Hres with (if ?b then _ else _) = _ => destruct b eqn:Hc end.
      * apply IH in Hres as (Hi & Hcl & Hmin & Hm); [|by split_and!].
        specialize (Hm k eq_refl).
        split_and!.
        -- destruct Hi as [Hi|[= ->]]; left; [by right|by left].
        -- done.
        -- intros j [->|Hj]%elem_of_cons Hj2; [done|by apply Hmin].
        -- intros m ->. destruct fi as [f|]; [|done]. destruct Hco as [-> Hcm].
           simpl in Hc. 
           destruct (Z.ltb_spec (par_tamano (part s k) - tamano (proc s r))
                       (par_tamano (part s m) - tamano (proc s r))); simpl in Hc; [lia|].
           destruct (Z.eqb_spec (par_tamano (part s k) - tamano (proc s r))
                       (par_tamano (part s m) - tamano (proc s r))); simpl in Hc; [|done].
           lia.
      * destruct mejor as [m|], fi as [f|]; try done. destruct Hco as [-> Hcm].
        simpl in Hc. apply orb_false_iff in Hc as [Hc1 Hc2].
        apply Z.ltb_ge in Hc1.
        pose proof Hres as Hres'.
        apply IH in Hres as (Hi & Hcl & Hmin & Hm); [|done].
        specialize (Hm m eq_refl).
        split_and!.
        -- destruct Hi as [Hi|Hi]; [left; by right|by right].
        -- done.
        -- intros j [->|Hj]%elem_of_cons Hj2; [lia|by apply Hmin].
        -- by intros ? [= <-].
    + apply IH in Hres as (Hi & Hcl & Hmin & Hm); [|done].
      split_and!; [destruct Hi; [left; by right|by right]|done| |done].
      intros j [->|Hj]%elem_of_cons [? ?]; [lia|by apply Hmin].
    + apply IH in Hres as (Hi & Hcl & Hmin & Hm); [|done].
      split_and!; [destruct Hi; [left; by right|by right]|done| |done].
      intros j [->|Hj]%elem_of_cons [? ?]; [congruence|by apply Hmin].
Qed.

Lemma encontrar_mejor_particion_spec s r l i :
  _encontrar_mejor_particion s r l = Some i →
  i ∈ l ∧ cabe_libre s r i ∧
  ∀ j, j ∈ l → cabe_libre s r j → par_tamano (part s i) ≤ par_tamano (part s j).
Proof.
  intros H. apply (mejor_desde_spec s r l None None) in H as (Hi & ? & ? & _); [|exact I].
  destruct Hi as [?|?]; done.
Qed.

Lemma mejor_desde_None s r l mejor fi :
  (mejor = None → fi = None) →
  mejor_particion_desde s r mejor fi l = None →
  mejor = None ∧ ∀ j, j ∈ l → ¬ cabe_libre s r j.
Proof.
  revert mejor fi. induction l as [|k l IH]; intros mejor fi Hco Hres; simpl in Hres.
  - split; [done|]. by intros j ?%elem_of_nil.
  - destruct (esta_libre (part s k)) eqn:Hlib; simpl in Hres;
      [destruct (Z.leb_spec (tamano (proc s r)) (par_tamano (part s k))) as [Hfit|Hfit]|];
      simpl in Hres.
    + match type of Hres with (if ?b then _ else _) = _ => destruct b eqn:Hc end.
      * by apply IH in Hres as [? _].
      * apply IH in Hres as [-> _]; [|done]. rewrite Hco in Hc by done. done.
    + apply IH in Hres as [-> Hn]; [|done]. split; [done|].
      intros j [->|Hj]%elem_of_cons [? ?]; [lia|]. by eapply Hn.
    + apply IH in Hres as [-> Hn]; [|done]. split; [done|].
      intros j [->|Hj]%elem_of_cons [? ?]; [congruence|]. by eapply Hn.
Qed.

Lemma encontrar_mejor_particion_None s r l :
  _encontrar_mejor_particion s r l = None ↔ ∀ j, j ∈ l → ¬ cabe_libre s r j.
Proof.
  split.
  - intros H. by apply mejor_desde_None in H as [_ ?].
  - intros Hn. destruct (_encontrar_mejor_particion s r l) as [i|] eqn:E; [|done].
    apply (mejor_desde_spec s r l None None) in E as (Hi & Hc & _); [|exact I].
    destruct Hi as [Hi|?]; [|done]. by apply Hn in Hi.
Qed.

Lemma elem_of_libres s i :
  i ∈ libres s ↔ (i < length (particiones s))%nat ∧ esta_libre (part s i) = true.
Proof.
  unfold libres. rewrite list_elem_of_filter, elem_of_seq.
  rewrite Is_true_true. split; intros [??]; split; done || lia.
Qed.
End MejorParticion.

(** ** [deque.remove] *)

Section Remove.
Implicit Types (x y : ref) (l : list ref).

Lemma py_remove_Some x l : x ∈ l → is_Some (py_remove x l).
Proof.
  induction l as [|y l IH]; intros Hx; [by apply elem_of_nil in Hx|]; simpl.
  destruct (decide (x = y)); [done|].
  apply elem_of_cons in Hx as [?|Hx]; [done|].
  destruct (IH Hx) as [l' ->]. done.
Qed.

Lemma py_remove_perm x l l' : py_remove x l = Some l' → l ≡ₚ x :: l'.
Proof.
  revert l'. induction l as [|y l IH]; intros l'; simpl; [done|].
  destruct (decide (x = y)) as [->|Hne]; [by intros [= ->]|].
  destruct (py_remove x l) as [l0|]; simpl; [|done]. intros [= <-].
  rewrite (IH l0 eq_refl). apply perm_swap.
Qed.

Lemma filter_todos (P : ref → Prop) `{!∀ x, Decision (P x)} l :
  (∀ y, y ∈ l → P y) → filter P l = l.
Proof.
  induction l as [|y l IH]; intros Hall; [done|].
  rewrite filter_cons_True by (apply Hall; by left).
  rewrite IH; [done|]. intros z Hz. apply Hall. by right.
Qed.

Lemma py_remove_filter x l l' :
  NoDup l → py_remove x l = Some l' → l' = filter (λ y, y ≠ x) l.
Proof.
  revert l'. induction l as [|y l IH]; intros l' Hnd; simpl; [done|].
  apply NoDup_cons in Hnd as [Hy Hnd].
  destruct (decide (x = y)) as [->|Hne].
  - intros [= ->]. rewrite filter_cons_False by (by intros ?).
    symmetry. apply filter_todos. intros z Hz ->. done.
  - destruct (py_remove x l) as [l0|]; simpl; [|done]. intros [= <-].
    rewrite filter_cons_True by done. f_equal. by apply IH.
Qed.

Lemma py_remove_elem_of x y l l' :
  py_remove x l = Some l' → y ≠ x → y ∈ l' ↔ y ∈ l.
Proof.
  intros H Hne. apply py_remove_perm in H. rewrite H, elem_of_cons. naive_solver.
Qed.

Lemma py_remove_length x l l' :
  py_remove x l = Some l' → length l = S (length l').
Proof. intros H. apply py_remove_perm in H. by rewrite H. Qed.

Lemma py_remove_app_r x y l l' :
  py_remove x l = Some l' → py_remove x (l ++ [y]) = Some (l' ++ [y]).
Proof.
  revert l'. induction l as [|z l IH]; intros l'; simpl; [done|].
  destruct (decide (x = z)); [by intros [= ->]|].
  destruct (py_remove x l) as [l0|]; simpl; [|done]. intros [= <-].
  by rewrite (IH l0 eq_refl).
Qed.
End Remove.

(** ** The decision of one pass of [_intentar_admision] *)

Section Decision.
Implicit Types (s : Simulador) (c v w : ref) (i k : nat).

Lemma buscar_cambio_Some s l ch :
  buscar_cambio s l = Some (Some ch) → ∃ c, c ∈ l ∧ decidir s c = Some (Some ch).
Proof.
  induction l as [|c l IH]; simpl; [done|].
  destruct (decidir s c) as [[ch'|]|] eqn:E; simpl; [| |done].
  - intros [= ->]. exists c. split; [by left|done].
  - intros H. destruct (IH H) as (c' & ? & ?). exists c'. split; [by right|done].
Qed.

Lemma decidir_admision s c c' i :
  decidir s c = Some (Some (CAdmision c' i)) →
  c' = c ∧ (procesos_en_memoria s < 3)%nat ∧
  _encontrar_mejor_particion s c (libres s) = Some i.
Proof.
  unfold decidir.
  destruct (Nat.ltb_spec (procesos_en_memoria s) 3); simpl.
  - case_bool_decide; simpl.
    + destruct (procesos_en_memoria s =? 3)%nat; [|done].
      destruct (victimas_validas _ _ _); simpl; [|done].
      destruct (py_max _ _ _); [|done].
      destruct (_ <? _); [|done].
      destruct (id_particion _); simpl; [|done].
      destruct (particiones s !! _); simpl; done.
    + destruct (_encontrar_mejor_particion s c (libres s)); simpl; [|done].
      by intros [= <- <-].
  - destruct (procesos_en_memoria s =? 3)%nat; [|done].
    destruct (victimas_validas _ _ _); simpl; [|done].
    destruct (py_max _ _ _); [|done].
    destruct (_ <? _); [|done].
    destruct (id_particion _); simpl; [|done].
    destruct (particiones s !! _); simpl; done.
Qed.

Lemma decidir_swap s c c' v k :
  decidir s c = Some (Some (CSwap c' v k)) →
  c' = c ∧ procesos_en_memoria s = 3%nat ∧
  ∃ validas, victimas_validas s c (residentes s) = Some validas ∧
    py_max (clave_ls s) lex2_leb validas = Some v ∧
    t_restante (proc s c) < t_restante (proc s v) ∧
    id_particion (proc s v) = Some k ∧ is_Some (particiones s !! k).
Proof.
  unfold decidir, residentes.
  destruct ((procesos_en_memoria s <? 3)%nat && _) eqn:E1.
  { intros H. by destruct (_encontrar_mejor_particion _ _ _). }
  destruct (Nat.eqb_spec (procesos_en_memoria s) 3) as [Hm|]; [|done].
  destruct (victimas_validas _ _ _) as [validas|] eqn:Ev; simpl; [|done].
  destruct (py_max _ _ _) as [v'|] eqn:Emax; [|done].
  destruct (Z.ltb_spec (t_restante (proc s c)) (t_restante (proc s v'))); [|done].
  destruct (id_particion (proc s v')) as [k'|] eqn:Ek; simpl; [|done].
  destruct (particiones s !! k') eqn:Ep; simpl; [|done].
  intros [= <- <- <-]. split_and!; [done..|].
  exists validas. split_and!; done.
Qed.

Lemma victimas_validas_spec s c l validas :
  victimas_validas s c l = Some validas →
  (∀ v, v ∈ l → ∃ k, id_particion (proc s v) = Some k ∧ (k < length (particiones s))%nat) ∧
  (∀ v, v ∈ validas ↔
     v ∈ l ∧ ∃ k, id_particion (proc s v) = Some k ∧
                  tamano (proc s c) ≤ par_tamano (part s k)).
Proof.
  revert validas. induction l as [|w l IH]; intros validas; simpl.
  - intros [= <-]. split; intros v; rewrite ?elem_of_nil; naive_solver.
  - destruct (id_particion (proc s w)) as [k|] eqn:Ek; simpl; [|done].
    destruct (particiones s !! k) as [p|] eqn:Ep; simpl; [|done].
    apply lookup_particiones in Ep as [Hk <-].
    destruct (victimas_validas s c l) as [resto|]; simpl; [|done].
    destruct (IH resto eq_refl) as [IH1 IH2].
    intros [= <-]. split.
    + intros v [->|Hv]%elem_of_cons; [by exists k|by apply IH1].
    + intros v. destruct (Z.geb_spec (par_tamano (part s k)) (tamano (proc s c))).
      * rewrite !elem_of_cons, IH2. split; [|naive_solver].
        intros [->|?]; [|naive_solver]. split; [by left|]. exists k. split; [done|lia].
      * rewrite elem_of_cons, IH2. split; [naive_solver|].
        intros [[->|?] (k' & Hk' & ?)]; [|naive_solver].
        rewrite Ek in Hk'. injection Hk' as <-. lia.
Qed.
End Decision.

(** ** The fields that the partition methods and the dispatch leave alone *)

Ltac campos :=
  unfold asignar_proceso, liberar_particion, entrar_cpu;
  repeat case_match; reflexivity.

Section Campos.
Implicit Types (s : Simulador) (c : ref) (i : nat).

Lemma asignar_proceso_reloj i c s : reloj (asignar_proceso i c s).2 = reloj s.
Proof. campos. Qed.
Lemma asignar_proceso_procesos_nuevos i c s : procesos_nuevos (asignar_proceso i c s).2 = procesos_nuevos s.
Proof. campos. Qed.
Lemma asignar_proceso_cola_listos_suspendidos i c s : cola_listos_suspendidos (asignar_proceso i c s).2 = cola_listos_suspendidos s.
Proof. campos. Qed.
Lemma asignar_proceso_cola_listos i c s : cola_listos (asignar_proceso i c s).2 = cola_listos s.
Proof. campos. Qed.
Lemma asignar_proceso_proceso_en_ejecucion i c s : proceso_en_ejecucion (asignar_proceso i c s).2 = proceso_en_ejecucion s.
Proof. campos. Qed.
Lemma asignar_proceso_procesos_terminados i c s : procesos_terminados (asignar_proceso i c s).2 = procesos_terminados s.
Proof. campos. Qed.
Lemma asignar_proceso_procesos_reporte i c s : procesos_reporte (asignar_proceso i c s).2 = procesos_reporte s.
Proof. campos. Qed.
Lemma liberar_particion_reloj i s : reloj (liberar_particion i s) = reloj s.
Proof. campos. Qed.
Lemma liberar_particion_procesos_nuevos i s : procesos_nuevos (liberar_particion i s) = procesos_nuevos s.
Proof. campos. Qed.
Lemma liberar_particion_cola_listos_suspendidos i s : cola_listos_suspendidos (liberar_particion i s) = cola_listos_suspendidos s.
Proof. campos. Qed.
Lemma liberar_particion_cola_listos i s : cola_listos (liberar_particion i s) = cola_listos s.
Proof. campos. Qed.
Lemma liberar_particion_proceso_en_ejecucion i s : proceso_en_ejecucion (liberar_particion i s) = proceso_en_ejecucion s.
Proof. campos. Qed.
Lemma liberar_particion_procesos_terminados i s : procesos_terminados (liberar_particion i s) = procesos_terminados s.
Proof. campos. Qed.
Lemma liberar_particion_procesos_reporte i s : procesos_reporte (liberar_particion i s) = procesos_reporte s.
Proof. campos. Qed.
Lemma entrar_cpu_reloj c s : reloj (entrar_cpu c s) = reloj s.
Proof. campos. Qed.
Lemma entrar_cpu_procesos_nuevos c s : procesos_nuevos (entrar_cpu c s) = procesos_nuevos s.
Proof. campos. Qed.
Lemma entrar_cpu_cola_listos_suspendidos c s : cola_listos_suspendidos (entrar_cpu c s) = cola_listos_suspendidos s.
Proof. campos. Qed.
Lemma entrar_cpu_cola_listos c s : cola_listos (entrar_cpu c s) = cola_listos s.
Proof. campos. Qed.
Lemma entrar_cpu_proceso_en_ejecucion c s : proceso_en_ejecucion (entrar_cpu c s) = proceso_en_ejecucion s.
Proof. campos. Qed.
Lemma entrar_cpu_procesos_terminados c s : procesos_terminados (entrar_cpu c s) = procesos_terminados s.
Proof. campos. Qed.
Lemma entrar_cpu_procesos_reporte c s : procesos_reporte (entrar_cpu c s) = procesos_reporte s.
Proof. campos. Qed.
Lemma entrar_cpu_particiones c s : particiones (entrar_cpu c s) = particiones s.
Proof. campos. Qed.

Lemma asignar_proceso_length_todos i c s :
  length (todos_procesos (asignar_proceso i c s).2) = length (todos_procesos s).
Proof. unfold asignar_proceso. case_match; simpl; [apply length_alter|done]. Qed.
Lemma asignar_proceso_length_particiones i c s :
  length (particiones (asignar_proceso i c s).2) = length (particiones s).
Proof. unfold asignar_proceso. case_match; simpl; [apply length_alter|done]. Qed.
Lemma liberar_particion_length_todos i s :
  length (todos_procesos (liberar_particion i s)) = length (todos_procesos s).
Proof. unfold liberar_particion. case_match; simpl; [apply length_alter|done]. Qed.
Lemma liberar_particion_length_particiones i s :
  length (particiones (liberar_particion i s)) = length (particiones s).
Proof. unfold liberar_particion. case_match; simpl; apply length_alter. Qed.
Lemma entrar_cpu_length_todos c s :
  length (todos_procesos (entrar_cpu c s)) = length (todos_procesos s).
Proof. unfold entrar_cpu. case_match; simpl; by rewrite ?length_alter. Qed.

Lemma asignar_proceso_cabe s c i :
  cabe_libre s c i →
  asignar_proceso i c s =
  (true, mut c (con_id_particion (Some (par_id_particion (part s i))))
           (mut_part i (con_proceso_asignado (Some c)) s)).
Proof.
  intros [Hl Hf]. unfold asignar_proceso. rewrite Hl. simpl.
  by destruct (Z.leb_spec (tamano (proc s c)) (par_tamano (part s i))); [|lia].
Qed.

Lemma liberar_particion_eq i s :
  liberar_particion i s =
  mut_part i (con_proceso_asignado None)
    match proceso_asignado (part s i) with
    | Some q => mut q (con_id_particion None) s
    | None => s
    end.
Proof. done. Qed.

(** [asignar_proceso], [liberar_particion] and [entrar_cpu] leave alone the
    fields of a process that [con_id_particion], [con_estado] and
    [con_t_primera_ejecucion] leave alone. *)
Lemma asignar_proceso_campo {B} (g : Proceso → B) i c s q :
  (∀ k p, g (con_id_particion k p) = g p) →
  g (proc (asignar_proceso i c s).2 q) = g (proc s q).
Proof.
  intros Hg. unfold asignar_proceso. case_match; cbn; [|done].
  by apply alter_campo.
Qed.

Lemma liberar_particion_campo {B} (g : Proceso → B) i s q :
  (∀ k p, g (con_id_particion k p) = g p) →
  g (proc (liberar_particion i s) q) = g (proc s q).
Proof.
  intros Hg. unfold liberar_particion. case_match; cbn; [|done].
  by apply alter_campo.
Qed.

Lemma entrar_cpu_campo {B} (g : Proceso → B) c s q :
  (∀ e p, g (con_estado e p) = g p) →
  (∀ t p, g (con_t_primera_ejecucion t p) = g p) →
  g (proc (entrar_cpu c s) q) = g (proc s q).
Proof.
  intros Hg1 Hg2. unfold entrar_cpu. case_match; cbn.
  - rewrite alter_campo by done. by apply alter_campo.
  - by apply alter_campo.
Qed.

Lemma fmap_alter_campo {A B} (g : A → B) (f : A → A) (i : nat) (l : list A) :
  (∀ x, g (f x) = g x) → g <$> alter f i l = g <$> l.
Proof.
  intros Hg. revert i. induction l as [|x l IH]; intros [|k]; cbn; [done..| |].
  - by rewrite Hg.
  - by rewrite IH.
Qed.

Lemma asignar_proceso_fmap {B} (g : Proceso → B) i c s :
  (∀ k p, g (con_id_particion k p) = g p) →
  g <$> todos_procesos (asignar_proceso i c s).2 = g <$> todos_procesos s.
Proof.
  intros Hg. unfold asignar_proceso. case_match; cbn; [|done].
  by rewrite fmap_alter_campo.
Qed.

Lemma liberar_particion_fmap {B} (g : Proceso → B) i s :
  (∀ k p, g (con_id_particion k p) = g p) →
  g <$> todos_procesos (liberar_particion i s) = g <$> todos_procesos s.
Proof.
  intros Hg. unfold liberar_particion. case_match; cbn; [|done].
  by rewrite fmap_alter_campo.
Qed.

Lemma entrar_cpu_fmap {B} (g : Proceso → B) c s :
  (∀ e p, g (con_estado e p) = g p) →
  (∀ t p, g (con_t_primera_ejecucion t p) = g p) →
  g <$> todos_procesos (entrar_cpu c s) = g <$> todos_procesos s.
Proof.
  intros Hg1 Hg2. unfold entrar_cpu. case_match; cbn;
    by rewrite !fmap_alter_campo.
Qed.

Lemma asignar_proceso_forma i c s :
  forma <$> particiones (asignar_proceso i c s).2 = forma <$> particiones s.
Proof.
  unfold asignar_proceso. case_match; cbn; [|done]. by rewrite fmap_alter_campo.
Qed.

Lemma liberar_particion_forma i s :
  forma <$> particiones (liberar_particion i s) = forma <$> particiones s.
Proof.
  unfold liberar_particion. case_match; cbn; by rewrite fmap_alter_campo.
Qed.

Lemma entrar_cpu_ne c s q : q ≠ c → proc (entrar_cpu c s) q = proc s q.
Proof.
  intros Hne. unfold entrar_cpu. case_match; cbn;
    by rewrite !list_lookup_total_alter_ne.
Qed.
End Campos.

Opaque asignar_proceso liberar_particion entrar_cpu.

Create Rewrite HintDb campos.
#[export] Hint Rewrite
  asignar_proceso_reloj
  asignar_proceso_procesos_nuevos
  asignar_proceso_cola_listos_suspendidos
  asignar_proceso_cola_listos
  asignar_proceso_proceso_en_ejecucion
  asignar_proceso_procesos_terminados
  asignar_proceso_procesos_reporte
  liberar_particion_reloj
  liberar_particion_procesos_nuevos
  liberar_particion_cola_listos_suspendidos
  liberar_particion_cola_listos
  liberar_particion_proceso_en_ejecucion
  liberar_particion_procesos_terminados
  liberar_particion_procesos_reporte
  entrar_cpu_reloj
  entrar_cpu_procesos_nuevos
  entrar_cpu_cola_listos_suspendidos
  entrar_cpu_cola_listos
  entrar_cpu_proceso_en_ejecucion
  entrar_cpu_procesos_terminados
  entrar_cpu_procesos_reporte
  entrar_cpu_particiones
  asignar_proceso_length_todos asignar_proceso_length_particiones
  liberar_particion_length_todos liberar_particion_length_particiones
  entrar_cpu_length_todos : campos.

Section Aplicar.
Implicit Types (s : Simulador) (c v w : ref) (i k : nat).

Lemma cambio_pasada_elem_of s ch :
  cambio_pasada s = Some (Some ch) →
  ∃ c, c ∈ cola_listos_suspendidos s ∧ decidir (ordenar_suspendidos s) c = Some (Some ch).
Proof.
  intros H. apply buscar_cambio_Some in H as (c & Hc & Hd).
  exists c. split; [|done]. simpl in Hc. by apply elem_of_sorted in Hc.
Qed.

(** The queues after [entrar_a_memoria]. *)
Lemma entrar_a_memoria_colas i c s s' :
  entrar_a_memoria i c s = Some s' →
  py_remove c (cola_listos_suspendidos s) = Some (cola_listos_suspendidos s') ∧
  cola_listos s' = cola_listos s ++ [c] ∧
  procesos_nuevos s' = procesos_nuevos s ∧
  proceso_en_ejecucion s' = proceso_en_ejecucion s ∧
  procesos_terminados s' = procesos_terminados s ∧
  procesos_reporte s' = procesos_reporte s ∧
  reloj s' = reloj s.
Proof.
  unfold entrar_a_memoria.
  destruct (py_remove c (cola_listos_suspendidos s)) as [ls|]; cbn; [|done].
  intros [= <-]. cbn. autorewrite with campos. done.
Qed.

Lemma entrar_a_memoria_Some i c s :
  c ∈ cola_listos_suspendidos s → is_Some (entrar_a_memoria i c s).
Proof.
  intros Hc. unfold entrar_a_memoria.
  destruct (py_remove_Some _ _ Hc) as [ls ->]. by eexists.
Qed.

(** The queues after [sacar_de_memoria]. *)
Lemma sacar_de_memoria_colas v i s s' :
  sacar_de_memoria v i s = Some s' →
  cola_listos_suspendidos s' = cola_listos_suspendidos s ++ [v] ∧
  (if bool_decide (Some v = proceso_en_ejecucion s)
   then proceso_en_ejecucion s' = None ∧ cola_listos s' = cola_listos s
   else proceso_en_ejecucion s' = proceso_en_ejecucion s ∧
        py_remove v (cola_listos s) = Some (cola_listos s')) ∧
  procesos_nuevos s' = procesos_nuevos s ∧
  procesos_terminados s' = procesos_terminados s ∧
  procesos_reporte s' = procesos_reporte s ∧
  reloj s' = reloj s.
Proof.
  unfold sacar_de_memoria. case_bool_decide as Hrun; cbn.
  - intros [= <-]. cbn. autorewrite with campos. done.
  - destruct (py_remove v (cola_listos s)) as [l|]; cbn; [|done].
    intros [= <-]. cbn. autorewrite with campos. done.
Qed.

Lemma sacar_de_memoria_Some v i s :
  v ∈ residentes s → is_Some (sacar_de_memoria v i s).
Proof.
  intros Hv. unfold sacar_de_memoria. case_bool_decide as Hrun; cbn; [by eexists|].
  unfold residentes in Hv. apply elem_of_app in Hv as [Hv|Hv].
  - destruct (py_remove_Some _ _ Hv) as [l ->]. by eexists.
  - destruct (proceso_en_ejecucion s); cbn in Hv; [|by apply elem_of_nil in Hv].
    apply list_elem_of_singleton in Hv as ->. done.
Qed.

Lemma aplicar_admision i c s s1 :
  entrar_a_memoria i c s = Some s1 →
  aplicar (CAdmision c i) s =
  Some (registrar (EvAdmision (id_proceso (proc s1 c)) (tamano (proc s1 c))
                     (par_id_particion (part s1 i)) (par_tamano (part s1 i))
                     (fragmentacion_interna s1 i)) s1).
Proof. intros H. unfold aplicar. by rewrite H. Qed.

Lemma aplicar_swap i c v s s1 s2 :
  sacar_de_memoria v i s = Some s1 →
  entrar_a_memoria i c s1 = Some s2 →
  aplicar (CSwap c v i) s =
  Some (registrar (EvSwap (id_proceso (proc s2 v)) (t_restante (proc s2 v))
                     (id_proceso (proc s2 c)) (t_restante (proc s2 c))
                     (par_id_particion (part s2 i))) s2).
Proof. intros H1 H2. unfold aplicar. rewrite H1. cbn. by rewrite H2. Qed.
End Aplicar.

(** C5. Whenever one pass of the admission loop places a Suspended process
    [c] into partition [i] by the normal (non-swap) branch, partition [i] is
    free and not reserved, [c] fits in it, and its internal fragmentation
    [capacity - size] is the least among all free partitions where [c]
    fits; a partition with the same fragmentation is not smaller.  After
    the pass, partition [i] holds [c] and [c] is in the Ready queue. *)
Theorem best_fit_placement (s : Simulador) (c : ref) (i : nat) :
  cambio_pasada s = Some (Some (CAdmision c i)) →
  c ∈ cola_listos_suspendidos s ∧
  (i < length (particiones s))%nat ∧
  proceso_asignado (part s i) = None ∧ es_so (part s i) = false ∧
  tamano (proc s c) ≤ par_tamano (part s i) ∧
  (∀ j, (j < length (particiones s))%nat → esta_libre (part s j) = true →
        tamano (proc s c) ≤ par_tamano (part s j) →
        par_tamano (part s i) - tamano (proc s c) ≤ par_tamano (part s j) - tamano (proc s c) ∧
        (par_tamano (part s i) - tamano (proc s c) = par_tamano (part s j) - tamano (proc s c) →
         par_tamano (part s i) ≤ par_tamano (part s j))) ∧
  ∃ s', pasada s = Some (s', true) ∧ proceso_asignado (part s' i) = Some c ∧ c ∈ cola_listos s'.
Proof.
  intros Hch. pose proof Hch as Hch'.
  apply cambio_pasada_elem_of in Hch as (c0 & Hc & Hd).
  apply decidir_admision in Hd as (<- & Hmem & Hbest).
  apply encontrar_mejor_particion_spec in Hbest as (Hi & [Hlib Hfit] & Hmin).
  apply elem_of_libres in Hi as [Hi _].
  change (particiones (ordenar_suspendidos s)) with (particiones s) in *.
  change (todos_procesos (ordenar_suspendidos s)) with (todos_procesos s) in *.
  assert (proceso_asignado (part s i) = None ∧ es_so (part s i) = false) as [Hnone Hso].
  { unfold esta_libre in Hlib. destruct (proceso_asignado (part s i)); [done|].
    by destruct (es_so (part s i)). }
  split_and!; try done.
  - intros j Hj Hjl Hjf.
    assert (par_tamano (part s i) ≤ par_tamano (part s j)).
    { apply Hmin; [|done]. by apply elem_of_libres. }
    lia.
  - unfold pasada. rewrite Hch'.
    destruct (entrar_a_memoria_Some i c (ordenar_suspendidos s)) as [s1 Hs1];
      [by apply elem_of_sorted|].
    cbn [mbind option_bind]. rewrite (aplicar_admision _ _ _ _ Hs1).
    eexists. split; [done|]. cbn.
    pose proof (entrar_a_memoria_colas _ _ _ _ Hs1) as (_ & -> & _).
    split; [|apply elem_of_app; right; by left].
    unfold entrar_a_memoria in Hs1.
    destruct (py_remove _ _) as [ls|]; cbn in Hs1; [|done].
    injection Hs1 as <-. rewrite asignar_proceso_cabe by done. cbn.
    by rewrite list_lookup_total_alter_eq.
Qed.

Lemma best_fit_placement_witness :
  cambio_pasada ejemplo_admision = Some (Some (CAdmision 1%nat 3%nat)) ∧
  par_tamano (part ejemplo_admision 3%nat) - tamano (proc ejemplo_admision 1%nat)
  ≤ par_tamano (part ejemplo_admision 2%nat) - tamano (proc ejemplo_admision 1%nat).
Proof.
  assert (cambio_pasada ejemplo_admision = Some (Some (CAdmision 1%nat 3%nat))) as H
    by (vm_compute; reflexivity).
  split; [exact H|].
  destruct (best_fit_placement ejemplo_admision 1%nat 3%nat H)
    as (_ & _ & _ & _ & _ & Hmin & _).
  destruct (Hmin 2%nat) as [Hle _];
    [simpl; lia|reflexivity|vm_compute; discriminate|exact Hle].
Defined.

(** C6. Whenever one pass of the admission loop swaps, loading the
    Suspended process [c] in place of the resident [v] whose partition is
    [i]: the victim's remaining time is strictly larger than the
    candidate's, the vacated partition is large enough for the candidate,
    and among the residents whose partition is large enough for the
    candidate the victim has the largest remaining time and, among those
    with that remaining time, the largest id.  After the pass the victim is
    Suspended and the candidate is in the Ready queue. *)
Theorem swap_soundness (s : Simulador) (c v : ref) (i : nat) :
  cambio_pasada s = Some (Some (CSwap c v i)) →
  c ∈ cola_listos_suspendidos s ∧ v ∈ residentes s ∧
  procesos_en_memoria s = 3%nat ∧
  t_restante (proc s c) < t_restante (proc s v) ∧
  id_particion (proc s v) = Some i ∧ (i < length (particiones s))%nat ∧
  tamano (proc s c) ≤ par_tamano (part s i) ∧
  (∀ w k, w ∈ residentes s → id_particion (proc s w) = Some k →
          tamano (proc s c) ≤ par_tamano (part s k) →
          t_restante (proc s w) < t_restante (proc s v)
          ∨ (t_restante (proc s w) = t_restante (proc s v)
             ∧ id_proceso (proc s w) ≤ id_proceso (proc s v))) ∧
  ∃ s', pasada s = Some (s', true) ∧
        v ∈ cola_listos_suspendidos s' ∧ c ∈ cola_listos s'.
Proof.
  intros Hch. pose proof Hch as Hch'.
  apply cambio_pasada_elem_of in Hch as (c0 & Hc & Hd).
  apply decidir_swap in Hd as (<- & Hmem & validas & Hval & Hmax & Hlt & Hk & Hp).
  change (particiones (ordenar_suspendidos s)) with (particiones s) in *.
  change (todos_procesos (ordenar_suspendidos s)) with (todos_procesos s) in *.
  change (residentes (ordenar_suspendidos s)) with (residentes s) in *.
  change (procesos_en_memoria (ordenar_suspendidos s)) with (procesos_en_memoria s) in *.
  change (particiones (ordenar_suspendidos s)) with (particiones s) in *.
  apply victimas_validas_spec in Hval as [Hpart Hval].
  apply (py_max_spec _ _ lex2_leb_total lex2_leb_trans) in Hmax as [Hv Hmax].
  apply Hval in Hv as (Hv & k' & Hk' & Hfit).
  change (particiones (ordenar_suspendidos s)) with (particiones s) in *.
  change (todos_procesos (ordenar_suspendidos s)) with (todos_procesos s) in *.
  rewrite Hk in Hk'. injection Hk' as <-.
  destruct Hp as [p Hp]. apply lookup_particiones in Hp as [Hi _].
  split_and!; try done.
  - intros w k Hw Hwk Hwf.
    assert (w ∈ validas) as Hwv by (apply Hval; eauto).
    apply Hmax in Hwv. unfold key_le in Hwv. apply lex2_leb_spec in Hwv.
    simpl in Hwv. done.
  - unfold pasada. rewrite Hch'.
    assert (c ≠ v) as Hcv by (intros ->; lia).
    destruct (sacar_de_memoria_Some v i (ordenar_suspendidos s)) as [s1 Hs1]; [done|].
    pose proof (sacar_de_memoria_colas _ _ _ _ Hs1) as (Hls1 & _).
    destruct (entrar_a_memoria_Some i c s1) as [s2 Hs2].
    { rewrite Hls1. apply elem_of_app. left. by apply elem_of_sorted. }
    pose proof (entrar_a_memoria_colas _ _ _ _ Hs2) as (Hls2 & Hl2 & _).
    cbn [mbind option_bind]. rewrite (aplicar_swap _ _ _ _ _ _ Hs1 Hs2).
    eexists. split; [done|]. cbn. split.
    + eapply py_remove_elem_of; [exact Hls2|done|].
      rewrite Hls1. apply elem_of_app. right. by left.
    + rewrite Hl2. apply elem_of_app. right. by left.
Qed.

Lemma swap_soundness_witness :
  cambio_pasada ejemplo_swap = Some (Some (CSwap 3%nat 0%nat 1%nat)) ∧
  t_restante (proc ejemplo_swap 3%nat) < t_restante (proc ejemplo_swap 0%nat).
Proof.
  assert (cambio_pasada ejemplo_swap = Some (Some (CSwap 3%nat 0%nat 1%nat))) as H
    by (vm_compute; reflexivity).
  split; [exact H|].
  by destruct (swap_soundness ejemplo_swap 3%nat 0%nat 1%nat H) as (_ & _ & _ & Hlt & _).
Defined.

(** ** The scheduler *)

Section Planificador.
Implicit Types (s : Simulador) (r p : ref).

Lemma clave_srtf_le s x y :
  key_le (clave_srtf s) lex3_leb x y →
  ¬ t_restante (proc s y) < t_restante (proc s x) ∧
  ¬ (t_restante (proc s y) = t_restante (proc s x) ∧
     t_llegada_listo (proc s y) < t_llegada_listo (proc s x)).
Proof. unfold key_le. rewrite lex3_leb_spec. cbn. lia. Qed.

Lemma clave_srtf_ext s s' x y :
  (∀ q, t_restante (proc s' q) = t_restante (proc s q)) →
  (∀ q, t_llegada_listo (proc s' q) = t_llegada_listo (proc s q)) →
  (∀ q, id_proceso (proc s' q) = id_proceso (proc s q)) →
  key_le (clave_srtf s) lex3_leb x y → key_le (clave_srtf s') lex3_leb x y.
Proof. unfold key_le, clave_srtf. intros H1 H2 H3. by rewrite !H1, !H2, !H3. Qed.

Lemma sorted_srtf_head s l x l' y :
  sorted (clave_srtf s) lex3_leb l = x :: l' → y ∈ l' →
  key_le (clave_srtf s) lex3_leb x y.
Proof.
  intros Hs Hy. eapply (sorted_head _ _ lex3_leb_total lex3_leb_trans); [exact Hs|].
  eapply elem_of_sorted. rewrite Hs. by right.
Qed.

(** The four outcomes of [_ejecutar_planificador]. *)
Lemma planificador_casos s s' :
  _ejecutar_planificador s = Some s' →
  (cola_listos s = [] ∧ s' = s) ∨
  (∃ r l ev,
      proceso_en_ejecucion s = None ∧
      sorted (clave_srtf s) lex3_leb (cola_listos s) = r :: l ∧
      s' = registrar ev (entrar_cpu r (con_ejecucion (Some r) (con_listos l s)))) ∨
  (∃ run c l,
      proceso_en_ejecucion s = Some run ∧
      sorted (clave_srtf s) lex3_leb (cola_listos s) = c :: l ∧
      desaloja s c run = false ∧
      s' = con_listos (c :: l) s) ∨
  (∃ run c l ent l' ev,
      proceso_en_ejecucion s = Some run ∧
      sorted (clave_srtf s) lex3_leb (cola_listos s) = c :: l ∧
      desaloja s c run = true ∧
      sorted (clave_srtf (a_listo run s)) lex3_leb (c :: l ++ [run]) = ent :: l' ∧
      s' = registrar ev (con_ejecucion (Some ent) (entrar_cpu ent (con_listos l' (a_listo run s))))).
Proof.
  unfold _ejecutar_planificador, _encontrar_proceso_srtf.
  destruct (cola_listos s) as [|x0 l0] eqn:El.
  { destruct (proceso_en_ejecucion s); intros [= <-]; by left. }
  assert (sorted (clave_srtf s) lex3_leb (cola_listos s) ≠ []) as Hne.
  { intros Es. apply (f_equal length) in Es.
    rewrite (sorted_length _ _), El in Es. done. }
  rewrite <- El. clear x0 l0 El. cbn.
  destruct (sorted (clave_srtf s) lex3_leb (cola_listos s)) as [|c l] eqn:Es; [done|].
  clear Hne. cbn.
  destruct (proceso_en_ejecucion s) as [run|] eqn:Er.
  - fold (desaloja s c run). destruct (desaloja s c run) eqn:Hcond; intros H.
    + right. right. right.
      change (sorted (clave_srtf _)) with (sorted (clave_srtf (a_listo run s))) in H.
      destruct (sorted (clave_srtf (a_listo run s)) lex3_leb (c :: l ++ [run]))
        as [|ent l'] eqn:Es2; [done|].
      injection H as <-. exists run, c, l, ent, l'. eexists. split_and!; try done.
    + injection H as <-. right. right. left. exists run, c, l. done.
  - intros [= <-]. right. left. exists c, l. eexists. split_and!; done.
Qed.

Lemma planificador_srtf s s' :
  _ejecutar_planificador s = Some s' → srtf_respetado s'.
Proof.
  intros H. apply planificador_casos in H
    as [[Hl ->]|[(r & l & ev & Hr & Hs & ->)|[(run & c & l & Hr & Hs & Hc & ->)
        |(run & c & l & ent & l' & ev & Hr & Hs & Hc & Hs2 & ->)]]];
    intros run' p Hrun Hp; cbn in Hrun, Hp.
  - rewrite Hl in Hp. by apply elem_of_nil in Hp.
  - autorewrite with campos in Hrun, Hp. cbn in Hrun, Hp. injection Hrun as <-.
    cbn. rewrite !(entrar_cpu_campo t_restante), !(entrar_cpu_campo t_llegada_listo) by done.
    cbn. apply (clave_srtf_le s). by eapply sorted_srtf_head.
  - rewrite Hr in Hrun. injection Hrun as <-. cbn.
    assert (key_le (clave_srtf s) lex3_leb c p) as Hcp.
    { apply elem_of_cons in Hp as [->|Hp];
        [apply (leb_refl lex3_leb lex3_leb_total)|].
      by eapply sorted_srtf_head. }
    apply clave_srtf_le in Hcp. unfold desaloja in Hc.
    apply orb_false_iff in Hc as [H1 H2].
    apply Z.ltb_ge in H1. apply andb_false_iff in H2.
    rewrite Z.eqb_neq, Z.ltb_ge in H2. lia.
  - injection Hrun as <-. autorewrite with campos in Hp. cbn in Hp.
    cbn. rewrite !(entrar_cpu_campo t_restante), !(entrar_cpu_campo t_llegada_listo) by done.
    apply (clave_srtf_le (a_listo run s)). by eapply sorted_srtf_head.
Qed.
End Planificador.

(** ** Every observable state is the result of the scheduler *)

Lemma tick_planificador (s s' : Simulador) :
  tick s = Some s' → ∃ s0, _ejecutar_planificador s0 = Some s'.
Proof.
  unfold tick. intros H.
  apply bind_Some in H as (s1 & _ & H).
  apply bind_Some in H as (s2 & _ & H).
  by exists s2.
Qed.

Lemma init_planificador (procesos : list Proceso) (s' : Simulador) :
  Simulador_init procesos = Some s' → ∃ s0, _ejecutar_planificador s0 = Some s'.
Proof.
  unfold Simulador_init, _guardar_estado_inicial. intros H.
  destruct (popleft_mientras _ _) as [arribados n].
  apply bind_Some in H as (s2 & _ & H).
  by exists s2.
Qed.

Lemma get_reporte_final_estado (s s' : Simulador) (rep : Reporte) :
  get_reporte_final s = Some (rep, s') →
  s' = con_reporte (sorted (λ r, id_proceso (proc s r)) Z.leb (procesos_reporte s)) s.
Proof.
  unfold get_reporte_final. intros H.
  apply bind_Some in H as (pr & _ & H).
  apply bind_Some in H as (th & _ & H).
  by injection H as _ <-.
Qed.

(** C7. In every state the GUI observes (after the constructor and after
    every completed tick), when a process is Running no process of the
    Ready queue has a strictly smaller remaining time, and none has the same
    remaining time together with a strictly earlier [t_llegada_listo]. *)
Theorem srtf_correctness (procesos : list Proceso) (s : Simulador) :
  alcanzable procesos s →
  ∀ run p, proceso_en_ejecucion s = Some run → p ∈ cola_listos s →
    ¬ t_restante (proc s p) < t_restante (proc s run) ∧
    ¬ (t_restante (proc s p) = t_restante (proc s run) ∧
       t_llegada_listo (proc s p) < t_llegada_listo (proc s run)).
Proof.
  intros Halc. change (srtf_respetado s).
  induction Halc as [s H|s s' _ _ H|s rep s' _ IH H].
  - apply init_planificador in H as [s0 H]. by eapply planificador_srtf.
  - apply tick_planificador in H as [s0 H]. by eapply planificador_srtf.
  - apply get_reporte_final_estado in H as ->. exact IH.
Qed.

Lemma srtf_correctness_witness :
  ∃ s, Simulador_init procesos_escenario = Some s ∧
       proceso_en_ejecucion s = Some 1%nat ∧ 0%nat ∈ cola_listos s ∧
       ¬ t_restante (proc s 0%nat) < t_restante (proc s 1%nat).
Proof.
  destruct (Simulador_init procesos_escenario) as [s|] eqn:E;
    [|vm_compute in E; discriminate].
  assert (proceso_en_ejecucion s = Some 1%nat ∧ cola_listos s = [0%nat]) as [Hr Hl].
  { vm_compute in E. injection E as <-. done. }
  exists s. split_and!; [done|done|rewrite Hl; by left|].
  apply (srtf_correctness procesos_escenario s (alc_init _ _ E) 1%nat 0%nat Hr).
  rewrite Hl. by left.
Defined.

(** ** The final report *)

Section Reporte.
Implicit Types (s : Simulador) (a : Acumulado) (r : ref) (l : list ref).

Lemma acumular_contados s l a :
  ac_contados (foldl (acumular s) a l) =
  ac_contados a + Z.of_nat (length (filter (λ r, t_fin (proc s r) ≠ -1) l)).
Proof.
  revert a. induction l as [|r l IH]; intros a; [cbn; lia|].
  rewrite filter_cons. cbn [foldl]. rewrite IH. unfold acumular.
  destruct (Z.eqb_spec (t_fin (proc s r)) (-1)) as [He|He]; cbn [negb].
  - rewrite decide_False by (by intros ?).
    by destruct (bool_decide _ && _).
  - rewrite decide_True by done. cbn [ac_contados length]. lia.
Qed.

Lemma acumular_filas s l a f :
  f ∈ ac_filas (foldl (acumular s) a l) →
  f ∈ ac_filas a ∨
  match f with
  | FilaMetricas pid arribo primera fin servicio espera respuesta retorno =>
    ∃ r, r ∈ l ∧ t_fin (proc s r) ≠ -1 ∧
         pid = id_proceso (proc s r) ∧ arribo = t_arribo (proc s r) ∧
         primera = t_primera_ejecucion (proc s r) ∧ fin = t_fin (proc s r) ∧
         servicio = t_irrupcion (proc s r) ∧
         retorno = t_fin (proc s r) - t_arribo (proc s r) ∧
         espera = retorno - t_irrupcion (proc s r) ∧
         respuesta = t_primera_ejecucion (proc s r) - t_arribo (proc s r)
  | FilaNoAdmitido pid arribo servicio tam =>
    ∃ r, r ∈ l ∧ t_fin (proc s r) = -1 ∧
         estado (proc s r) = LS ∧ _cabe_en_alguna_particion s r = false ∧
         pid = id_proceso (proc s r) ∧ arribo = t_arribo (proc s r) ∧
         servicio = t_irrupcion (proc s r) ∧ tam = tamano (proc s r)
  end.
Proof.
  revert a. induction l as [|r l IH]; intros a Hf; cbn in Hf; [by left|].
  apply IH in Hf as [Hf|Hf].
  - unfold acumular in Hf.
    destruct (Z.eqb_spec (t_fin (proc s r)) (-1)) as [He|He]; cbn in Hf.
    + destruct (bool_decide (estado (proc s r) = LS)) eqn:Hls; cbn in Hf; [|by left].
      apply bool_decide_eq_true in Hls.
      destruct (_cabe_en_alguna_particion s r) eqn:Hcabe; cbn in Hf; [by left|].
      apply elem_of_app in Hf as [Hf|Hf]; [by left|].
      apply list_elem_of_singleton in Hf as ->. right.
      exists r. split_and!; try done. by left.
    + apply elem_of_app in Hf as [Hf|Hf]; [by left|].
      apply list_elem_of_singleton in Hf as ->. right.
      exists r. split_and!; try done. by left.
  - right. destruct f; destruct Hf as (r' & Hr' & Hrest); exists r';
      (split; [by right|done]).
Qed.

Lemma filter_ninguno (P : ref → Prop) `{!∀ x, Decision (P x)} l :
  (∀ r, r ∈ l → ¬ P r) → filter P l = [].
Proof.
  induction l as [|r l IH]; intros Hn; [done|].
  rewrite filter_cons_False by (apply Hn; by left).
  apply IH. intros q Hq. apply Hn. by right.
Qed.

Lemma dividir_Some (x y : Z) :
  y ≠ 0 → desborda x y = false → dividir x y = Some (mkCociente x y).
Proof. intros Hy Hd. unfold dividir. rewrite Hd. by destruct (Z.eqb_spec y 0). Qed.

Lemma dividir_inv (x y : Z) (q : Cociente) :
  dividir x y = Some q → q = mkCociente x y ∧ y ≠ 0 ∧ desborda x y = false.
Proof.
  unfold dividir. destruct (Z.eqb_spec y 0); [done|].
  destruct (desborda x y); [done|]. by intros [= <-].
Qed.
End Reporte.

(** ** The selection of the cohort *)

Section Preparar.
Implicit Types (s : Simulador) (r : ref) (l sel : list ref).

Lemma reiniciar_foldl sel s :
  let s' := foldl (λ s p, mut p reiniciar s) s sel in
  length (todos_procesos s') = length (todos_procesos s) ∧
  (∀ r, r ∈ sel → (r < length (todos_procesos s))%nat →
        proc s' r = reiniciar (proc s r)) ∧
  (∀ r, r ∉ sel → proc s' r = proc s r) ∧
  cola_listos_suspendidos s' = cola_listos_suspendidos s ∧
  cola_listos s' = cola_listos s ∧
  proceso_en_ejecucion s' = proceso_en_ejecucion s ∧
  procesos_terminados s' = procesos_terminados s ∧
  particiones s' = particiones s ∧ reloj s' = reloj s ∧
  eventos_del_tick s' = eventos_del_tick s.
Proof.
  revert s. induction sel as [|p sel IH]; intros s; cbn.
  - split_and!; try done. by intros r ?%elem_of_nil.
  - destruct (IH (mut p reiniciar s)) as (Hlen & Hin & Hout & ? & ? & ? & ? & ? & ? & ?).
    cbn in *.
    rewrite length_alter in Hlen, Hin. split_and!; try done.
    + intros r Hr Hlt. destruct (decide (r ∈ sel)) as [Hrs|Hrs].
      * rewrite Hin by done.
        destruct (decide (r = p)) as [->|Hne].
        -- rewrite list_lookup_total_alter_eq by done. done.
        -- by rewrite list_lookup_total_alter_ne.
      * rewrite Hout by done. apply elem_of_cons in Hr as [->|Hr]; [|done].
        by rewrite list_lookup_total_alter_eq.
    + intros r Hr. apply not_elem_of_cons in Hr as [Hne Hr].
      rewrite Hout by done. by rewrite list_lookup_total_alter_ne.
Qed.

Lemma StronglySorted_impl {A} (R R' : A → A → Prop) (l : list A) :
  (∀ x y, R x y → R' x y) → StronglySorted R l → StronglySorted R' l.
Proof.
  intros HR. induction 1 as [|x l Hl IH Hx]; constructor; [done|].
  eapply Forall_impl; [exact Hx|]. apply HR.
Qed.

Lemma clave_arribo_le procesos s a b :
  todos_procesos s = procesos →
  key_le (clave_arribo s) lex2_leb a b ↔ antes_por_arribo procesos a b.
Proof. intros <-. unfold key_le. by rewrite lex2_leb_spec. Qed.

(** What both [_preparar_colas] do with the candidates [cands]. *)
Lemma seleccion_spec procesos (cands : list ref) :
  let s0 := estado_vacio procesos in
  let orden := sorted (clave_arribo s0) lex2_leb cands in
  let sel := take 10 orden in
  let s := con_reporte sel (con_nuevos sel (foldl (λ s p, mut p reiniciar s) s0 sel)) in
  (∀ r, r ∈ cands → (r < length procesos)%nat) →
  sel ++ drop 10 orden ≡ₚ cands ∧
  StronglySorted (antes_por_arribo procesos) (sel ++ drop 10 orden) ∧
  length sel = (10 `min` length cands)%nat ∧
  procesos_nuevos s = sel ∧ procesos_reporte s = sel ∧
  cola_listos_suspendidos s = [] ∧ cola_listos s = [] ∧
  proceso_en_ejecucion s = None ∧ procesos_terminados s = [] ∧
  (∀ r, r ∈ sel → recien_preparado (procesos !!! r) (proc s r)) ∧
  (∀ r, r ∉ sel → proc s r = procesos !!! r).
Proof.
  intros s0 orden sel s Hrango.
  destruct (reiniciar_foldl sel s0)
    as (Hlen & Hin & Hout & Hls & Hl & Hrun & Hterm & _).
  assert (sel ++ drop 10 orden = orden) as -> by apply take_drop.
  split_and!; try done.
  - apply sorted_perm.
  - eapply StronglySorted_impl;
      [|apply (sorted_sorted _ _ lex2_leb_total lex2_leb_trans)].
    intros x y. by apply clave_arribo_le.
  - unfold sel, orden. by rewrite length_take, sorted_length.
  - intros r Hr. cbn. rewrite Hin; [done|done|].
    apply Hrango. apply (subseteq_take 10) in Hr. by apply elem_of_sorted in Hr.
Qed.
End Preparar.

(** ** Consequences of the invariant *)

Section Invariante.
Context (procesos : list Proceso).
Implicit Types (s : Simulador) (r c v : ref) (i k : nat).

Lemma elem_of_cohorte r : r ∈ cohorte procesos → (r < length procesos)%nat.
Proof.
  intros Hr. apply (subseteq_take 10) in Hr. apply elem_of_sorted in Hr.
  apply elem_of_seq in Hr. lia.
Qed.

Lemma inv_length s : inv procesos s → length (todos_procesos s) = length procesos.
Proof.
  intros [_ _ _ Hd _ _ _ _]. apply (f_equal length) in Hd.
  by rewrite !length_fmap in Hd.
Qed.

Lemma inv_rango s r :
  inv procesos s → r ∈ colas s → (r < length (todos_procesos s))%nat.
Proof.
  intros Hinv Hr. rewrite (inv_length s Hinv).
  apply elem_of_cohorte. by rewrite <- (inv_cohorte _ _ Hinv), <- (inv_reporte _ _ Hinv).
Qed.

Lemma inv_length_particiones s : inv procesos s → length (particiones s) = 4%nat.
Proof.
  intros [_ _ _ _ Hf _ _ _]. apply (f_equal length) in Hf.
  by rewrite !length_fmap in Hf.
Qed.

Lemma inv_forma_part s k :
  inv procesos s → forma (part s k) = forma (particiones_iniciales !!! k).
Proof.
  intros Hinv. pose proof (inv_forma _ _ Hinv) as Hf.
  pose proof (inv_length_particiones s Hinv) as Hlen.
  destruct (decide (k < 4)%nat) as [Hk|Hk].
  - rewrite <- (list_lookup_total_fmap forma (particiones s) k) by (rewrite Hlen; lia).
    rewrite <- (list_lookup_total_fmap forma particiones_iniciales k) by (cbn; lia).
    by rewrite Hf.
  - rewrite !list_lookup_total_alt, !lookup_ge_None_2 by (rewrite ?Hlen; cbn; lia).
    done.
Qed.

(** A partition that is not the reserved one is one of the three user
    partitions, its id is its position and it holds at most 250 KB. *)
Lemma inv_part_usuario s k :
  inv procesos s → es_so (part s k) = false →
  (0 < k < 4)%nat ∧ par_id_particion (part s k) = k ∧ par_tamano (part s k) ≤ 250.
Proof.
  intros Hinv Hso. pose proof (inv_forma_part s k Hinv) as Hf.
  unfold forma in Hf. injection Hf as Hid Htam Hso' _.
  rewrite Hso in Hso'. rewrite Hid, Htam.
  destruct k as [|[|[|[|k]]]]; cbn in *; try done; split_and!; lia.
Qed.

Lemma bien_alojado_usuario s r k :
  inv procesos s → r ∈ residentes s → id_particion (proc s r) = Some k →
  (0 < k < 4)%nat ∧ proceso_asignado (part s k) = Some r ∧
  es_so (part s k) = false ∧ par_id_particion (part s k) = k ∧
  particiones s !! k = Some (part s k).
Proof.
  intros Hinv Hr Hk. destruct (inv_residentes _ _ Hinv r Hr) as (k' & Hk' & Hlt & Has & Hso).
  rewrite Hk in Hk'. injection Hk' as <-.
  destruct (inv_part_usuario s k Hinv Hso) as (? & ? & _).
  split; [done|]. split_and!; try done. by apply list_lookup_lookup_total_lt.
Qed.

Lemma elem_of_colas s r :
  r ∈ colas s ↔
  r ∈ procesos_nuevos s ∨ r ∈ cola_listos_suspendidos s ∨ r ∈ cola_listos s
  ∨ proceso_en_ejecucion s = Some r ∨ r ∈ procesos_terminados s.
Proof.
  unfold colas. rewrite !elem_of_app.
  destruct (proceso_en_ejecucion s) as [run|]; cbn.
  - rewrite list_elem_of_singleton. naive_solver.
  - rewrite elem_of_nil. naive_solver.
Qed.

Lemma elem_of_residentes s r :
  r ∈ residentes s ↔ r ∈ cola_listos s ∨ proceso_en_ejecucion s = Some r.
Proof.
  unfold residentes. rewrite elem_of_app.
  destruct (proceso_en_ejecucion s) as [run|]; cbn.
  - rewrite list_elem_of_singleton. naive_solver.
  - rewrite elem_of_nil. naive_solver.
Qed.

Lemma elem_of_en_sistema s r :
  r ∈ en_sistema s ↔ r ∈ cola_listos_suspendidos s ∨ r ∈ residentes s.
Proof. unfold en_sistema. by rewrite elem_of_app. Qed.

Lemma colas_en_sistema s :
  colas s = procesos_nuevos s ++ en_sistema s ++ procesos_terminados s.
Proof. unfold colas, en_sistema, residentes. by rewrite <- !(assoc_L (++)). Qed.

(** The queues are pairwise disjoint. *)
Lemma inv_disjuntos s :
  NoDup (colas s) →
  NoDup (procesos_nuevos s) ∧ NoDup (cola_listos_suspendidos s) ∧
  NoDup (residentes s) ∧ NoDup (procesos_terminados s) ∧
  (∀ r, r ∈ procesos_nuevos s → (r ∉ en_sistema s) ∧ (r ∉ procesos_terminados s)) ∧
  (∀ r, r ∈ cola_listos_suspendidos s →
        (r ∉ residentes s) ∧ (r ∉ procesos_terminados s)) ∧
  (∀ r, r ∈ residentes s → r ∉ procesos_terminados s).
Proof.
  rewrite colas_en_sistema. unfold en_sistema.
  intros (Hn & Hn' & ((Hls & Hls' & Hres)%NoDup_app & Hsis & Hterm)%NoDup_app)%NoDup_app.
  split_and!; try done.
  - intros r Hr. specialize (Hn' r Hr). rewrite elem_of_app in Hn'. naive_solver.
  - intros r Hr. split; [by apply Hls'|].
    apply Hsis. apply elem_of_app. by left.
  - intros r Hr. apply Hsis. apply elem_of_app. by right.
Qed.

(** A step that keeps the populations, the immutable data and the three
    object-level properties keeps the invariant. *)
Lemma inv_paso s s' :
  inv procesos s →
  colas s' ≡ₚ colas s →
  procesos_reporte s' ≡ₚ procesos_reporte s →
  datos <$> todos_procesos s' = datos <$> todos_procesos s →
  forma <$> particiones s' = forma <$> particiones s →
  (∀ r, r ∈ residentes s' → bien_alojado s' r) →
  (∀ r, r ∈ procesos_nuevos s' ++ en_sistema s' → t_fin (proc s' r) = -1) →
  (∀ r, r ∈ cola_listos_suspendidos s' → estado (proc s' r) = LS) →
  inv procesos s'.
Proof.
  intros [Hnd Hrep Hcoh Hdat Hfor Hres Htf Hls] Hc Hr Hd Hf Hres' Htf' Hls'.
  constructor; try done.
  - by rewrite Hc.
  - by rewrite Hc, Hr.
  - by rewrite Hr.
  - by rewrite Hd.
  - by rewrite Hf.
Qed.

Lemma inv_registrar s ev : inv procesos s → inv procesos (registrar ev s).
Proof. intros Hinv. by apply (inv_paso s); try apply Hinv. Qed.

Lemma inv_ordenar s : inv procesos s → inv procesos (ordenar_suspendidos s).
Proof.
  intros Hinv. apply (inv_paso s); try done; cbn.
  - unfold colas. cbn. by rewrite sorted_perm.
  - apply Hinv.
  - intros r Hr. apply (inv_tfin _ _ Hinv).
    revert Hr. unfold en_sistema. cbn. by rewrite sorted_perm.
  - intros r Hr. apply (inv_ls _ _ Hinv). by apply elem_of_sorted in Hr.
Qed.

Lemma entrar_a_memoria_cabe i c s ls :
  cabe_libre s c i → py_remove c (cola_listos_suspendidos s) = Some ls →
  entrar_a_memoria i c s =
  Some (con_listos (cola_listos s ++ [c])
          (mut c (con_t_llegada_listo (reloj s))
             (mut c (con_estado LISTO)
                (mut c (con_id_particion (Some (par_id_particion (part s i))))
                   (mut_part i (con_proceso_asignado (Some c))
                      (con_suspendidos ls s)))))).
Proof.
  intros Hc Hls. unfold entrar_a_memoria. rewrite Hls. cbn.
  by rewrite (asignar_proceso_cabe (con_suspendidos ls s) c i Hc).
Qed.

(** Loading a Suspended process into a free partition where it fits. *)
Lemma inv_entrar_a_memoria i c s s' :
  inv procesos s → c ∈ cola_listos_suspendidos s → cabe_libre s c i →
  (i < length (particiones s))%nat →
  entrar_a_memoria i c s = Some s' → inv procesos s'.
Proof.
  intros Hinv Hc Hcabe Hi Hs'.
  destruct (py_remove_Some _ _ Hc) as [ls Hls].
  rewrite (entrar_a_memoria_cabe i c s ls Hcabe Hls) in Hs'. injection Hs' as <-.
  destruct (inv_disjuntos s (inv_nodup _ _ Hinv))
    as (_ & Hndls & _ & _ & _ & Hdls & _).
  pose proof (py_remove_perm _ _ _ Hls) as Hperm.
  pose proof (py_remove_filter _ _ _ Hndls Hls) as Hfil.
  assert (c < length (todos_procesos s))%nat as Hrc.
  { apply (inv_rango s c Hinv). apply elem_of_colas. auto. }
  assert (proceso_asignado (part s i) = None ∧ es_so (part s i) = false) as [Hnone Hso].
  { destruct Hcabe as [Hl _]. unfold esta_libre in Hl.
    destruct (proceso_asignado (part s i)); [done|]. by destruct (es_so (part s i)). }
  destruct (inv_part_usuario s i Hinv Hso) as (_ & Hid & _).
  apply (inv_paso s); try done; cbn.
  - unfold colas. cbn. rewrite Hperm. rewrite <- !(assoc_L (++)). cbn.
    rewrite <- !Permutation_middle. done.
  - by rewrite !fmap_alter_campo.
  - by rewrite fmap_alter_campo.
  - intros r Hr. unfold residentes in Hr. cbn in Hr.
    rewrite <- (assoc_L (++)), elem_of_app in Hr. unfold bien_alojado. cbn.
    rewrite length_alter.
    destruct (decide (r = c)) as [->|Hne].
    + exists i. rewrite !(alter_campo id_particion) by done.
      rewrite !list_lookup_total_alter_eq by done. cbn. by rewrite Hid.
    + assert (r ∈ residentes s) as Hrs.
      { unfold residentes. rewrite elem_of_app. destruct Hr as [?|Hr]; [by left|].
        apply elem_of_cons in Hr as [?|?]; [done|by right]. }
      destruct (inv_residentes _ _ Hinv r Hrs) as (k & Hk & Hlt & Has & Hsk).
      exists k. rewrite !list_lookup_total_alter_ne by done.
      assert (k ≠ i) by (intros ->; congruence).
      by rewrite !list_lookup_total_alter_ne.
  - intros r Hr. rewrite !(alter_campo t_fin) by done.
    apply (inv_tfin _ _ Hinv).
    eapply elem_of_Permutation_proper; [|exact Hr].
    unfold en_sistema, residentes. cbn. rewrite Hperm. rewrite <- !(assoc_L (++)). cbn.
    rewrite <- !Permutation_middle. done.
  - intros r Hr. rewrite Hfil in Hr. apply list_elem_of_filter in Hr as [Hne Hr].
    rewrite !list_lookup_total_alter_ne by done. by apply (inv_ls _ _ Hinv).
Qed.

(** The objects and the partition table after [sacar_de_memoria], when the
    partition [i] holds the victim. *)
Lemma sacar_de_memoria_objetos v i s s1 :
  proceso_asignado (part s i) = Some v →
  sacar_de_memoria v i s = Some s1 →
  todos_procesos s1 =
    alter (con_id_particion None) v
      (alter (con_id_particion None) v (alter (con_estado LS) v (todos_procesos s))) ∧
  particiones s1 = alter (con_proceso_asignado None) i (particiones s).
Proof.
  intros Has. unfold sacar_de_memoria.
  case_bool_decide; cbn.
  - rewrite !liberar_particion_eq. cbn. rewrite Has. by intros [= <-].
  - destruct (py_remove v (cola_listos s)); cbn; [|done].
    rewrite !liberar_particion_eq. cbn. rewrite Has. by intros [= <-].
Qed.

(** Evicting a resident keeps the invariant and leaves its partition free. *)
Lemma inv_sacar_de_memoria v i s s1 :
  inv procesos s → v ∈ residentes s → id_particion (proc s v) = Some i →
  sacar_de_memoria v i s = Some s1 →
  inv procesos s1 ∧ esta_libre (part s1 i) = true ∧
  par_tamano (part s1 i) = par_tamano (part s i) ∧
  (i < length (particiones s1))%nat ∧
  ∀ q, tamano (proc s1 q) = tamano (proc s q).
Proof.
  intros Hinv Hv Hi Hs1.
  destruct (bien_alojado_usuario s v i Hinv Hv Hi) as (Hi4 & Has & Hso & Hid & _).
  destruct (sacar_de_memoria_objetos v i s s1 Has Hs1) as [Hh Hp].
  destruct (sacar_de_memoria_colas v i s s1 Hs1) as (Hls & Hmem & Hn & Ht & Hr & Hreloj).
  pose proof (inv_length_particiones s Hinv) as Hlen.
  destruct (inv_disjuntos s (inv_nodup _ _ Hinv))
    as (_ & _ & Hndres & _ & _ & _ & _).
  assert (v < length (todos_procesos s))%nat as Hrv.
  { apply (inv_rango s v Hinv). apply elem_of_colas.
    apply elem_of_residentes in Hv. naive_solver. }
  (* the residents after the eviction *)
  assert (residentes s ≡ₚ v :: residentes s1) as Hres.
  { unfold residentes. case_bool_decide as Hrun.
    - destruct Hmem as [-> ->]. rewrite <- Hrun. cbn.
      by rewrite app_nil_r, <- Permutation_cons_append.
    - destruct Hmem as [-> Hrem]. by rewrite (py_remove_perm _ _ _ Hrem). }
  assert (v ∉ residentes s1) as Hv1.
  { rewrite Hres in Hndres. by apply NoDup_cons in Hndres as [? _]. }
  split_and!.
  - apply (inv_paso s); try done.
    + rewrite !colas_en_sistema. rewrite Hn, Ht. unfold en_sistema.
      rewrite Hls, Hres. rewrite <- !(assoc_L (++)). cbn.
      by rewrite <- !Permutation_middle.
    + by rewrite Hr.
    + rewrite Hh. by rewrite !fmap_alter_campo.
    + rewrite Hp. by rewrite fmap_alter_campo.
    + intros r Hr1.
      assert (r ≠ v) as Hne by (intros ->; done).
      assert (r ∈ residentes s) as Hrs by (rewrite Hres; by right).
      destruct (inv_residentes _ _ Hinv r Hrs) as (k & Hk & Hlt & Hask & Hsk).
      exists k. rewrite Hh, Hp, length_alter.
      assert (k ≠ i) by (intros ->; congruence).
      by rewrite !list_lookup_total_alter_ne.
    + intros r Hr1. rewrite Hh, !(alter_campo t_fin) by done.
      apply (inv_tfin _ _ Hinv).
      eapply elem_of_Permutation_proper; [|exact Hr1].
      rewrite Hn. unfold en_sistema. rewrite Hls, Hres.
      rewrite <- !(assoc_L (++)). cbn. by rewrite <- !Permutation_middle.
    + intros r Hr1. rewrite Hls in Hr1. rewrite Hh.
      apply elem_of_app in Hr1 as [Hr1|Hr1].
      * rewrite !(alter_campo estado) by done.
        destruct (decide (r = v)) as [->|Hne].
        -- by rewrite list_lookup_total_alter_eq.
        -- rewrite list_lookup_total_alter_ne by done. by apply (inv_ls _ _ Hinv).
      * apply list_elem_of_singleton in Hr1 as ->.
        rewrite !(alter_campo estado) by done.
        by rewrite list_lookup_total_alter_eq.
  - rewrite Hp, list_lookup_total_alter_eq by lia. unfold esta_libre. cbn. by rewrite Hso.
  - rewrite Hp. by rewrite (alter_campo par_tamano).
  - rewrite Hp, length_alter. lia.
  - intros q. rewrite Hh. by rewrite !(alter_campo tamano).
Qed.

(** *** The admission loop keeps the invariant and does not raise *)

Lemma victimas_validas_Some s c l :
  (∀ v, v ∈ l → ∃ k, id_particion (proc s v) = Some k ∧ (k < length (particiones s))%nat) →
  is_Some (victimas_validas s c l).
Proof.
  induction l as [|v l IH]; intros Hl; cbn; [by eexists|].
  destruct (Hl v) as (k & -> & Hk); [by left|]. cbn.
  destruct (lookup_lt_is_Some_2 _ _ Hk) as [p ->]. cbn.
  destruct IH as [resto ->]; [intros w Hw; apply Hl; by right|].
  by eexists.
Qed.

Lemma decidir_Some s c : inv procesos s → is_Some (decidir s c).
Proof.
  intros Hinv. unfold decidir.
  destruct (_ && _); [by eexists|].
  destruct (_ =? _)%nat; [|by eexists].
  destruct (victimas_validas_Some s c (residentes s)) as [validas Hval].
  { intros v Hv. destruct (inv_residentes _ _ Hinv v Hv) as (k & ? & ? & _). eauto. }
  unfold residentes in Hval. rewrite Hval. cbn.
  destruct (py_max _ _ validas) as [v|] eqn:Hmax; [|by eexists].
  destruct (_ <? _); [|by eexists].
  apply (py_max_spec _ _ lex2_leb_total lex2_leb_trans) in Hmax as [Hv _].
  apply (victimas_validas_spec s c _ _ Hval) in Hv as [Hv _].
  destruct (inv_residentes _ _ Hinv v Hv) as (k & Hk & Hlt & _).
  rewrite Hk. cbn. destruct (lookup_lt_is_Some_2 _ _ Hlt) as [p ->]. by eexists.
Qed.

Lemma buscar_cambio_is_Some s l : inv procesos s → is_Some (buscar_cambio s l).
Proof.
  intros Hinv. induction l as [|c l IH]; cbn; [by eexists|].
  destruct (decidir_Some s c Hinv) as [[ch|] ->]; cbn; [by eexists|done].
Qed.

Lemma cambio_pasada_Some s : inv procesos s → is_Some (cambio_pasada s).
Proof. intros Hinv. apply buscar_cambio_is_Some. by apply inv_ordenar. Qed.

Lemma inv_aplicar s ch c s' :
  inv procesos s → c ∈ cola_listos_suspendidos s →
  decidir s c = Some (Some ch) → aplicar ch s = Some s' → inv procesos s'.
Proof.
  intros Hinv Hc Hd Hs'. destruct ch as [c' i|c' v i].
  - apply decidir_admision in Hd as (-> & _ & Hbest).
    apply encontrar_mejor_particion_spec in Hbest as (Hi & Hcabe & _).
    apply elem_of_libres in Hi as [Hi _].
    cbn in Hs'. apply bind_Some in Hs' as (s1 & Hs1 & [= <-]).
    apply inv_registrar. by eapply inv_entrar_a_memoria.
  - apply decidir_swap in Hd as (-> & _ & validas & Hval & Hmax & Hlt & Hk & Hp).
    apply (py_max_spec _ _ lex2_leb_total lex2_leb_trans) in Hmax as [Hv _].
    apply (victimas_validas_spec s c _ _ Hval) in Hv as (Hv & k & Hk' & Hfit).
    rewrite Hk in Hk'. injection Hk' as <-.
    cbn in Hs'. apply bind_Some in Hs' as (s1 & Hs1 & Hs').
    apply bind_Some in Hs' as (s2 & Hs2 & [= <-]).
    destruct (inv_sacar_de_memoria v i s s1 Hinv Hv Hk Hs1)
      as (Hinv1 & Hlib & Htam & Hi & Hsize).
    apply inv_registrar. eapply (inv_entrar_a_memoria i c s1); try done.
    + destruct (sacar_de_memoria_colas _ _ _ _ Hs1) as (-> & _).
      apply elem_of_app. by left.
    + split; [done|]. rewrite Hsize, Htam. done.
Qed.

Lemma inv_pasada s :
  inv procesos s → ∃ s' b, pasada s = Some (s', b) ∧ inv procesos s'.
Proof.
  intros Hinv. unfold pasada.
  destruct (cambio_pasada_Some s Hinv) as [[ch|] Hch]; rewrite Hch; cbn.
  - pose proof Hch as Hch'. apply cambio_pasada_elem_of in Hch' as (c & Hc & Hd).
    assert (is_Some (aplicar ch (ordenar_suspendidos s))) as [s' Hs'].
    { destruct ch as [c' i|c' v i].
      - apply decidir_admision in Hd as (-> & _).
        destruct (entrar_a_memoria_Some i c (ordenar_suspendidos s)) as [s1 Hs1];
          [by apply elem_of_sorted|].
        rewrite (aplicar_admision _ _ _ _ Hs1). by eexists.
      - apply decidir_swap in Hd as (-> & _ & validas & Hval & Hmax & _).
        apply (py_max_spec _ _ lex2_leb_total lex2_leb_trans) in Hmax as [Hv _].
        apply (victimas_validas_spec _ c _ _ Hval) in Hv as (Hv & _).
        destruct (sacar_de_memoria_Some v i (ordenar_suspendidos s) Hv) as [s1 Hs1].
        destruct (entrar_a_memoria_Some i c s1) as [s2 Hs2].
        { destruct (sacar_de_memoria_colas _ _ _ _ Hs1) as (-> & _).
          apply elem_of_app. left. by apply elem_of_sorted. }
        rewrite (aplicar_swap _ _ _ _ _ _ Hs1 Hs2). by eexists. }
    rewrite Hs'. cbn. eexists _, _. split; [done|].
    eapply (inv_aplicar (ordenar_suspendidos s)); [by apply inv_ordenar| |done..].
    cbn. by apply elem_of_sorted.
  - eexists _, _. split; [done|]. by apply inv_ordenar.
Qed.
End Invariante.

(** ** The admission loop ends *)

Section Terminacion.
Implicit Types (s : Simulador) (r c v q : ref) (i : nat).

Lemma entrar_a_memoria_campo {B} (g : Proceso → B) i c s s' :
  campo_fijo g → entrar_a_memoria i c s = Some s' →
  ∀ q, g (proc s' q) = g (proc s q).
Proof.
  unfold entrar_a_memoria. intros (Hg1 & Hg2 & Hg3) H q.
  apply bind_Some in H as (ls & _ & [= <-]). cbn.
  rewrite !(alter_campo g) by done.
  by rewrite (asignar_proceso_campo g).
Qed.

Lemma sacar_de_memoria_campo {B} (g : Proceso → B) v i s s' :
  campo_fijo g → sacar_de_memoria v i s = Some s' →
  ∀ q, g (proc s' q) = g (proc s q).
Proof.
  unfold sacar_de_memoria. intros (Hg1 & Hg2 & Hg3) H q.
  apply bind_Some in H as (s0 & Hs0 & [= <-]). cbn.
  rewrite (liberar_particion_campo g) by done. cbn.
  rewrite !(alter_campo g) by done.
  case_bool_decide; [by injection Hs0 as <-|].
  apply bind_Some in Hs0 as (l & _ & [= <-]). done.
Qed.

Lemma campo_fijo_t_restante : campo_fijo t_restante.
Proof. done. Qed.
Lemma campo_fijo_datos : campo_fijo datos.
Proof. done. Qed.
Lemma campo_fijo_t_fin : campo_fijo t_fin.
Proof. done. Qed.

(** What an iteration that changes the state does to the populations:
    an admission adds the candidate to the residents when there are fewer
    than three; a swap, with three residents, replaces a resident by a
    candidate with a strictly smaller remaining time. *)
Lemma pasada_efecto s s' :
  pasada s = Some (s', true) →
  (∀ {B} (g : Proceso → B), campo_fijo g → ∀ q, g (proc s' q) = g (proc s q)) ∧
  procesos_nuevos s' = procesos_nuevos s ∧
  procesos_terminados s' = procesos_terminados s ∧
  procesos_reporte s' = procesos_reporte s ∧
  reloj s' = reloj s ∧
  ((∃ c, (procesos_en_memoria s < 3)%nat ∧
         cola_listos_suspendidos s ≡ₚ c :: cola_listos_suspendidos s' ∧
         residentes s' ≡ₚ c :: residentes s) ∨
   (∃ c v R L, procesos_en_memoria s = 3%nat ∧
         t_restante (proc s c) < t_restante (proc s v) ∧
         residentes s ≡ₚ v :: R ∧ residentes s' ≡ₚ c :: R ∧
         cola_listos_suspendidos s ≡ₚ c :: L ∧
         cola_listos_suspendidos s' ≡ₚ v :: L)).
Proof.
  unfold pasada. intros H.
  apply bind_Some in H as ([ch|] & Hch & H); [|done].
  apply bind_Some in H as (s1 & Hs1 & [= <-]).
  apply cambio_pasada_elem_of in Hch as (c & Hc & Hd).
  destruct ch as [c' i|c' v i]; cbn in Hs1.
  - apply decidir_admision in Hd as (-> & Hmem & _).
    apply bind_Some in Hs1 as (s2 & Hs2 & [= <-]). cbn.
    split; [intros B g Hg; by apply (entrar_a_memoria_campo g _ _ _ _ Hg Hs2)|].
    destruct (entrar_a_memoria_colas _ _ _ _ Hs2) as (Hls & Hl & Hn & Hrun & Ht & Hr & Hrel).
    split_and!; [done..|].
    left. exists c.
    apply py_remove_perm in Hls. cbn in Hls. rewrite sorted_perm in Hls.
    split_and!; [done|done|].
    unfold residentes. cbn. rewrite Hl, Hrun. cbn.
    rewrite <- (assoc_L (++)). cbn. by rewrite <- Permutation_middle.
  - apply decidir_swap in Hd as (-> & Hmem & validas & Hval & Hmax & Hlt & _).
    apply (py_max_spec _ _ lex2_leb_total lex2_leb_trans) in Hmax as [Hv _].
    apply (victimas_validas_spec _ c _ _ Hval) in Hv as (Hv & _).
    apply bind_Some in Hs1 as (s2 & Hs2 & Hs1).
    apply bind_Some in Hs1 as (s3 & Hs3 & [= <-]). cbn.
    split.
    { intros B g Hg q. rewrite (entrar_a_memoria_campo g _ _ _ _ Hg Hs3).
      by rewrite (sacar_de_memoria_campo g _ _ _ _ Hg Hs2). }
    destruct (sacar_de_memoria_colas _ _ _ _ Hs2) as (Hls2 & Hmem2 & Hn2 & Ht2 & Hr2 & Hrel2).
    destruct (entrar_a_memoria_colas _ _ _ _ Hs3)
      as (Hls3 & Hl3 & Hn3 & Hrun3 & Ht3 & Hr3 & Hrel3).
    cbn in Hn2, Ht2, Hr2, Hrel2.
    split_and!; [congruence..|].
    right.
    apply py_remove_perm in Hls3. rewrite Hls2 in Hls3. cbn in Hls3.
    rewrite sorted_perm in Hls3.
    (* the Suspended queue without the candidate *)
    destruct (py_remove_Some c (cola_listos_suspendidos s) Hc) as [L HL].
    apply py_remove_perm in HL.
    assert (cola_listos_suspendidos s3 ≡ₚ v :: L) as HL3.
    { apply (Permutation_cons_inv (a:=c)).
      rewrite <- Hls3, HL. rewrite <- Permutation_cons_append. apply perm_swap. }
    exists c, v, (residentes s2), L. split_and!; try done.
    + unfold residentes. cbn in Hmem2. case_bool_decide as Hrun.
      * destruct Hmem2 as [-> ->]. rewrite <- Hrun. cbn.
        by rewrite app_nil_r, <- Permutation_cons_append.
      * destruct Hmem2 as [-> Hrem]. by rewrite (py_remove_perm _ _ _ Hrem).
    + unfold residentes. rewrite Hl3, Hrun3. rewrite <- (assoc_L (++)). cbn.
      by rewrite <- Permutation_middle.
Qed.

Lemma procesos_en_memoria_length s :
  procesos_en_memoria s = length (residentes s).
Proof. unfold procesos_en_memoria, residentes. by rewrite length_app. Qed.

Lemma rango_ext s s' r :
  en_sistema s' ≡ₚ en_sistema s →
  (∀ q, t_restante (proc s' q) = t_restante (proc s q)) →
  rango s' r = rango s r.
Proof.
  intros Hp Hr. unfold rango. rewrite Hp.
  f_equal. apply list_filter_iff. intros q. by rewrite !Hr.
Qed.

Lemma rango_le s r : (rango s r ≤ length (en_sistema s))%nat.
Proof. apply length_filter. Qed.

Lemma rango_lt s c v :
  c ∈ en_sistema s → t_restante (proc s c) < t_restante (proc s v) →
  (rango s c < rango s v)%nat.
Proof.
  intros Hc Hlt. unfold rango.
  rewrite <- (list_filter_filter_l
               (λ q, t_restante (proc s q) < t_restante (proc s c))
               (λ q, t_restante (proc s q) < t_restante (proc s v))) by (intros; lia).
  apply (length_filter_lt _ _ c); [|lia].
  apply list_elem_of_filter. done.
Qed.

Lemma sum_list_with_ext {A} (f g : A → nat) (l : list A) :
  (∀ x, f x = g x) → sum_list_with f l = sum_list_with g l.
Proof. intros Hfg. induction l as [|x l IH]; cbn; [done|]. by rewrite Hfg, IH. Qed.

(** Every iteration that changes the state lowers the measure. *)
Lemma pasada_medida s s' :
  pasada s = Some (s', true) → (medida s' < medida s)%nat.
Proof.
  intros H. apply pasada_efecto in H
    as (Hg & _ & _ & _ & _ &
        [(c & Hmem & Hls & Hres)|(c & v & R & L & Hmem & Hlt & Hres & Hres' & Hls & Hls')]);
    pose proof (Hg _ t_restante campo_fijo_t_restante) as Hr.
  - assert (en_sistema s' ≡ₚ en_sistema s) as Hsis.
    { unfold en_sistema. rewrite Hres, Hls. cbn. by rewrite <- Permutation_middle. }
    unfold medida. rewrite !procesos_en_memoria_length in *.
    rewrite (sum_list_with_ext (rango s') (rango s)) by (intros; by apply rango_ext).
    rewrite Hres, Hsis. cbn.
    pose proof (rango_le s c).
    destruct (length (residentes s)) as [|[|[|m]]]; cbn; lia.
  - assert (en_sistema s' ≡ₚ en_sistema s) as Hsis.
    { unfold en_sistema. rewrite Hres, Hres', Hls, Hls'. cbn.
      rewrite <- !Permutation_middle. apply perm_swap. }
    assert (c ∈ en_sistema s) as Hc.
    { unfold en_sistema. rewrite Hls. by left. }
    unfold medida. rewrite !procesos_en_memoria_length in *.
    rewrite (sum_list_with_ext (rango s') (rango s)) by (intros; by apply rango_ext).
    rewrite Hres', Hsis, Hres. cbn.
    rewrite Hres in Hmem. cbn in Hmem.
    pose proof (rango_lt s c v Hc Hlt).
    replace (length R) with 2%nat by lia. cbn. lia.
Qed.

(** The bound that [_intentar_admision] gives to the loop is never
    reached: any larger bound gives the same result. *)
Lemma bucle_admision_cota n s :
  (medida s < n)%nat → bucle_admision n s = _intentar_admision s.
Proof.
  unfold _intentar_admision.
  assert (∀ m s, (medida s < m)%nat → ∀ k, (medida s < k)%nat →
                 bucle_admision m s = bucle_admision k s) as Hgen.
  { clear n s. induction m as [|m IH]; intros s Hm k Hk; [lia|].
    destruct k as [|k]; [lia|]. cbn [bucle_admision].
    destruct (pasada s) as [[s' [|]]|] eqn:Hp; cbn [mbind option_bind]; [|done|done].
    pose proof (pasada_medida s s' Hp). apply IH; lia. }
  intros Hn. apply Hgen; lia.
Qed.

(** The loop ends in a state where one more iteration changes nothing,
    unless an iteration raises. *)
Lemma intentar_admision_casos s :
  (∃ s', _intentar_admision s = Some s' ∧ ∃ s1, pasada s1 = Some (s', false)) ∨
  (_intentar_admision s = None ∧ ∃ s1, pasada s1 = None).
Proof.
  unfold _intentar_admision.
  assert (∀ m s, (medida s < m)%nat →
    (∃ s', bucle_admision m s = Some s' ∧ ∃ s1, pasada s1 = Some (s', false)) ∨
    (bucle_admision m s = None ∧ ∃ s1, pasada s1 = None)) as Hgen.
  { clear s. induction m as [|m IH]; intros s Hm; [lia|]. cbn [bucle_admision].
    destruct (pasada s) as [[s' [|]]|] eqn:Hp; cbn [mbind option_bind].
    - pose proof (pasada_medida s s' Hp). apply IH. lia.
    - left. eauto.
    - right. eauto. }
  apply Hgen. lia.
Qed.

Lemma mismo_sistema_refl s : mismo_sistema s s.
Proof. by repeat split. Qed.

Lemma mismo_sistema_trans s1 s2 s3 :
  mismo_sistema s1 s2 → mismo_sistema s2 s3 → mismo_sistema s1 s3.
Proof.
  intros (? & ? & ? & ? & ? & ? & Hr & Hf) (? & ? & ? & ? & ? & ? & Hr' & Hf').
  split_and!; try congruence. etrans; done.
Qed.

Lemma entrar_a_memoria_datos i c s s' :
  entrar_a_memoria i c s = Some s' →
  datos <$> todos_procesos s' = datos <$> todos_procesos s.
Proof.
  unfold entrar_a_memoria. intros H.
  apply bind_Some in H as (ls & _ & [= <-]). cbn.
  rewrite !fmap_alter_campo by done.
  by rewrite asignar_proceso_fmap.
Qed.

Lemma sacar_de_memoria_datos v i s s' :
  sacar_de_memoria v i s = Some s' →
  datos <$> todos_procesos s' = datos <$> todos_procesos s.
Proof.
  unfold sacar_de_memoria. intros H.
  apply bind_Some in H as (s0 & Hs0 & [= <-]). cbn.
  rewrite liberar_particion_fmap by done. cbn.
  rewrite !fmap_alter_campo by done.
  case_bool_decide; [by injection Hs0 as <-|].
  apply bind_Some in Hs0 as (l & _ & [= <-]). done.
Qed.

Lemma pasada_mismo_sistema s s' b :
  pasada s = Some (s', b) → mismo_sistema s s'.
Proof.
  destruct b.
  - intros H. pose proof H as H'. apply pasada_efecto in H
      as (Hg & Hn & Ht & Hr & Hrel &
          [(c & Hmem & Hls & Hres)|(c & v & R & L & Hmem & Hlt & Hres & Hres' & Hls & Hls')]).
    + split_and!; try done.
      * unfold en_sistema. rewrite Hres, Hls. cbn. by rewrite <- Permutation_middle.
      * unfold pasada in H'. apply bind_Some in H' as ([ch|] & Hch & H'); [|done].
        apply bind_Some in H' as (s1 & Hs1 & [= <-]).
        apply cambio_pasada_elem_of in Hch as (c0 & _ & Hd).
        destruct ch as [c' i|c' v i]; cbn in Hs1.
        -- apply bind_Some in Hs1 as (s2 & Hs2 & [= <-]). cbn.
           by rewrite (entrar_a_memoria_datos _ _ _ _ Hs2).
        -- apply bind_Some in Hs1 as (s2 & Hs2 & Hs1).
           apply bind_Some in Hs1 as (s3 & Hs3 & [= <-]). cbn.
           rewrite (entrar_a_memoria_datos _ _ _ _ Hs3).
           by rewrite (sacar_de_memoria_datos _ _ _ _ Hs2).
      * by apply Hg.
      * by apply Hg.
    + split_and!; try done.
      * unfold en_sistema. rewrite Hres, Hres', Hls, Hls'. cbn.
        rewrite <- !Permutation_middle. apply perm_swap.
      * unfold pasada in H'. apply bind_Some in H' as ([ch|] & Hch & H'); [|done].
        apply bind_Some in H' as (s1 & Hs1 & [= <-]).
        destruct ch as [c' i|c' v' i]; cbn in Hs1.
        -- apply bind_Some in Hs1 as (s2 & Hs2 & [= <-]). cbn.
           by rewrite (entrar_a_memoria_datos _ _ _ _ Hs2).
        -- apply bind_Some in Hs1 as (s2 & Hs2 & Hs1).
           apply bind_Some in Hs1 as (s3 & Hs3 & [= <-]). cbn.
           rewrite (entrar_a_memoria_datos _ _ _ _ Hs3).
           by rewrite (sacar_de_memoria_datos _ _ _ _ Hs2).
      * by apply Hg.
      * by apply Hg.
  - unfold pasada. intros H.
    apply bind_Some in H as ([ch|] & Hch & H).
    { by apply bind_Some in H as (s1 & Hs1 & [= <-]). }
    injection H as <-. split_and!; try done.
    unfold en_sistema. cbn. by rewrite sorted_perm.
Qed.

(** A property that every iteration keeps holds when the loop ends. *)
Lemma intentar_admision_ind (Q : Simulador → Prop) s s' :
  (∀ s1 s2 b, Q s1 → pasada s1 = Some (s2, b) → Q s2) →
  Q s → _intentar_admision s = Some s' → Q s'.
Proof.
  intros Hpaso. unfold _intentar_admision. generalize (S (medida s)).
  intros n. revert s. induction n as [|n IH]; intros s HQ; [done|].
  cbn [bucle_admision]. intros H.
  apply bind_Some in H as ([s1 b] & Hp & H).
  destruct b; [|injection H as <-; by eapply Hpaso].
  eapply IH; [|exact H]. by eapply Hpaso.
Qed.

Lemma intentar_admision_mismo_sistema s s' :
  _intentar_admision s = Some s' → mismo_sistema s s'.
Proof.
  apply (intentar_admision_ind (mismo_sistema s)); [|apply mismo_sistema_refl].
  intros s1 s2 b H1 Hp. eapply mismo_sistema_trans; [exact H1|].
  by eapply pasada_mismo_sistema.
Qed.
End Terminacion.

(** ** The steps of a tick keep the invariant and do not raise *)

Section Pasos.
Context (procesos : list Proceso).
Implicit Types (s : Simulador) (r c v q : ref) (i k : nat).

Lemma inv_intentar_admision s :
  inv procesos s → ∃ s', _intentar_admision s = Some s' ∧ inv procesos s'.
Proof.
  unfold _intentar_admision. generalize (Nat.lt_succ_diag_r (medida s)).
  generalize (S (medida s)). intros n. revert s.
  induction n as [|n IH]; intros s Hn Hinv; [lia|].
  cbn [bucle_admision].
  destruct (inv_pasada procesos s Hinv) as (s1 & b & Hp & Hinv1).
  rewrite Hp. cbn [mbind option_bind]. destruct b; [|by exists s1].
  apply IH; [|done]. pose proof (pasada_medida s s1 Hp). lia.
Qed.

(** *** The scheduler *)

Lemma planificador_Some s : is_Some (_ejecutar_planificador s).
Proof.
  unfold _ejecutar_planificador, _encontrar_proceso_srtf.
  destruct (cola_listos s) as [|x0 l0] eqn:El.
  { destruct (proceso_en_ejecucion s); by eexists. }
  assert (∀ s2 (l : list ref), l ≠ [] → sorted (clave_srtf s2) lex3_leb l ≠ []) as Hne.
  { intros s2 l Hl Es. apply (f_equal length) in Es.
    rewrite sorted_length in Es. by destruct l. }
  rewrite <- El. cbn.
  destruct (sorted (clave_srtf s) lex3_leb (cola_listos s)) as [|c l] eqn:Es.
  { exfalso. eapply Hne; [|exact Es]. by rewrite El. }
  cbn. destruct (proceso_en_ejecucion s) as [run|]; [|by eexists].
  destruct (_ || _); [|by eexists].
  match goal with |- context [sorted ?k lex3_leb ?l2] =>
    destruct (sorted k lex3_leb l2) eqn:Es2 end; [|by eexists].
  exfalso. eapply Hne; [|exact Es2]. done.
Qed.

(** A step that only reorders the residents between the Ready queue and
    the CPU, and writes neither partition, finish time nor the state of
    a process outside memory, keeps the invariant. *)
Lemma inv_entre_residentes s s' :
  inv procesos s →
  procesos_nuevos s' = procesos_nuevos s →
  cola_listos_suspendidos s' = cola_listos_suspendidos s →
  procesos_terminados s' = procesos_terminados s →
  procesos_reporte s' = procesos_reporte s →
  residentes s' ≡ₚ residentes s →
  particiones s' = particiones s →
  datos <$> todos_procesos s' = datos <$> todos_procesos s →
  (∀ q, id_particion (proc s' q) = id_particion (proc s q)) →
  (∀ q, t_fin (proc s' q) = t_fin (proc s q)) →
  (∀ q, q ∉ residentes s → estado (proc s' q) = estado (proc s q)) →
  inv procesos s'.
Proof.
  intros Hinv Hn Hls Ht Hr Hres Hp Hd Hid Hf He.
  apply (inv_paso procesos s); try done.
  - rewrite !colas_en_sistema. unfold en_sistema. by rewrite Hn, Hls, Ht, Hres.
  - by rewrite Hr.
  - by rewrite Hp.
  - intros r Hr'. rewrite Hres in Hr'.
    destruct (inv_residentes _ _ Hinv r Hr') as (k & ? & ? & ? & ?).
    exists k. by rewrite Hid, Hp.
  - intros r Hr'. rewrite Hf. apply (inv_tfin _ _ Hinv).
    revert Hr'. unfold en_sistema. by rewrite Hn, Hls, Hres.
  - intros r Hr'. rewrite Hls in Hr'. rewrite He; [by apply (inv_ls _ _ Hinv)|].
    by apply (inv_disjuntos s (inv_nodup _ _ Hinv)).
Qed.

Lemma residentes_listos_run s r l run :
  cola_listos s = l → proceso_en_ejecucion s = run →
  residentes s = l ++ option_list run.
Proof. by intros <- <-. Qed.

Lemma inv_planificador s s' :
  inv procesos s → _ejecutar_planificador s = Some s' → inv procesos s'.
Proof.
  intros Hinv H. apply planificador_casos in H
    as [[Hl ->]|[(r & l & ev & Hr & Hs & ->)|[(run & c & l & Hr & Hs & Hc & ->)
        |(run & c & l & ent & l' & ev & Hr & Hs & Hc & Hs2 & ->)]]]; [done|..].
  - apply inv_registrar.
    apply (inv_entre_residentes s); try done; cbn; autorewrite with campos; cbn; try done.
    + unfold residentes. autorewrite with campos. cbn. rewrite Hr. cbn.
      rewrite app_nil_r.
      rewrite <- (sorted_perm (clave_srtf s) lex3_leb (cola_listos s)), Hs.
      by rewrite <- Permutation_cons_append.
    + by rewrite entrar_cpu_fmap.
    + intros q. by rewrite (entrar_cpu_campo id_particion).
    + intros q. by rewrite (entrar_cpu_campo t_fin).
    + intros q Hq. rewrite entrar_cpu_ne; [done|]. intros ->. apply Hq.
      unfold residentes. apply elem_of_app. left.
      apply (elem_of_sorted (clave_srtf s) lex3_leb). rewrite Hs. by left.
  - apply (inv_entre_residentes s); try done.
    unfold residentes. cbn.
    by rewrite <- (sorted_perm (clave_srtf s) lex3_leb (cola_listos s)), Hs.
  - apply inv_registrar.
    assert (ent :: l' ≡ₚ cola_listos s ++ [run]) as Hperm.
    { rewrite <- Hs2, sorted_perm, <- (sorted_perm (clave_srtf s) lex3_leb (cola_listos s)), Hs.
      done. }
    apply (inv_entre_residentes s); try done; cbn; autorewrite with campos; cbn; try done.
    + unfold residentes. cbn. autorewrite with campos. cbn. rewrite Hr. cbn.
      by rewrite <- Hperm, <- Permutation_cons_append.
    + rewrite entrar_cpu_fmap by done. cbn. by rewrite !fmap_alter_campo.
    + intros q. rewrite (entrar_cpu_campo id_particion) by done. cbn.
      by rewrite !(alter_campo id_particion).
    + intros q. rewrite (entrar_cpu_campo t_fin) by done. cbn.
      by rewrite !(alter_campo t_fin).
    + intros q Hq.
      assert (q ≠ ent).
      { intros ->. apply Hq. unfold residentes. rewrite Hr. cbn.
        rewrite <- Hperm. by left. }
      assert (q ≠ run).
      { intros ->. apply Hq. unfold residentes. rewrite Hr. cbn.
        apply elem_of_app. right. by left. }
      rewrite entrar_cpu_ne by done. cbn.
      by rewrite !list_lookup_total_alter_ne.
Qed.

Lemma planificador_mismo_sistema s s' :
  _ejecutar_planificador s = Some s' → mismo_sistema s s'.
Proof.
  intros H. apply planificador_casos in H
    as [[Hl ->]|[(r & l & ev & Hr & Hs & ->)|[(run & c & l & Hr & Hs & Hc & ->)
        |(run & c & l & ent & l' & ev & Hr & Hs & Hc & Hs2 & ->)]]];
    [apply mismo_sistema_refl|..];
    unfold mismo_sistema, en_sistema, residentes; cbn; autorewrite with campos; cbn.
  - split_and!; try done.
    + rewrite Hr. cbn. rewrite app_nil_r.
      rewrite <- (sorted_perm (clave_srtf s) lex3_leb (cola_listos s)), Hs.
      by rewrite <- Permutation_cons_append.
    + by rewrite entrar_cpu_fmap.
    + intros q. by rewrite (entrar_cpu_campo t_restante).
    + intros q. by rewrite (entrar_cpu_campo t_fin).
  - split_and!; try done.
    by rewrite <- (sorted_perm (clave_srtf s) lex3_leb (cola_listos s)), Hs.
  - assert (ent :: l' ≡ₚ cola_listos s ++ [run]) as Hperm.
    { rewrite <- Hs2, sorted_perm, <- (sorted_perm (clave_srtf s) lex3_leb (cola_listos s)), Hs.
      done. }
    split_and!; try done.
    + rewrite Hr. cbn. by rewrite <- Hperm, <- Permutation_cons_append.
    + rewrite entrar_cpu_fmap by done. cbn. by rewrite !fmap_alter_campo.
    + intros q. rewrite (entrar_cpu_campo t_restante) by done. cbn.
      by rewrite !(alter_campo t_restante).
    + intros q. rewrite (entrar_cpu_campo t_fin) by done. cbn.
      by rewrite !(alter_campo t_fin).
Qed.

(** *** CPU service *)

(** The three outcomes of the service step. *)
Lemma servicio_casos s s' :
  servicio_cpu s = Some s' →
  (proceso_en_ejecucion s = None ∧ s' = s) ∨
  (∃ cur, proceso_en_ejecucion s = Some cur ∧
          t_restante (proc (servir cur s) cur) ≠ 0 ∧ s' = servir cur s) ∨
  (∃ cur k ev, proceso_en_ejecucion s = Some cur ∧
          t_restante (proc (servir cur s) cur) = 0 ∧
          id_particion (proc (terminar cur (servir cur s)) cur) = Some k ∧
          is_Some (particiones s !! k) ∧
          s' = registrar ev (liberar_particion k (terminar cur (servir cur s)))).
Proof.
  unfold servicio_cpu. destruct (proceso_en_ejecucion s) as [cur|] eqn:Hrun.
  - fold (servir cur s).
    destruct (Z.eqb_spec (t_restante (proc (servir cur s) cur)) 0) as [H0|H0].
    + intros H. right. right.
      apply bind_Some in H as (k & Hk & H).
      apply bind_Some in H as (p & Hp & [= <-]).
      exists cur, k. eexists. split_and!; [done|done|exact Hk|by exists p|reflexivity].
    + intros [= <-]. right. left. by exists cur.
  - intros [= <-]. by left.
Qed.

Lemma inv_servir s cur : inv procesos s → inv procesos (servir cur s).
Proof.
  intros Hinv. apply (inv_paso procesos s); try done; cbn.
  - by rewrite fmap_alter_campo.
  - intros r Hr. destruct (inv_residentes _ _ Hinv r Hr) as (k & ? & ? & ? & ?).
    exists k. cbn. by rewrite (alter_campo id_particion).
  - intros r Hr. rewrite (alter_campo t_fin) by done. by apply (inv_tfin _ _ Hinv).
  - intros r Hr. rewrite (alter_campo estado) by done. by apply (inv_ls _ _ Hinv).
Qed.

Lemma inv_terminar s cur k :
  inv procesos s → proceso_en_ejecucion s = Some cur →
  id_particion (proc s cur) = Some k →
  inv procesos (liberar_particion k (terminar cur s)).
Proof.
  intros Hinv Hrun Hk.
  assert (cur ∈ residentes s) as Hcur by (apply elem_of_residentes; by right).
  destruct (bien_alojado_usuario procesos s cur k Hinv Hcur Hk) as (Hk4 & Has & Hso & Hid & _).
  destruct (inv_disjuntos s (inv_nodup _ _ Hinv))
    as (_ & _ & Hndres & _ & Hdn & Hdls & _).
  assert (cur ∉ cola_listos s) as Hcl.
  { unfold residentes in Hndres. rewrite Hrun in Hndres. cbn in Hndres.
    apply NoDup_app in Hndres as (_ & Hd & _). intros Hc. apply (Hd cur Hc). by left. }
  rewrite liberar_particion_eq. cbn. rewrite Has.
  apply (inv_paso procesos s); try done; cbn.
  - unfold colas. cbn. rewrite Hrun. cbn.
    by rewrite <- (Permutation_cons_append (procesos_terminados s) cur).
  - by rewrite !fmap_alter_campo.
  - by rewrite fmap_alter_campo.
  - unfold residentes. cbn. rewrite app_nil_r. intros r Hr.
    assert (r ≠ cur) by (by intros ->).
    destruct (inv_residentes _ _ Hinv r) as (j & Hj & Hlt & Hasj & Hsoj).
    { apply elem_of_residentes. by left. }
    assert (j ≠ k) by (intros ->; congruence).
    exists j. cbn. rewrite length_alter.
    by rewrite !list_lookup_total_alter_ne.
  - unfold en_sistema, residentes. cbn. rewrite app_nil_r. intros r Hr.
    assert (r ≠ cur).
    { intros ->. rewrite !elem_of_app in Hr. destruct Hr as [Hr|[Hr|Hr]]; [| |done].
      - apply Hdn in Hr as [Hr _]. apply Hr. apply elem_of_en_sistema. by right.
      - apply Hdls in Hr as [Hr _]. done. }
    rewrite !list_lookup_total_alter_ne by done.
    apply (inv_tfin _ _ Hinv). unfold en_sistema, residentes.
    rewrite !elem_of_app in *. naive_solver.
  - intros r Hr.
    assert (r ≠ cur).
    { intros ->. apply Hdls in Hr as [Hr _]. done. }
    rewrite !list_lookup_total_alter_ne by done. by apply (inv_ls _ _ Hinv).
Qed.

Lemma inv_servicio s :
  inv procesos s → ∃ s', servicio_cpu s = Some s' ∧ inv procesos s'.
Proof.
  intros Hinv. unfold servicio_cpu.
  destruct (proceso_en_ejecucion s) as [cur|] eqn:Hrun; [|by exists s].
  pose proof (inv_servir s cur Hinv) as Hinv1.
  assert (cur ∈ residentes s) as Hcur.
  { apply elem_of_residentes. by right. }
  destruct (inv_residentes _ _ Hinv cur Hcur) as (k & Hk & Hlt & _).
  destruct (_ =? 0); [|by eexists].
  cbn. do 3 (rewrite (alter_campo id_particion) by (intros; reflexivity)).
  rewrite Hk. cbn.
  destruct (lookup_lt_is_Some_2 _ _ Hlt) as [p Hp]. rewrite Hp. cbn.
  eexists. split; [done|]. apply inv_registrar.
  apply (inv_terminar (servir cur s)); [done|done|].
  cbn. by rewrite (alter_campo id_particion) by (intros; reflexivity).
Qed.
End Pasos.

(** ** Arrivals *)

Section Arribos.
Implicit Types (s : Simulador) (r q : ref) (l : list ref).

Lemma popleft_gdm_spec cond (g : nat) l :
  popleft_gdm cond g l =
  (take ((5 - g) `min` cuenta_prefijo cond l) l,
   drop ((5 - g) `min` cuenta_prefijo cond l) l,
   (g + (5 - g) `min` cuenta_prefijo cond l)%nat).
Proof.
  revert g. induction l as [|x l IH]; intros g; cbn [popleft_gdm cuenta_prefijo].
  - rewrite Nat.min_0_r. cbn. by rewrite Nat.add_0_r.
  - destruct (cond x); cbn [andb].
    + destruct (Nat.ltb_spec g 5) as [Hg|Hg].
      * rewrite IH. assert (5 - g = S (5 - S g))%nat as -> by lia.
        rewrite <- Nat.succ_min_distr. cbn [take drop].
        by rewrite Nat.add_succ_r.
      * assert (5 - g = 0)%nat as -> by lia. cbn. by rewrite Nat.add_0_r.
    + rewrite Nat.min_0_r. cbn. by rewrite Nat.add_0_r.
Qed.

Lemma popleft_mientras_spec cond l :
  popleft_mientras cond l =
  (take (cuenta_prefijo cond l) l, drop (cuenta_prefijo cond l) l).
Proof.
  induction l as [|x l IH]; cbn; [done|].
  destruct (cond x); cbn; [|done]. by rewrite IH.
Qed.

(** The loop that moves the arrived processes to L/S. *)
Lemma a_suspendidos_foldl l s :
  let s' := foldl a_suspendidos s l in
  cola_listos_suspendidos s' = cola_listos_suspendidos s ++ l ∧
  procesos_nuevos s' = procesos_nuevos s ∧ cola_listos s' = cola_listos s ∧
  proceso_en_ejecucion s' = proceso_en_ejecucion s ∧
  procesos_terminados s' = procesos_terminados s ∧
  procesos_reporte s' = procesos_reporte s ∧ reloj s' = reloj s ∧
  particiones s' = particiones s ∧
  eventos_del_tick s' = eventos_del_tick s ∧
  length (todos_procesos s') = length (todos_procesos s) ∧
  (∀ q, q ∈ l → (q < length (todos_procesos s))%nat → estado (proc s' q) = LS) ∧
  (∀ q, q ∉ l → proc s' q = proc s q) ∧
  (∀ B (g : Proceso → B), (∀ e p, g (con_estado e p) = g p) →
      g <$> todos_procesos s' = g <$> todos_procesos s).
Proof.
  revert s. induction l as [|p l IH]; intros s; cbn.
  - rewrite app_nil_r. split_and!; try done. by intros q ?%elem_of_nil.
  - destruct (IH (a_suspendidos s p))
      as (Hls & Hn & Hl & Hr & Ht & Hrep & Hrel & Hp & Hev & Hlen & Hin & Hout & Hg).
    cbn in *. rewrite length_alter in Hlen, Hin.
    split_and!; try done.
    + by rewrite Hls, <- (assoc_L (++)).
    + intros q Hq Hlt. destruct (decide (q ∈ l)) as [Hql|Hql]; [by apply Hin|].
      rewrite Hout by done. apply elem_of_cons in Hq as [->|?]; [|done].
      by rewrite list_lookup_total_alter_eq.
    + intros q Hq. apply not_elem_of_cons in Hq as [Hne Hq].
      rewrite Hout by done. by rewrite list_lookup_total_alter_ne.
    + intros B g HB. rewrite Hg by done. by rewrite fmap_alter_campo.
Qed.

(** The arrival step takes the first [arribos_tomados s] processes of New
    and appends them to L/S in state L/S; nothing else moves. *)
Lemma arribos_efecto s :
  let s' := arribos s in
  let k := arribos_tomados s in
  procesos_nuevos s' = drop k (procesos_nuevos s) ∧
  cola_listos_suspendidos s' = cola_listos_suspendidos s ++ take k (procesos_nuevos s) ∧
  cola_listos s' = cola_listos s ∧
  proceso_en_ejecucion s' = proceso_en_ejecucion s ∧
  procesos_terminados s' = procesos_terminados s ∧
  procesos_reporte s' = procesos_reporte s ∧ reloj s' = reloj s ∧
  particiones s' = particiones s ∧
  length (todos_procesos s') = length (todos_procesos s) ∧
  (∀ q, q ∈ take k (procesos_nuevos s) → (q < length (todos_procesos s))%nat →
        estado (proc s' q) = LS) ∧
  (∀ q, q ∉ take k (procesos_nuevos s) → proc s' q = proc s q) ∧
  (∀ B (g : Proceso → B), (∀ e p, g (con_estado e p) = g p) →
      g <$> todos_procesos s' = g <$> todos_procesos s).
Proof.
  unfold arribos, arribos_tomados.
  rewrite popleft_gdm_spec.
  set (k1 := ((5 - gdm_actual s) `min` _)%nat).
  set (ev1 := ids s (take k1 (procesos_nuevos s))).
  set (ev2 := filter _ _).
  set (s1 := if bool_decide (ev2 = []) then _ else _).
  assert (procesos_nuevos s1 = drop k1 (procesos_nuevos s) ∧
          todos_procesos s1 = todos_procesos s ∧
          cola_listos_suspendidos s1 = cola_listos_suspendidos s ∧
          cola_listos s1 = cola_listos s ∧
          proceso_en_ejecucion s1 = proceso_en_ejecucion s ∧
          procesos_terminados s1 = procesos_terminados s ∧
          procesos_reporte s1 = procesos_reporte s ∧ reloj s1 = reloj s ∧
          particiones s1 = particiones s)
    as (Hn1 & Hh1 & Hls1 & Hl1 & Hr1 & Ht1 & Hrep1 & Hrel1 & Hp1).
  { unfold s1. by repeat case_bool_decide. }
  clearbody s1. rewrite popleft_gdm_spec. rewrite Hn1, Hh1, Hrel1.
  set (k2 := ((5 - (gdm_actual s + k1)) `min` _)%nat).
  cbn zeta.
  destruct (a_suspendidos_foldl
              (take k1 (procesos_nuevos s) ++ take k2 (drop k1 (procesos_nuevos s)))
              (con_nuevos (drop k2 (drop k1 (procesos_nuevos s))) s1))
    as (Hls & Hn & Hl & Hr & Ht & Hrep & Hrel & Hp & Hev & Hlen & Hin & Hout & Hg).
  cbn in Hls, Hn, Hl, Hr, Ht, Hrep, Hrel, Hp, Hlen, Hin, Hout, Hg.
  rewrite <- take_take_drop, <- drop_drop.
  split_and!.
  - done.
  - by rewrite Hls, Hls1.
  - by rewrite Hl.
  - by rewrite Hr.
  - by rewrite Ht.
  - by rewrite Hrep.
  - by rewrite Hrel.
  - by rewrite Hp.
  - by rewrite Hlen, Hh1.
  - intros q Hq Hlt. apply Hin; [done|]. by rewrite Hh1.
  - intros q Hq. rewrite Hout by done. by rewrite Hh1.
  - intros B g HB. rewrite Hg by done. by rewrite Hh1.
Qed.
End Arribos.

Section PasosArribo.
Context (procesos : list Proceso).
Implicit Types (s : Simulador) (r q : ref) (l : list ref).

Lemma fmap_eq_campo {B} (g : Proceso → B) (h h' : list Proceso) (q : nat) :
  g <$> h' = g <$> h → g (h' !!! q) = g (h !!! q).
Proof.
  intros Hg. assert (length h' = length h) as Hlen.
  { apply (f_equal length) in Hg. by rewrite !length_fmap in Hg. }
  destruct (decide (q < length h)%nat) as [Hq|Hq].
  - pose (HB := populate (g inhabitant) : Inhabited B).
    rewrite <- (list_lookup_total_fmap g (Inhabited1:=HB) h' q) by lia.
    rewrite <- (list_lookup_total_fmap g (Inhabited1:=HB) h q) by lia.
    by rewrite Hg.
  - by rewrite !list_lookup_total_alt, !lookup_ge_None_2 by lia.
Qed.

Lemma perm_mover {A} (T D L R : list A) :
  D ++ (L ++ T) ++ R ≡ₚ (T ++ D) ++ L ++ R.
Proof.
  rewrite <- !(assoc_L (++)).
  rewrite (assoc_L (++) D L), (assoc_L (++) D L R).
  by rewrite (Permutation_app_swap_app T (D ++ L) R).
Qed.

(** Moving the first [k] processes of New to L/S keeps the invariant. *)
Lemma inv_mover_a_ls s s' (k : nat) :
  inv procesos s →
  procesos_nuevos s' = drop k (procesos_nuevos s) →
  cola_listos_suspendidos s' = cola_listos_suspendidos s ++ take k (procesos_nuevos s) →
  cola_listos s' = cola_listos s →
  proceso_en_ejecucion s' = proceso_en_ejecucion s →
  procesos_terminados s' = procesos_terminados s →
  procesos_reporte s' = procesos_reporte s →
  particiones s' = particiones s →
  (∀ q, q ∈ take k (procesos_nuevos s) → (q < length (todos_procesos s))%nat →
        estado (proc s' q) = LS) →
  (∀ q, q ∉ take k (procesos_nuevos s) → proc s' q = proc s q) →
  (∀ B (g : Proceso → B), (∀ e p, g (con_estado e p) = g p) →
      g <$> todos_procesos s' = g <$> todos_procesos s) →
  inv procesos s'.
Proof.
  intros Hinv Hn Hls Hl Hr Ht Hrep Hp Hin Hout Hg.
  assert (residentes s' = residentes s) as Hres by (unfold residentes; congruence).
  assert (procesos_nuevos s' ++ en_sistema s' ≡ₚ procesos_nuevos s ++ en_sistema s) as Hperm.
  { unfold en_sistema. rewrite Hn, Hls, Hres.
    rewrite <- (take_drop k (procesos_nuevos s)) at 3.
    apply perm_mover. }
  apply (inv_paso procesos s); try done.
  - rewrite !colas_en_sistema, !(assoc_L (++)). by rewrite Hperm, Ht.
  - by rewrite Hrep.
  - by apply Hg.
  - by rewrite Hp.
  - intros r Hr'. rewrite Hres in Hr'.
    destruct (inv_residentes _ _ Hinv r Hr') as (j & ? & ? & ? & ?).
    exists j. rewrite (fmap_eq_campo id_particion _ _ r (Hg _ id_particion (λ _ _, eq_refl))).
    by rewrite Hp.
  - intros r Hr'. rewrite (fmap_eq_campo t_fin _ _ r (Hg _ t_fin (λ _ _, eq_refl))).
    apply (inv_tfin _ _ Hinv). by rewrite <- Hperm.
  - intros r Hr'. rewrite Hls in Hr'. apply elem_of_app in Hr' as [Hr'|Hr'].
    + destruct (decide (r ∈ take k (procesos_nuevos s))) as [Hrk|Hrk].
      * apply Hin; [done|]. apply (inv_rango procesos s r Hinv).
        apply elem_of_colas. auto.
      * rewrite Hout by done. by apply (inv_ls _ _ Hinv).
    + apply Hin; [done|]. apply (inv_rango procesos s r Hinv).
      apply elem_of_colas. left. by apply (subseteq_take k).
Qed.

Lemma inv_arribos s : inv procesos s → inv procesos (arribos s).
Proof.
  intros Hinv.
  destruct (arribos_efecto s)
    as (Hn & Hls & Hl & Hr & Ht & Hrep & Hrel & Hp & Hlen & Hin & Hout & Hg).
  by apply (inv_mover_a_ls s (arribos s) (arribos_tomados s)).
Qed.

(** *** One tick *)

Lemma inv_con_reloj s t : inv procesos s → inv procesos (con_reloj t s).
Proof. intros Hinv. by apply (inv_paso procesos s); try apply Hinv. Qed.

Lemma inv_con_eventos s e : inv procesos s → inv procesos (con_eventos e s).
Proof. intros Hinv. by apply (inv_paso procesos s); try apply Hinv. Qed.

Lemma inv_tick s :
  inv procesos s → ∃ s', tick s = Some s' ∧ inv procesos s'.
Proof.
  intros Hinv. unfold tick.
  destruct (inv_servicio procesos (con_eventos [] s)) as (s1 & Hs1 & Hinv1);
    [by apply inv_con_eventos|].
  rewrite Hs1. cbn [mbind option_bind].
  destruct (inv_intentar_admision procesos (arribos s1)) as (s2 & Hs2 & Hinv2);
    [by apply inv_arribos|].
  rewrite Hs2. cbn [mbind option_bind].
  destruct (planificador_Some s2) as [s3 Hs3].
  exists s3. split; [done|]. by eapply inv_planificador.
Qed.

Lemma inv_siguiente_tick s :
  inv procesos s → ∃ s', siguiente_tick s = Some s' ∧ inv procesos s'.
Proof.
  intros Hinv. unfold siguiente_tick. apply inv_tick.
  destruct (_ =? 0); by apply inv_con_reloj.
Qed.

Lemma inv_get_reporte_final s rep s' :
  inv procesos s → get_reporte_final s = Some (rep, s') → inv procesos s'.
Proof.
  intros Hinv H. apply get_reporte_final_estado in H as ->.
  apply (inv_paso procesos s); try done; try apply Hinv.
  cbn. apply sorted_perm.
Qed.
End PasosArribo.

(** ** The constructor *)

Section Constructor.
Context (procesos : list Proceso).
Implicit Types (s : Simulador) (r q : ref) (l : list ref).

Lemma reiniciar_foldl_datos l s :
  datos <$> todos_procesos (foldl (λ s p, mut p reiniciar s) s l)
  = datos <$> todos_procesos s.
Proof.
  revert s. induction l as [|p l IH]; intros s; cbn; [done|].
  rewrite IH. cbn. by rewrite fmap_alter_campo.
Qed.

Lemma NoDup_cohorte : NoDup (cohorte procesos).
Proof.
  unfold cohorte. eapply sublist_NoDup; [|apply sublist_take].
  rewrite sorted_perm. apply NoDup_seq.
Qed.

Lemma preparar_colas_cohorte :
  procesos_nuevos (_preparar_colas (estado_vacio procesos)) = cohorte procesos.
Proof. done. Qed.

Lemma inv_preparar : inv procesos (_preparar_colas (estado_vacio procesos)).
Proof.
  destruct (seleccion_spec procesos (seq 0 (length procesos)))
    as (_ & _ & _ & Hn & Hrep & Hls & Hl & Hrun & Ht & Hprep & _).
  { intros r Hr. apply elem_of_seq in Hr. lia. }
  change (_preparar_colas (estado_vacio procesos))
    with (con_reporte (cohorte procesos)
            (con_nuevos (cohorte procesos)
               (foldl (λ s p, mut p reiniciar s) (estado_vacio procesos)
                  (cohorte procesos)))).
  fold (cohorte procesos) in Hn, Hrep, Hls, Hl, Hrun, Ht, Hprep.
  set (s := con_reporte _ _) in *.
  assert (colas s = cohorte procesos) as Hcolas.
  { unfold colas. rewrite Hn, Hls, Hl, Hrun, Ht. cbn. by rewrite app_nil_r. }
  constructor.
  - rewrite Hcolas. apply NoDup_cohorte.
  - by rewrite Hcolas, Hrep.
  - by rewrite Hrep.
  - unfold s. cbn. by rewrite reiniciar_foldl_datos.
  - unfold s. cbn.
    by destruct (reiniciar_foldl (cohorte procesos) (estado_vacio procesos))
      as (_ & _ & _ & _ & _ & _ & _ & -> & _).
  - intros r Hr. unfold residentes in Hr. rewrite Hl, Hrun in Hr.
    by apply elem_of_nil in Hr.
  - intros r Hr. unfold en_sistema, residentes in Hr.
    rewrite Hn, Hls, Hl, Hrun, app_nil_r in Hr. cbn in Hr.
    by destruct (Hprep r Hr) as (_ & _ & _ & _ & ? & _).
  - intros r Hr. rewrite Hls in Hr. by apply elem_of_nil in Hr.
Qed.

Lemma arribo_inicial_foldl l s s0 :
  salvo_eventos s s0 →
  salvo_eventos (foldl arribo_inicial s l) (foldl a_suspendidos s0 l).
Proof.
  revert s s0. induction l as [|p l IH]; intros s s0 Hs; cbn; [done|].
  apply IH. unfold salvo_eventos in *. unfold arribo_inicial.
  assert (con_eventos [] (a_suspendidos s p) = con_eventos [] (a_suspendidos s0 p)) as Ha.
  { apply (f_equal (λ x, a_suspendidos x p)) in Hs. exact Hs. }
  destruct (negb _); [|done]. exact Ha.
Qed.

Lemma inv_salvo_eventos s s' :
  salvo_eventos s s' → inv procesos s' → inv procesos s.
Proof.
  unfold salvo_eventos. intros Hs Hinv.
  apply (inv_con_eventos procesos _ []) in Hinv. rewrite <- Hs in Hinv.
  by apply (inv_paso procesos (con_eventos [] s)); try apply Hinv.
Qed.

Lemma guardar_estado_inicial_eq s :
  _guardar_estado_inicial s =
  s1 ← _intentar_admision (arribados_iniciales s); _ejecutar_planificador s1.
Proof.
  unfold _guardar_estado_inicial, arribados_iniciales.
  by destruct (popleft_mientras _ _).
Qed.

(** The arrivals of tick 0: the processes at the head of New whose
    arrival time is 0 go to L/S, all of them. *)
Lemma arribados_iniciales_salvo s :
  let k := cuenta_prefijo (λ r, t_arribo (proc s r) =? 0) (procesos_nuevos s) in
  salvo_eventos (arribados_iniciales s)
    (foldl a_suspendidos (con_nuevos (drop k (procesos_nuevos s)) s)
       (take k (procesos_nuevos s))).
Proof.
  unfold arribados_iniciales. rewrite popleft_mientras_spec.
  apply arribo_inicial_foldl. unfold salvo_eventos. by case_bool_decide.
Qed.

Lemma inv_arribados_iniciales s :
  inv procesos s → inv procesos (arribados_iniciales s).
Proof.
  intros Hinv. eapply inv_salvo_eventos; [apply arribados_iniciales_salvo|].
  set (k := cuenta_prefijo _ _).
  destruct (a_suspendidos_foldl (take k (procesos_nuevos s))
              (con_nuevos (drop k (procesos_nuevos s)) s))
    as (Hls & Hn & Hl & Hr & Ht & Hrep & Hrel & Hp & Hev & Hlen & Hin & Hout & Hg).
  by apply (inv_mover_a_ls procesos s _ k).
Qed.

Lemma inv_init : ∃ s, Simulador_init procesos = Some s ∧ inv procesos s.
Proof.
  unfold Simulador_init. fold (estado_vacio procesos).
  rewrite guardar_estado_inicial_eq.
  destruct (inv_intentar_admision procesos
              (arribados_iniciales (_preparar_colas (estado_vacio procesos))))
    as (s1 & Hs1 & Hinv1); [apply inv_arribados_iniciales, inv_preparar|].
  rewrite Hs1. cbn [mbind option_bind].
  destruct (planificador_Some s1) as [s2 Hs2].
  exists s2. split; [done|]. by eapply inv_planificador.
Qed.

(** Every observable state satisfies the invariant. *)
Lemma alcanzable_inv s : alcanzable procesos s → inv procesos s.
Proof.
  induction 1 as [s H|s s' _ IH H|s rep s' _ IH H].
  - destruct inv_init as (s0 & Hs0 & Hinv). congruence.
  - destruct (inv_siguiente_tick procesos s IH) as (s0 & Hs0 & Hinv). congruence.
  - by eapply inv_get_reporte_final.
Qed.

(** The engine never raises: the constructor returns a state, and from
    every observable state a tick returns the next one. *)
Lemma alcanzable_tick s :
  alcanzable procesos s → ∃ s', siguiente_tick s = Some s' ∧ alcanzable procesos s'.
Proof.
  intros Halc. destruct (inv_siguiente_tick procesos s (alcanzable_inv s Halc))
    as (s' & Hs' & _).
  exists s'. split; [done|]. by eapply alc_tick.
Qed.
End Constructor.

(** C8. In every observable state the five populations together are the
    cohort fixed by the constructor, each process exactly once: their sizes
    add up to the cohort size min(10, n), no process appears twice and the
    processes in them are those of the cohort. *)
Theorem conservacion (procesos : list Proceso) (s : Simulador) :
  alcanzable procesos s →
  (length (procesos_nuevos s) + length (cola_listos_suspendidos s)
   + length (cola_listos s)
   + (if proceso_en_ejecucion s is Some _ then 1 else 0)
   + length (procesos_terminados s) = 10 `min` length procesos)%nat ∧
  NoDup (colas s) ∧ colas s ≡ₚ cohorte procesos ∧
  procesos_reporte s ≡ₚ cohorte procesos.
Proof.
  intros Halc. pose proof (alcanzable_inv procesos s Halc) as Hinv.
  assert (colas s ≡ₚ cohorte procesos) as Hperm.
  { by rewrite (inv_reporte _ _ Hinv), (inv_cohorte _ _ Hinv). }
  split_and!; [|apply Hinv|done|apply Hinv].
  apply Permutation_length in Hperm. unfold colas in Hperm.
  rewrite !length_app in Hperm. unfold cohorte in Hperm.
  rewrite length_take, sorted_length, length_seq in Hperm.
  destruct (proceso_en_ejecucion s); cbn in *; lia.
Qed.

Lemma conservacion_witness :
  ∃ s, alcanzable procesos_escenario s ∧ colas s ≡ₚ cohorte procesos_escenario.
Proof.
  destruct (Simulador_init procesos_escenario) as [s|] eqn:E;
    [|vm_compute in E; discriminate].
  exists s. split; [by apply alc_init|].
  by destruct (conservacion procesos_escenario s (alc_init _ _ E)) as (_ & _ & H & _).
Defined.

Section Seleccion.
Context (procesos : list Proceso).

Lemma seleccion_de_spec (cands : list ref) :
  let s0 := estado_vacio procesos in
  let sel := take 10 (sorted (clave_arribo s0) lex2_leb cands) in
  (∀ r, r ∈ cands → (r < length procesos)%nat) →
  seleccion_de procesos cands
    (con_reporte sel (con_nuevos sel (foldl (λ s p, mut p reiniciar s) s0 sel))).
Proof.
  intros s0 sel Hr.
  pose proof (seleccion_spec procesos cands Hr) as H. cbn zeta in H.
  fold s0 sel in H. unfold seleccion_de.
  set (s := con_reporte sel _) in *.
  destruct H as (Hperm & Hsort & Hlen & Hn & Hrep & Hls & Hl & Hrun & Ht & Hprep & Hout).
  rewrite Hn, Hrep. split_and!; try done. by eexists.
Qed.
End Seleccion.

(** C9, for the console engine: a definition whose id is 11 is supplied
    alone and is not selected, so the cohort is not the first min(10, n) of
    the supplied definitions. *)
Lemma consola_descarta_ids :
  ¬ (∀ procesos,
       length (procesos_nuevos (consola_preparar_colas (consola_init procesos)))
       = (10 `min` length procesos)%nat).
Proof. intros H. specialize (H proceso_once). vm_compute in H. discriminate. Qed.

(** C1, as stated: after the first tick the 250 KB partition does not hold
    P1 with fragmentation 130, nor the 150 KB partition P2 with 110. *)
Lemma escenario_no_first_fit :
  ¬ (∃ s, Simulador_init procesos_escenario ≫= siguiente_tick = Some s ∧
          info_contenido (get_info_particion s 1) = Ocupada 1 120 ∧
          info_estado (get_info_particion s 1) = FI 130 ∧
          info_contenido (get_info_particion s 2) = Ocupada 2 40 ∧
          info_estado (get_info_particion s 2) = FI 110).
Proof.
  intros (s & E & H & _). vm_compute in E. injection E as <-.
  vm_compute in H. discriminate.
Qed.

(** C1, as the code has it. In the reference scenario, both after the
    construction (tick 0) and after the first tick, P2 is Running, P1 is
    resident in state Ready, and the snapshot shows the 250 KB partition
    free, P1 in the 150 KB partition with internal fragmentation 30 and P2
    in the 50 KB partition with internal fragmentation 10. *)
Theorem escenario_best_fit :
  ∃ s0 s1,
    Simulador_init procesos_escenario = Some s0 ∧ siguiente_tick s0 = Some s1 ∧
    gui_ejecutando (get_datos_gui s0) = Some (2, 3) ∧
    gui_ejecutando (get_datos_gui s1) = Some (2, 2) ∧
    ∀ s, s = s0 ∨ s = s1 →
      estado <$> todos_procesos s = [LISTO; EJECUCION] ∧
      gui_listos (get_datos_gui s) = [1] ∧
      gui_nuevos (get_datos_gui s) = [] ∧
      gui_listos_suspendidos (get_datos_gui s) = [] ∧
      gui_particiones (get_datos_gui s) =
        [ mkInfoParticion 0 0 100 SistemaOperativo (FI 0);
          mkInfoParticion 1 100 250 SinProceso EspacioLibre;
          mkInfoParticion 2 350 150 (Ocupada 1 120) (FI 30);
          mkInfoParticion 3 500 50 (Ocupada 2 40) (FI 10) ].
Proof.
  destruct (Simulador_init procesos_escenario) as [s0|] eqn:E0;
    [|vm_compute in E0; discriminate].
  destruct (siguiente_tick s0) as [s1|] eqn:E1;
    [|vm_compute in E0; injection E0 as <-; vm_compute in E1; discriminate].
  exists s0, s1.
  vm_compute in E0. injection E0 as <-. vm_compute in E1. injection E1 as <-.
  split_and!; [done..|]. intros s [->| ->]; by vm_compute.
Qed.

(** C2 on the code: built from six processes that all arrive at tick 0, the
    engine holds six processes in L/S, Ready and Running together, both
    after the construction and after the next tick. *)
Theorem gdm_inicial_excedido :
  ∃ s0 s1,
    Simulador_init seis_procesos = Some s0 ∧ siguiente_tick s0 = Some s1 ∧
    estado <$> todos_procesos s0 = [EJECUCION; LISTO; LISTO; LS; LS; LS] ∧
    gdm_actual s0 = 6%nat ∧ gdm_actual s1 = 6%nat.
Proof.
  destruct (Simulador_init seis_procesos) as [s0|] eqn:E0;
    [|vm_compute in E0; discriminate].
  destruct (siguiente_tick s0) as [s1|] eqn:E1;
    [|vm_compute in E0; injection E0 as <-; vm_compute in E1; discriminate].
  exists s0, s1.
  vm_compute in E0. injection E0 as <-. vm_compute in E1. injection E1 as <-.
  by vm_compute.
Qed.

(** ** The arrival step *)

Section Prefijo.
Implicit Types (l : list ref) (cond : ref → bool).

Lemma cuenta_prefijo_le cond l : (cuenta_prefijo cond l ≤ length l)%nat.
Proof. induction l as [|x l IH]; cbn; [lia|]. destruct (cond x); cbn; lia. Qed.

Lemma cuenta_prefijo_ext cond cond' l :
  (∀ r, r ∈ l → cond r = cond' r) → cuenta_prefijo cond l = cuenta_prefijo cond' l.
Proof.
  induction l as [|x l IH]; intros H; cbn; [done|].
  rewrite <- (H x) by left. destruct (cond x); [|done].
  f_equal. apply IH. intros r Hr. apply H. by right.
Qed.

Lemma cuenta_prefijo_take cond l r :
  r ∈ take (cuenta_prefijo cond l) l → cond r = true.
Proof.
  induction l as [|x l IH]; cbn; [by intros ?%elem_of_nil|].
  destruct (cond x) eqn:E; cbn; [|by intros ?%elem_of_nil].
  intros [->|Hr]%elem_of_cons; [done|by apply IH].
Qed.

Lemma cuenta_prefijo_drop cond l x l' :
  drop (cuenta_prefijo cond l) l = x :: l' → cond x = false.
Proof.
  induction l as [|y l IH]; cbn; [done|].
  destruct (cond y) eqn:E; cbn; [done|]. by intros [= <- _].
Qed.

Lemma cuenta_prefijo_ninguno cond l :
  (∀ r, r ∈ l → cond r = false) → cuenta_prefijo cond l = 0%nat.
Proof.
  destruct l as [|x l]; cbn; [done|]. intros H. by rewrite (H x) by left.
Qed.

(** In a list sorted by a key, the elements whose key is at most [t] are a
    prefix: the filter is the prefix that [cuenta_prefijo] counts, and
    every later element has a larger key. *)
Lemma cuenta_prefijo_sorted (ta : ref → Z) (t : Z) l :
  StronglySorted (λ a b, ta a ≤ ta b) l →
  let k := cuenta_prefijo (λ r, ta r <=? t) l in
  filter (λ r, ta r ≤ t) l = take k l ∧ ∀ r, r ∈ drop k l → t < ta r.
Proof.
  induction 1 as [|x l Hs IH Hx]; cbn [cuenta_prefijo];
    [split; [done|by intros ? ?%elem_of_nil]|].
  destruct (Z.leb_spec (ta x) t) as [Hle|Hgt]; cbn [take drop].
  - destruct IH as [IH1 IH2]. rewrite filter_cons_True by done. by rewrite IH1.
  - rewrite filter_cons_False by lia. split.
    + apply filter_ninguno. intros r Hr. rewrite Forall_forall in Hx.
      specialize (Hx r Hr). lia.
    + intros r [->|Hr]%elem_of_cons; [done|].
      rewrite Forall_forall in Hx. specialize (Hx r Hr). lia.
Qed.

(** The two arrival loops of [tick] together take the due processes in
    queue order up to the limit, provided at most one slot is free or no
    process of the queue is overdue. *)
Lemma tomados_spec (ta : ref → Z) (t : Z) (g : nat) l :
  (4 ≤ g)%nat ∨ (∀ r, r ∈ l → t ≤ ta r) →
  let k1 := ((5 - g) `min` cuenta_prefijo (λ r, (ta r =? t)%Z) l)%nat in
  let k2 := ((5 - (g + k1)) `min` cuenta_prefijo (λ r, (ta r <? t)%Z) (drop k1 l))%nat in
  (k1 + k2 = (5 - g) `min` cuenta_prefijo (λ r, (ta r <=? t)%Z) l)%nat.
Proof.
  intros [Hg|Hl] k1 k2.
  - subst k1 k2. destruct l as [|x l]; cbn [cuenta_prefijo];
      [rewrite drop_nil; cbn [cuenta_prefijo]; lia|].
    destruct (decide (5 ≤ g)%nat) as [H5|H5].
    { replace (5 - g)%nat with 0%nat by lia. cbn. lia. }
    replace (5 - g)%nat with 1%nat by lia.
    destruct (Z.eqb_spec (ta x) t) as [He|He].
    + destruct (Z.leb_spec (ta x) t); [|lia]. cbn [Nat.min].
      replace (5 - (g + 1))%nat with 0%nat by lia. cbn. lia.
    + cbn [Nat.min drop cuenta_prefijo].
      destruct (Z.ltb_spec (ta x) t), (Z.leb_spec (ta x) t); lia.
  - assert (cuenta_prefijo (λ r, ta r =? t) l = cuenta_prefijo (λ r, ta r <=? t) l) as He.
    { apply cuenta_prefijo_ext. intros r Hr%Hl.
      destruct (Z.eqb_spec (ta r) t), (Z.leb_spec (ta r) t); lia. }
    assert (cuenta_prefijo (λ r, ta r <? t) (drop k1 l) = 0%nat) as H0.
    { apply cuenta_prefijo_ninguno. intros r Hr.
      assert (r ∈ l) as Hrl%Hl.
      { eapply elem_of_sublist; [exact Hr|apply sublist_drop]. }
      destruct (Z.ltb_spec (ta r) t); [lia|done]. }
    subst k2. rewrite H0. subst k1. rewrite He. lia.
Qed.
End Prefijo.

Section ArribosTick.
Context (procesos : list Proceso).
Implicit Types (s : Simulador) (r q : ref) (l : list ref).

Lemma avanzar_reloj_eq s : avanzar_reloj s = con_reloj (reloj s + 1) s.
Proof.
  unfold avanzar_reloj. destruct (Z.eqb_spec (reloj s) 0) as [E|E]; [|done].
  by rewrite E.
Qed.

Lemma gdm_en_sistema s : gdm_actual s = length (en_sistema s).
Proof.
  unfold gdm_actual, en_sistema, residentes. rewrite !length_app. lia.
Qed.

Lemma mismo_sistema_gdm s s' : mismo_sistema s s' → gdm_actual s' = gdm_actual s.
Proof.
  intros (_ & _ & _ & _ & Hperm & _). rewrite !gdm_en_sistema.
  by apply Permutation_length.
Qed.

(** The CPU service leaves New, L/S, Ready and the clock alone, and frees
    at most one slot of the system. *)
Lemma servicio_efecto s s' :
  servicio_cpu s = Some s' →
  procesos_nuevos s' = procesos_nuevos s ∧
  cola_listos_suspendidos s' = cola_listos_suspendidos s ∧
  cola_listos s' = cola_listos s ∧ reloj s' = reloj s ∧
  (gdm_actual s' ≤ gdm_actual s ≤ gdm_actual s' + 1)%nat.
Proof.
  intros H. apply servicio_casos in H
    as [[_ ->]|[(cur & Hrun & _ & ->)|(cur & k & ev & Hrun & _ & _ & _ & ->)]].
  - split_and!; try done; lia.
  - cbn. split_and!; try done; unfold gdm_actual; cbn; lia.
  - unfold gdm_actual. cbn. autorewrite with campos. cbn. rewrite Hrun. cbn.
    split_and!; try done; lia.
Qed.

(** The four steps of a tick. *)
Lemma siguiente_tick_pasos s s' :
  siguiente_tick s = Some s' →
  ∃ s1 s2, antes_de_arribos s = Some s1 ∧
           _intentar_admision (arribos s1) = Some s2 ∧
           _ejecutar_planificador s2 = Some s'.
Proof.
  unfold siguiente_tick, tick, antes_de_arribos. fold (avanzar_reloj s).
  intros (s1 & H1 & (s2 & H2 & H3)%bind_Some)%bind_Some. by exists s1, s2.
Qed.

Lemma inv_antes_de_arribos s s1 :
  inv procesos s → antes_de_arribos s = Some s1 → inv procesos s1.
Proof.
  intros Hinv H. unfold antes_de_arribos in H. rewrite avanzar_reloj_eq in H.
  destruct (inv_servicio procesos (con_eventos [] (con_reloj (reloj s + 1) s)))
    as (s1' & H' & Hinv1).
  { by apply inv_con_eventos, inv_con_reloj. }
  congruence.
Qed.

Lemma inv_t_arribo s r :
  inv procesos s → t_arribo (proc s r) = t_arribo (procesos !!! r).
Proof.
  intros Hinv. apply (fmap_eq_campo t_arribo).
  pose proof (inv_datos _ _ Hinv) as H.
  apply (f_equal (fmap (λ d : Z * Z * Z * Z, d.1.2))) in H.
  by rewrite <- !list_fmap_compose in H.
Qed.

Lemma cohorte_sorted : StronglySorted (antes_por_arribo procesos) (cohorte procesos).
Proof.
  destruct (seleccion_spec procesos (seq 0 (length procesos))) as (_ & Hs & _).
  { intros r Hr%elem_of_seq. lia. }
  by apply StronglySorted_app_1_l in Hs.
Qed.

Lemma nuevos_sorted s :
  inv_arribo procesos s →
  StronglySorted (antes_por_arribo procesos) (procesos_nuevos s).
Proof.
  intros [_ [n ->] _]. pose proof cohorte_sorted as H.
  rewrite <- (take_drop n (cohorte procesos)) in H.
  by apply StronglySorted_app_1_r in H.
Qed.

Lemma antes_por_arribo_le a b :
  antes_por_arribo procesos a b → t_arribo (procesos !!! a) ≤ t_arribo (procesos !!! b).
Proof. unfold antes_por_arribo. lia. Qed.

(** On a state with the invariant whose New is sorted, the due processes
    are a prefix of New, and the arrival loops take them up to the limit
    when at most one slot is free or nothing is overdue. *)
Lemma arribos_tomados_spec s :
  inv procesos s →
  StronglySorted (antes_por_arribo procesos) (procesos_nuevos s) →
  (4 ≤ gdm_actual s)%nat ∨
    (∀ r, r ∈ procesos_nuevos s → reloj s ≤ t_arribo (procesos !!! r)) →
  vencidos s = take (length (vencidos s)) (procesos_nuevos s) ∧
  (∀ r, r ∈ drop (length (vencidos s)) (procesos_nuevos s) →
        reloj s < t_arribo (procesos !!! r)) ∧
  arribos_tomados s = (length (vencidos s) `min` (5 - gdm_actual s))%nat.
Proof.
  intros Hinv Hsort Hcaso.
  assert (StronglySorted (λ a b, t_arribo (proc s a) ≤ t_arribo (proc s b))
            (procesos_nuevos s)) as Hsort'.
  { eapply StronglySorted_impl; [|exact Hsort]. intros a b Hab.
    rewrite !(inv_t_arribo s) by done. by apply antes_por_arribo_le. }
  destruct (cuenta_prefijo_sorted (λ r, t_arribo (proc s r)) (reloj s) _ Hsort')
    as [Hf Hd].
  fold (vencidos s) in Hf.
  set (k := cuenta_prefijo _ _) in Hf, Hd.
  assert (length (vencidos s) = k) as Hk.
  { rewrite Hf, length_take. pose proof (cuenta_prefijo_le
      (λ r, t_arribo (proc s r) <=? reloj s) (procesos_nuevos s)). fold k in H. lia. }
  rewrite Hk. split_and!; [done| |].
  - intros r Hr. rewrite <- (inv_t_arribo s) by done. by apply Hd.
  - unfold arribos_tomados.
    rewrite (tomados_spec (λ r, t_arribo (proc s r)) (reloj s)); [fold k; lia|].
    destruct Hcaso as [?|H]; [by left|right].
    intros r Hr. rewrite (inv_t_arribo s) by done. by apply H.
Qed.

(** The state before the arrival step of a tick, and what the step takes. *)
Lemma paso_arribos s s1 :
  inv procesos s → inv_arribo procesos s → antes_de_arribos s = Some s1 →
  inv procesos s1 ∧
  reloj s1 = reloj s + 1 ∧ procesos_nuevos s1 = procesos_nuevos s ∧
  StronglySorted (antes_por_arribo procesos) (procesos_nuevos s1) ∧
  vencidos s1 = take (length (vencidos s1)) (procesos_nuevos s1) ∧
  (∀ r, r ∈ drop (length (vencidos s1)) (procesos_nuevos s1) →
        reloj s1 < t_arribo (procesos !!! r)) ∧
  arribos_tomados s1 = (length (vencidos s1) `min` (5 - gdm_actual s1))%nat.
Proof.
  intros Hinv Harr H1.
  assert (inv procesos s1) as Hinv1 by (by eapply inv_antes_de_arribos).
  unfold antes_de_arribos in H1. rewrite avanzar_reloj_eq in H1.
  apply servicio_efecto in H1 as (Hn & _ & _ & Hrel & Hg). cbn in Hn, Hrel.
  assert (gdm_actual (con_eventos [] (con_reloj (reloj s + 1) s)) = gdm_actual s)
    as Hg0 by done.
  rewrite Hg0 in Hg.
  assert (StronglySorted (antes_por_arribo procesos) (procesos_nuevos s1)) as Hsort.
  { rewrite Hn. by apply nuevos_sorted. }
  destruct (arribos_tomados_spec s1 Hinv1 Hsort) as (Hv & Hd & Hk).
  { destruct (arr_lleno _ _ Harr) as [H5|Hl]; [left; lia|right].
    intros r Hr. rewrite Hn in Hr. specialize (Hl r Hr). lia. }
  by split_and!.
Qed.

Lemma inv_arribo_tick s s' :
  inv procesos s → inv_arribo procesos s → siguiente_tick s = Some s' →
  inv_arribo procesos s'.
Proof.
  intros Hinv Harr (s1 & s2 & H1 & H2 & H3)%siguiente_tick_pasos.
  destruct (paso_arribos s s1 Hinv Harr H1) as (Hinv1 & Hrel & Hn & Hsort & Hv & Hd & Hk).
  destruct (arribos_efecto s1) as (Hn' & Hls' & Hl' & Hrun' & _ & _ & Hrel' & _).
  cbn zeta in Hn', Hls'.
  pose proof (mismo_sistema_trans _ _ _ (intentar_admision_mismo_sistema _ _ H2)
                (planificador_mismo_sistema _ _ H3)) as Hm.
  pose proof (mismo_sistema_gdm _ _ Hm) as Hg.
  destruct Hm as (HnM & _ & _ & HrelM & _).
  assert (gdm_actual (arribos s1) = (gdm_actual s1 + arribos_tomados s1)%nat) as Hga.
  { unfold gdm_actual. rewrite Hls', Hl', Hrun', length_app, length_take.
    pose proof (cuenta_prefijo_le (λ r, t_arribo (proc s1 r) <=? reloj s1) (procesos_nuevos s1)).
    assert (length (vencidos s1) ≤ length (procesos_nuevos s1))%nat.
    { unfold vencidos. apply length_filter. }
    lia. }
  split.
  - rewrite HrelM, Hrel', Hrel. pose proof (arr_reloj _ _ Harr). lia.
  - destruct (arr_nuevos _ _ Harr) as [n Hdrop].
    exists (n + arribos_tomados s1)%nat.
    by rewrite HnM, Hn', Hn, Hdrop, drop_drop.
  - rewrite Hg, Hga, HnM, Hn', HrelM, Hrel', Hk.
    destruct (decide (5 - gdm_actual s1 ≤ length (vencidos s1))%nat) as [Hc|Hc].
    + left. lia.
    + right. intros r Hr. apply Hd. by replace (_ `min` _)%nat with (length (vencidos s1)) in Hr by lia.
Qed.

Lemma inv_arribo_reporte s rep s' :
  inv_arribo procesos s → get_reporte_final s = Some (rep, s') → inv_arribo procesos s'.
Proof. intros [? ? ?] ->%get_reporte_final_estado. by split. Qed.

Lemma salvo_eventos_nuevos s s' :
  salvo_eventos s s' → procesos_nuevos s = procesos_nuevos s'.
Proof. intros H. apply (f_equal procesos_nuevos) in H. exact H. Qed.

Lemma salvo_eventos_reloj s s' : salvo_eventos s s' → reloj s = reloj s'.
Proof. intros H. apply (f_equal reloj) in H. exact H. Qed.

Lemma inv_arribo_init s :
  arribos_validos procesos → Simulador_init procesos = Some s → inv_arribo procesos s.
Proof.
  intros Hval. unfold Simulador_init. fold (estado_vacio procesos).
  rewrite guardar_estado_inicial_eq.
  pose proof (inv_preparar procesos) as Hinv0.
  pose proof (preparar_colas_cohorte procesos) as Hcoh.
  assert (reloj (_preparar_colas (estado_vacio procesos)) = 0) as Hrel00.
  { change (reloj (foldl (λ s p, mut p reiniciar s) (estado_vacio procesos)
                     (cohorte procesos)) = 0).
    destruct (reiniciar_foldl (cohorte procesos) (estado_vacio procesos))
      as (_ & _ & _ & _ & _ & _ & _ & _ & H & _).
    by rewrite H. }
  set (p0 := _preparar_colas (estado_vacio procesos)) in *. clearbody p0.
  intros (s1 & H1 & H2)%bind_Some.
  pose proof (mismo_sistema_trans _ _ _ (intentar_admision_mismo_sistema _ _ H1)
                (planificador_mismo_sistema _ _ H2)) as Hm.
  destruct Hm as (HnM & _ & _ & HrelM & _).
  pose proof (arribados_iniciales_salvo p0) as Hsalvo. cbn zeta in Hsalvo.
  set (k := cuenta_prefijo _ _) in Hsalvo.
  destruct (a_suspendidos_foldl (take k (procesos_nuevos p0))
              (con_nuevos (drop k (procesos_nuevos p0)) p0))
    as (_ & Hn & _ & _ & _ & _ & Hrel & _).
  cbn zeta in Hn, Hrel.
  assert (procesos_nuevos (arribados_iniciales p0) = drop k (cohorte procesos)) as Hn0.
  { rewrite (salvo_eventos_nuevos _ _ Hsalvo), Hn. cbn. by rewrite Hcoh. }
  assert (reloj (arribados_iniciales p0) = 0) as Hrel0.
  { by rewrite (salvo_eventos_reloj _ _ Hsalvo), Hrel, <- Hrel00. }
  split.
  - rewrite HrelM, Hrel0. lia.
  - exists k. by rewrite HnM.
  - right. rewrite HnM, Hn0, HrelM, Hrel0. intros r Hr.
    assert (∀ q, q ∈ cohorte procesos → 0 ≤ t_arribo (proc p0 q)) as Hpos.
    { intros q Hq%elem_of_cohorte. rewrite (inv_t_arribo p0) by done.
      by apply Hval, list_elem_of_lookup_total_2. }
    assert (StronglySorted (λ a b, t_arribo (proc p0 a) ≤ t_arribo (proc p0 b))
              (cohorte procesos)) as Hsort.
    { eapply StronglySorted_impl; [|exact cohorte_sorted]. intros a b Hab.
      rewrite !(inv_t_arribo p0) by done. by apply antes_por_arribo_le. }
    destruct (cuenta_prefijo_sorted (λ r, t_arribo (proc p0 r)) 0 _ Hsort) as [_ Hd].
    rewrite <- (inv_t_arribo p0) by done. apply Hd.
    replace (cuenta_prefijo _ _) with k; [done|].
    unfold k. rewrite Hcoh. apply cuenta_prefijo_ext. intros q Hq%Hpos.
    destruct (Z.eqb_spec (t_arribo (proc p0 q)) 0), (Z.leb_spec (t_arribo (proc p0 q)) 0); lia.
Qed.

(** Every observable state of an engine built from valid definitions
    satisfies the arrival invariant. *)
Lemma alcanzable_inv_arribo s :
  arribos_validos procesos → alcanzable procesos s → inv_arribo procesos s.
Proof.
  intros Hval. induction 1 as [s H|s s' Halc IH H|s rep s' _ IH H].
  - by apply inv_arribo_init.
  - apply (inv_arribo_tick s); [by apply alcanzable_inv|done..].
  - by eapply inv_arribo_reporte.
Qed.
End ArribosTick.

(** X24. The arrival step of [tick]. In the tick that follows an observable
    state of an engine built from valid definitions, let [s1] be the state
    after the CPU service
    (clock advanced), on which the arrival step works. New is in ascending
    (arrival time, id) order and the due processes (arrival time <= clock)
    are its prefix. The j-th due process, in that order, is moved to L/S
    exactly when the processes in the system plus the j due ones before it
    are fewer than 5; otherwise it stays in New. So the step moves the
    first min(#due, 5 - gdm) processes of New and keeps the rest, in order;
    the processes that are not due stay in New. The rest of the tick leaves
    New alone and ends in an observable state, where the same holds for the
    next tick. *)
Theorem arribos_en_orden (procesos : list Proceso) (s s1 : Simulador) :
  arribos_validos procesos → alcanzable procesos s →
  antes_de_arribos s = Some s1 →
  let s2 := arribos s1 in
  let k := (length (vencidos s1) `min` (5 - gdm_actual s1))%nat in
  reloj s1 = reloj s + 1 ∧ procesos_nuevos s1 = procesos_nuevos s ∧
  StronglySorted (antes_por_arribo procesos) (procesos_nuevos s1) ∧
  vencidos s1 = take (length (vencidos s1)) (procesos_nuevos s1) ∧
  (∀ j r, vencidos s1 !! j = Some r →
     if decide (gdm_actual s1 + j < 5)%nat
     then r ∈ cola_listos_suspendidos s2 ∧ estado (proc s2 r) = LS ∧
          r ∉ procesos_nuevos s2
     else r ∈ procesos_nuevos s2 ∧ r ∉ cola_listos_suspendidos s2) ∧
  (∀ r, r ∈ procesos_nuevos s1 → reloj s1 < t_arribo (proc s1 r) →
        r ∈ procesos_nuevos s2) ∧
  procesos_nuevos s2 = drop k (procesos_nuevos s1) ∧
  cola_listos_suspendidos s2 = cola_listos_suspendidos s1 ++ take k (vencidos s1) ∧
  ∃ s', siguiente_tick s = Some s' ∧ alcanzable procesos s' ∧
        procesos_nuevos s' = procesos_nuevos s2.
Proof.
  intros Hval Halc H1 s2 k.
  pose proof (alcanzable_inv procesos s Halc) as Hinv.
  pose proof (alcanzable_inv_arribo procesos s Hval Halc) as Harr.
  destruct (paso_arribos procesos s s1 Hinv Harr H1)
    as (Hinv1 & Hrel & Hn & Hsort & Hv & Hd & Hk).
  fold k in Hk.
  destruct (arribos_efecto s1)
    as (Hn2 & Hls2 & _ & _ & _ & _ & _ & _ & _ & Hest & _).
  cbn zeta in Hn2, Hls2, Hest. rewrite Hk in Hn2, Hls2, Hest. fold s2 in Hn2, Hls2, Hest.
  pose proof (inv_arribos procesos s1 Hinv1) as Hinv2. fold s2 in Hinv2.
  destruct (inv_disjuntos s2 (inv_nodup _ _ Hinv2)) as (_ & _ & _ & _ & Hdis & _).
  assert (∀ r, r ∈ procesos_nuevos s2 → r ∉ cola_listos_suspendidos s2) as Hdis'.
  { intros r Hr Hls. destruct (Hdis r Hr) as [Hno _]. apply Hno.
    apply elem_of_en_sistema. by left. }
  set (m := length (vencidos s1)) in *.
  assert (take k (vencidos s1) = take k (procesos_nuevos s1)) as Htk.
  { rewrite Hv, take_take. f_equal. lia. }
  split_and!; try done.
  - intros j r Hj.
    assert (j < m)%nat as Hjm by (by apply lookup_lt_Some in Hj).
    rewrite Hv in Hj. apply lookup_take_Some in Hj as [Hj _].
    destruct (decide (gdm_actual s1 + j < 5)%nat) as [Hlt|Hge].
    + assert (r ∈ take k (procesos_nuevos s1)) as Hr.
      { apply elem_of_take. exists j. split; [done|lia]. }
      assert (r ∈ cola_listos_suspendidos s2) as Hr2.
      { rewrite Hls2. apply elem_of_app. by right. }
      split_and!; [done| |by intros ?%Hdis'].
      apply Hest; [done|]. apply (inv_rango procesos s1 r Hinv1).
      apply elem_of_colas. left. by eapply list_elem_of_lookup_2.
    + assert (r ∈ procesos_nuevos s2) as Hr.
      { rewrite Hn2. apply (list_elem_of_lookup_2 _ (j - k)).
        rewrite lookup_drop. by replace (k + (j - k))%nat with j by lia. }
      split; [done|by apply Hdis'].
  - intros r Hr Hnd. rewrite Hn2.
    rewrite <- (take_drop m (procesos_nuevos s1)) in Hr.
    apply elem_of_app in Hr as [Hr|Hr].
    + rewrite <- Hv in Hr. apply list_elem_of_filter in Hr as [Hr _]. lia.
    + replace m with (k + (m - k))%nat in Hr by lia. rewrite <- drop_drop in Hr.
      eapply elem_of_sublist; [exact Hr|apply sublist_drop].
  - by rewrite Htk.
  - destruct (inv_siguiente_tick procesos s Hinv) as (s' & Hs' & _).
    exists s'. split_and!; [done|by eapply alc_tick|].
    destruct (siguiente_tick_pasos s s' Hs') as (s1' & s3 & H1' & H2 & H3).
    assert (s1' = s1) as -> by congruence.
    destruct (planificador_mismo_sistema _ _ H3) as (-> & _).
    by destruct (intentar_admision_mismo_sistema _ _ H2) as (-> & _).
Qed.

Lemma arribos_en_orden_witness :
  procesos_nuevos (arribos ejemplo_rafaga_1) = drop 1 (procesos_nuevos ejemplo_rafaga_1) ∧
  cola_listos_suspendidos (arribos ejemplo_rafaga_1)
  = cola_listos_suspendidos ejemplo_rafaga_1 ++ take 1 (vencidos ejemplo_rafaga_1).
Proof.
  assert (arribos_validos procesos_rafaga) as Hval.
  { intros p Hp. unfold procesos_rafaga in Hp.
    repeat (apply elem_of_cons in Hp as [->|Hp]; [cbn; lia|]).
    by apply elem_of_nil in Hp. }
  assert (alcanzable procesos_rafaga ejemplo_rafaga) as Halc.
  { apply alc_init. by vm_compute. }
  assert (antes_de_arribos ejemplo_rafaga = Some ejemplo_rafaga_1) as H1.
  { by vm_compute. }
  destruct (arribos_en_orden procesos_rafaga ejemplo_rafaga ejemplo_rafaga_1 Hval Halc H1)
    as (_ & _ & _ & _ & _ & _ & Hn & Hls & _).
  split; [exact Hn|exact Hls].
Defined.

(** ** Processes that fit no partition *)

Section SinSuspendido.
Implicit Types (s : Simulador) (r c v q : ref) (l : list ref).

Lemma asignar_proceso_con_suspendidos i c l s :
  (asignar_proceso i c (con_suspendidos l s)).2
  = con_suspendidos l (asignar_proceso i c s).2.
Proof.
  with_strategy transparent [asignar_proceso] unfold asignar_proceso.
  cbn. by destruct (_ && _).
Qed.

Lemma liberar_particion_con_suspendidos i l s :
  liberar_particion i (con_suspendidos l s) = con_suspendidos l (liberar_particion i s).
Proof.
  rewrite !liberar_particion_eq. cbn. by destruct (proceso_asignado _).
Qed.

Lemma py_remove_filter_ne c r l :
  c ≠ r →
  py_remove c (filter (λ q, q ≠ r) l) = filter (λ q, q ≠ r) <$> py_remove c l.
Proof.
  intros Hne. induction l as [|x l IH]; [done|].
  destruct (decide (x = r)) as [->|Hx].
  - rewrite filter_cons_False by (by intros ?). cbn [py_remove].
    rewrite decide_False by done. rewrite IH.
    destruct (py_remove c l); cbn [fmap option_fmap option_map]; [|done].
    by rewrite filter_cons_False by (by intros ?).
  - rewrite filter_cons_True by done. cbn [py_remove].
    destruct (decide (c = x)) as [->|Hc]; [done|].
    rewrite IH. destruct (py_remove c l); cbn [fmap option_fmap option_map]; [|done].
    by rewrite filter_cons_True by done.
Qed.

Lemma entrar_a_memoria_sin r i c s :
  c ≠ r →
  entrar_a_memoria i c (sin_suspendido r s) = sin_suspendido r <$> entrar_a_memoria i c s.
Proof.
  intros Hne. unfold entrar_a_memoria, sin_suspendido. cbn [cola_listos_suspendidos con_suspendidos].
  rewrite py_remove_filter_ne by done.
  destruct (py_remove c (cola_listos_suspendidos s)) as [ls|]; [|done].
  cbn [fmap option_fmap option_map mbind option_bind].
  f_equal.
  change (con_suspendidos (filter (λ q, q ≠ r) ls) (con_suspendidos _ s))
    with (con_suspendidos (filter (λ q, q ≠ r) ls) (con_suspendidos ls s)).
  rewrite asignar_proceso_con_suspendidos.
  cbn. autorewrite with campos. done.
Qed.

Lemma sacar_suspendidos v i l s :
  liberar_particion i
    (mut v (con_id_particion None) (mut v (con_estado LS) (con_suspendidos l s)))
  = con_suspendidos l
      (liberar_particion i (mut v (con_id_particion None) (mut v (con_estado LS) s))).
Proof. by rewrite <- liberar_particion_con_suspendidos. Qed.

Lemma sacar_de_memoria_sin r v i s :
  v ≠ r →
  sacar_de_memoria v i (sin_suspendido r s) = sin_suspendido r <$> sacar_de_memoria v i s.
Proof.
  intros Hne. unfold sacar_de_memoria, sin_suspendido.
  cbn [proceso_en_ejecucion cola_listos con_suspendidos].
  case_bool_decide; cbn [mbind option_bind fmap option_fmap option_map].
  - f_equal.
    change (con_ejecucion None (con_suspendidos ?F s))
      with (con_suspendidos F (con_ejecucion None s)).
    rewrite !sacar_suspendidos. cbn [cola_listos_suspendidos con_suspendidos].
    rewrite liberar_particion_cola_listos_suspendidos.
    cbn [cola_listos_suspendidos mut con_ejecucion con_listos].
    by rewrite filter_app, filter_cons_True, filter_nil by done.
  - destruct (py_remove v (cola_listos s)) as [l|];
      cbn [mbind option_bind fmap option_fmap option_map]; [|done].
    f_equal.
    change (con_listos l (con_suspendidos ?F s))
      with (con_suspendidos F (con_listos l s)).
    rewrite !sacar_suspendidos. cbn [cola_listos_suspendidos con_suspendidos].
    rewrite liberar_particion_cola_listos_suspendidos.
    cbn [cola_listos_suspendidos mut con_ejecucion con_listos].
    by rewrite filter_app, filter_cons_True, filter_nil by done.
Qed.

Lemma aplicar_sin r ch s :
  match ch with CAdmision c _ => c ≠ r | CSwap c v _ => c ≠ r ∧ v ≠ r end →
  aplicar ch (sin_suspendido r s) = sin_suspendido r <$> aplicar ch s.
Proof.
  destruct ch as [c i|c v i]; cbn [aplicar].
  - intros Hc. rewrite entrar_a_memoria_sin by done.
    by destruct (entrar_a_memoria i c s).
  - intros [Hc Hv]. rewrite sacar_de_memoria_sin by done.
    destruct (sacar_de_memoria v i s) as [s1|]; [|done].
    cbn [mbind option_bind fmap option_fmap option_map].
    rewrite entrar_a_memoria_sin by done.
    by destruct (entrar_a_memoria i c s1).
Qed.

Lemma mejor_particion_desde_suspendidos l0 s c m fi (l : list nat) :
  mejor_particion_desde (con_suspendidos l0 s) c m fi l = mejor_particion_desde s c m fi l.
Proof.
  revert m fi. induction l as [|i l IH]; intros m fi; [done|].
  cbn [mejor_particion_desde]. rewrite !IH. done.
Qed.

Lemma victimas_validas_suspendidos l0 s c l :
  victimas_validas (con_suspendidos l0 s) c l = victimas_validas s c l.
Proof.
  induction l as [|v l IH]; [done|]. cbn [victimas_validas]. by rewrite IH.
Qed.

(** The decision for a candidate does not look at the L/S queue. *)
Lemma decidir_suspendidos l0 s c : decidir (con_suspendidos l0 s) c = decidir s c.
Proof.
  unfold decidir, _encontrar_mejor_particion.
  change (libres (con_suspendidos l0 s)) with (libres s).
  rewrite mejor_particion_desde_suspendidos.
  change (procesos_en_memoria (con_suspendidos l0 s)) with (procesos_en_memoria s).
  cbn [cola_listos proceso_en_ejecucion con_suspendidos].
  by rewrite victimas_validas_suspendidos.
Qed.

Lemma buscar_cambio_suspendidos l0 s l :
  buscar_cambio (con_suspendidos l0 s) l = buscar_cambio s l.
Proof.
  induction l as [|c l IH]; [done|]. cbn [buscar_cambio].
  by rewrite decidir_suspendidos, IH.
Qed.

(** A candidate whose iteration changes nothing can be left out of the
    [for] loop. *)
Lemma buscar_cambio_filter s r l :
  decidir s r = Some None →
  buscar_cambio s (filter (λ q, q ≠ r) l) = buscar_cambio s l.
Proof.
  intros Hr. induction l as [|x l IH]; [done|].
  destruct (decide (x = r)) as [->|Hx].
  - rewrite filter_cons_False by (by intros ?). cbn [buscar_cambio].
    by rewrite Hr.
  - rewrite filter_cons_True by done. cbn [buscar_cambio]. by rewrite IH.
Qed.

Lemma ordenar_suspendidos_sin r s :
  ordenar_suspendidos (sin_suspendido r s) = sin_suspendido r (ordenar_suspendidos s).
Proof.
  unfold ordenar_suspendidos, sin_suspendido.
  cbn [cola_listos_suspendidos con_suspendidos].
  rewrite (sorted_filter (clave_ls s) lex2_leb lex2_leb_total lex2_leb_trans). done.
Qed.
End SinSuspendido.

Section Grande.
Context (procesos : list Proceso).
Implicit Types (s : Simulador) (r c v q : ref) (l : list ref).

Lemma existsb_false {A} (f : A → bool) (ps : list A) (p : A) :
  existsb f ps = false → p ∈ ps → f p = false.
Proof.
  induction ps as [|x ps IH]; cbn; [by intros _ ?%elem_of_nil|].
  intros [Hx Hps]%orb_false_iff [->|Hp]%elem_of_cons; [done|by apply IH].
Qed.

Lemma cabe_false s r :
  _cabe_en_alguna_particion s r = false →
  ∀ k p, particiones s !! k = Some p → es_so p = false →
         par_tamano p < tamano (proc s r).
Proof.
  unfold _cabe_en_alguna_particion. intros H k p Hk%list_elem_of_lookup_2 Hso.
  apply (existsb_false _ _ p) in H; [|done]. cbn beta in H. rewrite Hso in H.
  cbn [negb andb] in H.
  by apply Z.leb_gt in H.
Qed.

Lemma inv_tamano s r : inv procesos s → tamano (proc s r) = tamano (procesos !!! r).
Proof.
  intros Hinv. apply (fmap_eq_campo tamano).
  pose proof (inv_datos _ _ Hinv) as H.
  apply (f_equal (fmap (λ d : Z * Z * Z * Z, d.1.1.2))) in H.
  by rewrite <- !list_fmap_compose in H.
Qed.

(** Whether a process fits some partition does not change along the run. *)
Lemma cabe_estable s s' r :
  inv procesos s → inv procesos s' →
  _cabe_en_alguna_particion s' r = _cabe_en_alguna_particion s r.
Proof.
  intros Hinv Hinv'. unfold _cabe_en_alguna_particion.
  rewrite (inv_tamano s), (inv_tamano s') by done.
  set (f := λ fm : nat * Z * bool * Z,
              negb fm.1.2 && (tamano (procesos !!! r) <=? fm.1.1.2)).
  assert (∀ ps, existsb (λ p, negb (es_so p) && (tamano (procesos !!! r) <=? par_tamano p)) ps
                = existsb f (forma <$> ps)) as Hf.
  { induction ps as [|p ps IH]; [done|]. cbn. by rewrite IH. }
  by rewrite !Hf, (inv_forma _ _ Hinv), (inv_forma _ _ Hinv').
Qed.

(** The iteration of a candidate that fits no partition changes nothing. *)
Lemma decidir_grande s r :
  inv procesos s → _cabe_en_alguna_particion s r = false → decidir s r = Some None.
Proof.
  intros Hinv Hcabe. pose proof (cabe_false s r Hcabe) as Hno.
  unfold decidir.
  destruct ((procesos_en_memoria s <? 3)%nat && negb (bool_decide (libres s = []))).
  - assert (_encontrar_mejor_particion s r (libres s) = None) as ->; [|done].
    apply encontrar_mejor_particion_None. intros j [Hj Hlibre]%elem_of_libres [_ Hfit].
    destruct (lookup_lt_is_Some_2 (particiones s) j Hj) as [p Hp].
    destruct (lookup_particiones s j p Hp) as [_ Hpart].
    assert (es_so p = false) as Hso.
    { rewrite Hpart in Hlibre. unfold esta_libre in Hlibre.
      destruct (proceso_asignado p); [done|]. by destruct (es_so p). }
    specialize (Hno j p Hp Hso). rewrite Hpart in Hfit. lia.
  - destruct (procesos_en_memoria s =? 3)%nat; [|done].
    fold (residentes s).
    destruct (victimas_validas_Some s r (residentes s)) as [validas Hval].
    { intros v Hv. destruct (inv_residentes _ _ Hinv v Hv) as (k & Hk & Hlt & _).
      by exists k. }
    rewrite Hval. cbn [mbind option_bind].
    assert (validas = []) as ->; [|done].
    apply victimas_validas_spec in Hval as [_ Hval].
    destruct validas as [|v validas]; [done|].
    destruct (proj1 (Hval v)) as (Hv & k & Hk & Hfit); [by left|].
    destruct (bien_alojado_usuario procesos s v k Hinv Hv Hk) as (_ & _ & Hso & _ & Hp).
    specialize (Hno k _ Hp Hso). lia.
Qed.

(** A change decided by a pass involves neither as candidate nor as victim
    a suspended process that fits no partition. *)
Lemma cambio_no_grande s r ch :
  inv procesos s → r ∈ cola_listos_suspendidos s →
  _cabe_en_alguna_particion s r = false →
  cambio_pasada s = Some (Some ch) →
  match ch with
  | CAdmision c _ => c ≠ r
  | CSwap c v _ => c ≠ r ∧ v ≠ r
  end.
Proof.
  intros Hinv Hr Hcabe (c & Hc & Hdec)%cambio_pasada_elem_of.
  pose proof (inv_ordenar procesos s Hinv) as Hinv'.
  assert (decidir (ordenar_suspendidos s) r = Some None) as Hgr.
  { apply decidir_grande; [done|]. by rewrite (cabe_estable s). }
  assert (c ≠ r) as Hne by (intros ->; congruence).
  destruct ch as [c' i|c' v k].
  - by apply decidir_admision in Hdec as (-> & _).
  - apply decidir_swap in Hdec as (-> & _ & validas & Hval & Hmax & _).
    split; [done|]. intros ->.
    apply (py_max_spec _ _ lex2_leb_total lex2_leb_trans) in Hmax as [Hv _].
    apply victimas_validas_spec in Hval as [_ Hval].
    apply Hval in Hv as [Hv _].
    destruct (inv_disjuntos s (inv_nodup _ _ Hinv)) as (_ & _ & _ & _ & _ & Hdis & _).
    by destruct (Hdis r Hr) as [Hno _].
Qed.

(** One pass of the admission loop runs the same with and without a
    suspended process that fits no partition. *)
Lemma pasada_sin s r :
  inv procesos s → r ∈ cola_listos_suspendidos s →
  _cabe_en_alguna_particion s r = false →
  pasada (sin_suspendido r s) = (λ x, (sin_suspendido r x.1, x.2)) <$> pasada s.
Proof.
  intros Hinv Hr Hcabe.
  pose proof (inv_ordenar procesos s Hinv) as Hinv'.
  assert (decidir (ordenar_suspendidos s) r = Some None) as Hgr.
  { apply decidir_grande; [done|]. by rewrite (cabe_estable s). }
  assert (cambio_pasada (sin_suspendido r s) = cambio_pasada s) as Hcambio.
  { unfold cambio_pasada. cbn zeta. rewrite ordenar_suspendidos_sin.
    unfold sin_suspendido at 1. rewrite buscar_cambio_suspendidos.
    unfold sin_suspendido. cbn [cola_listos_suspendidos con_suspendidos].
    by apply buscar_cambio_filter. }
  unfold pasada. rewrite Hcambio.
  destruct (cambio_pasada s) as [[ch|]|] eqn:Hch;
    cbn [mbind option_bind fmap option_fmap option_map]; [| |done].
  - rewrite ordenar_suspendidos_sin, aplicar_sin
      by (by apply (cambio_no_grande s r ch)).
    by destruct (aplicar ch (ordenar_suspendidos s)).
  - by rewrite ordenar_suspendidos_sin.
Qed.

(** A suspended process that fits no partition is still in L/S after a
    pass. *)
Lemma pasada_queda s r s' b :
  inv procesos s → r ∈ cola_listos_suspendidos s →
  _cabe_en_alguna_particion s r = false →
  pasada s = Some (s', b) → r ∈ cola_listos_suspendidos s'.
Proof.
  intros Hinv Hr Hcabe Hp.
  assert (r ∈ cola_listos_suspendidos (ordenar_suspendidos s)) as Hr'.
  { cbn. by apply elem_of_sorted. }
  unfold pasada in Hp. apply bind_Some in Hp as (d & Hd & Hp).
  destruct d as [ch|]; [|by injection Hp as <- <-].
  apply bind_Some in Hp as (s1 & Hs1 & [= <- <-]).
  pose proof (cambio_no_grande s r ch Hinv Hr Hcabe Hd) as Hne.
  destruct ch as [c i|c v i]; cbn [aplicar] in Hs1.
  - apply bind_Some in Hs1 as (s2 & H2 & [= <-]).
    apply entrar_a_memoria_colas in H2 as (Hrem & _).
    cbn [registrar con_eventos cola_listos_suspendidos].
    by apply (py_remove_elem_of _ r) in Hrem as ->.
  - destruct Hne as [Hc Hv].
    apply bind_Some in Hs1 as (s2 & H2 & (s3 & H3 & [= <-])%bind_Some).
    apply sacar_de_memoria_colas in H2 as (Hls2 & _).
    apply entrar_a_memoria_colas in H3 as (Hrem & _).
    cbn [registrar con_eventos cola_listos_suspendidos].
    apply (py_remove_elem_of _ r) in Hrem as ->; [|by intros ->].
    rewrite Hls2. apply elem_of_app. by left.
Qed.

Lemma pasada_grande s r s' b :
  (inv procesos s ∧ r ∈ cola_listos_suspendidos s ∧
   _cabe_en_alguna_particion s r = false) →
  pasada s = Some (s', b) →
  inv procesos s' ∧ r ∈ cola_listos_suspendidos s' ∧
  _cabe_en_alguna_particion s' r = false.
Proof.
  intros (Hinv & Hr & Hcabe) Hp.
  assert (inv procesos s') as Hinv'.
  { destruct (inv_pasada procesos s Hinv) as (s0 & b0 & H0 & Hinv0). congruence. }
  split_and!; [done|by apply (pasada_queda s r s' b)|by rewrite (cabe_estable s)].
Qed.

Lemma intentar_admision_queda s r s' :
  inv procesos s → r ∈ cola_listos_suspendidos s →
  _cabe_en_alguna_particion s r = false →
  _intentar_admision s = Some s' →
  inv procesos s' ∧ r ∈ cola_listos_suspendidos s' ∧
  _cabe_en_alguna_particion s' r = false.
Proof.
  intros Hinv Hr Hcabe H.
  apply (intentar_admision_ind
           (λ s, inv procesos s ∧ r ∈ cola_listos_suspendidos s ∧
                 _cabe_en_alguna_particion s r = false) s s'); [|done|done].
  intros s1 s2 b. apply pasada_grande.
Qed.

Lemma bucle_admision_sin n s r :
  inv procesos s → r ∈ cola_listos_suspendidos s →
  _cabe_en_alguna_particion s r = false →
  bucle_admision n (sin_suspendido r s) = sin_suspendido r <$> bucle_admision n s.
Proof.
  revert s. induction n as [|n IH]; intros s Hinv Hr Hcabe; [done|].
  cbn [bucle_admision]. rewrite pasada_sin by done.
  destruct (pasada s) as [[s1 b]|] eqn:Hp;
    cbn [mbind option_bind fmap option_fmap option_map fst snd]; [|done].
  destruct b; [|done].
  destruct (pasada_grande s r s1 true) as (Hinv1 & Hr1 & Hcabe1); [done..|].
  by apply IH.
Qed.

Lemma length_filter_filter (P Q : ref → Prop)
    `{!∀ x, Decision (P x)} `{!∀ x, Decision (Q x)} l :
  (length (filter P (filter Q l)) ≤ length (filter P l))%nat.
Proof.
  induction l as [|x l IH]; [done|].
  destruct (decide (Q x)), (decide (P x)).
  - rewrite (filter_cons_True Q), !(filter_cons_True P) by done. cbn [length]. lia.
  - by rewrite (filter_cons_True Q), !(filter_cons_False P) by done.
  - rewrite (filter_cons_False Q), (filter_cons_True P) by done. cbn [length]. lia.
  - by rewrite (filter_cons_False Q), (filter_cons_False P) by done.
Qed.

Lemma sum_list_with_le {A} (f g : A → nat) (l : list A) :
  (∀ x, f x ≤ g x)%nat → (sum_list_with f l ≤ sum_list_with g l)%nat.
Proof. intros H. induction l as [|x l IH]; cbn; [lia|]. specialize (H x). lia. Qed.

(** Without a suspended process the bound on the iterations is not larger. *)
Lemma medida_sin s r : (medida (sin_suspendido r s) ≤ medida s)%nat.
Proof.
  unfold medida.
  change (procesos_en_memoria (sin_suspendido r s)) with (procesos_en_memoria s).
  change (residentes (sin_suspendido r s)) with (residentes s).
  assert (length (en_sistema (sin_suspendido r s)) ≤ length (en_sistema s))%nat as Hlen.
  { unfold en_sistema. change (residentes (sin_suspendido r s)) with (residentes s).
    cbn [cola_listos_suspendidos sin_suspendido con_suspendidos].
    rewrite !length_app. pose proof (length_filter (λ q, q ≠ r) (cola_listos_suspendidos s)).
    lia. }
  assert (sum_list_with (rango (sin_suspendido r s)) (residentes s)
          ≤ sum_list_with (rango s) (residentes s))%nat as Hsum.
  { apply sum_list_with_le. intros x. unfold rango, en_sistema.
    change (residentes (sin_suspendido r s)) with (residentes s).
    change (todos_procesos (sin_suspendido r s)) with (todos_procesos s).
    cbn [cola_listos_suspendidos sin_suspendido con_suspendidos].
    rewrite !filter_app, !length_app.
    pose proof (length_filter_filter
                  (λ q, t_restante (proc s q) < t_restante (proc s x))
                  (λ q, q ≠ r) (cola_listos_suspendidos s)) as H.
    lia. }
  assert ((3 - procesos_en_memoria s) * (length (en_sistema (sin_suspendido r s)) + 1)
          ≤ (3 - procesos_en_memoria s) * (length (en_sistema s) + 1))%nat.
  { apply Nat.mul_le_mono_l. lia. }
  lia.
Qed.

(** The admission loop runs the same with and without a suspended process
    that fits no partition. *)
Lemma intentar_admision_sin s r :
  inv procesos s → r ∈ cola_listos_suspendidos s →
  _cabe_en_alguna_particion s r = false →
  _intentar_admision (sin_suspendido r s) = sin_suspendido r <$> _intentar_admision s.
Proof.
  intros Hinv Hr Hcabe.
  rewrite <- (bucle_admision_cota (S (medida s)) (sin_suspendido r s))
    by (pose proof (medida_sin s r); lia).
  by apply bucle_admision_sin.
Qed.

Lemma planificador_suspendidos s s' :
  _ejecutar_planificador s = Some s' →
  cola_listos_suspendidos s' = cola_listos_suspendidos s.
Proof.
  intros H. apply planificador_casos in H
    as [[_ ->]|[(r & l & ev & _ & _ & ->)|[(run & c & l & _ & _ & _ & ->)
       |(run & c & l & ent & l' & ev & _ & _ & _ & _ & ->)]]]; [done| |done|].
  - cbn. by autorewrite with campos.
  - cbn. by autorewrite with campos.
Qed.

(** A suspended process that fits no partition is still suspended after a
    tick. *)
Lemma tick_queda s r s' :
  inv procesos s → r ∈ cola_listos_suspendidos s →
  _cabe_en_alguna_particion s r = false →
  siguiente_tick s = Some s' →
  inv procesos s' ∧ r ∈ cola_listos_suspendidos s' ∧
  _cabe_en_alguna_particion s' r = false.
Proof.
  intros Hinv Hr Hcabe (s1 & s2 & H1 & H2 & H3)%siguiente_tick_pasos.
  pose proof (inv_antes_de_arribos procesos s s1 Hinv H1) as Hinv1.
  apply servicio_efecto in H1 as (_ & Hls1 & _).
  cbn [cola_listos_suspendidos con_eventos] in Hls1.
  rewrite avanzar_reloj_eq in Hls1. cbn [cola_listos_suspendidos con_reloj] in Hls1.
  destruct (arribos_efecto s1) as (_ & Hls & _). cbn zeta in Hls.
  pose proof (inv_arribos procesos s1 Hinv1) as Hinva.
  destruct (intentar_admision_queda (arribos s1) r s2) as (Hinv2 & Hr2 & Hcabe2);
    [done| |by rewrite (cabe_estable s)|done|].
  { rewrite Hls, Hls1. apply elem_of_app. by left. }
  pose proof (inv_planificador procesos s2 s' Hinv2 H3) as Hinv'.
  split_and!; [done| |by rewrite (cabe_estable s)].
  by rewrite (planificador_suspendidos s2 s' H3).
Qed.

Lemma paso_queda s r s' :
  (inv procesos s ∧ r ∈ cola_listos_suspendidos s ∧
   _cabe_en_alguna_particion s r = false) →
  paso s s' →
  inv procesos s' ∧ r ∈ cola_listos_suspendidos s' ∧
  _cabe_en_alguna_particion s' r = false.
Proof.
  intros (Hinv & Hr & Hcabe) [Ht|[rep Hrep]].
  - by apply (tick_queda s).
  - pose proof (inv_get_reporte_final procesos s rep s' Hinv Hrep) as Hinv'.
    apply get_reporte_final_estado in Hrep as ->. by split_and!.
Qed.

(** It is suspended in every later state. *)
Lemma queda_siempre s r s' :
  inv procesos s → r ∈ cola_listos_suspendidos s →
  _cabe_en_alguna_particion s r = false → rtc paso s s' →
  inv procesos s' ∧ r ∈ cola_listos_suspendidos s' ∧
  _cabe_en_alguna_particion s' r = false.
Proof.
  intros Hinv Hr Hcabe Hrtc.
  assert (inv procesos s ∧ r ∈ cola_listos_suspendidos s ∧
          _cabe_en_alguna_particion s r = false) as H by done.
  clear Hinv Hr Hcabe. induction Hrtc as [s|s s1 s' Hp _ IH]; [done|].
  apply IH. by apply (paso_queda s).
Qed.

(** The rows of the report are the rows of its processes, in order. *)
Lemma acumular_filas_de s l a :
  ac_filas (foldl (acumular s) a l) = ac_filas a ++ (l ≫= filas_de s).
Proof.
  revert a. induction l as [|x l IH]; intros a; cbn [foldl].
  - by rewrite app_nil_r.
  - rewrite IH. cbn [mbind list_bind]. rewrite (assoc_L (++)). f_equal.
    unfold filas_de, acumular.
    destruct (negb _); [done|]. destruct (_ && _); [done|].
    by rewrite app_nil_r.
Qed.

Lemma reporte_filas_de s rep s' :
  get_reporte_final s = Some (rep, s') →
  rep_procesos rep = procesos_reporte s' ≫= filas_de s'.
Proof.
  intros H. pose proof (get_reporte_final_estado s s' rep H) as Hs'.
  unfold get_reporte_final in H. cbn zeta in H. rewrite <- Hs' in H.
  apply bind_Some in H as (pr & _ & (th & _ & [= <-])%bind_Some).
  cbn [rep_procesos]. by rewrite acumular_filas_de.
Qed.

Lemma filas_de_grande s r :
  inv procesos s → r ∈ cola_listos_suspendidos s →
  _cabe_en_alguna_particion s r = false →
  filas_de s r = [FilaNoAdmitido (id_proceso (proc s r)) (t_arribo (proc s r))
                    (t_irrupcion (proc s r)) (tamano (proc s r))].
Proof.
  intros Hinv Hr Hcabe. unfold filas_de, acumular.
  rewrite (inv_tfin _ _ Hinv r), (inv_ls _ _ Hinv r Hr), Hcabe.
  - by rewrite bool_decide_eq_true_2.
  - apply elem_of_app. right. apply elem_of_en_sistema. by left.
Qed.

Lemma rtc_paso_alcanzable s s' :
  alcanzable procesos s → rtc paso s s' → alcanzable procesos s'.
Proof.
  intros Halc Hrtc. induction Hrtc as [s|s s1 s' [Ht|[rep Hrep]] _ IH]; [done|..].
  - apply IH. by eapply alc_tick.
  - apply IH. by eapply alc_reporte.
Qed.
End Grande.


(** ** Further properties of the engine *)

Section Ociosa.
Implicit Types (s : Simulador).

Lemma planificador_ocupa s s' :
  _ejecutar_planificador s = Some s' →
  proceso_en_ejecucion s' = None → cola_listos s' = [].
Proof.
  intros H. apply planificador_casos in H
    as [[Hl ->]|[(r & l & ev & _ & _ & ->)|[(run & c & l & Hrun & _ & _ & ->)
       |(run & c & l & ent & l' & ev & _ & _ & _ & _ & ->)]]].
  - done.
  - cbn. autorewrite with campos. by cbn.
  - cbn. by rewrite Hrun.
  - by cbn.
Qed.
End Ociosa.

(** X2. The CPU is never left idle while a process is Ready: in every
    observable state with no Running process the Ready queue is empty. *)
Theorem cpu_no_ociosa (procesos : list Proceso) (s : Simulador) :
  alcanzable procesos s →
  proceso_en_ejecucion s = None → cola_listos s = [].
Proof.
  induction 1 as [s H|s s' _ _ H|s rep s' _ IH H].
  - apply init_planificador in H as [s0 H]. by eapply planificador_ocupa.
  - apply tick_planificador in H as [s0 H]. by eapply planificador_ocupa.
  - apply get_reporte_final_estado in H as ->. exact IH.
Qed.

Lemma cpu_no_ociosa_witness :
  cola_listos ejemplo_bloqueo = [].
Proof.
  apply (cpu_no_ociosa procesos_bloqueo).
  - apply alc_init. by vm_compute.
  - by vm_compute.
Defined.

Section PuntoFijo.
Implicit Types (s : Simulador).

Lemma ordenar_suspendidos_idemp s :
  ordenar_suspendidos (ordenar_suspendidos s) = ordenar_suspendidos s.
Proof.
  unfold ordenar_suspendidos. cbn [cola_listos_suspendidos con_suspendidos].
  change (clave_ls (con_suspendidos _ s)) with (clave_ls s).
  by rewrite (sorted_idemp _ _ lex2_leb_total lex2_leb_trans).
Qed.

Lemma pasada_sin_cambio s s' :
  pasada s = Some (s', false) →
  s' = ordenar_suspendidos s ∧ cambio_pasada s = Some None.
Proof.
  unfold pasada. intros (d & Hd & H)%bind_Some.
  destruct d as [ch|]; [by apply bind_Some in H as (? & _ & [=])|].
  by injection H as <-.
Qed.

Lemma cambio_pasada_ordenar s :
  cambio_pasada (ordenar_suspendidos s) = cambio_pasada s.
Proof. unfold cambio_pasada. cbn zeta. by rewrite ordenar_suspendidos_idemp. Qed.
End PuntoFijo.

(** X3. When [_intentar_admision] returns, L/S is sorted by (remaining
    time, id), an iteration of its loop finds no admission and no swap to
    make, and running it again returns the same state. *)
Theorem admision_punto_fijo (s s' : Simulador) :
  _intentar_admision s = Some s' →
  StronglySorted (key_le (clave_ls s') lex2_leb) (cola_listos_suspendidos s') ∧
  cambio_pasada s' = Some None ∧
  _intentar_admision s' = Some s'.
Proof.
  intros H. destruct (intentar_admision_casos s) as [(s0 & H0 & s1 & H1)|[H0 _]];
    [|congruence].
  assert (s0 = s') as -> by congruence.
  apply pasada_sin_cambio in H1 as [-> Hc].
  assert (pasada (ordenar_suspendidos s1) = Some (ordenar_suspendidos s1, false)) as Hp.
  { unfold pasada. rewrite cambio_pasada_ordenar, Hc. cbn.
    by rewrite ordenar_suspendidos_idemp. }
  split_and!.
  - apply (sorted_sorted _ _ lex2_leb_total lex2_leb_trans).
  - by rewrite cambio_pasada_ordenar.
  - unfold _intentar_admision. cbn [bucle_admision]. by rewrite Hp.
Qed.

Lemma admision_punto_fijo_witness :
  ∃ s', _intentar_admision ejemplo_admision = Some s' ∧
        _intentar_admision s' = Some s'.
Proof.
  destruct (_intentar_admision ejemplo_admision) as [s'|] eqn:E;
    [|vm_compute in E; discriminate].
  exists s'. split; [done|]. by destruct (admision_punto_fijo _ _ E) as (_ & _ & H).
Defined.

(** X4. [get_reporte_final] changes nothing in the engine but the order of
    [procesos_reporte], which it sorts by id, and asking for the report
    again returns the same report and the same state. *)
Theorem reporte_repetido (s s' : Simulador) (rep : Reporte) :
  get_reporte_final s = Some (rep, s') →
  s' = con_reporte (procesos_reporte s') s ∧
  procesos_reporte s' ≡ₚ procesos_reporte s ∧
  StronglySorted (λ a b, id_proceso (proc s a) ≤ id_proceso (proc s b))
                 (procesos_reporte s') ∧
  get_reporte_final s' = Some (rep, s').
Proof.
  intros H. pose proof (get_reporte_final_estado s s' rep H) as Hs'.
  assert (∀ a b : Z, (a <=? b) = false → (b <=? a) = true) as Htot by (intros; lia).
  assert (∀ a b c : Z, (a <=? b) = true → (b <=? c) = true → (a <=? c) = true)
    as Htrans by (intros; lia).
  split_and!.
  - by rewrite Hs'.
  - rewrite Hs'. cbn. apply sorted_perm.
  - rewrite Hs'. cbn [procesos_reporte con_reporte].
    eapply StronglySorted_impl;
      [|apply (sorted_sorted (λ r, id_proceso (proc s r)) Z.leb Htot Htrans)].
    intros a b Hab. unfold key_le in Hab. lia.
  - rewrite <- H. rewrite Hs'. unfold get_reporte_final. cbn zeta.
    cbn [procesos_reporte con_reporte].
    change (todos_procesos (con_reporte _ s)) with (todos_procesos s).
    by rewrite (sorted_idemp _ _ Htot Htrans).
Qed.

Lemma reporte_repetido_witness :
  ∃ rep s', get_reporte_final ejemplo_bloqueo = Some (rep, s') ∧
            get_reporte_final s' = Some (rep, s').
Proof.
  destruct (get_reporte_final ejemplo_bloqueo) as [[rep s']|] eqn:E;
    [|vm_compute in E; discriminate].
  exists rep, s'. split; [done|]. by destruct (reporte_repetido _ _ _ E) as (_ & _ & _ & H).
Defined.

(** ** The accounting of time *)

Section Tiempo.
Implicit Types (s : Simulador) (r q c v : ref) (l : list ref).

Lemma tiempos_campos s s' q :
  tiempos (proc s' q) = tiempos (proc s q) →
  t_restante (proc s' q) = t_restante (proc s q) ∧
  t_primera_ejecucion (proc s' q) = t_primera_ejecucion (proc s q) ∧
  t_fin (proc s' q) = t_fin (proc s q) ∧
  t_arribo (proc s' q) = t_arribo (proc s q) ∧
  t_irrupcion (proc s' q) = t_irrupcion (proc s q).
Proof. unfold tiempos. by intros [= -> -> -> -> ->]. Qed.

Lemma en_curso_ext s s' r :
  tiempos (proc s' r) = tiempos (proc s r) → reloj s ≤ reloj s' →
  en_curso s r → en_curso s' r.
Proof.
  intros (H1 & H2 & H3 & H4 & H5)%tiempos_campos Hrel.
  unfold en_curso. rewrite H1, H2, H4, H5. lia.
Qed.

Lemma concluido_ext s s' r :
  tiempos (proc s' r) = tiempos (proc s r) → reloj s ≤ reloj s' →
  concluido s r → concluido s' r.
Proof.
  intros (H1 & H2 & H3 & H4 & H5)%tiempos_campos Hrel.
  unfold concluido. rewrite H1, H2, H3, H4, H5. lia.
Qed.

(** A step that moves processes between L/S, Ready and the CPU, without
    dispatching, and leaves the clock and the time fields alone. *)
Lemma inv_tiempo_marco s s' :
  inv_tiempo s → reloj s ≤ reloj s' →
  (∀ r, r ∈ procesos_nuevos s' → r ∈ procesos_nuevos s) →
  (∀ r, r ∈ en_sistema s' → r ∈ en_sistema s) →
  (∀ r, proceso_en_ejecucion s' = Some r → proceso_en_ejecucion s = Some r) →
  (∀ r, r ∈ procesos_terminados s' → r ∈ procesos_terminados s) →
  (∀ q, tiempos (proc s' q) = tiempos (proc s q)) →
  inv_tiempo s'.
Proof.
  intros [Hrel Hn Hsis Hrun Ht] Hr' Hn' Hsis' Hrun' Ht' Hcampos. split.
  - lia.
  - intros r Hr%Hn'%Hn.
    destruct (tiempos_campos s s' r (Hcampos r)) as (-> & -> & _ & _ & ->). done.
  - intros r Hr%Hsis'%Hsis. apply (en_curso_ext s); [done|lia|done].
  - intros r Hr%Hrun'%Hrun.
    by destruct (tiempos_campos s s' r (Hcampos r)) as (_ & -> & _).
  - intros r Hr%Ht'%Ht. apply (concluido_ext s); [done|lia|done].
Qed.

Lemma campo_fijo_tiempos : campo_fijo tiempos.
Proof. done. Qed.

Lemma pasada_campo {B} (g : Proceso → B) s s' b :
  campo_fijo g → pasada s = Some (s', b) → ∀ q, g (proc s' q) = g (proc s q).
Proof.
  intros Hg Hp q. destruct b.
  - destruct (pasada_efecto s s' Hp) as [H _]. by apply H.
  - unfold pasada in Hp. apply bind_Some in Hp as ([ch|] & _ & Hp).
    + by apply bind_Some in Hp as (? & _ & [=]).
    + by injection Hp as <-.
Qed.

Lemma pasada_ejecucion s s' b r :
  pasada s = Some (s', b) →
  proceso_en_ejecucion s' = Some r → proceso_en_ejecucion s = Some r.
Proof.
  unfold pasada. intros ([ch|] & _ & Hp)%bind_Some; [|by injection Hp as <- <-].
  apply bind_Some in Hp as (s1 & Hs1 & [= <- <-]).
  destruct ch as [c i|c v i]; cbn [aplicar] in Hs1.
  - apply bind_Some in Hs1 as (s2 & H2 & [= <-]).
    apply entrar_a_memoria_colas in H2 as (_ & _ & _ & Hrun & _). cbn. by rewrite Hrun.
  - apply bind_Some in Hs1 as (s2 & H2 & (s3 & H3 & [= <-])%bind_Some).
    apply sacar_de_memoria_colas in H2 as (_ & Hmem & _).
    apply entrar_a_memoria_colas in H3 as (_ & _ & _ & Hrun & _).
    cbn. rewrite Hrun. cbn in Hmem.
    case_bool_decide; [by destruct Hmem as [-> _]|by destruct Hmem as [-> _]].
Qed.

Lemma intentar_admision_campo {B} (g : Proceso → B) s s' :
  campo_fijo g → _intentar_admision s = Some s' → ∀ q, g (proc s' q) = g (proc s q).
Proof.
  intros Hg. apply (intentar_admision_ind (λ s', ∀ q, g (proc s' q) = g (proc s q)));
    [|done].
  intros s1 s2 b H1 Hp q. by rewrite (pasada_campo g s1 s2 b Hg Hp).
Qed.

Lemma intentar_admision_ejecucion s s' r :
  _intentar_admision s = Some s' →
  proceso_en_ejecucion s' = Some r → proceso_en_ejecucion s = Some r.
Proof.
  intros H. revert r.
  apply (intentar_admision_ind
           (λ s', ∀ r, proceso_en_ejecucion s' = Some r → proceso_en_ejecucion s = Some r)
           s s'); [|done|done].
  intros s1 s2 b H1 Hp r Hr. by apply H1, (pasada_ejecucion s1 s2 b).
Qed.

(** The admission loop keeps the accounting of time. *)
Lemma inv_tiempo_admision s s' :
  inv_tiempo s → _intentar_admision s = Some s' → inv_tiempo s'.
Proof.
  intros Hinv H.
  destruct (intentar_admision_mismo_sistema s s' H) as (Hn & Ht & _ & Hrel & Hsis & _).
  apply (inv_tiempo_marco s); try done.
  - lia.
  - by rewrite Hn.
  - intros r Hr. by rewrite <- Hsis.
  - intros r. by apply intentar_admision_ejecucion.
  - by rewrite Ht.
  - by apply intentar_admision_campo.
Qed.

Lemma entrar_cpu_primera r s :
  (r < length (todos_procesos s))%nat →
  t_primera_ejecucion (proc (entrar_cpu r s) r) =
  if t_primera_ejecucion (proc s r) =? -1 then reloj s
  else t_primera_ejecucion (proc s r).
Proof.
  intros Hr. with_strategy transparent [entrar_cpu] unfold entrar_cpu.
  cbn [mut todos_procesos con_todos reloj].
  rewrite list_lookup_total_alter_eq by done. cbn [t_primera_ejecucion con_estado].
  destruct (Z.eqb_spec (t_primera_ejecucion (proc s r)) (-1)) as [E|E];
    cbn [mut todos_procesos con_todos].
  - by rewrite !list_lookup_total_alter_eq by (by rewrite ?length_alter).
  - by rewrite list_lookup_total_alter_eq by done.
Qed.

(** The dispatch of [e], a process of the system, possibly together with
    moves between Ready and the CPU. *)
Lemma inv_tiempo_despacho s s' e :
  inv_tiempo s → NoDup (colas s) →
  e ∈ en_sistema s → reloj s' = reloj s →
  (∀ r, r ∈ procesos_nuevos s' → r ∈ procesos_nuevos s) →
  (∀ r, r ∈ en_sistema s' → r ∈ en_sistema s) →
  proceso_en_ejecucion s' = Some e →
  (∀ r, r ∈ procesos_terminados s' → r ∈ procesos_terminados s) →
  (∀ q, q ≠ e → tiempos (proc s' q) = tiempos (proc s q)) →
  t_restante (proc s' e) = t_restante (proc s e) →
  t_arribo (proc s' e) = t_arribo (proc s e) →
  t_irrupcion (proc s' e) = t_irrupcion (proc s e) →
  t_primera_ejecucion (proc s' e) =
    (if t_primera_ejecucion (proc s e) =? -1 then reloj s
     else t_primera_ejecucion (proc s e)) →
  inv_tiempo s'.
Proof.
  intros [Hrel Hn Hsis Hrun Ht] Hnd He Hr' Hn' Hsis' Hrun' Ht' Hotros Hres Harr Hirr Hpri.
  destruct (inv_disjuntos s Hnd) as (_ & _ & _ & _ & Hdn & Hdls & Hdres).
  assert (e ∉ procesos_nuevos s) as Hen.
  { intros Hc. by destruct (Hdn e Hc). }
  assert (e ∉ procesos_terminados s) as Het.
  { intros Hc. apply elem_of_en_sistema in He as [He|He].
    - by destruct (Hdls e He).
    - by apply (Hdres e He). }
  split.
  - lia.
  - intros r Hr%Hn'. assert (r ≠ e) as Hne by (by intros ->).
    destruct (tiempos_campos s s' r (Hotros r Hne)) as (-> & -> & _ & _ & ->).
    by apply Hn.
  - intros r Hr%Hsis'. destruct (decide (r = e)) as [->|Hne].
    + specialize (Hsis e He). unfold en_curso in *.
      rewrite Hres, Harr, Hirr, Hpri, Hr'.
      destruct (Z.eqb_spec (t_primera_ejecucion (proc s e)) (-1)); lia.
    + apply (en_curso_ext s); [by apply Hotros|lia|by apply Hsis].
  - intros r. rewrite Hrun'. intros [= <-]. rewrite Hpri.
    destruct (Z.eqb_spec (t_primera_ejecucion (proc s e)) (-1)); lia.
  - intros r Hr%Ht'. assert (r ≠ e) as Hne by (by intros ->).
    apply (concluido_ext s); [by apply Hotros|lia|by apply Ht].
Qed.
End Tiempo.

Section TiempoPasos.
Context (procesos : list Proceso).
Implicit Types (s : Simulador) (r q c v : ref) (l : list ref).

Ltac pelar :=
  cbn [todos_procesos registrar con_eventos con_ejecucion con_listos con_reloj
       con_terminados con_nuevos con_suspendidos].

Lemma a_listo_tiempos run s q : tiempos (proc (a_listo run s) q) = tiempos (proc s q).
Proof.
  unfold a_listo. cbn [mut todos_procesos con_todos].
  by rewrite !(alter_campo tiempos) by done.
Qed.

(** The scheduler keeps the accounting of time. *)
Lemma inv_tiempo_planificador s s' :
  inv procesos s → inv_tiempo s → _ejecutar_planificador s = Some s' → inv_tiempo s'.
Proof.
  intros Hinv Htie H. apply planificador_casos in H
    as [[_ ->]|[(r & l & ev & Hrun & Hsort & ->)|[(run & c & l & Hrun & Hsort & _ & ->)
       |(run & c & l & ent & l' & ev & Hrun & Hsort & _ & Hsort' & ->)]]].
  - done.
  - assert (r :: l ≡ₚ cola_listos s) as Hperm by (by rewrite <- Hsort, sorted_perm).
    assert (r ∈ cola_listos s) as Hr by (rewrite <- Hperm; by left).
    apply (inv_tiempo_despacho s _ r); try done.
    + apply Hinv.
    + apply elem_of_en_sistema. right. apply elem_of_residentes. by left.
    + cbn. by autorewrite with campos.
    + cbn. by autorewrite with campos.
    + intros q. unfold en_sistema, residentes. cbn. autorewrite with campos. cbn.
      rewrite !elem_of_app, list_elem_of_singleton, <- Hperm, elem_of_cons. tauto.
    + cbn. by autorewrite with campos.
    + cbn. by autorewrite with campos.
    + intros q Hq. cbn. by rewrite entrar_cpu_ne.
    + cbn. by rewrite (entrar_cpu_campo t_restante).
    + cbn. by rewrite (entrar_cpu_campo t_arribo).
    + cbn. by rewrite (entrar_cpu_campo t_irrupcion).
    + cbn. rewrite entrar_cpu_primera; [done|].
      cbn. apply (inv_rango procesos s r Hinv). apply elem_of_colas. tauto.
  - assert (c :: l ≡ₚ cola_listos s) as Hperm by (by rewrite <- Hsort, sorted_perm).
    apply (inv_tiempo_marco s); try done.
    intros q. unfold en_sistema, residentes.
    cbn [cola_listos con_listos cola_listos_suspendidos proceso_en_ejecucion].
    rewrite !elem_of_app, Hperm. tauto.
  - assert (c :: l ≡ₚ cola_listos s) as Hperm by (by rewrite <- Hsort, sorted_perm).
    assert (ent :: l' ≡ₚ cola_listos s ++ [run]) as Hperm'.
    { rewrite <- Hsort', sorted_perm. cbn. by rewrite <- Hperm. }
    assert (ent ∈ residentes s) as Hent.
    { apply elem_of_residentes.
      assert (ent ∈ cola_listos s ++ [run]) as He by (rewrite <- Hperm'; by left).
      apply elem_of_app in He as [He|He%list_elem_of_singleton]; [by left|right].
      by rewrite He. }
    apply (inv_tiempo_despacho s _ ent); try done.
    + apply Hinv.
    + apply elem_of_en_sistema. by right.
    + cbn. by autorewrite with campos.
    + cbn. by autorewrite with campos.
    + intros q. unfold en_sistema, residentes. cbn. autorewrite with campos. cbn.
      rewrite Hrun. cbn.
      intros [Hq|Hq]%elem_of_app; apply elem_of_app; [by left|right].
      assert (q ∈ ent :: l') as Hq'.
      { apply elem_of_app in Hq as [Hq|Hq%list_elem_of_singleton]; [by right|].
        rewrite Hq. by left. }
      by rewrite Hperm' in Hq'.
    + cbn. by autorewrite with campos.
    + intros q Hq. pelar. rewrite entrar_cpu_ne by done. pelar.
      apply a_listo_tiempos.
    + pelar. rewrite (entrar_cpu_campo t_restante) by done. pelar.
      by destruct (tiempos_campos s (a_listo run s) ent (a_listo_tiempos run s ent))
        as (-> & _).
    + pelar. rewrite (entrar_cpu_campo t_arribo) by done. pelar.
      by destruct (tiempos_campos s (a_listo run s) ent (a_listo_tiempos run s ent))
        as (_ & _ & _ & -> & _).
    + pelar. rewrite (entrar_cpu_campo t_irrupcion) by done. pelar.
      by destruct (tiempos_campos s (a_listo run s) ent (a_listo_tiempos run s ent))
        as (_ & _ & _ & _ & ->).
    + pelar. rewrite entrar_cpu_primera.
      * pelar. change (reloj (con_listos l' (a_listo run s))) with (reloj s).
        by destruct (tiempos_campos s (a_listo run s) ent (a_listo_tiempos run s ent))
          as (_ & -> & _).
      * pelar. unfold a_listo. cbn [mut todos_procesos con_todos].
        rewrite !length_alter. apply (inv_rango procesos s ent Hinv).
        apply elem_of_colas. apply elem_of_residentes in Hent. tauto.
Qed.

(** Processes of New that are due enter L/S. *)
Lemma inv_tiempo_mover s s' (k : nat) :
  inv_tiempo s → reloj s' = reloj s →
  procesos_nuevos s' = drop k (procesos_nuevos s) →
  cola_listos_suspendidos s' = cola_listos_suspendidos s ++ take k (procesos_nuevos s) →
  cola_listos s' = cola_listos s →
  proceso_en_ejecucion s' = proceso_en_ejecucion s →
  procesos_terminados s' = procesos_terminados s →
  (∀ q, tiempos (proc s' q) = tiempos (proc s q)) →
  (∀ r, r ∈ take k (procesos_nuevos s) → t_arribo (proc s r) ≤ reloj s) →
  inv_tiempo s'.
Proof.
  intros [Hrel Hn Hsis Hrun Ht] Hr' Hn' Hls' Hl' Hrun' Ht' Hcampos Hdue. split.
  - lia.
  - intros r Hr. rewrite Hn' in Hr.
    assert (r ∈ procesos_nuevos s) as Hr0.
    { eapply elem_of_sublist; [exact Hr|apply sublist_drop]. }
    destruct (tiempos_campos s s' r (Hcampos r)) as (-> & -> & _ & _ & ->).
    by apply Hn.
  - intros r Hr. unfold en_sistema, residentes in Hr. rewrite Hls', Hl', Hrun' in Hr.
    rewrite <- (assoc_L (++)) in Hr.
    apply elem_of_app in Hr as [Hr|Hr].
    + apply (en_curso_ext s); [done|lia|]. apply Hsis.
      apply elem_of_en_sistema. by left.
    + apply elem_of_app in Hr as [Hr|Hr].
      * assert (r ∈ procesos_nuevos s) as Hr0.
        { eapply elem_of_sublist; [exact Hr|apply sublist_take]. }
        destruct (Hn r Hr0) as (H1 & H2 & H3). specialize (Hdue r Hr).
        destruct (tiempos_campos s s' r (Hcampos r)) as (E1 & E2 & _ & E4 & E5).
        unfold en_curso. rewrite E1, E2, E4, E5, Hr'. lia.
      * apply (en_curso_ext s); [done|lia|]. apply Hsis.
        apply elem_of_en_sistema. by right.
  - intros r. rewrite Hrun'. intros Hr%Hrun.
    by destruct (tiempos_campos s s' r (Hcampos r)) as (_ & -> & _).
  - intros r. rewrite Ht'. intros Hr%Ht. apply (concluido_ext s); [done|lia|done].
Qed.

Lemma arribos_tomados_vencidos s r :
  r ∈ take (arribos_tomados s) (procesos_nuevos s) → t_arribo (proc s r) ≤ reloj s.
Proof.
  unfold arribos_tomados. cbn zeta.
  set (k1 := ((5 - gdm_actual s) `min` _)%nat).
  set (k2 := ((5 - (gdm_actual s + k1)) `min` _)%nat).
  rewrite <- take_take_drop. intros [Hr|Hr]%elem_of_app.
  - assert (r ∈ take (cuenta_prefijo (λ r, t_arribo (proc s r) =? reloj s)
                        (procesos_nuevos s)) (procesos_nuevos s)) as Hr'.
    { apply elem_of_take in Hr as (i & Hi & Hlt). apply elem_of_take.
      exists i. split; [done|]. unfold k1 in Hlt. lia. }
    apply cuenta_prefijo_take in Hr'. lia.
  - assert (r ∈ take (cuenta_prefijo (λ r, t_arribo (proc s r) <? reloj s)
                        (drop k1 (procesos_nuevos s))) (drop k1 (procesos_nuevos s)))
      as Hr'.
    { apply elem_of_take in Hr as (i & Hi & Hlt). apply elem_of_take.
      exists i. split; [done|]. unfold k2 in Hlt. lia. }
    apply cuenta_prefijo_take in Hr'. lia.
Qed.

(** The arrival step keeps the accounting of time. *)
Lemma inv_tiempo_arribos s : inv_tiempo s → inv_tiempo (arribos s).
Proof.
  intros Htie.
  destruct (arribos_efecto s)
    as (Hn & Hls & Hl & Hrun & Ht & _ & Hrel & _ & _ & _ & _ & Hg).
  cbn zeta in Hn, Hls, Hg.
  apply (inv_tiempo_mover s _ (arribos_tomados s)); try done.
  - intros q. apply (fmap_eq_campo tiempos). by apply Hg.
  - apply arribos_tomados_vencidos.
Qed.

Lemma servir_restante s cur :
  (cur < length (todos_procesos s))%nat →
  t_restante (proc (servir cur s) cur) = t_restante (proc s cur) - 1.
Proof.
  intros Hlt. unfold servir. cbn [mut todos_procesos con_todos].
  by rewrite list_lookup_total_alter_eq.
Qed.

Lemma servir_otros s cur q :
  q ≠ cur → proc (servir cur s) q = proc s q.
Proof.
  intros Hne. unfold servir. cbn [mut todos_procesos con_todos].
  by rewrite list_lookup_total_alter_ne.
Qed.

(** The clock advance and the CPU service keep the accounting of time. *)
Lemma inv_tiempo_servicio s s1 :
  inv procesos s → inv_tiempo s → antes_de_arribos s = Some s1 → inv_tiempo s1.
Proof.
  intros Hinv Htie H. unfold antes_de_arribos in H. rewrite avanzar_reloj_eq in H.
  set (s0 := con_eventos [] (con_reloj (reloj s + 1) s)) in H.
  destruct Htie as [Hrel Hn Hsis Hrun Ht].
  destruct (inv_disjuntos s (inv_nodup _ _ Hinv)) as (_ & _ & Hndres & _ & Hdn & Hdls & Hdres).
  apply servicio_casos in H
    as [[_ ->]|[(cur & Hcur & Hno & ->)|(cur & k & ev & Hcur & Hcero & _ & _ & ->)]].
  - apply (inv_tiempo_marco s); try done. cbn. lia.
  - change (proceso_en_ejecucion s = Some cur) in Hcur.
    assert (cur ∈ residentes s) as Hres by (apply elem_of_residentes; by right).
    assert (cur ∈ en_sistema s) as Hcs by (apply elem_of_en_sistema; by right).
    assert (cur < length (todos_procesos s))%nat as Hlt.
    { apply (inv_rango procesos s cur Hinv), elem_of_colas. tauto. }
    rewrite servir_restante in Hno by done. change (proc s0 cur) with (proc s cur) in Hno.
    assert (∀ q, q ≠ cur → tiempos (proc (servir cur s0) q) = tiempos (proc s q)) as Hotros.
    { intros q Hq. by rewrite servir_otros. }
    assert (t_restante (proc (servir cur s0) cur) = t_restante (proc s cur) - 1) as Hres'.
    { by rewrite servir_restante. }
    assert (t_primera_ejecucion (proc (servir cur s0) cur) = t_primera_ejecucion (proc s cur)
            ∧ t_arribo (proc (servir cur s0) cur) = t_arribo (proc s cur)
            ∧ t_irrupcion (proc (servir cur s0) cur) = t_irrupcion (proc s cur))
      as (Hp' & Ha' & Hi').
    { unfold servir. cbn [mut todos_procesos con_todos].
      by rewrite (alter_campo t_primera_ejecucion), (alter_campo t_arribo),
        (alter_campo t_irrupcion) by done. }
    split.
    + cbn. lia.
    + intros r Hr. change (r ∈ procesos_nuevos s) in Hr.
      assert (r ≠ cur) as Hne by (intros ->; by destruct (Hdn cur Hr)).
      destruct (tiempos_campos s _ r (Hotros r Hne)) as (-> & -> & _ & _ & ->).
      by apply Hn.
    + intros r Hr. change (r ∈ en_sistema s) in Hr.
      destruct (decide (r = cur)) as [->|Hne].
      * specialize (Hsis cur Hcs). specialize (Hrun cur Hcur).
        unfold en_curso in *. rewrite Hres', Hp', Ha', Hi'. cbn [reloj servir mut con_todos s0 con_eventos con_reloj].
        lia.
      * apply (en_curso_ext s); [by apply Hotros|cbn; lia|by apply Hsis].
    + intros r Hr. change (proceso_en_ejecucion s = Some r) in Hr.
      assert (r = cur) as -> by congruence. rewrite Hp'. by apply Hrun.
    + intros r Hr. change (r ∈ procesos_terminados s) in Hr.
      assert (r ≠ cur) as Hne by (intros ->; by apply (Hdres cur Hres)).
      apply (concluido_ext s); [by apply Hotros|cbn; lia|by apply Ht].
  - change (proceso_en_ejecucion s = Some cur) in Hcur.
    assert (cur ∈ residentes s) as Hres by (apply elem_of_residentes; by right).
    assert (cur ∈ en_sistema s) as Hcs by (apply elem_of_en_sistema; by right).
    assert (cur < length (todos_procesos s))%nat as Hlt.
    { apply (inv_rango procesos s cur Hinv), elem_of_colas. tauto. }
    rewrite servir_restante in Hcero by done.
    change (proc s0 cur) with (proc s cur) in Hcero.
    set (s2 := registrar ev (liberar_particion k (terminar cur (servir cur s0)))).
    assert (∀ q, q ≠ cur → tiempos (proc s2 q) = tiempos (proc s q)) as Hotros.
    { intros q Hq. unfold s2. pelar.
      rewrite (liberar_particion_campo tiempos) by done.
      unfold terminar. pelar. cbn [mut todos_procesos con_todos].
      rewrite !list_lookup_total_alter_ne by done. by rewrite servir_otros. }
    assert (t_restante (proc s2 cur) = 0 ∧ t_fin (proc s2 cur) = reloj s + 2 ∧
            t_primera_ejecucion (proc s2 cur) = t_primera_ejecucion (proc s cur) ∧
            t_arribo (proc s2 cur) = t_arribo (proc s cur) ∧
            t_irrupcion (proc s2 cur) = t_irrupcion (proc s cur))
      as (Hr2 & Hf2 & Hp2 & Ha2 & Hi2).
    { unfold s2. pelar.
      rewrite (liberar_particion_campo t_restante), (liberar_particion_campo t_fin),
        (liberar_particion_campo t_primera_ejecucion), (liberar_particion_campo t_arribo),
        (liberar_particion_campo t_irrupcion) by done.
      unfold terminar, servir. pelar. cbn [mut todos_procesos con_todos reloj s0 con_eventos con_reloj].
      rewrite !list_lookup_total_alter_eq by (by rewrite ?length_alter).
      cbn. split_and!; try done; lia. }
    assert (reloj s2 = reloj s + 1) as Hrel2.
    { unfold s2. cbn. by autorewrite with campos. }
    assert (procesos_nuevos s2 = procesos_nuevos s ∧
            cola_listos_suspendidos s2 = cola_listos_suspendidos s ∧
            cola_listos s2 = cola_listos s ∧ proceso_en_ejecucion s2 = None ∧
            procesos_terminados s2 = procesos_terminados s ++ [cur])
      as (Hn2 & Hls2 & Hl2 & Hrun2 & Ht2).
    { unfold s2. cbn. by autorewrite with campos. }
    split.
    + lia.
    + intros r. rewrite Hn2. intros Hr.
      assert (r ≠ cur) as Hne by (intros ->; by destruct (Hdn cur Hr)).
      destruct (tiempos_campos s _ r (Hotros r Hne)) as (-> & -> & _ & _ & ->).
      by apply Hn.
    + intros r Hr. unfold en_sistema, residentes in Hr.
      rewrite Hls2, Hl2, Hrun2 in Hr. cbn in Hr. rewrite app_nil_r in Hr.
      assert (r ∈ en_sistema s) as Hr0.
      { apply elem_of_en_sistema. apply elem_of_app in Hr as [?|?]; [by left|right].
        apply elem_of_residentes. by left. }
      assert (r ≠ cur) as Hne.
      { intros ->. apply elem_of_app in Hr as [Hr|Hr].
        - by destruct (Hdls cur Hr).
        - unfold residentes in Hndres. rewrite Hcur in Hndres. cbn in Hndres.
          apply NoDup_app in Hndres as (_ & Hd & _). apply (Hd cur Hr). by left. }
      apply (en_curso_ext s); [by apply Hotros|lia|by apply Hsis].
    + intros r. by rewrite Hrun2.
    + intros r. rewrite Ht2. intros [Hr|Hr%list_elem_of_singleton]%elem_of_app.
      * assert (r ≠ cur) as Hne by (intros ->; by apply (Hdres cur Hres)).
        apply (concluido_ext s); [by apply Hotros|lia|by apply Ht].
      * subst r. specialize (Hsis cur Hcs). specialize (Hrun cur Hcur).
        unfold en_curso in Hsis. unfold concluido.
        rewrite Hr2, Hf2, Hp2, Ha2, Hi2, Hrel2. lia.
Qed.

Lemma inv_tiempo_salvo s s' : salvo_eventos s s' → inv_tiempo s' → inv_tiempo s.
Proof.
  intros Hsalvo Htie.
  assert (reloj s = reloj s' ∧ procesos_nuevos s = procesos_nuevos s' ∧
          cola_listos_suspendidos s = cola_listos_suspendidos s' ∧
          cola_listos s = cola_listos s' ∧
          proceso_en_ejecucion s = proceso_en_ejecucion s' ∧
          procesos_terminados s = procesos_terminados s' ∧
          todos_procesos s = todos_procesos s') as (H1 & H2 & H3 & H4 & H5 & H6 & H7).
  { unfold salvo_eventos in Hsalvo.
    split_and!;
      [apply (f_equal reloj) in Hsalvo|apply (f_equal procesos_nuevos) in Hsalvo
      |apply (f_equal cola_listos_suspendidos) in Hsalvo
      |apply (f_equal cola_listos) in Hsalvo
      |apply (f_equal proceso_en_ejecucion) in Hsalvo
      |apply (f_equal procesos_terminados) in Hsalvo
      |apply (f_equal todos_procesos) in Hsalvo]; exact Hsalvo. }
  apply (inv_tiempo_marco s'); try done.
  - lia.
  - by rewrite H2.
  - unfold en_sistema, residentes. by rewrite H3, H4, H5.
  - by rewrite H5.
  - by rewrite H6.
  - intros q. by rewrite H7.
Qed.

Lemma inv_t_irrupcion s r :
  inv procesos s → t_irrupcion (proc s r) = t_irrupcion (procesos !!! r).
Proof.
  intros Hinv. apply (fmap_eq_campo t_irrupcion).
  pose proof (inv_datos _ _ Hinv) as H.
  apply (f_equal (fmap (λ d : Z * Z * Z * Z, d.2))) in H.
  by rewrite <- !list_fmap_compose in H.
Qed.

Lemma inv_tiempo_preparar :
  irrupciones_validas procesos →
  inv_tiempo (_preparar_colas (estado_vacio procesos)).
Proof.
  intros Hval. pose proof (inv_preparar procesos) as Hinv.
  destruct (seleccion_spec procesos (seq 0 (length procesos)))
    as (_ & _ & _ & Hn & _ & Hls & Hl & Hrun & Ht & Hprep & _).
  { intros r Hr. apply elem_of_seq in Hr. lia. }
  assert (reloj (_preparar_colas (estado_vacio procesos)) = 0) as Hrel.
  { change (reloj (foldl (λ s p, mut p reiniciar s) (estado_vacio procesos)
                     (cohorte procesos)) = 0).
    destruct (reiniciar_foldl (cohorte procesos) (estado_vacio procesos))
      as (_ & _ & _ & _ & _ & _ & _ & _ & H & _).
    by rewrite H. }
  change (_preparar_colas (estado_vacio procesos))
    with (con_reporte (cohorte procesos)
            (con_nuevos (cohorte procesos)
               (foldl (λ s p, mut p reiniciar s) (estado_vacio procesos)
                  (cohorte procesos)))) in *.
  fold (cohorte procesos) in Hn, Hls, Hl, Hrun, Ht, Hprep.
  set (s := con_reporte _ _) in *. clearbody s.
  split.
  - lia.
  - intros r Hr. rewrite Hn in Hr.
    destruct (Hprep r Hr) as (_ & _ & Hrest & _ & _ & Hpri & _).
    rewrite (inv_t_irrupcion s r Hinv). split_and!; [done|done|].
    apply Hval, list_elem_of_lookup_total_2. by apply elem_of_cohorte.
  - intros r Hr. unfold en_sistema, residentes in Hr.
    rewrite Hls, Hl, Hrun in Hr. by apply elem_of_nil in Hr.
  - intros r. by rewrite Hrun.
  - intros r. rewrite Ht. by intros ?%elem_of_nil.
Qed.

Lemma inv_tiempo_arribados_iniciales s :
  inv_tiempo s → reloj s = 0 → inv_tiempo (arribados_iniciales s).
Proof.
  intros Htie Hrel. eapply inv_tiempo_salvo; [apply arribados_iniciales_salvo|].
  set (k := cuenta_prefijo _ _).
  destruct (a_suspendidos_foldl (take k (procesos_nuevos s))
              (con_nuevos (drop k (procesos_nuevos s)) s))
    as (Hls & Hn & Hl & Hr & Ht & _ & Hrel' & _ & _ & _ & _ & _ & Hg).
  cbn zeta in Hls, Hn, Hl, Hr, Ht, Hrel', Hg.
  apply (inv_tiempo_mover s _ k); try done.
  - intros q. apply (fmap_eq_campo tiempos). by apply Hg.
  - intros r Hr0. apply cuenta_prefijo_take in Hr0. lia.
Qed.

Lemma inv_tiempo_init s :
  irrupciones_validas procesos → Simulador_init procesos = Some s → inv_tiempo s.
Proof.
  intros Hval. unfold Simulador_init. fold (estado_vacio procesos).
  rewrite guardar_estado_inicial_eq.
  pose proof (inv_preparar procesos) as Hinv0.
  pose proof (inv_tiempo_preparar Hval) as Htie0.
  assert (reloj (_preparar_colas (estado_vacio procesos)) = 0) as Hrel0.
  { change (reloj (foldl (λ s p, mut p reiniciar s) (estado_vacio procesos)
                     (cohorte procesos)) = 0).
    destruct (reiniciar_foldl (cohorte procesos) (estado_vacio procesos))
      as (_ & _ & _ & _ & _ & _ & _ & _ & H & _).
    by rewrite H. }
  set (p0 := _preparar_colas (estado_vacio procesos)) in *. clearbody p0.
  intros (s1 & H1 & H2)%bind_Some.
  pose proof (inv_arribados_iniciales procesos p0 Hinv0) as Hinva.
  destruct (inv_intentar_admision procesos _ Hinva) as (s1' & H1' & Hinv1).
  assert (s1' = s1) as -> by congruence.
  apply (inv_tiempo_planificador s1); [done| |done].
  apply (inv_tiempo_admision (arribados_iniciales p0)); [|done].
  by apply inv_tiempo_arribados_iniciales.
Qed.

Lemma inv_tiempo_tick s s' :
  inv procesos s → inv_tiempo s → siguiente_tick s = Some s' → inv_tiempo s'.
Proof.
  intros Hinv Htie (s1 & s2 & H1 & H2 & H3)%siguiente_tick_pasos.
  pose proof (inv_antes_de_arribos procesos s s1 Hinv H1) as Hinv1.
  pose proof (inv_arribos procesos s1 Hinv1) as Hinva.
  destruct (inv_intentar_admision procesos _ Hinva) as (s2' & H2' & Hinv2).
  assert (s2' = s2) as -> by congruence.
  apply (inv_tiempo_planificador s2); [done| |done].
  apply (inv_tiempo_admision (arribos s1)); [|done].
  apply inv_tiempo_arribos. by apply (inv_tiempo_servicio s).
Qed.

(** Every observable state of an engine built from definitions with
    positive bursts keeps the accounting of time. *)
Lemma alcanzable_inv_tiempo s :
  irrupciones_validas procesos → alcanzable procesos s → inv_tiempo s.
Proof.
  intros Hval. induction 1 as [s H|s s' Halc IH H|s rep s' _ IH H].
  - by apply inv_tiempo_init.
  - apply (inv_tiempo_tick s); [by apply alcanzable_inv|done..].
  - apply get_reporte_final_estado in H as ->.
    apply (inv_tiempo_marco s); try done.
Qed.
End TiempoPasos.

Section TiempoTeoremas.
Context (procesos : list Proceso).
Implicit Types (s : Simulador) (r q : ref).

(** A process of the cohort whose finish time is set is a terminated one. *)
Lemma t_fin_terminado s r :
  inv procesos s → r ∈ colas s → t_fin (proc s r) ≠ -1 → r ∈ procesos_terminados s.
Proof.
  intros Hinv Hr Hfin. rewrite colas_en_sistema in Hr.
  apply elem_of_app in Hr as [Hr|Hr].
  - exfalso. apply Hfin, (inv_tfin _ _ Hinv). apply elem_of_app. by left.
  - apply elem_of_app in Hr as [Hr|Hr]; [|done].
    exfalso. apply Hfin, (inv_tfin _ _ Hinv). apply elem_of_app. by right.
Qed.

Lemma terminado_irrupcion s r :
  irrupciones_validas procesos → inv procesos s → r ∈ colas s →
  1 ≤ t_irrupcion (proc s r).
Proof.
  intros Hval Hinv Hr. rewrite (inv_t_irrupcion procesos s r Hinv).
  apply Hval, list_elem_of_lookup_total_2.
  rewrite <- (inv_length procesos s Hinv). by apply (inv_rango procesos s r Hinv).
Qed.

(** What the CPU service of a tick does to the remaining times. *)
Lemma servicio_restante s s1 r :
  inv procesos s → antes_de_arribos s = Some s1 →
  t_restante (proc s1 r) =
  t_restante (proc s r) - (if decide (proceso_en_ejecucion s = Some r) then 1 else 0).
Proof.
  intros Hinv H. unfold antes_de_arribos in H. rewrite avanzar_reloj_eq in H.
  set (s0 := con_eventos [] (con_reloj (reloj s + 1) s)) in H.
  apply servicio_casos in H
    as [[Hrun ->]|[(cur & Hcur & _ & ->)|(cur & k & ev & Hcur & _ & _ & _ & ->)]].
  - change (proceso_en_ejecucion s = None) in Hrun. rewrite Hrun.
    rewrite decide_False by done. change (proc s0 r) with (proc s r). lia.
  - change (proceso_en_ejecucion s = Some cur) in Hcur. rewrite Hcur.
    destruct (decide (Some cur = Some r)) as [[= ->]|Hne].
    + rewrite servir_restante; [done|].
      apply (inv_rango procesos s r Hinv), elem_of_colas. tauto.
    + rewrite servir_otros by congruence. change (proc s0 r) with (proc s r). lia.
  - change (proceso_en_ejecucion s = Some cur) in Hcur. rewrite Hcur.
    cbn [registrar con_eventos todos_procesos].
    rewrite (liberar_particion_campo t_restante) by done.
    unfold terminar. cbn [con_ejecucion con_terminados todos_procesos mut con_todos].
    rewrite !(alter_campo t_restante) by done.
    destruct (decide (Some cur = Some r)) as [[= ->]|Hne].
    + rewrite servir_restante; [done|].
      apply (inv_rango procesos s r Hinv), elem_of_colas. tauto.
    + rewrite servir_otros by congruence. change (proc s0 r) with (proc s r). lia.
Qed.
End TiempoTeoremas.

(** X5. Service is monotone. In an engine built from definitions with
    positive bursts, a tick takes exactly one unit from the remaining time
    of the process that was Running and leaves every other remaining time
    as it was; in every observable state a process of New has its whole
    burst left, a Suspended, Ready or Running process has between 1 and its
    burst left, and the remaining time is 0 exactly for the Terminated
    processes. *)
Theorem servicio_monotono (procesos : list Proceso) (s : Simulador) :
  irrupciones_validas procesos → alcanzable procesos s →
  (∀ r, r ∈ procesos_nuevos s → t_restante (proc s r) = t_irrupcion (proc s r)) ∧
  (∀ r, r ∈ en_sistema s → 1 ≤ t_restante (proc s r) ≤ t_irrupcion (proc s r)) ∧
  (∀ r, r ∈ colas s → t_restante (proc s r) = 0 ↔ r ∈ procesos_terminados s) ∧
  (∀ s' r, siguiente_tick s = Some s' →
     t_restante (proc s' r) =
     t_restante (proc s r) - (if decide (proceso_en_ejecucion s = Some r) then 1 else 0)).
Proof.
  intros Hval Halc.
  pose proof (alcanzable_inv procesos s Halc) as Hinv.
  destruct (alcanzable_inv_tiempo procesos s Hval Halc) as [Hrel Hn Hsis Hrun Ht].
  assert (∀ r, r ∈ en_sistema s → 1 ≤ t_restante (proc s r) ≤ t_irrupcion (proc s r))
    as Hsis'.
  { intros r Hr. destruct (Hsis r Hr) as (H1 & _ & [[_ H2]|(_ & _ & H2 & _)]); lia. }
  split_and!.
  - intros r Hr. by destruct (Hn r Hr).
  - done.
  - intros r Hr. split.
    + intros H0. rewrite colas_en_sistema in Hr.
      apply elem_of_app in Hr as [Hr|Hr].
      { destruct (Hn r Hr) as (? & _ & ?). lia. }
      apply elem_of_app in Hr as [Hr|Hr]; [|done].
      specialize (Hsis' r Hr). lia.
    + intros Hr'. by destruct (Ht r Hr').
  - intros s' r Hs'.
    destruct (siguiente_tick_pasos s s' Hs') as (s1 & s2 & H1 & H2 & H3).
    destruct (planificador_mismo_sistema _ _ H3) as (_ & _ & _ & _ & _ & _ & Hr3 & _).
    destruct (intentar_admision_mismo_sistema _ _ H2) as (_ & _ & _ & _ & _ & _ & Hr2 & _).
    destruct (arribos_efecto s1) as (_ & _ & _ & _ & _ & _ & _ & _ & _ & _ & _ & Hg).
    rewrite Hr3, Hr2, (fmap_eq_campo t_restante _ _ r (Hg _ t_restante (λ _ _, eq_refl))).
    by apply (servicio_restante procesos).
Qed.

Lemma servicio_monotono_witness :
  1 ≤ t_restante (proc ejemplo_rafaga 0%nat) ≤ t_irrupcion (proc ejemplo_rafaga 0%nat).
Proof.
  assert (irrupciones_validas procesos_rafaga) as Hval.
  { intros p Hp. unfold procesos_rafaga in Hp.
    repeat (apply elem_of_cons in Hp as [->|Hp]; [cbn; lia|]).
    by apply elem_of_nil in Hp. }
  assert (alcanzable procesos_rafaga ejemplo_rafaga) as Halc.
  { apply alc_init. by vm_compute. }
  destruct (servicio_monotono procesos_rafaga ejemplo_rafaga Hval Halc)
    as (_ & H & _).
  apply H. apply (bool_decide_unpack _). by vm_compute.
Defined.

(** X6. The metrics of the final report are consistent. In an engine built
    from definitions with positive bursts, every row of metrics of a final
    report comes from a terminated process and satisfies: the response time
    is not negative, the waiting time is at least the response time plus
    one, the turnaround is the waiting time plus the burst, the first
    dispatch is not before the arrival, and the finish time is at most the
    clock plus one. *)
Theorem metricas_consistentes (procesos : list Proceso) (s s' : Simulador)
    (rep : Reporte) (pid arribo primera fin servicio espera respuesta retorno : Z) :
  irrupciones_validas procesos → alcanzable procesos s →
  get_reporte_final s = Some (rep, s') →
  FilaMetricas pid arribo primera fin servicio espera respuesta retorno
    ∈ rep_procesos rep →
  (∃ r, r ∈ procesos_terminados s ∧ pid = id_proceso (proc s r) ∧
        arribo = t_arribo (proc s r) ∧ servicio = t_irrupcion (proc s r) ∧
        primera = t_primera_ejecucion (proc s r) ∧ fin = t_fin (proc s r)) ∧
  0 ≤ respuesta ∧ respuesta + 1 ≤ espera ∧ retorno = espera + servicio ∧
  1 ≤ servicio ∧ arribo ≤ primera ∧ primera + servicio + 1 ≤ fin ∧ fin ≤ reloj s + 1.
Proof.
  intros Hval Halc Hrep Hfila.
  pose proof (alcanzable_inv procesos s Halc) as Hinv.
  destruct (alcanzable_inv_tiempo procesos s Hval Halc) as [_ _ _ _ Ht].
  pose proof (get_reporte_final_estado s s' rep Hrep) as Hs'.
  unfold get_reporte_final in Hrep. cbn zeta in Hrep. rewrite <- Hs' in Hrep.
  apply bind_Some in Hrep as (pr & _ & (th & _ & [= <-])%bind_Some).
  cbn [rep_procesos] in Hfila.
  apply acumular_filas in Hfila as [Hfila|(r & Hr & Hfin & -> & -> & -> & -> & -> & -> & -> & ->)];
    [by apply elem_of_nil in Hfila|].
  assert (r ∈ colas s) as Hrc.
  { rewrite (inv_reporte _ _ Hinv). rewrite Hs' in Hr. cbn in Hr.
    by apply elem_of_sorted in Hr. }
  assert (∀ q, proc s' q = proc s q) as Hproc by (intros q; by rewrite Hs').
  rewrite !Hproc in *.
  pose proof (t_fin_terminado procesos s r Hinv Hrc Hfin) as Hterm.
  pose proof (terminado_irrupcion procesos s r Hval Hinv Hrc) as Hirr.
  destruct (Ht r Hterm) as (H0 & Hp0 & Hap & Hpf & Hfr).
  split; [by exists r|]. lia.
Qed.

Lemma metricas_consistentes_witness :
  ∃ s rep s' pid arribo primera fin servicio espera respuesta retorno,
    alcanzable procesos_escenario s ∧ get_reporte_final s = Some (rep, s') ∧
    FilaMetricas pid arribo primera fin servicio espera respuesta retorno
      ∈ rep_procesos rep ∧
    respuesta + 1 ≤ espera.
Proof.
  assert (irrupciones_validas procesos_escenario) as Hval.
  { intros p Hp. unfold procesos_escenario in Hp.
    repeat (apply elem_of_cons in Hp as [->|Hp]; [cbn; lia|]).
    by apply elem_of_nil in Hp. }
  set (o := s0 ← Simulador_init procesos_escenario; s1 ← siguiente_tick s0;
            s2 ← siguiente_tick s1; s3 ← siguiente_tick s2; siguiente_tick s3).
  destruct o as [s|] eqn:E; [|vm_compute in E; discriminate].
  assert (alcanzable procesos_escenario s) as Halc.
  { unfold o in E.
    apply bind_Some in E as (s0 & E0 & E). apply bind_Some in E as (s1 & E1 & E).
    apply bind_Some in E as (s2 & E2 & E). apply bind_Some in E as (s3 & E3 & E).
    eapply alc_tick; [|exact E]. eapply alc_tick; [|exact E3].
    eapply alc_tick; [|exact E2]. eapply alc_tick; [|exact E1]. by apply alc_init. }
  destruct (get_reporte_final s) as [[rep s']|] eqn:Hrep.
  2:{ vm_compute in E. injection E as <-. vm_compute in Hrep. discriminate. }
  assert (FilaMetricas 2 0 0 4 3 1 0 4 ∈ rep_procesos rep) as Hfila.
  { vm_compute in E. injection E as <-. vm_compute in Hrep. injection Hrep as <- _.
    by left. }
  exists s, rep, s', 2, 0, 0, 4, 3, 1, 0, 4. split_and!; [done..|].
  by destruct (metricas_consistentes _ _ _ _ _ _ _ _ _ _ _ _ Hval Halc Hrep Hfila)
    as (_ & _ & H & _).
Defined.

(** X7. The final report counts the terminated processes. In an engine
    built from definitions with positive bursts, [procesos_contados] is the
    number of Terminated processes, the averages are absent exactly when no
    process has terminated, and the throughput is that count over the
    clock, or the literal "0.000" while the clock is 0. *)
Theorem reporte_cuenta_terminados (procesos : list Proceso) (s s' : Simulador)
    (rep : Reporte) :
  irrupciones_validas procesos → alcanzable procesos s →
  get_reporte_final s = Some (rep, s') →
  rep_procesos_contados rep = Z.of_nat (length (procesos_terminados s)) ∧
  (rep_promedios rep = None ↔ procesos_terminados s = []) ∧
  rep_tiempo_final rep = reloj s ∧
  rep_throughput rep =
    (if reloj s >? 0
     then Formato (mkCociente (Z.of_nat (length (procesos_terminados s))) (reloj s)) 3
     else Cero3).
Proof.
  intros Hval Halc Hrep.
  pose proof (alcanzable_inv procesos s Halc) as Hinv.
  destruct (alcanzable_inv_tiempo procesos s Hval Halc) as [_ _ _ _ Ht].
  assert (filter (λ r, t_fin (proc s r) ≠ -1) (procesos_reporte s)
          ≡ₚ procesos_terminados s) as Hperm.
  { rewrite <- (inv_reporte _ _ Hinv), colas_en_sistema, !filter_app.
    rewrite (filter_ninguno _ (procesos_nuevos s)), (filter_ninguno _ (en_sistema s)).
    - cbn. rewrite filter_todos; [done|]. intros r Hr.
      destruct (Ht r Hr) as (_ & Hp0 & _ & Hpf & _).
      assert (r ∈ colas s) as Hrc by (apply elem_of_colas; tauto).
      pose proof (terminado_irrupcion procesos s r Hval Hinv Hrc). lia.
    - intros r Hr Hne. apply Hne, (inv_tfin _ _ Hinv). apply elem_of_app. by right.
    - intros r Hr Hne. apply Hne, (inv_tfin _ _ Hinv). apply elem_of_app. by left. }
  unfold get_reporte_final in Hrep. cbn zeta in Hrep.
  set (s1 := con_reporte _ s) in Hrep.
  set (a := foldl (acumular s1) _ _) in Hrep.
  assert (ac_contados a = Z.of_nat (length (procesos_terminados s))) as Hcont.
  { unfold a. rewrite acumular_contados. cbn [ac_contados procesos_reporte s1 con_reporte].
    change (todos_procesos s1) with (todos_procesos s).
    by rewrite sorted_perm, Hperm. }
  clearbody a. change (reloj s1) with (reloj s) in Hrep.
  apply bind_Some in Hrep as (pr & Hpr & (th & Hth & [= <- _])%bind_Some).
  cbn [rep_procesos_contados rep_promedios rep_tiempo_final rep_throughput].
  split_and!; [done| |done|].
  - destruct (Z.gtb_spec (ac_contados a) 0) as [Hpos|Hle].
    + apply bind_Some in Hpr as (e & _ & (r & _ & (t & _ & [= <-])%bind_Some)%bind_Some).
      split; [done|]. intros Hnil. rewrite Hnil in Hcont.
      cbn in Hcont. lia.
    + injection Hpr as <-. split; [|done]. intros _.
      destruct (procesos_terminados s); [done|]. cbn in Hcont. lia.
  - destruct (Z.gtb_spec (reloj s) 0) as [Hpos|Hle].
    + apply bind_Some in Hth as (q & (-> & _)%dividir_inv & [= <-]).
      by rewrite Hcont.
    + by injection Hth as <-.
Qed.

Lemma reporte_cuenta_terminados_witness :
  ∃ rep s', get_reporte_final ejemplo_rafaga = Some (rep, s') ∧
            rep_procesos_contados rep = 0 ∧ rep_throughput rep = Cero3.
Proof.
  assert (irrupciones_validas procesos_rafaga) as Hval.
  { intros p Hp. unfold procesos_rafaga in Hp.
    repeat (apply elem_of_cons in Hp as [->|Hp]; [cbn; lia|]).
    by apply elem_of_nil in Hp. }
  assert (alcanzable procesos_rafaga ejemplo_rafaga) as Halc.
  { apply alc_init. by vm_compute. }
  destruct (get_reporte_final ejemplo_rafaga) as [[rep s']|] eqn:Hrep;
    [|vm_compute in Hrep; discriminate].
  exists rep, s'. split; [done|].
  destruct (reporte_cuenta_terminados _ _ _ _ Hval Halc Hrep) as (H1 & _ & _ & H2).
  split; [exact H1|exact H2].
Defined.

(** ** The memory picture *)

Section Memoria.
Context (procesos : list Proceso).
Implicit Types (s : Simulador) (r q c v : ref) (l : list ref) (i k : nat).

Ltac pelar :=
  cbn [todos_procesos particiones registrar con_eventos con_ejecucion con_listos
       con_reloj con_terminados con_nuevos con_suspendidos con_reporte].

(** A step that only permutes the Ready queue and the CPU among the
    residents and relabels them. *)
Lemma inv_memoria_residentes s s' :
  inv procesos s → inv_memoria s →
  particiones s' = particiones s →
  procesos_nuevos s' = procesos_nuevos s →
  cola_listos_suspendidos s' = cola_listos_suspendidos s →
  procesos_terminados s' = procesos_terminados s →
  residentes s' ≡ₚ residentes s →
  (∀ q, id_particion (proc s' q) = id_particion (proc s q)) →
  (∀ q, tamano (proc s' q) = tamano (proc s q)) →
  (∀ q, q ∉ residentes s → estado (proc s' q) = estado (proc s q)) →
  (∀ r, r ∈ cola_listos s' → estado (proc s' r) = LISTO) →
  (∀ r, proceso_en_ejecucion s' = Some r → estado (proc s' r) = EJECUCION) →
  inv_memoria s'.
Proof.
  intros Hinv [Hoc Hcabe Hfuera Hen Hel Her Het] Hp Hn Hls Ht Hres Hid Htam Hest Hl' Hr'.
  destruct (inv_disjuntos s (inv_nodup _ _ Hinv)) as (_ & _ & _ & _ & Hdn & Hdls & Hdres).
  split.
  - intros k r Hk Has. rewrite Hp in Hk, Has. rewrite Hid, Hres. by apply Hoc.
  - intros r k Hr Hk. rewrite Hres in Hr. rewrite Hid in Hk. rewrite Htam, Hp.
    by apply Hcabe.
  - intros r Hr. rewrite Hn, Hls, Ht in Hr. rewrite Hid. by apply Hfuera.
  - intros r Hr. rewrite Hn in Hr. rewrite Hest; [by apply Hen|].
    intros Hc. destruct (Hdn r Hr) as [Hno _]. apply Hno, elem_of_en_sistema. by right.
  - done.
  - done.
  - intros r Hr. rewrite Ht in Hr. rewrite Hest; [by apply Het|].
    intros Hc. by apply (Hdres r Hc).
Qed.

Lemma entrar_cpu_estado r s :
  (r < length (todos_procesos s))%nat → estado (proc (entrar_cpu r s) r) = EJECUCION.
Proof.
  intros Hr. with_strategy transparent [entrar_cpu] unfold entrar_cpu.
  cbn [mut todos_procesos con_todos reloj].
  destruct (_ =? -1); cbn [mut todos_procesos con_todos].
  - rewrite (alter_campo estado) by done. by rewrite list_lookup_total_alter_eq.
  - by rewrite list_lookup_total_alter_eq.
Qed.

Lemma a_listo_campos run s q :
  id_particion (proc (a_listo run s) q) = id_particion (proc s q) ∧
  tamano (proc (a_listo run s) q) = tamano (proc s q) ∧
  (q ≠ run → estado (proc (a_listo run s) q) = estado (proc s q)) ∧
  ((run < length (todos_procesos s))%nat → estado (proc (a_listo run s) run) = LISTO).
Proof.
  unfold a_listo. cbn [mut todos_procesos con_todos]. split_and!.
  - by rewrite !(alter_campo id_particion).
  - by rewrite !(alter_campo tamano).
  - intros Hne. by rewrite !list_lookup_total_alter_ne.
  - intros Hlt. rewrite (alter_campo estado) by done.
    by rewrite list_lookup_total_alter_eq.
Qed.

(** The scheduler keeps the memory picture. *)
Lemma inv_memoria_planificador s s' :
  inv procesos s → inv_memoria s → _ejecutar_planificador s = Some s' → inv_memoria s'.
Proof.
  intros Hinv Hmem H.
  destruct (inv_disjuntos s (inv_nodup _ _ Hinv)) as (_ & _ & Hndres & _).
  apply planificador_casos in H
    as [[_ ->]|[(r & l & ev & Hrun & Hsort & ->)|[(run & c & l & Hrun & Hsort & _ & ->)
       |(run & c & l & ent & l' & ev & Hrun & Hsort & _ & Hsort' & ->)]]].
  - done.
  - assert (r :: l ≡ₚ cola_listos s) as Hperm by (by rewrite <- Hsort, sorted_perm).
    assert (r ∈ residentes s) as Hr.
    { apply elem_of_residentes. left. rewrite <- Hperm. by left. }
    assert (r < length (todos_procesos s))%nat as Hlt.
    { apply (inv_rango procesos s r Hinv), elem_of_colas.
      apply elem_of_residentes in Hr. tauto. }
    assert (r ∉ l) as Hrl.
    { unfold residentes in Hndres. rewrite Hrun, app_nil_r, <- Hperm in Hndres.
      by apply NoDup_cons in Hndres as [? _]. }
    apply (inv_memoria_residentes s); try done.
    + cbn. by autorewrite with campos.
    + cbn. by autorewrite with campos.
    + cbn. by autorewrite with campos.
    + cbn. by autorewrite with campos.
    + unfold residentes. cbn. autorewrite with campos. cbn.
      rewrite Hrun, app_nil_r, <- Hperm. by rewrite <- Permutation_cons_append.
    + intros q. pelar. by rewrite (entrar_cpu_campo id_particion).
    + intros q. pelar. by rewrite (entrar_cpu_campo tamano).
    + intros q Hq. pelar. rewrite entrar_cpu_ne; [done|]. by intros ->.
    + intros q Hq. cbn in Hq. autorewrite with campos in Hq. cbn in Hq.
      pelar. rewrite entrar_cpu_ne by (by intros ->). pelar.
      apply (est_listos _ Hmem). rewrite <- Hperm. by right.
    + intros q Hq. cbn in Hq. autorewrite with campos in Hq. cbn in Hq.
      injection Hq as <-. pelar. by rewrite entrar_cpu_estado.
  - assert (c :: l ≡ₚ cola_listos s) as Hperm by (by rewrite <- Hsort, sorted_perm).
    apply (inv_memoria_residentes s); try done.
    + unfold residentes. cbn [cola_listos con_listos proceso_en_ejecucion].
      by rewrite Hperm.
    + intros r Hr. cbn [cola_listos con_listos] in Hr. rewrite Hperm in Hr.
      by apply (est_listos _ Hmem).
    + intros r Hr. by apply (est_run _ Hmem).
  - assert (c :: l ≡ₚ cola_listos s) as Hperm by (by rewrite <- Hsort, sorted_perm).
    assert (ent :: l' ≡ₚ cola_listos s ++ [run]) as Hperm'.
    { rewrite <- Hsort', sorted_perm. cbn. by rewrite <- Hperm. }
    assert (residentes s = cola_listos s ++ [run]) as Hres.
    { unfold residentes. by rewrite Hrun. }
    assert (ent ∈ residentes s) as Hent by (rewrite Hres, <- Hperm'; by left).
    assert (run ∈ residentes s) as Hrunr.
    { rewrite Hres. apply elem_of_app. right. by left. }
    assert (∀ q, q ∈ residentes s → (q < length (todos_procesos s))%nat) as Hrango.
    { intros q Hq. apply (inv_rango procesos s q Hinv), elem_of_colas.
      apply elem_of_residentes in Hq. tauto. }
    assert (ent ∉ l') as Hel.
    { rewrite Hres, <- Hperm' in Hndres. by apply NoDup_cons in Hndres as [? _]. }
    apply (inv_memoria_residentes s); try done.
    + cbn. by autorewrite with campos.
    + cbn. by autorewrite with campos.
    + cbn. by autorewrite with campos.
    + cbn. by autorewrite with campos.
    + unfold residentes. cbn. autorewrite with campos. cbn.
      rewrite Hrun. cbn. rewrite <- Hperm'.
      by rewrite <- Permutation_cons_append.
    + intros q. pelar. rewrite (entrar_cpu_campo id_particion) by done. pelar.
      by destruct (a_listo_campos run s q) as (-> & _).
    + intros q. pelar. rewrite (entrar_cpu_campo tamano) by done. pelar.
      by destruct (a_listo_campos run s q) as (_ & -> & _).
    + intros q Hq. pelar. rewrite entrar_cpu_ne by (by intros ->). pelar.
      destruct (a_listo_campos run s q) as (_ & _ & Hx & _).
      rewrite Hx; [done|by intros ->].
    + intros q Hq. cbn in Hq. autorewrite with campos in Hq. cbn in Hq.
      pelar. rewrite entrar_cpu_ne by (by intros ->). pelar.
      assert (q ∈ cola_listos s ++ [run]) as Hq' by (rewrite <- Hperm'; by right).
      apply elem_of_app in Hq' as [Hq'|Hq'%list_elem_of_singleton].
      * destruct (a_listo_campos run s q) as (_ & _ & Hx & _).
        rewrite Hx; [by apply (est_listos _ Hmem)|].
        intros ->. unfold residentes in Hndres. rewrite Hrun in Hndres.
        apply NoDup_app in Hndres as (_ & Hd & _). apply (Hd run Hq'). by left.
      * subst q. destruct (a_listo_campos run s run) as (_ & _ & _ & Hx).
        apply Hx. by apply Hrango.
    + intros q Hq. cbn in Hq. injection Hq as <-. pelar.
      rewrite entrar_cpu_estado; [done|]. pelar.
      unfold a_listo. cbn [mut todos_procesos con_todos]. rewrite !length_alter.
      by apply Hrango.
Qed.

(** Changes of the event list, of the report list or of the order of L/S
    do not touch the memory picture. *)
Lemma inv_memoria_marco s s' :
  inv_memoria s →
  particiones s' = particiones s → todos_procesos s' = todos_procesos s →
  procesos_nuevos s' = procesos_nuevos s →
  cola_listos_suspendidos s' ≡ₚ cola_listos_suspendidos s →
  cola_listos s' = cola_listos s →
  proceso_en_ejecucion s' = proceso_en_ejecucion s →
  procesos_terminados s' = procesos_terminados s →
  inv_memoria s'.
Proof.
  intros [Hoc Hcabe Hfuera Hen Hel Her Het] Hp Hh Hn Hls Hl Hr Ht.
  assert (residentes s' = residentes s) as Hres by (unfold residentes; congruence).
  split; rewrite ?Hp, ?Hh, ?Hn, ?Hl, ?Hr, ?Ht, ?Hres; try done.
  intros r Hr'. rewrite Hls in Hr'. by apply Hfuera.
Qed.

(** The candidate enters memory. *)
Lemma inv_memoria_entrar i c s s' :
  inv procesos s → inv_memoria s →
  c ∈ cola_listos_suspendidos s → cabe_libre s c i →
  (i < length (particiones s))%nat →
  entrar_a_memoria i c s = Some s' → inv_memoria s'.
Proof.
  intros Hinv [Hoc Hcabe Hfuera Hen Hel Her Het] Hc Hcl Hi Hs'.
  destruct (py_remove_Some _ _ Hc) as [ls Hls].
  rewrite (entrar_a_memoria_cabe i c s ls Hcl Hls) in Hs'. injection Hs' as <-.
  destruct (inv_disjuntos s (inv_nodup _ _ Hinv))
    as (_ & Hndls & _ & _ & Hdn & Hdls & Hdres).
  pose proof (py_remove_filter _ _ _ Hndls Hls) as Hfil.
  assert (c < length (todos_procesos s))%nat as Hrc.
  { apply (inv_rango procesos s c Hinv). apply elem_of_colas. auto. }
  assert (proceso_asignado (part s i) = None ∧ es_so (part s i) = false) as [Hnone Hso].
  { destruct Hcl as [Hl _]. unfold esta_libre in Hl.
    destruct (proceso_asignado (part s i)); [done|]. by destruct (es_so (part s i)). }
  destruct (inv_part_usuario procesos s i Hinv Hso) as (_ & Hid & _).
  destruct (Hdls c Hc) as [Hcres Hcterm].
  assert (c ∉ procesos_nuevos s) as Hcn.
  { intros Hx. destruct (Hdn c Hx) as [Hno _]. apply Hno, elem_of_en_sistema. by left. }
  set (h' := alter (con_t_llegada_listo (reloj s)) c
               (alter (con_estado LISTO) c
                  (alter (con_id_particion (Some (par_id_particion (part s i)))) c
                     (todos_procesos s)))).
  assert (∀ q, q ≠ c → h' !!! q = proc s q) as Hotros.
  { intros q Hq. unfold h'. by rewrite !list_lookup_total_alter_ne. }
  assert (id_particion (h' !!! c) = Some i ∧ estado (h' !!! c) = LISTO ∧
          tamano (h' !!! c) = tamano (proc s c)) as (Hcid & Hcest & Hctam).
  { unfold h'. split_and!.
    - rewrite (alter_campo id_particion), (alter_campo id_particion) by done.
      rewrite list_lookup_total_alter_eq by done. cbn. by rewrite Hid.
    - rewrite (alter_campo estado) by done.
      by rewrite list_lookup_total_alter_eq by (by rewrite length_alter).
    - by rewrite !(alter_campo tamano). }
  assert (∀ r, r ∈ residentes s → r ≠ c) as Hresc by (intros r Hr ->; done).
  split; cbn [particiones todos_procesos procesos_nuevos cola_listos_suspendidos
              cola_listos proceso_en_ejecucion procesos_terminados
              con_listos mut con_todos mut_part con_particiones con_suspendidos];
    fold h'.
  - intros k r Hk Has. rewrite length_alter in Hk.
    unfold residentes. cbn [cola_listos proceso_en_ejecucion con_listos mut con_todos
                            mut_part con_particiones con_suspendidos].
    destruct (decide (k = i)) as [->|Hki].
    + rewrite list_lookup_total_alter_eq in Has by done. cbn in Has.
      injection Has as <-. split; [|done].
      rewrite !elem_of_app. left; right. by left.
    + rewrite list_lookup_total_alter_ne in Has by done.
      destruct (Hoc k r Hk Has) as [Hr Hidr].
      rewrite Hotros by (by apply Hresc). split; [|done].
      unfold residentes in Hr. rewrite !elem_of_app in *. tauto.
  - intros r k Hr Hk. rewrite (alter_campo par_tamano) by done.
    unfold residentes in Hr.
    cbn [cola_listos proceso_en_ejecucion con_listos mut con_todos
         mut_part con_particiones con_suspendidos] in Hr.
    destruct (decide (r = c)) as [->|Hne].
    + rewrite Hcid in Hk. injection Hk as <-. rewrite Hctam. by destruct Hcl.
    + rewrite Hotros in Hk |- * by done. apply Hcabe; [|done].
      unfold residentes. rewrite !elem_of_app in *.
      destruct Hr as [[?|Hr]|?]; [tauto| |tauto].
      by apply list_elem_of_singleton in Hr.
  - intros r Hr. assert (r ≠ c) as Hne.
    { intros ->. rewrite !elem_of_app in Hr. destruct Hr as [?|[Hr|?]]; [done| |done].
      rewrite Hfil in Hr. by apply list_elem_of_filter in Hr as [? _]. }
    rewrite Hotros by done. apply Hfuera. rewrite !elem_of_app in *.
    destruct Hr as [?|[Hr|?]]; [tauto| |tauto].
    rewrite Hfil in Hr. apply list_elem_of_filter in Hr as [_ ?]. tauto.
  - intros r Hr. rewrite Hotros by (by intros ->). by apply Hen.
  - intros r [Hr|Hr%list_elem_of_singleton]%elem_of_app.
    + rewrite Hotros; [by apply Hel|]. apply Hresc, elem_of_residentes. by left.
    + by subst r.
  - intros r Hr. rewrite Hotros; [by apply Her|].
    apply Hresc, elem_of_residentes. by right.
  - intros r Hr. rewrite Hotros by (by intros ->). by apply Het.
Qed.

(** A victim leaves memory. *)
Lemma inv_memoria_sacar v i s s1 :
  inv procesos s → inv_memoria s →
  v ∈ residentes s → id_particion (proc s v) = Some i →
  sacar_de_memoria v i s = Some s1 → inv_memoria s1.
Proof.
  intros Hinv [Hoc Hcabe Hfuera Hen Hel Her Het] Hv Hi Hs1.
  destruct (bien_alojado_usuario procesos s v i Hinv Hv Hi) as (Hi4 & Has & Hso & Hid & _).
  destruct (sacar_de_memoria_objetos v i s s1 Has Hs1) as [Hh Hp].
  destruct (sacar_de_memoria_colas v i s s1 Hs1) as (Hls & Hmem & Hn & Ht & _ & _).
  destruct (inv_disjuntos s (inv_nodup _ _ Hinv))
    as (_ & _ & Hndres & _ & Hdn & Hdls & Hdres).
  assert (i < length (particiones s))%nat as Hlen.
  { rewrite (inv_length_particiones procesos s Hinv). lia. }
  assert (v < length (todos_procesos s))%nat as Hrv.
  { apply (inv_rango procesos s v Hinv). apply elem_of_colas.
    apply elem_of_residentes in Hv. naive_solver. }
  assert (∀ q, q ≠ v → proc s1 q = proc s q) as Hotros.
  { intros q Hq. rewrite Hh. by rewrite !list_lookup_total_alter_ne. }
  assert (id_particion (proc s1 v) = None) as Hvid.
  { rewrite Hh. rewrite list_lookup_total_alter_eq; [done|].
    by rewrite !length_alter. }
  assert ((∀ r, r ∈ cola_listos s1 → r ∈ cola_listos s ∧ r ≠ v) ∧
          (∀ r, proceso_en_ejecucion s1 = Some r →
                proceso_en_ejecucion s = Some r ∧ r ≠ v)) as [Hl1 Hr1].
  { unfold residentes in Hndres. apply NoDup_app in Hndres as (Hndl & Hdis & _).
    case_bool_decide as Hrun.
    - destruct Hmem as [Hrun1 Hl]. rewrite Hrun1, Hl. split; [|done].
      intros r Hr. split; [done|]. intros ->. apply (Hdis v Hr).
      rewrite <- Hrun. cbn. by left.
    - destruct Hmem as [Hrun1 Hl]. rewrite Hrun1.
      rewrite (py_remove_filter _ _ _ Hndl Hl). split.
      + intros r [? ?]%list_elem_of_filter. done.
      + intros r Hr. split; [done|]. intros ->. by rewrite Hr in Hrun. }
  assert (∀ r, r ∈ residentes s1 → r ∈ residentes s ∧ r ≠ v) as Hres1.
  { intros r [Hr|Hr]%elem_of_residentes.
    - destruct (Hl1 r Hr). split; [|done]. apply elem_of_residentes. by left.
    - destruct (Hr1 r Hr). split; [|done]. apply elem_of_residentes. by right. }
  assert (∀ r, r ∈ residentes s → r ≠ v → r ∈ residentes s1) as Hres2.
  { intros r Hr Hne. apply elem_of_residentes.
    apply elem_of_residentes in Hr.
    unfold residentes in Hndres. apply NoDup_app in Hndres as (Hndl & _ & _).
    case_bool_decide as Hrun.
    - destruct Hmem as [Hrun1 Hl]. rewrite Hl. destruct Hr as [?|Hr]; [by left|].
      rewrite Hr in Hrun. by injection Hrun as ->.
    - destruct Hmem as [Hrun1 Hl]. rewrite Hrun1.
      rewrite (py_remove_filter _ _ _ Hndl Hl).
      destruct Hr as [Hr|?]; [left|by right]. by apply list_elem_of_filter. }
  split; rewrite ?Hn, ?Ht, ?Hls.
  - intros k r Hk Hasr. rewrite Hp, length_alter in Hk. rewrite Hp in Hasr.
    destruct (decide (k = i)) as [->|Hki].
    { by rewrite list_lookup_total_alter_eq in Hasr by done. }
    rewrite list_lookup_total_alter_ne in Hasr by done.
    destruct (Hoc k r Hk Hasr) as [Hr Hidr].
    assert (r ≠ v) as Hne by (intros ->; congruence).
    rewrite Hotros by done. split; [by apply Hres2|done].
  - intros r k [Hr Hne]%Hres1 Hk. rewrite Hotros in Hk |- * by done.
    rewrite Hp, (alter_campo par_tamano) by done. by apply Hcabe.
  - intros r Hr. destruct (decide (r = v)) as [->|Hne]; [done|].
    rewrite Hotros by done. apply Hfuera. rewrite !elem_of_app in *.
    destruct Hr as [?|[[?|Hr]|?]]; [tauto..| |tauto].
    by apply list_elem_of_singleton in Hr.
  - intros r Hr. rewrite Hotros; [by apply Hen|]. intros ->.
    destruct (Hdn v Hr) as [Hno _]. apply Hno, elem_of_en_sistema. by right.
  - intros r [Hr Hne]%Hl1. rewrite Hotros by done. by apply Hel.
  - intros r [Hr Hne]%Hr1. rewrite Hotros by done. by apply Her.
  - intros r Hr. rewrite Hotros; [by apply Het|]. intros ->. by apply (Hdres v).
Qed.

Lemma inv_memoria_registrar s ev : inv_memoria s → inv_memoria (registrar ev s).
Proof. intros H. by apply (inv_memoria_marco s). Qed.

Lemma inv_memoria_ordenar s : inv_memoria s → inv_memoria (ordenar_suspendidos s).
Proof.
  intros H. apply (inv_memoria_marco s); try done.
  cbn. by rewrite sorted_perm.
Qed.

Lemma inv_memoria_aplicar s ch c s' :
  inv procesos s → inv_memoria s → c ∈ cola_listos_suspendidos s →
  decidir s c = Some (Some ch) → aplicar ch s = Some s' → inv_memoria s'.
Proof.
  intros Hinv Hmem Hc Hd Hs'. destruct ch as [c' i|c' v i].
  - apply decidir_admision in Hd as (-> & _ & Hbest).
    apply encontrar_mejor_particion_spec in Hbest as (Hi & Hcabe & _).
    apply elem_of_libres in Hi as [Hi Hlib].
    cbn in Hs'. apply bind_Some in Hs' as (s1 & Hs1 & [= <-]).
    apply inv_memoria_registrar.
    by apply (inv_memoria_entrar i c s s1).
  - apply decidir_swap in Hd as (-> & _ & validas & Hval & Hmax & Hlt & Hk & Hp).
    apply (py_max_spec _ _ lex2_leb_total lex2_leb_trans) in Hmax as [Hv _].
    apply (victimas_validas_spec s c _ _ Hval) in Hv as (Hv & k & Hk' & Hfit).
    rewrite Hk in Hk'. injection Hk' as <-.
    cbn in Hs'. apply bind_Some in Hs' as (s1 & Hs1 & Hs').
    apply bind_Some in Hs' as (s2 & Hs2 & [= <-]).
    destruct (inv_sacar_de_memoria procesos v i s s1 Hinv Hv Hk Hs1)
      as (Hinv1 & Hlib & Htam & Hi & Hsize).
    apply inv_memoria_registrar. apply (inv_memoria_entrar i c s1 s2); try done.
    + by apply (inv_memoria_sacar v i s).
    + destruct (sacar_de_memoria_colas _ _ _ _ Hs1) as (-> & _).
      apply elem_of_app. by left.
    + split; [done|]. rewrite Hsize, Htam. done.
Qed.

Lemma inv_memoria_pasada s s' b :
  inv procesos s → inv_memoria s → pasada s = Some (s', b) → inv_memoria s'.
Proof.
  intros Hinv Hmem. unfold pasada. intros H.
  apply bind_Some in H as ([ch|] & Hch & H).
  - apply bind_Some in H as (s1 & Hs1 & [= <- <-]).
    apply cambio_pasada_elem_of in Hch as (c & Hc & Hd).
    eapply (inv_memoria_aplicar (ordenar_suspendidos s)); [| | |done..].
    + by apply inv_ordenar.
    + by apply inv_memoria_ordenar.
    + cbn. by apply elem_of_sorted.
  - injection H as <- <-. by apply inv_memoria_ordenar.
Qed.

Lemma inv_memoria_admision s s' :
  inv procesos s → inv_memoria s → _intentar_admision s = Some s' →
  inv_memoria s'.
Proof.
  intros Hinv Hmem Hs'.
  apply (intentar_admision_ind (λ x, inv procesos x ∧ inv_memoria x) s s');
    [|done|done].
  intros s1 s2 b [H1 H2] Hp. split; [|by eapply inv_memoria_pasada].
  destruct (inv_pasada procesos s1 H1) as (s2' & b' & Hp' & Hinv2). congruence.
Qed.

(** Moving the head of New to L/S. *)
Lemma inv_memoria_mover s s' (k : nat) :
  inv_memoria s → particiones s' = particiones s →
  procesos_nuevos s' = drop k (procesos_nuevos s) →
  cola_listos_suspendidos s' = cola_listos_suspendidos s ++ take k (procesos_nuevos s) →
  cola_listos s' = cola_listos s →
  proceso_en_ejecucion s' = proceso_en_ejecucion s →
  procesos_terminados s' = procesos_terminados s →
  (∀ q, id_particion (proc s' q) = id_particion (proc s q)) →
  (∀ q, tamano (proc s' q) = tamano (proc s q)) →
  (∀ q, q ∉ take k (procesos_nuevos s) → proc s' q = proc s q) →
  NoDup (colas s) →
  inv_memoria s'.
Proof.
  intros [Hoc Hcabe Hfuera Hen Hel Her Het] Hp Hn Hls Hl Hr Ht Hid Htam Hotros Hnd.
  destruct (inv_disjuntos s Hnd) as (Hndn & _ & _ & _ & Hdn & _ & _).
  assert (residentes s' = residentes s) as Hres by (unfold residentes; congruence).
  assert (∀ r, r ∈ take k (procesos_nuevos s) → r ∈ procesos_nuevos s) as Htk.
  { intros r Hr0. eapply elem_of_sublist; [exact Hr0|apply sublist_take]. }
  assert (∀ r, r ∈ drop k (procesos_nuevos s) → r ∈ procesos_nuevos s) as Hdk.
  { intros r Hr0. eapply elem_of_sublist; [exact Hr0|apply sublist_drop]. }
  assert (∀ r, r ∈ residentes s ∨ r ∈ procesos_terminados s →
               r ∉ take k (procesos_nuevos s)) as Hfuera_tk.
  { intros r Hr0 Hin%Htk. destruct (Hdn r Hin) as [H1 H2].
    destruct Hr0 as [Hr0|Hr0]; [|done]. apply H1, elem_of_en_sistema. by right. }
  split; rewrite ?Hp, ?Hres, ?Hn, ?Hls, ?Hl, ?Hr, ?Ht.
  - intros j r Hj Has. rewrite Hid. by apply Hoc.
  - intros r j Hr0 Hj. rewrite Hid in Hj. rewrite Htam. by apply Hcabe.
  - intros r Hr0. rewrite Hid. apply Hfuera. rewrite !elem_of_app in *.
    destruct Hr0 as [?%Hdk|[[?|?%Htk]|?]]; tauto.
  - intros r Hr0. rewrite Hotros; [apply Hen; by apply Hdk|].
    intros Hin. rewrite <- (take_drop k (procesos_nuevos s)) in Hndn.
    apply NoDup_app in Hndn as (_ & Hd & _). by apply (Hd r).
  - intros r Hr0. rewrite Hotros; [by apply Hel|].
    apply Hfuera_tk. left. apply elem_of_residentes. by left.
  - intros r Hr0. rewrite Hotros; [by apply Her|].
    apply Hfuera_tk. left. apply elem_of_residentes. by right.
  - intros r Hr0. rewrite Hotros; [by apply Het|]. apply Hfuera_tk. by right.
Qed.

Lemma inv_memoria_arribos s :
  inv procesos s → inv_memoria s → inv_memoria (arribos s).
Proof.
  intros Hinv Hmem.
  destruct (arribos_efecto s)
    as (Hn & Hls & Hl & Hrun & Ht & _ & _ & Hp & _ & _ & Hout & Hg).
  cbn zeta in Hn, Hls, Hout, Hg.
  apply (inv_memoria_mover s _ (arribos_tomados s)); try done.
  - intros q. apply (fmap_eq_campo id_particion). by apply Hg.
  - intros q. apply (fmap_eq_campo tamano). by apply Hg.
  - by apply (inv_nodup procesos).
Qed.

Lemma inv_memoria_salvo s s' : salvo_eventos s s' → inv_memoria s' → inv_memoria s.
Proof.
  intros Hsalvo Hmem.
  assert (particiones s = particiones s' ∧ procesos_nuevos s = procesos_nuevos s' ∧
          cola_listos_suspendidos s = cola_listos_suspendidos s' ∧
          cola_listos s = cola_listos s' ∧
          proceso_en_ejecucion s = proceso_en_ejecucion s' ∧
          procesos_terminados s = procesos_terminados s' ∧
          todos_procesos s = todos_procesos s') as (H1 & H2 & H3 & H4 & H5 & H6 & H7).
  { unfold salvo_eventos in Hsalvo.
    split_and!;
      [apply (f_equal particiones) in Hsalvo|apply (f_equal procesos_nuevos) in Hsalvo
      |apply (f_equal cola_listos_suspendidos) in Hsalvo
      |apply (f_equal cola_listos) in Hsalvo
      |apply (f_equal proceso_en_ejecucion) in Hsalvo
      |apply (f_equal procesos_terminados) in Hsalvo
      |apply (f_equal todos_procesos) in Hsalvo]; exact Hsalvo. }
  apply (inv_memoria_marco s'); try done. by rewrite H3.
Qed.

Lemma inv_memoria_arribados_iniciales s :
  inv procesos s → inv_memoria s → inv_memoria (arribados_iniciales s).
Proof.
  intros Hinv Hmem. eapply inv_memoria_salvo; [apply arribados_iniciales_salvo|].
  set (k := cuenta_prefijo _ _).
  destruct (a_suspendidos_foldl (take k (procesos_nuevos s))
              (con_nuevos (drop k (procesos_nuevos s)) s))
    as (Hls & Hn & Hl & Hr & Ht & _ & _ & Hp & _ & _ & _ & Hout & Hg).
  cbn zeta in Hls, Hn, Hl, Hr, Ht, Hp, Hout, Hg.
  apply (inv_memoria_mover s _ k); try done.
  - intros q. apply (fmap_eq_campo id_particion). by apply Hg.
  - intros q. apply (fmap_eq_campo tamano). by apply Hg.
  - by apply (inv_nodup procesos).
Qed.

(** The clock advance and the CPU service keep the memory picture: the
    partition of a process that finishes is released in the same step. *)
Lemma inv_memoria_servicio s s1 :
  inv procesos s → inv_memoria s → antes_de_arribos s = Some s1 → inv_memoria s1.
Proof.
  intros Hinv Hmem H. unfold antes_de_arribos in H. rewrite avanzar_reloj_eq in H.
  set (s0 := con_eventos [] (con_reloj (reloj s + 1) s)) in H.
  destruct (inv_disjuntos s (inv_nodup _ _ Hinv))
    as (_ & _ & Hndres & _ & Hdn & Hdls & Hdres).
  apply servicio_casos in H
    as [[_ ->]|[(cur & Hcur & Hno & ->)|(cur & k & ev & Hcur & Hcero & Hk & _ & ->)]].
  - by apply (inv_memoria_marco s).
  - destruct Hmem as [Hoc Hcabe Hfuera Hen Hel Her Het].
    assert (∀ q, id_particion (proc (servir cur s0) q) = id_particion (proc s q) ∧
                 tamano (proc (servir cur s0) q) = tamano (proc s q) ∧
                 estado (proc (servir cur s0) q) = estado (proc s q)) as Hcampos.
    { intros q. unfold servir. cbn [mut todos_procesos con_todos s0 con_eventos con_reloj].
      by rewrite (alter_campo id_particion), (alter_campo tamano),
        (alter_campo estado) by done. }
    split; cbn [particiones procesos_nuevos cola_listos_suspendidos cola_listos
                residentes proceso_en_ejecucion procesos_terminados servir mut
                con_todos s0 con_eventos con_reloj];
      fold s0; fold (servir cur s0); change (residentes _) with (residentes s).
    + intros j r Hj Has. destruct (Hcampos r) as (-> & _). by apply Hoc.
    + intros r j Hr Hj. destruct (Hcampos r) as (E1 & E2 & _).
      rewrite E1 in Hj. rewrite E2. by apply Hcabe.
    + intros r Hr. destruct (Hcampos r) as (-> & _). by apply Hfuera.
    + intros r Hr. destruct (Hcampos r) as (_ & _ & ->). by apply Hen.
    + intros r Hr. destruct (Hcampos r) as (_ & _ & ->). by apply Hel.
    + intros r Hr. destruct (Hcampos r) as (_ & _ & ->). by apply Her.
    + intros r Hr. destruct (Hcampos r) as (_ & _ & ->). by apply Het.
  - change (proceso_en_ejecucion s = Some cur) in Hcur.
    destruct Hmem as [Hoc Hcabe Hfuera Hen Hel Her Het].
    assert (cur ∈ residentes s) as Hres by (apply elem_of_residentes; by right).
    assert (cur < length (todos_procesos s))%nat as Hlt.
    { apply (inv_rango procesos s cur Hinv), elem_of_colas. tauto. }
    assert (id_particion (proc s cur) = Some k) as Hk0.
    { rewrite <- Hk. unfold terminar, servir.
      cbn [mut todos_procesos con_todos con_ejecucion con_terminados].
      by rewrite !(alter_campo id_particion). }
    destruct (bien_alojado_usuario procesos s cur k Hinv Hres Hk0)
      as (Hk4 & Has & Hso & Hid & _).
    assert (cur ∉ cola_listos s) as Hcl.
    { unfold residentes in Hndres. rewrite Hcur in Hndres. cbn in Hndres.
      apply NoDup_app in Hndres as (_ & Hd & _). intros Hc. apply (Hd cur Hc). by left. }
    set (s2 := registrar ev (liberar_particion k (terminar cur (servir cur s0)))).
    assert (todos_procesos s2 =
            alter (con_id_particion None) cur
              (todos_procesos (terminar cur (servir cur s0))) ∧
            particiones s2 = alter (con_proceso_asignado None) k (particiones s))
      as [Hh2 Hp2].
    { unfold s2. pelar. rewrite liberar_particion_eq.
      change (proceso_asignado (part (terminar cur (servir cur s0)) k))
        with (proceso_asignado (part s k)).
      by rewrite Has. }
    assert (∀ q, q ≠ cur → proc s2 q = proc s q) as Hotros.
    { intros q Hq. rewrite Hh2. unfold terminar, servir.
      cbn [mut todos_procesos con_todos con_ejecucion con_terminados].
      by rewrite !list_lookup_total_alter_ne. }
    assert (id_particion (proc s2 cur) = None ∧ estado (proc s2 cur) = TERMINADO)
      as [Hid2 Hest2].
    { rewrite Hh2. unfold terminar, servir.
      cbn [mut todos_procesos con_todos con_ejecucion con_terminados]. split.
      - by rewrite list_lookup_total_alter_eq by (by rewrite !length_alter).
      - rewrite !(alter_campo estado) by done.
        by rewrite list_lookup_total_alter_eq by (by rewrite !length_alter). }
    assert (procesos_nuevos s2 = procesos_nuevos s ∧
            cola_listos_suspendidos s2 = cola_listos_suspendidos s ∧
            cola_listos s2 = cola_listos s ∧ proceso_en_ejecucion s2 = None ∧
            procesos_terminados s2 = procesos_terminados s ++ [cur])
      as (Hn2 & Hls2 & Hl2 & Hrun2 & Ht2).
    { unfold s2. cbn. by autorewrite with campos. }
    assert (∀ r, r ∈ residentes s2 ↔ r ∈ cola_listos s) as Hres2.
    { intros r. rewrite elem_of_residentes, Hl2, Hrun2. naive_solver. }
    split; rewrite ?Hn2, ?Hls2, ?Hl2, ?Hrun2, ?Ht2.
    + intros j r Hj Hasr. rewrite Hp2, length_alter in Hj. rewrite Hp2 in Hasr.
      destruct (decide (j = k)) as [->|Hjk].
      { by rewrite list_lookup_total_alter_eq in Hasr by done. }
      rewrite list_lookup_total_alter_ne in Hasr by done.
      destruct (Hoc j r Hj Hasr) as [Hr Hidr].
      assert (r ≠ cur) as Hne by (intros ->; congruence).
      rewrite Hotros by done. split; [|done]. apply Hres2.
      apply elem_of_residentes in Hr as [?|?]; [done|congruence].
    + intros r j Hr%Hres2 Hj.
      assert (r ≠ cur) as Hne by (by intros ->).
      rewrite Hotros in Hj |- * by done.
      rewrite Hp2, (alter_campo par_tamano) by done. apply Hcabe; [|done].
      apply elem_of_residentes. by left.
    + intros r Hr. destruct (decide (r = cur)) as [->|Hne]; [done|].
      rewrite Hotros by done. apply Hfuera. rewrite !elem_of_app in *.
      destruct Hr as [?|[?|[?|Hr]]]; [tauto..|].
      by apply list_elem_of_singleton in Hr.
    + intros r Hr. rewrite Hotros; [by apply Hen|]. intros ->.
      destruct (Hdn cur Hr) as [Hx _]. apply Hx, elem_of_en_sistema. by right.
    + intros r Hr. rewrite Hotros; [by apply Hel|]. by intros ->.
    + done.
    + intros r [Hr|Hr%list_elem_of_singleton]%elem_of_app.
      * rewrite Hotros; [by apply Het|]. intros ->. by apply (Hdres cur Hres).
      * by subst r.
Qed.

Lemma inv_memoria_preparar : inv_memoria (_preparar_colas (estado_vacio procesos)).
Proof.
  destruct (seleccion_spec procesos (seq 0 (length procesos)))
    as (_ & _ & _ & Hn & _ & Hls & Hl & Hrun & Ht & Hprep & _).
  { intros r Hr. apply elem_of_seq in Hr. lia. }
  assert (particiones (_preparar_colas (estado_vacio procesos)) = particiones_iniciales)
    as Hpart.
  { change (particiones (foldl (λ s p, mut p reiniciar s) (estado_vacio procesos)
                     (cohorte procesos)) = particiones_iniciales).
    destruct (reiniciar_foldl (cohorte procesos) (estado_vacio procesos))
      as (_ & _ & _ & _ & _ & _ & _ & H & _).
    by rewrite H. }
  change (_preparar_colas (estado_vacio procesos))
    with (con_reporte (cohorte procesos)
            (con_nuevos (cohorte procesos)
               (foldl (λ s p, mut p reiniciar s) (estado_vacio procesos)
                  (cohorte procesos)))) in *.
  fold (cohorte procesos) in Hn, Hls, Hl, Hrun, Ht, Hprep.
  set (s := con_reporte _ _) in *. clearbody s.
  assert (residentes s = []) as Hres by (unfold residentes; by rewrite Hl, Hrun).
  split; rewrite ?Hres, ?Hl, ?Hrun, ?Ht, ?Hls.
  - intros k r Hk Has. rewrite Hpart in Hk, Has.
    by destruct k as [|[|[|[|k]]]]; cbn in Hk, Has; try lia.
  - by intros r k ?%elem_of_nil.
  - intros r Hr. rewrite app_nil_r in Hr. rewrite Hn in Hr.
    by destruct (Hprep r Hr) as (_ & _ & _ & ? & _).
  - intros r Hr. rewrite Hn in Hr. by destruct (Hprep r Hr) as (_ & ? & _).
  - by intros r ?%elem_of_nil.
  - done.
  - by intros r ?%elem_of_nil.
Qed.

Lemma inv_memoria_init s : Simulador_init procesos = Some s → inv_memoria s.
Proof.
  unfold Simulador_init. fold (estado_vacio procesos).
  rewrite guardar_estado_inicial_eq.
  pose proof (inv_preparar procesos) as Hinv0.
  pose proof inv_memoria_preparar as Hmem0.
  set (p0 := _preparar_colas (estado_vacio procesos)) in *. clearbody p0.
  intros (s1 & H1 & H2)%bind_Some.
  pose proof (inv_arribados_iniciales procesos p0 Hinv0) as Hinva.
  destruct (inv_intentar_admision procesos _ Hinva) as (s1' & H1' & Hinv1).
  assert (s1' = s1) as -> by congruence.
  apply (inv_memoria_planificador s1); [done| |done].
  apply (inv_memoria_admision (arribados_iniciales p0)); [done| |done].
  by apply inv_memoria_arribados_iniciales.
Qed.

Lemma inv_memoria_tick s s' :
  inv procesos s → inv_memoria s → siguiente_tick s = Some s' → inv_memoria s'.
Proof.
  intros Hinv Hmem (s1 & s2 & H1 & H2 & H3)%siguiente_tick_pasos.
  pose proof (inv_antes_de_arribos procesos s s1 Hinv H1) as Hinv1.
  pose proof (inv_arribos procesos s1 Hinv1) as Hinva.
  destruct (inv_intentar_admision procesos _ Hinva) as (s2' & H2' & Hinv2).
  assert (s2' = s2) as -> by congruence.
  apply (inv_memoria_planificador s2); [done| |done].
  apply (inv_memoria_admision (arribos s1)); [done| |done].
  apply inv_memoria_arribos; [done|]. by apply (inv_memoria_servicio s).
Qed.

(** Every observable state of the engine keeps the memory picture. *)
Lemma alcanzable_inv_memoria s : alcanzable procesos s → inv_memoria s.
Proof.
  induction 1 as [s H|s s' Halc IH H|s rep s' _ IH H].
  - by apply inv_memoria_init.
  - apply (inv_memoria_tick s); [by apply alcanzable_inv|done..].
  - apply get_reporte_final_estado in H as ->.
    by apply (inv_memoria_marco s).
Qed.
End Memoria.

Section MemoriaTeoremas.
Context (procesos : list Proceso).
Implicit Types (s : Simulador) (r q : ref) (k : nat).

(** The residents hold different partitions among the three of the users. *)
Lemma residentes_a_lo_sumo_tres s :
  inv procesos s → (procesos_en_memoria s ≤ 3)%nat.
Proof.
  intros Hinv. rewrite procesos_en_memoria_length.
  destruct (inv_disjuntos s (inv_nodup _ _ Hinv)) as (_ & _ & Hnd & _).
  set (f := λ r, default 0%nat (id_particion (proc s r))).
  assert (∀ r, r ∈ residentes s →
               (0 < f r < 4)%nat ∧ proceso_asignado (part s (f r)) = Some r) as Hf.
  { intros r Hr. destruct (inv_residentes _ _ Hinv r Hr) as (k & Hk & _).
    destruct (bien_alojado_usuario procesos s r k Hinv Hr Hk) as (? & ? & _).
    unfold f. by rewrite Hk. }
  assert (NoDup (f <$> residentes s)) as Hnd'.
  { apply NoDup_fmap_2_strong; [|done]. intros x y Hx Hy Hxy.
    destruct (Hf x Hx) as [_ H1]. destruct (Hf y Hy) as [_ H2].
    rewrite Hxy in H1. congruence. }
  assert (f <$> residentes s ⊆+ [1; 2; 3]%nat) as Hsub.
  { apply NoDup_submseteq; [done|]. intros k (r & -> & Hr)%list_elem_of_fmap.
    destruct (Hf r Hr) as [Hk _]. rewrite !elem_of_cons.
    destruct (f r) as [|[|[|[|?]]]]; [lia|auto..|lia]. }
  apply submseteq_length in Hsub. by rewrite length_fmap in Hsub.
Qed.
End MemoriaTeoremas.

(** X8. The partition table and the queues agree in every observable
    state: a partition that holds a process is a user partition, the
    process is Ready or Running, points back to that partition and fits in
    it, so the internal fragmentation shown is never negative; every Ready
    or Running process holds one of the three user partitions; a process in
    New, in L/S or Terminated holds none; and at most three processes are
    in memory. *)
Theorem memoria_consistente (procesos : list Proceso) (s : Simulador) :
  alcanzable procesos s →
  (∀ k r, (k < length (particiones s))%nat → proceso_asignado (part s k) = Some r →
     es_so (part s k) = false ∧ r ∈ residentes s ∧
     id_particion (proc s r) = Some k ∧ 0 ≤ fragmentacion_interna s k) ∧
  (∀ r, r ∈ residentes s →
     ∃ k, (0 < k < 4)%nat ∧ id_particion (proc s r) = Some k ∧
          proceso_asignado (part s k) = Some r) ∧
  (∀ r, r ∈ procesos_nuevos s ++ cola_listos_suspendidos s ++ procesos_terminados s →
     id_particion (proc s r) = None) ∧
  (procesos_en_memoria s ≤ 3)%nat.
Proof.
  intros Halc. pose proof (alcanzable_inv procesos s Halc) as Hinv.
  destruct (alcanzable_inv_memoria procesos s Halc) as [Hoc Hcabe Hfuera _ _ _ _].
  split_and!.
  - intros k r Hk Has. destruct (Hoc k r Hk Has) as [Hr Hid].
    destruct (bien_alojado_usuario procesos s r k Hinv Hr Hid) as (_ & _ & Hso & _).
    split_and!; try done. unfold fragmentacion_interna. rewrite Has.
    specialize (Hcabe r k Hr Hid). lia.
  - intros r Hr. destruct (inv_residentes _ _ Hinv r Hr) as (k & Hk & _).
    destruct (bien_alojado_usuario procesos s r k Hinv Hr Hk) as (? & ? & _).
    by exists k.
  - done.
  - by apply (residentes_a_lo_sumo_tres procesos).
Qed.

Lemma memoria_consistente_witness :
  (∀ r, r ∈ residentes ejemplo_rafaga →
     ∃ k, (0 < k < 4)%nat ∧ id_particion (proc ejemplo_rafaga r) = Some k ∧
          proceso_asignado (part ejemplo_rafaga k) = Some r) ∧
  (procesos_en_memoria ejemplo_rafaga ≤ 3)%nat.
Proof.
  assert (alcanzable procesos_rafaga ejemplo_rafaga) as Halc.
  { apply alc_init. by vm_compute. }
  split.
  - exact (proj1 (proj2 (memoria_consistente procesos_rafaga ejemplo_rafaga Halc))).
  - exact (proj2 (proj2 (proj2 (memoria_consistente procesos_rafaga ejemplo_rafaga Halc)))).
Defined.

(** X9. The [estado] field always names the queue that holds the process:
    in every observable state, a process of the cohort is in New exactly
    when its state is NUEVO, in L/S exactly when it is LS, in the Ready
    queue exactly when it is LISTO, on the CPU exactly when it is EJECUCION
    and in Terminated exactly when it is TERMINADO. *)
Theorem estado_nombra_cola (procesos : list Proceso) (s : Simulador) (r : ref) :
  alcanzable procesos s → r ∈ colas s →
  (r ∈ procesos_nuevos s ↔ estado (proc s r) = NUEVO) ∧
  (r ∈ cola_listos_suspendidos s ↔ estado (proc s r) = LS) ∧
  (r ∈ cola_listos s ↔ estado (proc s r) = LISTO) ∧
  (proceso_en_ejecucion s = Some r ↔ estado (proc s r) = EJECUCION) ∧
  (r ∈ procesos_terminados s ↔ estado (proc s r) = TERMINADO).
Proof.
  intros Halc Hr. pose proof (alcanzable_inv procesos s Halc) as Hinv.
  destruct (alcanzable_inv_memoria procesos s Halc) as [_ _ _ Hen Hel Her Het].
  pose proof (inv_ls _ _ Hinv) as Hels.
  apply elem_of_colas in Hr.
  split_and!; (split; [by auto|]); intros Hest;
    destruct Hr as [Hr|[Hr|[Hr|[Hr|Hr]]]]; try done;
    first [apply Hen in Hr|apply Hels in Hr|apply Hel in Hr|apply Her in Hr
          |apply Het in Hr];
    congruence.
Qed.

Lemma estado_nombra_cola_witness :
  proceso_en_ejecucion ejemplo_rafaga = Some 0%nat ↔
  estado (proc ejemplo_rafaga 0%nat) = EJECUCION.
Proof.
  apply (estado_nombra_cola procesos_rafaga ejemplo_rafaga 0%nat).
  - apply alc_init. by vm_compute.
  - apply (bool_decide_unpack _). by vm_compute.
Defined.

(** ** The end of the simulation *)

Section Fin.
Context (procesos : list Proceso).
Implicit Types (s : Simulador) (r q c v : ref) (l : list ref) (i k : nat).

Lemma inv_formas s :
  inv procesos s →
  ∃ p0 p1 p2 p3, particiones s = [p0; p1; p2; p3] ∧
    es_so p0 = true ∧
    (es_so p1 = false ∧ par_tamano p1 = 250) ∧
    (es_so p2 = false ∧ par_tamano p2 = 150) ∧
    (es_so p3 = false ∧ par_tamano p3 = 50).
Proof.
  intros Hinv. pose proof (inv_forma _ _ Hinv) as Hf.
  destruct (particiones s) as [|p0 [|p1 [|p2 [|p3 [|p4 ps]]]]]; try done.
  exists p0, p1, p2, p3. unfold forma in Hf. cbn in Hf.
  injection Hf as _ ? ? _ _ ? ? _ _ ? ? _ _ ? ? _. done.
Qed.

(** The largest user partition has 250 KB. *)
Lemma max_part_250 s :
  inv procesos s →
  foldr Z.max 0 (par_tamano <$> filter (λ p, negb (es_so p)) (particiones s)) = 250.
Proof.
  intros (p0 & p1 & p2 & p3 & -> & H0 & [H1 T1] & [H2 T2] & [H3 T3])%inv_formas.
  rewrite filter_cons_False by (rewrite H0; cbn; tauto).
  rewrite filter_cons_True by (by rewrite H1).
  rewrite filter_cons_True by (by rewrite H2).
  rewrite filter_cons_True by (by rewrite H3).
  rewrite filter_nil. cbn. rewrite T1, T2, T3. lia.
Qed.

Lemma cabe_250 s r :
  inv procesos s →
  _cabe_en_alguna_particion s r = bool_decide (tamano (proc s r) ≤ 250).
Proof.
  intros (p0 & p1 & p2 & p3 & Hp & H0 & [H1 T1] & [H2 T2] & [H3 T3])%inv_formas.
  unfold _cabe_en_alguna_particion. rewrite Hp. cbn.
  rewrite H0, H1, H2, H3, T1, T2, T3. cbn.
  case_bool_decide; destruct (Z.leb_spec (tamano (proc s r)) 250);
    destruct (Z.leb_spec (tamano (proc s r)) 150);
    destruct (Z.leb_spec (tamano (proc s r)) 50); cbn; try done; lia.
Qed.

Lemma existsb_true_elem {A} (f : A → bool) (ps : list A) :
  existsb f ps = true → ∃ p, p ∈ ps ∧ f p = true.
Proof.
  induction ps as [|x ps IH]; cbn; [done|].
  intros [Hx|Hps]%orb_true_iff.
  - exists x. split; [by left|done].
  - destruct (IH Hps) as (p & ? & ?). exists p. split; [by right|done].
Qed.

Lemma existsb_elem_true {A} (f : A → bool) (ps : list A) p :
  p ∈ ps → f p = true → existsb f ps = true.
Proof.
  intros Hp Hf. destruct (existsb f ps) eqn:E; [done|].
  by rewrite (existsb_false f ps p E Hp) in Hf.
Qed.

(** When [is_running] answers [False]: nothing is Ready or Running, and
    nothing in L/S or in New fits the largest user partition. *)
Lemma is_running_false s :
  inv procesos s →
  is_running s = false ↔
  proceso_en_ejecucion s = None ∧ cola_listos s = [] ∧
  ∀ r, r ∈ cola_listos_suspendidos s ++ procesos_nuevos s → 250 < tamano (proc s r).
Proof.
  intros Hinv. unfold is_running. cbn zeta. rewrite (max_part_250 s Hinv).
  change (250 =? 0) with false. cbn match.
  destruct (proceso_en_ejecucion s) as [run|] eqn:Hrun.
  { rewrite bool_decide_true by (by eexists). split; [done|]. by intros [? _]. }
  rewrite bool_decide_false by (by intros [? ?]).
  destruct (cola_listos s) as [|x l] eqn:Hl.
  2:{ rewrite bool_decide_false by done. cbn. split; [done|]. by intros (_ & ? & _). }
  rewrite bool_decide_true by done. cbn [negb].
  split.
  - intros H. split_and!; try done. intros r [Hr|Hr]%elem_of_app.
    + destruct (existsb _ (cola_listos_suspendidos s)) eqn:E; [done|].
      pose proof (existsb_false _ _ r E Hr) as Hx. cbn beta in Hx. lia.
    + destruct (existsb _ (cola_listos_suspendidos s)) eqn:E; [done|].
      pose proof (existsb_false _ _ r H Hr) as Hx. cbn beta in Hx. lia.
  - intros (_ & _ & H).
    destruct (existsb _ (cola_listos_suspendidos s)) eqn:E.
    { apply existsb_true_elem in E as (r & Hr & Hx).
      assert (250 < tamano (proc s r)) by (apply H, elem_of_app; by left). lia. }
    destruct (existsb _ (procesos_nuevos s)) eqn:E'; [|done].
    apply existsb_true_elem in E' as (r & Hr & Hx).
    assert (250 < tamano (proc s r)) by (apply H, elem_of_app; by right). lia.
Qed.

Lemma buscar_cambio_None s l :
  buscar_cambio s l = Some None ↔ ∀ c, c ∈ l → decidir s c = Some None.
Proof.
  induction l as [|c l IH]; cbn [buscar_cambio].
  - split; [by intros _ c ?%elem_of_nil|done].
  - split.
    + intros H x Hx. destruct (decidir s c) as [[ch|]|] eqn:E; cbn in H; try done.
      apply elem_of_cons in Hx as [->|Hx]; [done|]. by apply IH.
    + intros H. rewrite (H c) by (by left). cbn. apply IH.
      intros x Hx. apply H. by right.
Qed.

Lemma cambio_pasada_None s :
  cambio_pasada s = Some None ↔
  ∀ c, c ∈ cola_listos_suspendidos s → decidir s c = Some None.
Proof.
  unfold cambio_pasada. cbn zeta. rewrite buscar_cambio_None.
  unfold ordenar_suspendidos at 1.
  cbn [cola_listos_suspendidos con_suspendidos].
  split; intros H c Hc.
  - rewrite <- (decidir_suspendidos
                  (sorted (clave_ls s) lex2_leb (cola_listos_suspendidos s))).
    apply H. by apply elem_of_sorted.
  - unfold ordenar_suspendidos. rewrite decidir_suspendidos.
    apply H. by apply elem_of_sorted in Hc.
Qed.

(** With nothing in L/S that fits a partition, the admission loop only
    sorts L/S. *)
Lemma admision_todos_grandes s :
  inv procesos s →
  (∀ c, c ∈ cola_listos_suspendidos s → 250 < tamano (proc s c)) →
  _intentar_admision s = Some (ordenar_suspendidos s).
Proof.
  intros Hinv Hg.
  assert (cambio_pasada s = Some None) as Hc.
  { apply cambio_pasada_None. intros c Hc. apply (decidir_grande procesos); [done|].
    rewrite (cabe_250 s c Hinv). apply bool_decide_false. specialize (Hg c Hc). lia. }
  unfold _intentar_admision. cbn [bucle_admision]. unfold pasada. rewrite Hc. done.
Qed.

(** With nothing in memory, a candidate that the loop leaves in L/S fits
    no partition. *)
Lemma decidir_memoria_vacia s c :
  inv procesos s → inv_memoria s → residentes s = [] →
  decidir s c = Some None → 250 < tamano (proc s c).
Proof.
  intros Hinv Hmem Hres Hd.
  destruct (inv_formas s Hinv) as (p0 & p1 & p2 & p3 & Hp & H0 & [H1 T1] & _).
  assert (part s 1%nat = p1) as Hp1 by (by rewrite Hp).
  assert (esta_libre (part s 1%nat) = true) as Hlib.
  { unfold esta_libre. rewrite Hp1, H1.
    destruct (proceso_asignado p1) as [r|] eqn:Has; [|done].
    destruct (mem_ocupada s Hmem 1%nat r) as [Hr _].
    - rewrite Hp. cbn. lia.
    - by rewrite Hp1.
    - rewrite Hres in Hr. by apply elem_of_nil in Hr. }
  assert (1%nat ∈ libres s) as Hl.
  { apply elem_of_libres. split; [rewrite Hp; cbn; lia|done]. }
  unfold decidir in Hd. rewrite procesos_en_memoria_length, Hres in Hd. cbn in Hd.
  rewrite bool_decide_false in Hd by (intros E; rewrite E in Hl; by apply elem_of_nil in Hl).
  cbn in Hd. injection Hd as Hd.
  destruct (_encontrar_mejor_particion s c (libres s)) eqn:E; [done|].
  rewrite encontrar_mejor_particion_None in E.
  destruct (Z.le_gt_cases (tamano (proc s c)) 250) as [Hle|Hgt]; [|lia].
  exfalso. apply (E 1%nat Hl). split; [done|]. by rewrite Hp1, T1.
Qed.

Lemma planificador_ocioso s s' :
  _ejecutar_planificador s = Some s' → proceso_en_ejecucion s' = None →
  s' = s ∧ cola_listos s = [].
Proof.
  intros H. apply planificador_casos in H
    as [[Hl ->]|[(r & l & ev & _ & _ & ->)|[(run & c & l & Hrun & _ & _ & ->)
       |(run & c & l & ent & l' & ev & _ & _ & _ & _ & ->)]]].
  - done.
  - cbn. autorewrite with campos. by cbn.
  - cbn. by rewrite Hrun.
  - by cbn.
Qed.

(** When the admission loop and the scheduler leave the CPU idle, nothing
    in L/S fits a partition. *)
Lemma admision_ocio s s2 s' :
  inv procesos s → inv_memoria s →
  _intentar_admision s = Some s2 → _ejecutar_planificador s2 = Some s' →
  proceso_en_ejecucion s' = None →
  cola_listos s' = [] ∧
  ∀ c, c ∈ cola_listos_suspendidos s' → 250 < tamano (proc s' c).
Proof.
  intros Hinv Hmem H2 H3 Hrun.
  destruct (planificador_ocioso s2 s' H3 Hrun) as [-> Hl]. split; [done|].
  destruct (inv_intentar_admision procesos s Hinv) as (s2' & H2' & Hinv2).
  assert (s2' = s2) as -> by congruence.
  pose proof (inv_memoria_admision procesos s s2 Hinv Hmem H2) as Hmem2.
  assert (cambio_pasada s2 = Some None) as Hc.
  { destruct (intentar_admision_casos s) as [(s0 & H0 & s1 & H1)|[H0 _]]; [|congruence].
    assert (s0 = s2) as -> by congruence.
    apply pasada_sin_cambio in H1 as [-> Hc]. by rewrite cambio_pasada_ordenar. }
  rewrite cambio_pasada_None in Hc.
  intros c Hc'. apply decidir_memoria_vacia; try done; [|by apply Hc].
  unfold residentes. by rewrite Hl, Hrun.
Qed.

Lemma alcanzable_ocio s :
  alcanzable procesos s → proceso_en_ejecucion s = None →
  cola_listos s = [] ∧
  ∀ c, c ∈ cola_listos_suspendidos s → 250 < tamano (proc s c).
Proof.
  induction 1 as [s H|s s' Halc _ H|s rep s' _ IH H].
  - unfold Simulador_init in H. fold (estado_vacio procesos) in H.
    rewrite guardar_estado_inicial_eq in H.
    apply bind_Some in H as (s1 & H1 & H2).
    apply (admision_ocio (arribados_iniciales (_preparar_colas (estado_vacio procesos))) s1);
      try done.
    + apply inv_arribados_iniciales, inv_preparar.
    + apply (inv_memoria_arribados_iniciales procesos);
        [apply inv_preparar|apply inv_memoria_preparar].
  - pose proof (alcanzable_inv procesos s Halc) as Hinv.
    pose proof (alcanzable_inv_memoria procesos s Halc) as Hmem.
    destruct (siguiente_tick_pasos s s' H) as (s1 & s2 & H1 & H2 & H3).
    pose proof (inv_antes_de_arribos procesos s s1 Hinv H1) as Hinv1.
    apply (admision_ocio (arribos s1) s2); try done.
    + by apply inv_arribos.
    + apply (inv_memoria_arribos procesos); [done|].
      by apply (inv_memoria_servicio procesos s).
  - apply get_reporte_final_estado in H as ->. exact IH.
Qed.

(** What a tick does to the clock, to New and to the remaining times. *)
Lemma tick_efecto s s' :
  inv procesos s → siguiente_tick s = Some s' →
  reloj s' = reloj s + 1 ∧
  (∃ k, procesos_nuevos s' = drop k (procesos_nuevos s)) ∧
  ∀ r, t_restante (proc s' r) =
       t_restante (proc s r) - (if decide (proceso_en_ejecucion s = Some r) then 1 else 0).
Proof.
  intros Hinv Hs'.
  destruct (siguiente_tick_pasos s s' Hs') as (s1 & s2 & H1 & H2 & H3).
  destruct (planificador_mismo_sistema _ _ H3) as (Hn3 & _ & _ & Hrel3 & _ & _ & Hr3 & _).
  destruct (intentar_admision_mismo_sistema _ _ H2)
    as (Hn2 & _ & _ & Hrel2 & _ & _ & Hr2 & _).
  destruct (arribos_efecto s1)
    as (Hna & _ & _ & _ & _ & _ & Hrela & _ & _ & _ & _ & Hg).
  cbn zeta in Hna.
  pose proof H1 as H1'. unfold antes_de_arribos in H1'. rewrite avanzar_reloj_eq in H1'.
  apply servicio_efecto in H1' as (Hn1 & _ & _ & Hrel1 & _).
  split_and!.
  - rewrite Hrel3, Hrel2, Hrela, Hrel1. done.
  - exists (arribos_tomados s1). rewrite Hn3, Hn2, Hna, Hn1. done.
  - intros r.
    rewrite Hr3, Hr2, (fmap_eq_campo t_restante _ _ r (Hg _ t_restante (λ _ _, eq_refl))).
    by apply (servicio_restante procesos).
Qed.

Lemma suma_ext (f g : ref → Z) l :
  (∀ r, r ∈ l → f r = g r) → foldr Z.add 0 (f <$> l) = foldr Z.add 0 (g <$> l).
Proof.
  induction l as [|x l IH]; intros H; cbn; [done|].
  rewrite (H x) by (by left). rewrite IH; [done|]. intros r Hr. apply H. by right.
Qed.

Lemma suma_le (f g : ref → Z) l :
  (∀ r, r ∈ l → f r ≤ g r) → foldr Z.add 0 (f <$> l) ≤ foldr Z.add 0 (g <$> l).
Proof.
  induction l as [|x l IH]; intros H; cbn; [done|].
  assert (f x ≤ g x) by (apply H; by left).
  assert (foldr Z.add 0 (f <$> l) ≤ foldr Z.add 0 (g <$> l)).
  { apply IH. intros r Hr. apply H. by right. }
  lia.
Qed.

Lemma suma_perm (f : ref → Z) l l' :
  l ≡ₚ l' → foldr Z.add 0 (f <$> l) = foldr Z.add 0 (f <$> l').
Proof. induction 1; cbn; lia. Qed.

Lemma suma_menos_uno (f g : ref → Z) l cur :
  NoDup l → cur ∈ l →
  (∀ r, g r = f r - (if decide (Some cur = Some r) then 1 else 0)) →
  foldr Z.add 0 (g <$> l) = foldr Z.add 0 (f <$> l) - 1.
Proof.
  intros Hnd Hcur Hg. induction l as [|x l IH]; [by apply elem_of_nil in Hcur|].
  apply NoDup_cons in Hnd as [Hx Hnd]. cbn. rewrite (Hg x).
  destruct (decide (Some cur = Some x)) as [[= ->]|Hne].
  - rewrite (suma_ext g f l); [lia|]. intros r Hr. rewrite Hg.
    destruct (decide (Some x = Some r)) as [[= ->]|?]; [done|lia].
  - apply elem_of_cons in Hcur as [->|Hcur]; [done|]. rewrite IH by done. lia.
Qed.

Lemma max_lista_le (f : ref → Z) l (M : Z) :
  foldr Z.max 0 (f <$> l) ≤ M ↔ 0 ≤ M ∧ ∀ r, r ∈ l → f r ≤ M.
Proof.
  induction l as [|x l IH]; cbn.
  - split; [intros ?; split; [done|by intros r ?%elem_of_nil]|by intros [? _]].
  - rewrite Z.max_lub_iff, IH. split.
    + intros (? & ? & H). split; [done|].
      intros r [->|Hr]%elem_of_cons; [done|by apply H].
    + intros (? & H). split_and!; [apply H; by left|done|].
      intros r Hr. apply H. by right.
Qed.

Lemma max_lista_cotas (f : ref → Z) l :
  0 ≤ foldr Z.max 0 (f <$> l) ∧ ∀ r, r ∈ l → f r ≤ foldr Z.max 0 (f <$> l).
Proof. by apply max_lista_le. Qed.

Lemma espera_max_le s (M : Z) :
  espera_max s ≤ M ↔
  0 ≤ M ∧ ∀ r, r ∈ procesos_nuevos s → t_arribo (proc s r) - reloj s ≤ M.
Proof. apply max_lista_le. Qed.

Lemma espera_max_cotas s :
  0 ≤ espera_max s ∧
  ∀ r, r ∈ procesos_nuevos s → t_arribo (proc s r) - reloj s ≤ espera_max s.
Proof. by apply espera_max_le. Qed.

(** A tick takes one unit from the remaining times when the CPU is busy. *)
Lemma tick_suma s s' :
  inv procesos s → siguiente_tick s = Some s' →
  suma_restante s' (colas s') =
  suma_restante s (colas s) -
  match proceso_en_ejecucion s with Some _ => 1 | None => 0 end.
Proof.
  intros Hinv Hs'.
  destruct (inv_siguiente_tick procesos s Hinv) as (s'' & Hs'' & Hinv').
  assert (s'' = s') as -> by congruence.
  destruct (tick_efecto s s' Hinv Hs') as (_ & _ & Hr).
  assert (colas s' ≡ₚ colas s) as Hperm.
  { by rewrite (inv_reporte _ _ Hinv'), (inv_cohorte _ _ Hinv'),
      (inv_reporte _ _ Hinv), (inv_cohorte _ _ Hinv). }
  unfold suma_restante. rewrite (suma_perm _ _ _ Hperm).
  destruct (proceso_en_ejecucion s) as [cur|] eqn:Hrun.
  - apply (suma_menos_uno _ _ _ cur).
    + by apply (inv_nodup procesos).
    + apply elem_of_colas. tauto.
    + intros r. apply Hr.
  - rewrite Z.sub_0_r. apply suma_ext. intros r _. rewrite Hr.
    rewrite decide_False by done. lia.
Qed.

(** The wait for the arrivals does not grow, and shrinks when nothing in
    New is due. *)
Lemma tick_espera s s' :
  inv procesos s → siguiente_tick s = Some s' →
  espera_max s' ≤ espera_max s ∧
  ((∃ r, r ∈ procesos_nuevos s) →
   (∀ r, r ∈ procesos_nuevos s → reloj s < t_arribo (proc s r)) →
   espera_max s' ≤ espera_max s - 1).
Proof.
  intros Hinv Hs'.
  destruct (inv_siguiente_tick procesos s Hinv) as (s'' & Hs'' & Hinv').
  assert (s'' = s') as -> by congruence.
  destruct (tick_efecto s s' Hinv Hs') as (Hrel & [k Hn] & _).
  destruct (espera_max_cotas s) as [H0 Hmax].
  assert (∀ r, r ∈ procesos_nuevos s' →
               r ∈ procesos_nuevos s ∧ t_arribo (proc s' r) = t_arribo (proc s r)) as Hsub.
  { intros r Hr. split.
    - rewrite Hn in Hr. eapply elem_of_sublist; [exact Hr|apply sublist_drop].
    - by rewrite (inv_t_arribo procesos s' r Hinv'), (inv_t_arribo procesos s r Hinv). }
  split.
  - apply espera_max_le. split; [done|]. intros r Hr.
    destruct (Hsub r Hr) as [Hr0 ->]. specialize (Hmax r Hr0). lia.
  - intros [r0 Hr0] Hfut. apply espera_max_le. split.
    + specialize (Hmax r0 Hr0). specialize (Hfut r0 Hr0). lia.
    + intros r Hr. destruct (Hsub r Hr) as [Hr1 ->]. specialize (Hmax r Hr1). lia.
Qed.

(** Once [is_running] answers [False], a tick moves nothing into memory
    and [is_running] keeps answering [False]. *)
Lemma tick_detenido s s' :
  inv procesos s → is_running s = false → siguiente_tick s = Some s' →
  is_running s' = false ∧ procesos_terminados s' = procesos_terminados s ∧
  cola_listos_suspendidos s' ++ procesos_nuevos s' ≡ₚ
  cola_listos_suspendidos s ++ procesos_nuevos s.
Proof.
  intros Hinv Hrun Hs'.
  destruct (inv_siguiente_tick procesos s Hinv) as (s'' & Hs'' & Hinv').
  assert (s'' = s') as -> by congruence.
  apply (is_running_false s Hinv) in Hrun as (Hrun & Hl & Hg).
  destruct (siguiente_tick_pasos s s' Hs') as (s1 & s2 & H1 & H2 & H3).
  pose proof (inv_antes_de_arribos procesos s s1 Hinv H1) as Hinv1.
  unfold antes_de_arribos in H1. rewrite avanzar_reloj_eq in H1.
  set (s0 := con_eventos [] (con_reloj (reloj s + 1) s)) in H1.
  apply servicio_casos in H1
    as [[_ ->]|[(cur & Hcur & _)|(cur & k & ev & Hcur & _)]];
    [|change (proceso_en_ejecucion s = Some cur) in Hcur; congruence..].
  destruct (arribos_efecto s0)
    as (Hna & Hlsa & Hla & Hruna & Hta & _ & _ & _ & _ & _ & _ & Hga).
  cbn zeta in Hna, Hlsa.
  change (procesos_nuevos s0) with (procesos_nuevos s) in Hna, Hlsa.
  change (cola_listos_suspendidos s0) with (cola_listos_suspendidos s) in Hlsa.
  change (cola_listos s0) with (cola_listos s) in Hla.
  change (proceso_en_ejecucion s0) with (proceso_en_ejecucion s) in Hruna.
  change (procesos_terminados s0) with (procesos_terminados s) in Hta.
  pose proof (inv_arribos procesos s0 Hinv1) as Hinva.
  assert (∀ r, tamano (proc (arribos s0) r) = tamano (proc s r)) as Htam.
  { intros r. by rewrite (inv_tamano procesos _ r Hinva), (inv_tamano procesos s r Hinv). }
  assert (∀ c, c ∈ cola_listos_suspendidos (arribos s0) →
               250 < tamano (proc (arribos s0) c)) as Hga'.
  { intros c Hc. rewrite Htam. apply Hg. rewrite Hlsa in Hc.
    rewrite !elem_of_app in *. destruct Hc as [?|Hc]; [by left|right].
    eapply elem_of_sublist; [exact Hc|apply sublist_take]. }
  rewrite (admision_todos_grandes _ Hinva Hga') in H2. injection H2 as <-.
  apply planificador_casos in H3
    as [[_ ->]|[(r & l & ev & _ & Hs & _)|[(run & c & l & Hr & _)
       |(run & c & l & ent & l' & ev & Hr & _)]]].
  - assert (cola_listos_suspendidos (ordenar_suspendidos (arribos s0)) ++
              procesos_nuevos (ordenar_suspendidos (arribos s0)) ≡ₚ
            cola_listos_suspendidos s ++ procesos_nuevos s) as Hperm.
    { unfold ordenar_suspendidos.
      cbn [cola_listos_suspendidos procesos_nuevos con_suspendidos].
      rewrite sorted_perm, Hlsa, Hna, <- (assoc_L (++)). by rewrite take_drop. }
    split_and!; [|done|done].
    apply (is_running_false _ Hinv'). split_and!.
    + unfold ordenar_suspendidos. cbn [proceso_en_ejecucion con_suspendidos]. congruence.
    + unfold ordenar_suspendidos. cbn [cola_listos con_suspendidos]. congruence.
    + intros r Hr. rewrite Hperm in Hr.
      change (proc (ordenar_suspendidos (arribos s0)) r) with (proc (arribos s0) r).
      rewrite Htam. by apply Hg.
  - exfalso. apply (f_equal length) in Hs. rewrite sorted_length in Hs.
    unfold ordenar_suspendidos in Hs. cbn [cola_listos con_suspendidos] in Hs.
    rewrite Hla, Hl in Hs. done.
  - unfold ordenar_suspendidos in Hr. cbn [proceso_en_ejecucion con_suspendidos] in Hr.
    congruence.
  - unfold ordenar_suspendidos in Hr. cbn [proceso_en_ejecucion con_suspendidos] in Hr.
    congruence.
Qed.

Lemma ticks_alcanzable n s s' :
  alcanzable procesos s → ticks n s = Some s' → alcanzable procesos s'.
Proof.
  revert s. induction n as [|n IH]; intros s Halc; cbn.
  - by intros [= <-].
  - intros (s1 & H1 & H2)%bind_Some. apply (IH s1); [|done]. by eapply alc_tick.
Qed.

Lemma ticks_detenido n s :
  alcanzable procesos s → is_running s = false →
  ∃ s', ticks n s = Some s' ∧ is_running s' = false ∧
        procesos_terminados s' = procesos_terminados s ∧
        cola_listos_suspendidos s' ++ procesos_nuevos s' ≡ₚ
        cola_listos_suspendidos s ++ procesos_nuevos s.
Proof.
  revert s. induction n as [|n IH]; intros s Halc Hrun; cbn.
  - by exists s.
  - destruct (alcanzable_tick procesos s Halc) as (s1 & H1 & Halc1).
    rewrite H1. cbn.
    destruct (tick_detenido s s1 (alcanzable_inv procesos s Halc) Hrun H1)
      as (Hrun1 & Ht1 & Hp1).
    destruct (IH s1 Halc1 Hrun1) as (s' & Hs' & Hrun' & Ht' & Hp').
    exists s'. split_and!; [done|done|congruence|by rewrite Hp'].
Qed.

Lemma ticks_suma n m s s1 :
  ticks n s = Some s1 → ticks (n + m) s = ticks m s1.
Proof.
  revert s. induction n as [|n IH]; intros s; cbn.
  - by intros [= <-].
  - intros (s2 & H2 & H)%bind_Some. rewrite H2. cbn. by apply IH.
Qed.
End Fin.

Section Termina.
Context (procesos : list Proceso).
Hypothesis Hirr : irrupciones_validas procesos.
Hypothesis Harr : arribos_validos procesos.
Hypothesis Htam : tamanos_validos procesos.
Implicit Types (s : Simulador) (r q c v : ref) (l : list ref) (i k : nat).

Lemma cohorte_cabe s r :
  inv procesos s → r ∈ colas s → tamano (proc s r) ≤ 250.
Proof.
  intros Hinv Hr. rewrite (inv_tamano procesos s r Hinv).
  apply Htam, list_elem_of_lookup_total_2.
  rewrite <- (inv_length procesos s Hinv). by apply (inv_rango procesos s r Hinv).
Qed.

(** With definitions that all fit, [is_running] answers [False] exactly
    when every process of the cohort has terminated. *)
Lemma detenido_terminados s :
  inv procesos s →
  is_running s = false ↔ procesos_terminados s ≡ₚ cohorte procesos.
Proof.
  intros Hinv. rewrite (is_running_false procesos s Hinv). split.
  - intros (Hrun & Hl & Hg).
    assert (cola_listos_suspendidos s ++ procesos_nuevos s = []) as Hvac.
    { assert (∀ r, r ∈ cola_listos_suspendidos s ++ procesos_nuevos s → False) as Hno.
      { intros r Hr. specialize (Hg r Hr).
        assert (tamano (proc s r) ≤ 250); [|lia].
        apply (cohorte_cabe s r Hinv), elem_of_colas.
        apply elem_of_app in Hr. tauto. }
      destruct (cola_listos_suspendidos s ++ procesos_nuevos s) as [|r l]; [done|].
      exfalso. apply (Hno r). by left. }
    apply app_eq_nil in Hvac as [Hls Hn].
    rewrite <- (inv_cohorte _ _ Hinv), <- (inv_reporte _ _ Hinv).
    unfold colas. by rewrite Hn, Hls, Hl, Hrun.
  - intros Hperm.
    pose proof (inv_nodup _ _ Hinv) as Hnd.
    assert (colas s ≡ₚ procesos_terminados s) as Hcolas.
    { by rewrite (inv_reporte _ _ Hinv), (inv_cohorte _ _ Hinv). }
    rewrite colas_en_sistema, (assoc_L (++)) in Hcolas.
    assert (procesos_nuevos s ++ en_sistema s = []) as Hvac.
    { apply Permutation_length in Hcolas. rewrite length_app in Hcolas.
      apply length_zero_iff_nil. lia. }
    apply app_eq_nil in Hvac as [Hn Hsis].
    unfold en_sistema in Hsis. apply app_eq_nil in Hsis as [Hls Hres].
    unfold residentes in Hres. apply app_eq_nil in Hres as [Hl Hrun].
    split_and!; [by destruct (proceso_en_ejecucion s)|done|].
    rewrite Hls, Hn. by intros r ?%elem_of_nil.
Qed.

(** While [is_running] answers [True], a tick takes at least one unit from
    the work that is left. *)
Lemma tick_pendiente s s' :
  alcanzable procesos s → is_running s = true → siguiente_tick s = Some s' →
  pendiente s' ≤ pendiente s - 1.
Proof.
  intros Halc Hrun Hs'. pose proof (alcanzable_inv procesos s Halc) as Hinv.
  pose proof (tick_suma procesos s s' Hinv Hs') as Hsuma.
  destruct (tick_espera procesos s s' Hinv Hs') as [Hesp Hesp'].
  unfold pendiente.
  destruct (proceso_en_ejecucion s) as [cur|] eqn:Hcur; [lia|].
  destruct (alcanzable_ocio procesos s Halc Hcur) as [Hl Hg].
  assert (cola_listos_suspendidos s = []) as Hls.
  { assert (∀ c, c ∈ cola_listos_suspendidos s → False) as Hno.
    { intros c Hc. specialize (Hg c Hc).
      assert (tamano (proc s c) ≤ 250); [|lia].
      apply (cohorte_cabe s c Hinv), elem_of_colas. tauto. }
    destruct (cola_listos_suspendidos s) as [|c l]; [done|].
    exfalso. apply (Hno c). by left. }
  assert (∃ r, r ∈ procesos_nuevos s) as Hhay.
  { destruct (procesos_nuevos s) as [|r l] eqn:E; [|exists r; by left].
    exfalso. assert (is_running s = false); [|congruence].
    apply (is_running_false procesos s Hinv). split_and!; try done.
    rewrite Hls, E. by intros r ?%elem_of_nil. }
  assert (∀ r, r ∈ procesos_nuevos s → reloj s < t_arribo (proc s r)) as Hfut.
  { destruct (arr_lleno _ _ (alcanzable_inv_arribo procesos s Harr Halc)) as [H5|Hf].
    - rewrite gdm_en_sistema in H5. unfold en_sistema, residentes in H5.
      rewrite Hls, Hl, Hcur in H5. cbn in H5. lia.
    - intros r Hr. rewrite (inv_t_arribo procesos s r Hinv). by apply Hf. }
  specialize (Hesp' Hhay Hfut). lia.
Qed.

Lemma pendiente_cotas s :
  alcanzable procesos s → 0 ≤ pendiente s ≤ carga procesos.
Proof.
  intros Halc. pose proof (alcanzable_inv procesos s Halc) as Hinv.
  destruct (alcanzable_inv_tiempo procesos s Hirr Halc) as [Hrel Hn Hsis _ Ht].
  assert (∀ r, r ∈ colas s →
               0 ≤ t_restante (proc s r) ≤ t_irrupcion (procesos !!! r)) as Hres.
  { intros r Hr. rewrite <- (inv_t_irrupcion procesos s r Hinv).
    pose proof (terminado_irrupcion procesos s r Hirr Hinv Hr) as Hti.
    rewrite colas_en_sistema in Hr. rewrite !elem_of_app in Hr.
    destruct Hr as [Hr|[Hr|Hr]].
    - destruct (Hn r Hr) as (? & _). lia.
    - destruct (Hsis r Hr) as (? & _ & [[_ ?]|(_ & _ & ? & _)]); lia.
    - destruct (Ht r Hr) as (? & _). lia. }
  destruct (espera_max_cotas s) as [H0 _].
  assert (colas s ≡ₚ cohorte procesos) as Hperm.
  { by rewrite (inv_reporte _ _ Hinv), (inv_cohorte _ _ Hinv). }
  unfold pendiente, carga, suma_restante. split.
  - assert (foldr Z.add 0 ((λ _ : ref, 0) <$> colas s)
            ≤ foldr Z.add 0 ((λ r, t_restante (proc s r)) <$> colas s)) as Hle.
    { apply suma_le. intros r Hr. by destruct (Hres r Hr). }
    assert (foldr Z.add 0 ((λ _ : ref, 0) <$> colas s) = 0) as E.
    { clear. induction (colas s) as [|x l IH]; cbn; [done|]. by rewrite IH. }
    lia.
  - apply Z.add_le_mono.
    + rewrite <- (suma_perm _ _ _ Hperm). apply suma_le.
      intros r Hr. by destruct (Hres r Hr).
    + apply espera_max_le. split.
      * apply max_lista_cotas.
      * intros r Hr. rewrite (inv_t_arribo procesos s r Hinv).
        assert (r ∈ cohorte procesos) as Hc.
        { rewrite <- Hperm. apply elem_of_colas. tauto. }
        destruct (max_lista_cotas (λ r, t_arribo (procesos !!! r)) (cohorte procesos))
          as [_ Hmax].
        specialize (Hmax r Hc). cbn beta in Hmax. lia.
Qed.

Lemma termina_desde (n : nat) s :
  alcanzable procesos s → pendiente s ≤ Z.of_nat n →
  ∃ m s', (m ≤ n)%nat ∧ ticks m s = Some s' ∧ is_running s' = false.
Proof.
  revert s. induction n as [|n IH]; intros s Halc Hpen.
  - destruct (is_running s) eqn:Hrun; [|exists 0%nat, s; by split_and!].
    destruct (alcanzable_tick procesos s Halc) as (s1 & H1 & Halc1).
    pose proof (tick_pendiente s s1 Halc Hrun H1).
    destruct (pendiente_cotas s1 Halc1). lia.
  - destruct (is_running s) eqn:Hrun; [|exists 0%nat, s; split_and!; [lia|done..]].
    destruct (alcanzable_tick procesos s Halc) as (s1 & H1 & Halc1).
    pose proof (tick_pendiente s s1 Halc Hrun H1).
    destruct (IH s1 Halc1) as (m & s' & Hm & Hs' & Hrun'); [lia|].
    exists (S m), s'. split_and!; [lia| |done]. cbn. by rewrite H1.
Qed.
End Termina.

Section Bloqueo.
Context (procesos : list Proceso).
Implicit Types (s : Simulador) (r q c v : ref) (l : list ref) (i k : nat).

(** With five processes in L/S the arrival step takes nothing from New. *)
Lemma tick_sistema_lleno s s' :
  inv procesos s → (5 ≤ length (cola_listos_suspendidos s))%nat →
  siguiente_tick s = Some s' → procesos_nuevos s' = procesos_nuevos s.
Proof.
  intros Hinv H5 Hs'.
  destruct (siguiente_tick_pasos s s' Hs') as (s1 & s2 & H1 & H2 & H3).
  destruct (planificador_mismo_sistema _ _ H3) as (Hn3 & _).
  destruct (intentar_admision_mismo_sistema _ _ H2) as (Hn2 & _).
  destruct (arribos_efecto s1) as (Hna & _). cbn zeta in Hna.
  unfold antes_de_arribos in H1. rewrite avanzar_reloj_eq in H1.
  apply servicio_efecto in H1 as (Hn1 & Hls1 & _).
  assert (5 ≤ gdm_actual s1)%nat as Hgdm.
  { rewrite gdm_en_sistema. unfold en_sistema. rewrite length_app, Hls1. cbn. lia. }
  assert (arribos_tomados s1 = 0%nat) as Hk.
  { unfold arribos_tomados. cbn zeta. lia. }
  rewrite Hn3, Hn2, Hna, Hk, Hn1. done.
Qed.

Lemma bloqueo_paso l s s' :
  NoDup l → length l = 5%nat →
  (inv procesos s ∧
   ∀ c, c ∈ l → c ∈ cola_listos_suspendidos s ∧ _cabe_en_alguna_particion s c = false) →
  paso s s' →
  (inv procesos s' ∧
   ∀ c, c ∈ l → c ∈ cola_listos_suspendidos s' ∧ _cabe_en_alguna_particion s' c = false)
  ∧ procesos_nuevos s' = procesos_nuevos s.
Proof.
  intros Hnd Hlen [Hinv Hl] Hpaso.
  assert (inv procesos s') as Hinv'.
  { destruct Hpaso as [Ht|[rep Hrep]].
    - destruct (inv_siguiente_tick procesos s Hinv) as (s'' & Hs'' & Hinv').
      congruence.
    - by apply (inv_get_reporte_final procesos s rep s'). }
  split; [split; [done|]|].
  - intros c Hc. destruct (Hl c Hc) as [Hc1 Hc2].
    destruct (paso_queda procesos s c s') as (_ & ? & ?); done.
  - destruct Hpaso as [Ht|[rep Hrep]].
    + apply (tick_sistema_lleno s s' Hinv); [|done].
      rewrite <- Hlen. apply submseteq_length, NoDup_submseteq; [done|].
      intros c Hc. by destruct (Hl c Hc).
    + by apply get_reporte_final_estado in Hrep as ->.
Qed.
End Bloqueo.

(** X10. The simulation ends. For definitions with positive bursts, arrival
    times that are not negative and sizes of at most 250 KB, from every
    observable state a number of ticks bounded by the bursts of the cohort
    plus its last arrival time leads to a state where [is_running] answers
    [False]; from then on every further tick returns, [is_running] keeps
    answering [False], and the terminated processes are exactly the
    cohort. *)
Theorem simulacion_termina (procesos : list Proceso) (s : Simulador) :
  irrupciones_validas procesos → arribos_validos procesos →
  tamanos_validos procesos → alcanzable procesos s →
  ∃ n, (n ≤ Z.to_nat (carga procesos))%nat ∧
       ∀ m, (n ≤ m)%nat →
         ∃ s', ticks m s = Some s' ∧ is_running s' = false ∧
               procesos_terminados s' ≡ₚ cohorte procesos.
Proof.
  intros Hirr Harr Htam Halc.
  destruct (pendiente_cotas procesos Hirr s Halc) as [H0 Hc].
  destruct (termina_desde procesos Hirr Harr Htam (Z.to_nat (carga procesos)) s Halc)
    as (n & s1 & Hn & Hs1 & Hrun1); [lia|].
  exists n. split; [done|]. intros m Hm.
  pose proof (ticks_alcanzable procesos n s s1 Halc Hs1) as Halc1.
  destruct (ticks_detenido procesos (m - n) s1 Halc1 Hrun1) as (s' & Hs' & Hrun' & _).
  exists s'. split_and!; [|done|].
  - replace m with (n + (m - n))%nat by lia. by rewrite (ticks_suma n _ s s1).
  - apply (detenido_terminados procesos Htam); [|done].
    apply (alcanzable_inv procesos). by apply (ticks_alcanzable procesos (m - n) s1).
Qed.

Lemma simulacion_termina_witness :
  ∃ n, (n ≤ Z.to_nat (carga procesos_rafaga))%nat ∧
       ∀ m, (n ≤ m)%nat →
         ∃ s', ticks m ejemplo_rafaga = Some s' ∧ is_running s' = false ∧
               procesos_terminados s' ≡ₚ cohorte procesos_rafaga.
Proof.
  apply (simulacion_termina procesos_rafaga ejemplo_rafaga).
  - intros p Hp. unfold procesos_rafaga in Hp.
    repeat (apply elem_of_cons in Hp as [->|Hp]; [cbn; lia|]).
    by apply elem_of_nil in Hp.
  - intros p Hp. unfold procesos_rafaga in Hp.
    repeat (apply elem_of_cons in Hp as [->|Hp]; [cbn; lia|]).
    by apply elem_of_nil in Hp.
  - intros p Hp. unfold procesos_rafaga in Hp.
    repeat (apply elem_of_cons in Hp as [->|Hp]; [cbn; lia|]).
    by apply elem_of_nil in Hp.
  - apply alc_init. by vm_compute.
Defined.

(** X11. [is_running] answering [False] is final. In an observable state
    where it does, nothing is Ready or Running and every process left in
    New or in L/S is larger than 250 KB, the largest partition; any number
    of further ticks returns, moves nothing into memory and terminates
    nothing, and [is_running] keeps answering [False]. *)
Theorem detenido_es_final (procesos : list Proceso) (s : Simulador) (n : nat) :
  alcanzable procesos s → is_running s = false →
  (proceso_en_ejecucion s = None ∧ cola_listos s = [] ∧
   ∀ r, r ∈ cola_listos_suspendidos s ++ procesos_nuevos s → 250 < tamano (proc s r)) ∧
  ∃ s', ticks n s = Some s' ∧ is_running s' = false ∧
        proceso_en_ejecucion s' = None ∧ cola_listos s' = [] ∧
        procesos_terminados s' = procesos_terminados s ∧
        cola_listos_suspendidos s' ++ procesos_nuevos s' ≡ₚ
        cola_listos_suspendidos s ++ procesos_nuevos s.
Proof.
  intros Halc Hrun. pose proof (alcanzable_inv procesos s Halc) as Hinv.
  split; [by apply (is_running_false procesos s Hinv)|].
  destruct (ticks_detenido procesos n s Halc Hrun) as (s' & Hs' & Hrun' & Ht & Hp).
  exists s'. split_and!; try done.
  - apply (is_running_false procesos s'); [|done].
    apply (alcanzable_inv procesos). by apply (ticks_alcanzable procesos n s).
  - apply (is_running_false procesos s'); [|done].
    apply (alcanzable_inv procesos). by apply (ticks_alcanzable procesos n s).
Qed.

Lemma detenido_es_final_witness :
  ∃ s', ticks 3 ejemplo_detenido = Some s' ∧ is_running s' = false ∧
        proceso_en_ejecucion s' = None ∧ cola_listos s' = [] ∧
        procesos_terminados s' = procesos_terminados ejemplo_detenido ∧
        cola_listos_suspendidos s' ++ procesos_nuevos s' ≡ₚ
        cola_listos_suspendidos ejemplo_detenido ++ procesos_nuevos ejemplo_detenido.
Proof.
  apply (detenido_es_final procesos_detenido ejemplo_detenido 3).
  - apply alc_init. by vm_compute.
  - by vm_compute.
Defined.

(** X12. Five processes that fit no partition stop the simulation from
    ending. In an observable state with five processes larger than 250 KB
    in L/S, New never changes again: a process waiting there is never
    admitted, however small, and while one of at most 250 KB waits there
    [is_running] answers [True] in every later state. *)
Theorem bloqueo_permanente (procesos : list Proceso) (s : Simulador)
    (l : list ref) (r : ref) :
  alcanzable procesos s →
  NoDup l → length l = 5%nat →
  (∀ c, c ∈ l → c ∈ cola_listos_suspendidos s ∧ 250 < tamano (proc s c)) →
  r ∈ procesos_nuevos s → tamano (proc s r) ≤ 250 →
  ∀ s', rtc paso s s' →
    procesos_nuevos s' = procesos_nuevos s ∧ is_running s' = true ∧
    ∀ c, c ∈ l → c ∈ cola_listos_suspendidos s'.
Proof.
  intros Halc Hnd Hlen Hl Hr Htam s' Hrtc.
  pose proof (alcanzable_inv procesos s Halc) as Hinv.
  assert ((inv procesos s' ∧
           ∀ c, c ∈ l → c ∈ cola_listos_suspendidos s' ∧
                        _cabe_en_alguna_particion s' c = false) ∧
          procesos_nuevos s' = procesos_nuevos s) as [[Hinv' Hl'] Hn'].
  { assert (inv procesos s ∧
            ∀ c, c ∈ l → c ∈ cola_listos_suspendidos s ∧
                         _cabe_en_alguna_particion s c = false) as HB.
    { split; [done|]. intros c Hc. destruct (Hl c Hc) as [? ?]. split; [done|].
      rewrite (cabe_250 procesos s c Hinv). apply bool_decide_false. lia. }
    clear Hl Hr Htam Halc Hinv.
    induction Hrtc as [s|s s1 s' Hpaso _ IH]; [done|].
    destruct (bloqueo_paso procesos l s s1 Hnd Hlen HB Hpaso) as [HB1 Hn1].
    destruct (IH HB1) as [HB' Hn']. split; [done|congruence]. }
  split_and!; [done| |by intros c Hc; destruct (Hl' c Hc)].
  destruct (is_running s') eqn:Hrun; [done|].
  apply (is_running_false procesos s' Hinv') in Hrun as (_ & _ & Hg).
  assert (250 < tamano (proc s' r)).
  { apply Hg, elem_of_app. right. by rewrite Hn'. }
  rewrite (inv_tamano procesos s' r Hinv') in *.
  rewrite (inv_tamano procesos s r Hinv) in Htam. lia.
Qed.

Lemma bloqueo_permanente_witness :
  procesos_nuevos ejemplo_bloqueo = procesos_nuevos ejemplo_bloqueo ∧
  is_running ejemplo_bloqueo = true ∧
  ∀ c, c ∈ [0; 1; 2; 3; 4]%nat → c ∈ cola_listos_suspendidos ejemplo_bloqueo.
Proof.
  apply (bloqueo_permanente procesos_bloqueo ejemplo_bloqueo [0; 1; 2; 3; 4]%nat 5%nat).
  - apply alc_init. by vm_compute.
  - apply (bool_decide_unpack _). by vm_compute.
  - done.
  - intros c Hc.
    repeat (apply elem_of_cons in Hc as [->|Hc];
            [split; [apply (bool_decide_unpack _); by vm_compute|by vm_compute]|]).
    by apply elem_of_nil in Hc.
  - apply (bool_decide_unpack _). by vm_compute.
  - by vm_compute.
  - apply rtc_refl.
Defined.



(** ** The CSV loader *)

Section LectorLemas.
Context (norm strip : string → string) (py_int : string → option Z).

Lemma motivos_de_nil vistos pid tam ta ti :
  motivos_de vistos pid tam ta ti = [] ↔
  0 < pid ∧ (pid ∉ vistos) ∧ 0 < tam ∧ 0 ≤ ta ∧ 0 < ti.
Proof.
  unfold motivos_de.
  destruct (Z.leb_spec pid 0), (Z.leb_spec tam 0), (Z.ltb_spec ta 0),
    (Z.leb_spec ti 0); case_bool_decide; cbn;
    (split; [try done; intros _; split_and!; (done || lia)
            |try done; intros (? & ? & ? & ? & ?); (done || lia)]).
Qed.

(** The invariant of the loop over the rows. *)
Definition lectura_ok (st : Lectura) : Prop :=
  Forall proceso_valido (procs st) ∧ NoDup (id_proceso <$> procs st) ∧
  ∀ pid, pid ∈ ids_vistos st ↔ pid ∈ id_proceso <$> procs st.

Lemma leer_fila_ok ix st off row :
  lectura_ok st → lectura_ok (leer_fila strip py_int ix st off row).
Proof.
  intros (Hval & Hnd & Hids). unfold leer_fila.
  destruct (en_blanco strip ix row); [done|].
  destruct (py_int _) as [pid|]; [|done].
  destruct (py_int _) as [tam|]; [|done].
  destruct (py_int _) as [ta|]; [|done].
  destruct (py_int _) as [ti|]; [|done].
  destruct (motivos_de (ids_vistos st) pid tam ta ti) as [|m ms] eqn:E; [|done].
  apply motivos_de_nil in E as (? & Hno & ? & ? & ?).
  split_and!; cbn.
  - apply Forall_app. split; [done|]. apply Forall_singleton. by split_and!.
  - rewrite fmap_app. cbn. apply NoDup_app. split_and!; [done| |apply NoDup_singleton].
    intros x Hx ->%list_elem_of_singleton. by apply Hno, Hids.
  - intros x. rewrite fmap_app, elem_of_app, elem_of_union, elem_of_singleton. cbn.
    rewrite list_elem_of_singleton, Hids. tauto.
Qed.

Lemma leer_filas_ok ix st off rows :
  lectura_ok st → lectura_ok (leer_filas strip py_int ix st off rows).
Proof.
  revert st off. induction rows as [|row rows IH]; intros st off Hst; cbn; [done|].
  by apply IH, leer_fila_ok.
Qed.
End LectorLemas.

Section LectorCuenta.
Context (norm strip : string → string) (py_int : string → option Z).

(** What the loop does with one row: nothing when it is blank, one more
    process or one more error otherwise. *)
Lemma leer_fila_casos ix st off row :
  let st' := leer_fila strip py_int ix st off row in
  (en_blanco strip ix row = true ∧ st' = st) ∨
  (en_blanco strip ix row = false ∧
   ((∃ p, procs st' = procs st ++ [p] ∧ errores st' = errores st) ∨
    (∃ e, procs st' = procs st ∧ errores st' = errores st ++ [e] ∧ fila_de e = off))).
Proof.
  cbn zeta. unfold leer_fila.
  destruct (en_blanco strip ix row); [by left|right]. split; [done|].
  destruct (py_int _) as [pid|]; [|right; by eexists].
  destruct (py_int _) as [tam|]; [|right; by eexists].
  destruct (py_int _) as [ta|]; [|right; by eexists].
  destruct (py_int _) as [ti|]; [|right; by eexists].
  destruct (motivos_de _ _ _ _ _); [left|right]; by eexists.
Qed.

Lemma leer_filas_cuenta ix st off rows :
  let st' := leer_filas strip py_int ix st off rows in
  (length (procs st') + length (errores st') =
   length (procs st) + length (errores st)
   + length (filter (λ row, en_blanco strip ix row = false) rows))%nat ∧
  ∃ es, errores st' = errores st ++ es ∧
        StronglySorted lt (fila_de <$> es) ∧
        Forall (λ e, off ≤ fila_de e < off + length rows)%nat es.
Proof.
  cbn zeta. revert st off. induction rows as [|row rows IH]; intros st off.
  - cbn. split; [lia|]. exists []. rewrite app_nil_r. split_and!; [done|constructor|done].
  - cbn [leer_filas]. destruct (IH (leer_fila strip py_int ix st off row) (S off))
      as (Hlen & es & Hes & Hsort & Hran).
    assert (Forall (λ e, off ≤ fila_de e < off + length (row :: rows))%nat es) as Hran'.
    { eapply Forall_impl; [exact Hran|]. cbn. intros e ?. lia. }
    destruct (leer_fila_casos ix st off row)
      as [[Hb E]|[Hb [(p & Hp & He)|(e & Hp & He & Hf)]]]; cbn zeta in *.
    + rewrite E in *. rewrite filter_cons_False by (by rewrite Hb).
      split; [done|]. by exists es.
    + rewrite filter_cons_True by done. rewrite Hp, He in *.
      rewrite length_app in Hlen. cbn in *. split; [lia|]. by exists es.
    + rewrite filter_cons_True by done. rewrite Hp, He in *.
      rewrite length_app in Hlen. cbn in *. split; [lia|].
      exists (e :: es). rewrite <- (assoc_L (++)) in Hes. split_and!; [done| |].
      * cbn. constructor; [done|]. rewrite Forall_fmap.
        eapply Forall_impl; [exact Hran|]. cbn. intros e' ?. lia.
      * constructor; [lia|done].
Qed.
End LectorCuenta.

Section Encabezado.

Lemma primera_columna_cons nombres h hs :
  primera_columna nombres (h :: hs) =
  if bool_decide (h ∈ nombres) then Some 0%nat else S <$> primera_columna nombres hs.
Proof.
  unfold primera_columna. cbn. case_bool_decide as Hh.
  - by rewrite decide_True.
  - rewrite decide_False by done. by destruct (list_find _ hs) as [[j x]|].
Qed.

(** No header name is accepted for two fields. *)
Lemma nombres_disjuntos h :
  (h ∈ IDN → (h ∉ TAMN) ∧ (h ∉ TAN) ∧ (h ∉ TIN)) ∧
  (h ∈ TAMN → (h ∉ TAN) ∧ (h ∉ TIN)) ∧ (h ∈ TAN → (h ∉ TIN)).
Proof.
  split_and!; intros Hh; unfold IDN, TAMN, TAN in Hh;
    repeat (apply elem_of_cons in Hh as [->|Hh];
            [split_and?; apply (bool_decide_unpack _); by vm_compute|]);
    by apply elem_of_nil in Hh.
Qed.

Definition desde (i : nat) (actual : option nat) (hallado : option nat) : option nat :=
  match actual with Some a => Some a | None => (λ j, i + j)%nat <$> hallado end.

Lemma desde_paso i actual (b : bool) hallado :
  desde (S i) (if b then match actual with Some a => Some a | None => Some i end
               else actual) hallado =
  desde i actual (if b then Some 0%nat else S <$> hallado).
Proof.
  unfold desde. destruct actual as [a|], b, hallado as [j|]; cbn; try done;
    f_equal; lia.
Qed.

Lemma indices_por_nombre_spec ix i headers :
  let ix' := indices_por_nombre ix i headers in
  id_idx ix' = desde i (id_idx ix) (primera_columna IDN headers) ∧
  tam_idx ix' = desde i (tam_idx ix) (primera_columna TAMN headers) ∧
  ta_idx ix' = desde i (ta_idx ix) (primera_columna TAN headers) ∧
  ti_idx ix' = desde i (ti_idx ix) (primera_columna TIN headers).
Proof.
  cbn zeta. revert ix i. induction headers as [|h hs IH]; intros ix i.
  - cbn. unfold desde. by destruct (id_idx ix), (tam_idx ix), (ta_idx ix), (ti_idx ix).
  - cbn [indices_por_nombre].
    destruct (IH (paso_encabezado ix i h) (S i)) as (-> & -> & -> & ->).
    rewrite !primera_columna_cons.
    destruct (nombres_disjuntos h) as (D1 & D2 & D3).
    assert (id_idx (paso_encabezado ix i h) =
              (if bool_decide (h ∈ IDN)
               then match id_idx ix with Some a => Some a | None => Some i end
               else id_idx ix) ∧
            tam_idx (paso_encabezado ix i h) =
              (if bool_decide (h ∈ TAMN)
               then match tam_idx ix with Some a => Some a | None => Some i end
               else tam_idx ix) ∧
            ta_idx (paso_encabezado ix i h) =
              (if bool_decide (h ∈ TAN)
               then match ta_idx ix with Some a => Some a | None => Some i end
               else ta_idx ix) ∧
            ti_idx (paso_encabezado ix i h) =
              (if bool_decide (h ∈ TIN)
               then match ti_idx ix with Some a => Some a | None => Some i end
               else ti_idx ix)) as (-> & -> & -> & ->).
    { unfold paso_encabezado.
      destruct (decide (h ∈ IDN)) as [E1|E1].
      { destruct (D1 E1) as (E2 & E3 & E4).
        rewrite (bool_decide_true (h ∈ IDN)), (bool_decide_false (h ∈ TAMN)),
          (bool_decide_false (h ∈ TAN)), (bool_decide_false (h ∈ TIN)) by done.
        by destruct ix as [[a|] [b|] [c|] [d|]]; vm_compute. }
      rewrite (bool_decide_false (h ∈ IDN)) by done.
      destruct (decide (h ∈ TAMN)) as [E2|E2].
      { destruct (D2 E2) as (E3 & E4).
        rewrite (bool_decide_true (h ∈ TAMN)), (bool_decide_false (h ∈ TAN)),
          (bool_decide_false (h ∈ TIN)) by done.
        by destruct ix as [[a|] [b|] [c|] [d|]]; vm_compute. }
      rewrite (bool_decide_false (h ∈ TAMN)) by done.
      destruct (decide (h ∈ TAN)) as [E3|E3].
      { pose proof (D3 E3) as E4.
        rewrite (bool_decide_true (h ∈ TAN)), (bool_decide_false (h ∈ TIN)) by done.
        by destruct ix as [[a|] [b|] [c|] [d|]]; vm_compute. }
      rewrite (bool_decide_false (h ∈ TAN)) by done.
      destruct (decide (h ∈ TIN)) as [E4|E4].
      { rewrite (bool_decide_true (h ∈ TIN)) by done.
        by destruct ix as [[a|] [b|] [c|] [d|]]; vm_compute. }
      rewrite (bool_decide_false (h ∈ TIN)) by done.
      by destruct ix as [[a|] [b|] [c|] [d|]]; vm_compute. }
    by rewrite !desde_paso.
Qed.
End Encabezado.

(** X14. Whatever the rows of the file and whatever the library functions
    answer, every process that [_parsear_csv_data] returns is a fresh
    [Proceso] with an id > 0, a size > 0, an arrival time >= 0 and a burst
    > 0, and no two of them share an id: the list satisfies what the engine's
    properties ask of the definitions. *)
Theorem lector_valida (norm strip : string → string) (py_int : string → option Z)
    (raw : list (list string)) :
  let ps := (_parsear_csv_data norm strip py_int raw).1 in
  Forall proceso_valido ps ∧ NoDup (id_proceso <$> ps) ∧
  irrupciones_validas ps ∧ arribos_validos ps.
Proof.
  cbn zeta.
  assert (Forall proceso_valido (_parsear_csv_data norm strip py_int raw).1 ∧
          NoDup (id_proceso <$> (_parsear_csv_data norm strip py_int raw).1))
    as [Hval Hnd].
  { unfold _parsear_csv_data. destruct raw as [|first resto].
    { cbn. split; [done|apply NoDup_nil_2]. }
    destruct (plan_lectura norm strip py_int first resto) as [[ix rows] start].
    cbn [fst].
    destruct (leer_filas_ok strip py_int ix (mkLectura [] ∅ []) start rows)
      as (H1 & H2 & _); [|done].
    split_and!; cbn; [done|apply NoDup_nil_2|].
    intros pid. rewrite elem_of_empty, elem_of_nil. done. }
  split_and!; [done|done|..].
  - intros p Hp. rewrite Forall_forall in Hval.
    destruct (Hval p Hp) as (_ & _ & _ & _ & ?). lia.
  - intros p Hp. rewrite Forall_forall in Hval.
    by destruct (Hval p Hp) as (_ & _ & _ & ? & _).
Qed.

(** X16. The columns are found by name, each on its own. When the first
    row is not a row of four integers it is a header: every field is read
    from the first column whose normalised name is one of the names accepted
    for that field, whatever the order of the columns, and the data start at
    line 2; when a field has no such column and the header has at least four
    columns, all four fields are read from the columns 0 to 3. *)
Theorem encabezado_por_nombre (norm strip : string → string)
    (py_int : string → option Z) (first : list string) (resto : list (list string)) :
  (4 <=? length first)%nat && forallb (is_int strip py_int) (take 4 first) = false →
  let nombres := norm <$> first in
  let por_nombre :=
    mkIndices (primera_columna IDN nombres) (primera_columna TAMN nombres)
              (primera_columna TAN nombres) (primera_columna TIN nombres) in
  plan_lectura norm strip py_int first resto =
  (if falta_indice por_nombre && (4 <=? length first)%nat
   then indices_por_posicion else por_nombre, resto, 2%nat).
Proof.
  intros Hdata. cbn zeta. unfold plan_lectura. rewrite Hdata.
  destruct (indices_por_nombre_spec (mkIndices None None None None) 0 (norm <$> first))
    as (H1 & H2 & H3 & H4).
  cbn [id_idx tam_idx ta_idx ti_idx desde] in H1, H2, H3, H4.
  assert (∀ o : option nat, (λ j, 0 + j)%nat <$> o = o) as Hid by (by intros [j|]).
  rewrite Hid in H1, H2, H3, H4.
  destruct (indices_por_nombre _ _ _) as [a b c d]. cbn in H1, H2, H3, H4.
  by subst.
Qed.

Lemma encabezado_por_nombre_witness :
  plan_lectura id id (λ _, None) ["TI"; "ID"; "TAM"; "TA"]%string [] =
  (mkIndices (Some 1%nat) (Some 2%nat) (Some 3%nat) (Some 0%nat), [], 2%nat).
Proof.
  apply (encabezado_por_nombre id id (λ _, None) ["TI"; "ID"; "TAM"; "TA"]%string []).
  by vm_compute.
Defined.

Section Identificadores.
Context (procesos : list Proceso).

Lemma inv_id_proceso (s : Simulador) (r : ref) :
  inv procesos s → id_proceso (proc s r) = id_proceso (procesos !!! r).
Proof.
  intros Hinv. apply (fmap_eq_campo id_proceso).
  pose proof (inv_datos _ _ Hinv) as H.
  apply (f_equal (fmap (λ d : Z * Z * Z * Z, d.1.1.1))) in H.
  by rewrite <- !list_fmap_compose in H.
Qed.
End Identificadores.

(** X17. Distinct ids stay distinct. When the supplied definitions have
    pairwise different ids, as the loader guarantees, then in every
    observable state the ids shown for New, L/S, Ready, the CPU and
    Terminated are pairwise different: no id is listed twice, in one list
    or in two. *)
Theorem ids_distintos (procesos : list Proceso) (s : Simulador) :
  NoDup (id_proceso <$> procesos) → alcanzable procesos s →
  NoDup (ids s (procesos_nuevos s) ++ ids s (cola_listos_suspendidos s) ++
         ids s (cola_listos s) ++ ids s (option_list (proceso_en_ejecucion s)) ++
         ids s (procesos_terminados s)).
Proof.
  intros Hnd Halc. pose proof (alcanzable_inv procesos s Halc) as Hinv.
  unfold ids. rewrite <- !fmap_app. fold (colas s).
  apply NoDup_fmap_2_strong; [|by apply (inv_nodup procesos)].
  intros x y Hx Hy Hxy.
  rewrite !(inv_id_proceso procesos s _ Hinv) in Hxy.
  assert (∀ r, r ∈ colas s → (id_proceso <$> procesos) !! r
                             = Some (id_proceso (procesos !!! r))) as Hlk.
  { intros r Hr. rewrite list_lookup_fmap.
    rewrite (list_lookup_lookup_total_lt procesos r); [done|].
    rewrite <- (inv_length procesos s Hinv). by apply (inv_rango procesos s r Hinv). }
  eapply (NoDup_lookup _ x y); [exact Hnd|by apply Hlk|].
  rewrite Hxy. by apply Hlk.
Qed.

Lemma ids_distintos_witness :
  NoDup (ids ejemplo_rafaga (procesos_nuevos ejemplo_rafaga) ++
         ids ejemplo_rafaga (cola_listos_suspendidos ejemplo_rafaga) ++
         ids ejemplo_rafaga (cola_listos ejemplo_rafaga) ++
         ids ejemplo_rafaga (option_list (proceso_en_ejecucion ejemplo_rafaga)) ++
         ids ejemplo_rafaga (procesos_terminados ejemplo_rafaga)).
Proof.
  apply (ids_distintos procesos_rafaga ejemplo_rafaga).
  - apply (bool_decide_unpack _). by vm_compute.
  - apply alc_init. by vm_compute.
Defined.

(** ** The console program: reading and editing *)

Section ConsolaLectura.
Context (norm strip : string → string) (py_int : string → option Z).

Lemma consola_leer_filas_igual ix st st' off rows :
  lc_procs st' = procs st → lc_ids_vistos st' = ids_vistos st →
  lc_procs (consola_leer_filas strip py_int ix st' off rows)
  = procs (leer_filas strip py_int ix st off rows).
Proof.
  revert st st' off. induction rows as [|row rows IH]; intros st st' off Hp Hi; [done|].
  cbn [consola_leer_filas leer_filas]. apply IH.
  - unfold consola_leer_fila, leer_fila. rewrite Hi.
    destruct (en_blanco strip ix row); [done|].
    repeat (destruct (py_int _); [|done]).
    destruct (motivos_de _ _ _ _ _); cbn; [by rewrite Hp|done].
  - unfold consola_leer_fila, leer_fila. rewrite Hi.
    destruct (en_blanco strip ix row); [done|].
    repeat (destruct (py_int _); [|done]).
    destruct (motivos_de _ _ _ _ _); cbn; [done|done].
Qed.
End ConsolaLectura.

(** X18. The console program and the GUI read the same processes: for the
    same rows and the same library functions, [Simulador._leer_csv] of
    simulador.py returns exactly the list of processes that
    [lector_csv._parsear_csv_data] returns, in the same order. *)
Theorem consola_lee_igual (norm strip : string → string) (py_int : string → option Z)
    (raw : list (list string)) :
  (consola_leer_csv norm strip py_int raw).1 = (_parsear_csv_data norm strip py_int raw).1.
Proof.
  unfold consola_leer_csv, _parsear_csv_data. destruct raw as [|first resto]; [done|].
  destruct (plan_lectura norm strip py_int first resto) as [[ix rows] start].
  cbn [fst]. by apply consola_leer_filas_igual.
Qed.

Section Menu.
Implicit Types (todos : list Proceso) (op : OpMenu).

Lemma siguiente_id_mayor todos p :
  p ∈ todos → id_proceso p < _siguiente_id todos.
Proof.
  destruct todos as [|q ps]; [by intros ?%elem_of_nil|]. cbn.
  assert (id_proceso q ≤ foldr Z.max (id_proceso q) (id_proceso <$> ps) ∧
          ∀ x, x ∈ ps → id_proceso x ≤ foldr Z.max (id_proceso q) (id_proceso <$> ps))
    as [H0 H1].
  { induction ps as [|y ps [IH0 IH1]]; cbn.
    - split; [done|by intros x ?%elem_of_nil].
    - split; [lia|]. intros x [->|Hx]%elem_of_cons; [lia|].
      specialize (IH1 x Hx). lia. }
  intros [->|Hp]%elem_of_cons; [lia|]. specialize (H1 p Hp). lia.
Qed.

Lemma ids_alter_editar tam ta ti i todos :
  id_proceso <$> alter (editar tam ta ti) i todos = id_proceso <$> todos.
Proof. by apply fmap_alter_campo. Qed.

Lemma menu_op_ids todos op :
  NoDup (id_proceso <$> todos) → NoDup (id_proceso <$> menu_op todos op).
Proof.
  intros Hnd. destruct op as [tam ta ti|pid tam ta ti|pid]; cbn.
  - destruct (valor tam), (valor ta), (valor ti); try done.
    rewrite fmap_app. cbn. apply NoDup_app. split_and!; [done| |apply NoDup_singleton].
    intros x (p & Hx & Hp)%list_elem_of_fmap Hx'%list_elem_of_singleton.
    pose proof (siguiente_id_mayor todos p Hp). cbn in Hx'. lia.
  - destruct (valor pid); [|done].
    destruct (list_find _ todos) as [[i p]|]; [|done].
    destruct (valor_edicion tam _); [|done].
    destruct (valor_edicion ta _); [|done].
    destruct (valor_edicion ti _); [|done].
    by rewrite ids_alter_editar.
  - destruct (valor pid) as [z|]; [|done].
    eapply sublist_NoDup; [|apply fmap_sublist, sublist_filter]. done.
Qed.
End Menu.

(** X19. The editing menu of the console program keeps the ids pairwise
    different: whatever the user answers in any number of turns of adding,
    editing and deleting, if no two processes of the list shared an id
    before, none do in the list that is saved; the id that option 1 assigns
    is larger than every id in the list. *)
Theorem menu_ids_distintos (todos : list Proceso) (ops : list OpMenu) :
  NoDup (id_proceso <$> todos) →
  NoDup (id_proceso <$> _menu_edicion todos ops) ∧
  ∀ p, p ∈ todos → id_proceso p < _siguiente_id todos.
Proof.
  intros Hnd. split; [|apply siguiente_id_mayor].
  unfold _menu_edicion. revert todos Hnd.
  induction ops as [|op ops IH]; intros todos Hnd; cbn; [done|].
  by apply IH, menu_op_ids.
Qed.

Lemma menu_ids_distintos_witness :
  NoDup (id_proceso <$>
           _menu_edicion [Proceso_init 1 10 0 5; Proceso_init 4 20 1 3]
             [OpAgregar (Entero 30) (Entero 2) (Entero 4);
              OpEditar (Entero 4) Vacia (Escrito (Entero 0)) (Escrito NoEntero);
              OpEliminar (Entero 1)]).
Proof.
  apply (menu_ids_distintos [Proceso_init 1 10 0 5; Proceso_init 4 20 1 3]).
  apply (bool_decide_unpack _). by vm_compute.
Defined.

(** ** The console engine *)

Section ConsolaPasos.
Context (procesos : list Proceso).
Implicit Types (s : Simulador) (r q c v : ref) (l : list ref) (i k : nat).

Lemma inv_memoria_con_reloj s z : inv_memoria s → inv_memoria (con_reloj z s).
Proof. intros H. by apply (inv_memoria_marco s). Qed.

(** The CPU step of the console tick is the one of the GUI tick. *)
Lemma consola_servicio_antes s :
  servicio_cpu (con_eventos [] s) = antes_de_arribos (con_reloj (reloj s - 1) s).
Proof.
  unfold antes_de_arribos. rewrite avanzar_reloj_eq.
  cbn [reloj con_reloj]. replace (reloj s - 1 + 1) with (reloj s) by lia.
  by destruct s.
Qed.

(** Steps 2 and 3 move a prefix of New to L/S. *)
Lemma consola_arribos_salvo s :
  let k := cuenta_prefijo (λ r, t_arribo (proc s r) =? reloj s) (procesos_nuevos s) in
  salvo_eventos (consola_arribos s)
    (foldl a_suspendidos (con_nuevos (drop k (procesos_nuevos s)) s)
       (take k (procesos_nuevos s))).
Proof.
  unfold consola_arribos. rewrite popleft_mientras_spec.
  apply arribo_inicial_foldl. unfold salvo_eventos. by case_bool_decide.
Qed.

Lemma inv_consola_arribos s : inv procesos s → inv procesos (consola_arribos s).
Proof.
  intros Hinv. eapply inv_salvo_eventos; [apply consola_arribos_salvo|].
  set (k := cuenta_prefijo _ _).
  destruct (a_suspendidos_foldl (take k (procesos_nuevos s))
              (con_nuevos (drop k (procesos_nuevos s)) s))
    as (Hls & Hn & Hl & Hr & Ht & Hrep & Hrel & Hp & Hev & Hlen & Hin & Hout & Hg).
  by apply (inv_mover_a_ls procesos s _ k).
Qed.

Lemma inv_memoria_consola_arribos s :
  inv procesos s → inv_memoria s → inv_memoria (consola_arribos s).
Proof.
  intros Hinv Hmem. eapply inv_memoria_salvo; [apply consola_arribos_salvo|].
  set (k := cuenta_prefijo _ _).
  destruct (a_suspendidos_foldl (take k (procesos_nuevos s))
              (con_nuevos (drop k (procesos_nuevos s)) s))
    as (Hls & Hn & Hl & Hr & Ht & _ & _ & Hp & _ & _ & _ & Hout & Hg).
  cbn zeta in Hls, Hn, Hl, Hr, Ht, Hp, Hout, Hg.
  apply (inv_memoria_mover s _ k); try done.
  - intros q. apply (fmap_eq_campo id_particion). by apply Hg.
  - intros q. apply (fmap_eq_campo tamano). by apply Hg.
  - by apply (inv_nodup procesos).
Qed.

(** What the arrival step of the console tick does. *)
Lemma consola_arribos_efecto s :
  let s' := consola_arribos s in
  let k := cuenta_prefijo (λ r, t_arribo (proc s r) =? reloj s) (procesos_nuevos s) in
  procesos_nuevos s' = drop k (procesos_nuevos s) ∧
  cola_listos_suspendidos s' = cola_listos_suspendidos s ++ take k (procesos_nuevos s) ∧
  cola_listos s' = cola_listos s ∧
  proceso_en_ejecucion s' = proceso_en_ejecucion s ∧
  procesos_terminados s' = procesos_terminados s ∧
  reloj s' = reloj s ∧
  (∀ q, t_restante (proc s' q) = t_restante (proc s q)) ∧
  (∀ q, tamano (proc s' q) = tamano (proc s q)).
Proof.
  cbn zeta. set (k := cuenta_prefijo _ _).
  pose proof (consola_arribos_salvo s) as Hsalvo. cbn zeta in Hsalvo. fold k in Hsalvo.
  destruct (a_suspendidos_foldl (take k (procesos_nuevos s))
              (con_nuevos (drop k (procesos_nuevos s)) s))
    as (Hls & Hn & Hl & Hr & Ht & _ & Hrel & _ & _ & _ & _ & _ & Hg).
  cbn zeta in Hls, Hn, Hl, Hr, Ht, Hrel, Hg.
  set (s2 := foldl a_suspendidos _ _) in *. unfold salvo_eventos in Hsalvo.
  assert (procesos_nuevos (consola_arribos s) = procesos_nuevos s2 ∧
          cola_listos_suspendidos (consola_arribos s) = cola_listos_suspendidos s2 ∧
          cola_listos (consola_arribos s) = cola_listos s2 ∧
          proceso_en_ejecucion (consola_arribos s) = proceso_en_ejecucion s2 ∧
          procesos_terminados (consola_arribos s) = procesos_terminados s2 ∧
          reloj (consola_arribos s) = reloj s2 ∧
          todos_procesos (consola_arribos s) = todos_procesos s2)
    as (E1 & E2 & E3 & E4 & E5 & E6 & E7).
  { split_and!;
      [apply (f_equal procesos_nuevos) in Hsalvo
      |apply (f_equal cola_listos_suspendidos) in Hsalvo
      |apply (f_equal cola_listos) in Hsalvo
      |apply (f_equal proceso_en_ejecucion) in Hsalvo
      |apply (f_equal procesos_terminados) in Hsalvo
      |apply (f_equal reloj) in Hsalvo
      |apply (f_equal todos_procesos) in Hsalvo]; exact Hsalvo. }
  rewrite E1, E2, E3, E4, E5, E6, E7. split_and!; try done.
  - intros q. apply (fmap_eq_campo t_restante). by apply Hg.
  - intros q. apply (fmap_eq_campo tamano). by apply Hg.
Qed.

Lemma entrar_a_memoria_mismo_sistema i c s s' :
  entrar_a_memoria i c s = Some s' → mismo_sistema s s'.
Proof.
  intros H.
  destruct (entrar_a_memoria_colas _ _ _ _ H) as (Hls & Hl & Hn & Hrun & Ht & Hr & Hrel).
  apply py_remove_perm in Hls.
  split_and!; try done.
  - unfold en_sistema, residentes. rewrite Hl, Hrun, Hls.
    rewrite <- !(assoc_L (++)). cbn. by rewrite <- !Permutation_middle.
  - by rewrite (entrar_a_memoria_datos _ _ _ _ H).
  - by apply (entrar_a_memoria_campo t_restante _ _ _ _ campo_fijo_t_restante H).
  - by apply (entrar_a_memoria_campo t_fin _ _ _ _ campo_fijo_t_fin H).
Qed.

Lemma registrar_mismo_sistema s ev : mismo_sistema s (registrar ev s).
Proof. by repeat split. Qed.

(** The selection loop returns a process of L/S together with its Best-Fit
    partition among [libres]; it returns nothing only when no process of
    L/S has one. *)
Lemma consola_seleccionar_spec s libres i l sel (L : list ref) :
  (∀ x, sel = Some x →
        sel_proc x ∈ L ∧ _encontrar_mejor_particion s (sel_proc x) libres = Some (sel_part x)) →
  (∀ r, r ∈ l → r ∈ L) →
  ∀ x, consola_seleccionar s libres i l sel = Some x →
       sel_proc x ∈ L ∧ _encontrar_mejor_particion s (sel_proc x) libres = Some (sel_part x).
Proof.
  revert i sel. induction l as [|pr l IH]; intros i sel Hsel Hl x; cbn.
  - by apply Hsel.
  - apply IH; [|intros r Hr; apply Hl; by right].
    intros y. destruct (_encontrar_mejor_particion s pr libres) as [mp|] eqn:E;
      [|by apply Hsel].
    destruct (_ || _); [|by apply Hsel].
    intros [= <-]. cbn. split; [apply Hl; by left|done].
Qed.

Lemma consola_seleccionar_Some s libres i l x :
  is_Some (consola_seleccionar s libres i l (Some x)).
Proof.
  revert i x. induction l as [|pr l IH]; intros i x; cbn; [by eexists|].
  destruct (_encontrar_mejor_particion s pr libres); [|apply IH].
  destruct (_ || _); apply IH.
Qed.

Lemma consola_seleccionar_None s libres i l :
  consola_seleccionar s libres i l None = None →
  ∀ r, r ∈ l → _encontrar_mejor_particion s r libres = None.
Proof.
  revert i. induction l as [|pr l IH]; intros i; cbn; [by intros _ r ?%elem_of_nil|].
  destruct (_encontrar_mejor_particion s pr libres) as [mp|] eqn:E.
  - cbn. intros H. destruct (consola_seleccionar_Some s libres (S i) l
                               (mkSeleccion pr mp i (t_restante (proc s pr)))) as [y Hy].
    congruence.
  - intros H r [->|Hr]%elem_of_cons; [done|]. by apply (IH (S i)).
Qed.

(** What an iteration of the admission loop of the console does. *)
Lemma consola_admitir_casos s :
  inv procesos s →
  (consola_admitir s = Some None ∧
   ((5 ≤ procesos_en_memoria s)%nat ∨ libres s = [] ∨
    ∀ r, r ∈ cola_listos_suspendidos s →
         _encontrar_mejor_particion s r (libres s) = None)) ∨
  (∃ c i s1 ev,
     consola_admitir s = Some (Some (registrar ev s1)) ∧
     c ∈ cola_listos_suspendidos s ∧
     _encontrar_mejor_particion s c (libres s) = Some i ∧
     entrar_a_memoria i c s = Some s1).
Proof.
  intros Hinv. unfold consola_admitir.
  destruct (Nat.leb_spec 5 (procesos_en_memoria s)) as [H5|H5]; [left; auto|].
  case_bool_decide as Hlib; [left; auto|].
  destruct (consola_seleccionar s (libres s) 0 (cola_listos_suspendidos s) None)
    as [x|] eqn:E.
  - right.
    destruct (consola_seleccionar_spec s (libres s) 0 (cola_listos_suspendidos s) None
                (cola_listos_suspendidos s)) with (x := x) as [Hc Hmp]; try done.
    destruct (entrar_a_memoria_Some (sel_part x) (sel_proc x) s Hc) as [s1 Hs1].
    exists (sel_proc x), (sel_part x), s1. eexists.
    rewrite (aplicar_admision _ _ _ _ Hs1). cbn. done.
  - left. split; [done|]. right. right.
    by apply (consola_seleccionar_None s (libres s) 0).
Qed.

Lemma consola_admitir_paso s c i s1 :
  inv procesos s → c ∈ cola_listos_suspendidos s →
  _encontrar_mejor_particion s c (libres s) = Some i →
  entrar_a_memoria i c s = Some s1 →
  inv procesos s1 ∧ (inv_memoria s → inv_memoria s1) ∧ mismo_sistema s s1 ∧
  (length (cola_listos_suspendidos s1) < length (cola_listos_suspendidos s))%nat ∧
  cola_listos_suspendidos s1 = filter (λ q, q ≠ c) (cola_listos_suspendidos s) ∧
  tamano (proc s c) ≤ 250.
Proof.
  intros Hinv Hc Hmp Hs1.
  apply encontrar_mejor_particion_spec in Hmp as (Hi & Hcabe & _).
  apply elem_of_libres in Hi as [Hi Hlib].
  destruct (entrar_a_memoria_colas _ _ _ _ Hs1) as (Hls & _).
  destruct (inv_disjuntos s (inv_nodup _ _ Hinv)) as (_ & Hndls & _).
  split_and!.
  - by apply (inv_entrar_a_memoria procesos i c s).
  - intros Hmem. by apply (inv_memoria_entrar procesos i c s).
  - by apply (entrar_a_memoria_mismo_sistema i c).
  - apply py_remove_perm, Permutation_length in Hls. cbn in Hls. lia.
  - by apply py_remove_filter.
  - assert (es_so (part s i) = false) as Hso.
    { destruct Hcabe as [Hl _]. unfold esta_libre in Hl.
      destruct (proceso_asignado (part s i)); [done|]. by destruct (es_so (part s i)). }
    destruct (inv_part_usuario procesos s i Hinv Hso) as (_ & _ & H250).
    destruct Hcabe as [_ Hfit]. lia.
Qed.

(** An induction principle for the admission loop of the console. *)
Lemma consola_bucle_admision_ind (Q : Simulador → Prop) n s s' :
  (∀ s0 c i s1 ev, inv procesos s0 → Q s0 → c ∈ cola_listos_suspendidos s0 →
     _encontrar_mejor_particion s0 c (libres s0) = Some i →
     entrar_a_memoria i c s0 = Some s1 → Q (registrar ev s1)) →
  inv procesos s → Q s → consola_bucle_admision n s = Some s' →
  inv procesos s' ∧ Q s' ∧ consola_admitir s' = Some None.
Proof.
  intros Hpaso. revert s. induction n as [|n IH]; intros s Hinv HQ; [done|].
  cbn [consola_bucle_admision].
  destruct (consola_admitir_casos s Hinv) as [[E _]|(c & i & s1 & ev & -> & Hc & Hmp & Hs1)].
  - rewrite E. cbn. by intros [= <-].
  - cbn. apply IH.
    + apply inv_registrar. by destruct (consola_admitir_paso s c i s1).
    + by apply (Hpaso s c i s1 ev).
Qed.

Lemma consola_bucle_admision_Some n s :
  inv procesos s → (length (cola_listos_suspendidos s) < n)%nat →
  is_Some (consola_bucle_admision n s).
Proof.
  revert s. induction n as [|n IH]; intros s Hinv Hn; [lia|].
  cbn [consola_bucle_admision].
  destruct (consola_admitir_casos s Hinv) as [[-> _]|(c & i & s1 & ev & -> & Hc & Hmp & Hs1)].
  - by eexists.
  - cbn. destruct (consola_admitir_paso s c i s1 Hinv Hc Hmp Hs1) as (Hinv1 & _ & _ & Hlen & _).
    apply IH; [by apply inv_registrar|]. cbn. lia.
Qed.

(** The admission step of the console tick returns; it only moves
    processes of at most 250 KB from L/S to the Ready queue, and it ends
    when an iteration finds nothing to admit. *)
Lemma consola_admision_efecto s :
  inv procesos s →
  ∃ s', consola_admision s = Some s' ∧ inv procesos s' ∧
        (inv_memoria s → inv_memoria s') ∧ mismo_sistema s s' ∧
        consola_admitir s' = Some None ∧
        proceso_en_ejecucion s' = proceso_en_ejecucion s ∧
        (∀ q, tamano (proc s' q) = tamano (proc s q)) ∧
        (∀ r, r ∈ cola_listos_suspendidos s' → r ∈ cola_listos_suspendidos s) ∧
        (∀ r, r ∈ cola_listos_suspendidos s → 250 < tamano (proc s r) →
              r ∈ cola_listos_suspendidos s').
Proof.
  intros Hinv. unfold consola_admision.
  destruct (consola_bucle_admision_Some (S (length (cola_listos_suspendidos s))) s Hinv)
    as [s' Hs']; [lia|].
  exists s'. split; [done|].
  destruct (consola_bucle_admision_ind
    (λ s0, (inv_memoria s → inv_memoria s0) ∧ mismo_sistema s s0 ∧
           proceso_en_ejecucion s0 = proceso_en_ejecucion s ∧
           (∀ q, tamano (proc s0 q) = tamano (proc s q)) ∧
           (∀ r, r ∈ cola_listos_suspendidos s0 → r ∈ cola_listos_suspendidos s) ∧
           (∀ r, r ∈ cola_listos_suspendidos s → 250 < tamano (proc s r) →
                 r ∈ cola_listos_suspendidos s0))
    (S (length (cola_listos_suspendidos s))) s s')
    as (Hinv' & (H1 & H2 & H3 & H4 & H5 & H6) & Hfin); try done.
  - intros s0 c i s1 ev Hinv0 (Hm0 & Hs0 & Hr0 & Ht0 & Hsub0 & Hg0) Hc Hmp Hs1.
    destruct (consola_admitir_paso s0 c i s1 Hinv0 Hc Hmp Hs1)
      as (Hinv1 & Hm1 & Hs01 & _ & Hfil & H250).
    destruct (entrar_a_memoria_colas _ _ _ _ Hs1) as (_ & _ & _ & Hrun1 & _).
    pose proof (entrar_a_memoria_campo tamano i c s0 s1 ltac:(done) Hs1) as Htam1.
    split_and!.
    + intros Hm. apply inv_memoria_registrar. auto.
    + eapply mismo_sistema_trans; [exact Hs0|].
      eapply mismo_sistema_trans; [exact Hs01|apply registrar_mismo_sistema].
    + cbn. congruence.
    + intros q. cbn. by rewrite Htam1, Ht0.
    + intros r Hr. cbn in Hr. rewrite Hfil in Hr.
      apply list_elem_of_filter in Hr as [_ Hr]. by apply Hsub0.
    + intros r Hr Hg. cbn. rewrite Hfil. apply list_elem_of_filter.
      split; [|by apply Hg0]. intros ->. rewrite Ht0 in H250. lia.
Qed.

Lemma consola_tick_pasos s s' :
  consola_tick s = Some s' →
  ∃ s1 s3, antes_de_arribos (con_reloj (reloj s - 1) s) = Some s1 ∧
           consola_admision (consola_arribos s1) = Some s3 ∧
           _ejecutar_planificador s3 = Some s'.
Proof.
  unfold consola_tick. cbn zeta. rewrite consola_servicio_antes.
  intros (s1 & H1 & H)%bind_Some. apply bind_Some in H as (s3 & H3 & H4).
  by exists s1, s3.
Qed.

(** The console tick returns and keeps the invariant and the memory
    picture. *)
Lemma consola_tick_Some s :
  inv procesos s → inv_memoria s →
  ∃ s', consola_tick s = Some s' ∧ inv procesos s' ∧ inv_memoria s'.
Proof.
  intros Hinv Hmem. unfold consola_tick. cbn zeta. rewrite consola_servicio_antes.
  assert (inv procesos (con_reloj (reloj s - 1) s)) as Hinvt by (by apply inv_con_reloj).
  assert (inv_memoria (con_reloj (reloj s - 1) s)) as Hmemt
    by (by apply inv_memoria_con_reloj).
  destruct (inv_siguiente_tick procesos _ Hinvt) as (sx & Hsx & _).
  apply siguiente_tick_pasos in Hsx as (s1 & _ & H1 & _).
  rewrite H1. cbn [mbind option_bind].
  pose proof (inv_antes_de_arribos procesos _ s1 Hinvt H1) as Hinv1.
  pose proof (inv_memoria_servicio procesos _ s1 Hinvt Hmemt H1) as Hmem1.
  pose proof (inv_consola_arribos s1 Hinv1) as Hinv2.
  pose proof (inv_memoria_consola_arribos s1 Hinv1 Hmem1) as Hmem2.
  destruct (consola_admision_efecto _ Hinv2) as (s3 & -> & Hinv3 & Hmem3 & _).
  cbn [mbind option_bind]. destruct (planificador_Some s3) as [s' Hs']. exists s'. split; [done|].
  split; [by apply (inv_planificador procesos s3)|].
  apply (inv_memoria_planificador procesos s3); auto.
Qed.
End ConsolaPasos.

Section ConsolaInvariante.
Context (procesos : list Proceso).
Hypothesis Hids : ids_consola procesos.
Implicit Types (s : Simulador) (r q c v : ref) (l : list ref) (i k : nat).

(** With every id in 1..10 the console engine selects the cohort of the
    GUI engine. *)
Lemma consola_preparar_igual :
  consola_preparar_colas (consola_init procesos) = _preparar_colas (estado_vacio procesos).
Proof.
  unfold consola_preparar_colas, _preparar_colas.
  change (consola_init procesos) with (estado_vacio procesos). cbn zeta.
  rewrite filter_todos; [done|].
  intros r Hr%elem_of_seq. change (proc (estado_vacio procesos) r) with (procesos !!! r).
  apply Hids, list_elem_of_lookup_total_2.
  change (todos_procesos (estado_vacio procesos)) with procesos in Hr. lia.
Qed.

Lemma consola_paso_Some s :
  inv procesos s → inv_memoria s →
  ∃ s1, consola_tick s = Some s1 ∧ consola_paso s = Some (con_reloj (reloj s1 + 1) s1) ∧
        inv procesos (con_reloj (reloj s1 + 1) s1) ∧
        inv_memoria (con_reloj (reloj s1 + 1) s1).
Proof.
  intros Hinv Hmem. destruct (consola_tick_Some procesos s Hinv Hmem) as (s1 & H1 & ? & ?).
  exists s1. unfold consola_paso. rewrite H1. split_and!; try done.
  - by apply inv_con_reloj.
  - by apply inv_memoria_con_reloj.
Qed.

Lemma consola_alcanzable_inv s :
  consola_alcanzable procesos s → inv procesos s ∧ inv_memoria s.
Proof.
  induction 1 as [|s s' _ [Hinv Hmem] H].
  - rewrite consola_preparar_igual. split; [apply inv_preparar|].
    apply (inv_memoria_preparar procesos).
  - destruct (consola_paso_Some s Hinv Hmem) as (s1 & _ & H' & ? & ?).
    assert (s' = con_reloj (reloj s1 + 1) s1) as -> by congruence. done.
Qed.

Lemma particion_1_libre s :
  inv procesos s → inv_memoria s → residentes s = [] →
  1%nat ∈ libres s ∧ par_tamano (part s 1%nat) = 250.
Proof.
  intros Hinv Hmem Hres.
  destruct (inv_formas procesos s Hinv) as (p0 & p1 & p2 & p3 & Hp & H0 & [H1 T1] & _).
  assert (part s 1%nat = p1) as Hp1 by (by rewrite Hp).
  split; [|by rewrite Hp1].
  apply elem_of_libres. split; [rewrite Hp; cbn; lia|].
  unfold esta_libre. rewrite Hp1, H1.
  destruct (proceso_asignado p1) as [r|] eqn:Has; [|done].
  destruct (mem_ocupada s Hmem 1%nat r) as [Hr _].
  - rewrite Hp. cbn. lia.
  - by rewrite Hp1.
  - rewrite Hres in Hr. by apply elem_of_nil in Hr.
Qed.

(** When the console tick leaves the CPU idle, nothing in L/S fits a
    partition. *)
Lemma consola_ocio s3 s' :
  inv procesos s3 → inv_memoria s3 → consola_admitir s3 = Some None →
  _ejecutar_planificador s3 = Some s' → proceso_en_ejecucion s' = None →
  cola_listos s' = [] ∧ ∀ c, c ∈ cola_listos_suspendidos s' → 250 < tamano (proc s' c).
Proof.
  intros Hinv Hmem Hfin H3 Hrun.
  destruct (planificador_ocioso s3 s' H3 Hrun) as [-> Hl]. split; [done|].
  assert (residentes s3 = []) as Hres by (unfold residentes; by rewrite Hl, Hrun).
  destruct (particion_1_libre s3 Hinv Hmem Hres) as [H1 T1].
  destruct (consola_admitir_casos procesos s3 Hinv)
    as [[_ [H5|[Hlib|Hnone]]]|(c & i & s1 & ev & E & _)]; [| | |congruence].
  - rewrite procesos_en_memoria_length, Hres in H5. cbn in H5. lia.
  - rewrite Hlib in H1. by apply elem_of_nil in H1.
  - intros c Hc. specialize (Hnone c Hc).
    rewrite encontrar_mejor_particion_None in Hnone.
    destruct (Z.le_gt_cases (tamano (proc s3 c)) 250) as [Hle|Hgt]; [|lia].
    exfalso. apply (Hnone 1%nat H1). split; [|by rewrite T1].
    by apply elem_of_libres in H1 as [_ ?].
Qed.

(** The queues after the CPU step. *)
Lemma servicio_colas s s1 :
  inv procesos s → antes_de_arribos s = Some s1 →
  procesos_nuevos s1 = procesos_nuevos s ∧
  cola_listos_suspendidos s1 = cola_listos_suspendidos s ∧
  cola_listos s1 = cola_listos s ∧ reloj s1 = reloj s + 1 ∧
  ((proceso_en_ejecucion s1 = proceso_en_ejecucion s ∧
    procesos_terminados s1 = procesos_terminados s ∧
    ∀ cur, proceso_en_ejecucion s = Some cur → t_restante (proc s1 cur) ≠ 0) ∨
   (∃ cur, proceso_en_ejecucion s = Some cur ∧ t_restante (proc s1 cur) = 0 ∧
           proceso_en_ejecucion s1 = None ∧
           procesos_terminados s1 = procesos_terminados s ++ [cur])).
Proof.
  intros Hinv H. pose proof H as H'.
  unfold antes_de_arribos in H'. rewrite avanzar_reloj_eq in H'.
  apply servicio_efecto in H' as (Hn1 & Hls1 & Hl1 & Hrel1 & _).
  split_and!; try done.
  unfold antes_de_arribos in H. rewrite avanzar_reloj_eq in H.
  set (s0 := con_eventos [] (con_reloj (reloj s + 1) s)) in H.
  apply servicio_casos in H
    as [[Hrun ->]|[(cur & Hcur & Hno & ->)|(cur & k & ev & Hcur & Hcero & _ & _ & ->)]].
  - left. change (proceso_en_ejecucion s = None) in Hrun.
    split_and!; try done. intros cur Hcur. congruence.
  - left. change (proceso_en_ejecucion s = Some cur) in Hcur.
    split_and!; try done. intros cur' Hcur'. congruence.
  - right. change (proceso_en_ejecucion s = Some cur) in Hcur. exists cur.
    split_and!; try done.
    + cbn [registrar con_eventos todos_procesos].
      rewrite (liberar_particion_campo t_restante) by done.
      unfold terminar. cbn [con_ejecucion con_terminados todos_procesos mut con_todos].
      by rewrite !(alter_campo t_restante) by done.
    + cbn. by autorewrite with campos.
    + cbn. by autorewrite with campos.
Qed.
End ConsolaInvariante.

Section ConsolaTiempo.
Context (procesos : list Proceso).
Hypothesis Hids : ids_consola procesos.
Hypothesis Hirr : irrupciones_validas procesos.
Hypothesis Harr : arribos_validos procesos.
Implicit Types (s : Simulador) (r q c v : ref) (l : list ref) (i k : nat).

Lemma en_cohorte s r : inv procesos s → r ∈ colas s → procesos !!! r ∈ procesos.
Proof.
  intros Hinv Hr. apply list_elem_of_lookup_total_2.
  rewrite <- (inv_length procesos s Hinv). by apply (inv_rango procesos s r Hinv).
Qed.

Lemma inv_consola_init :
  inv_consola procesos (consola_preparar_colas (consola_init procesos)).
Proof.
  rewrite (consola_preparar_igual procesos Hids).
  pose proof (inv_preparar procesos) as Hinv.
  destruct (seleccion_spec procesos (seq 0 (length procesos)))
    as (_ & _ & _ & Hn & _ & Hls & Hl & Hrun & Ht & Hprep & _).
  { intros r Hr. apply elem_of_seq in Hr. lia. }
  assert (reloj (_preparar_colas (estado_vacio procesos)) = 0) as Hrel.
  { change (reloj (foldl (λ s p, mut p reiniciar s) (estado_vacio procesos)
                     (cohorte procesos)) = 0).
    destruct (reiniciar_foldl (cohorte procesos) (estado_vacio procesos))
      as (_ & _ & _ & _ & _ & _ & _ & _ & H & _).
    by rewrite H. }
  change (_preparar_colas (estado_vacio procesos))
    with (con_reporte (cohorte procesos)
            (con_nuevos (cohorte procesos)
               (foldl (λ s p, mut p reiniciar s) (estado_vacio procesos)
                  (cohorte procesos)))) in *.
  fold (cohorte procesos) in Hn, Hls, Hl, Hrun, Ht, Hprep.
  set (s := con_reporte _ _) in *. clearbody s.
  split.
  - lia.
  - exists 0%nat. by rewrite Hn.
  - intros r Hr. rewrite Hrel. apply Harr, (en_cohorte s r Hinv), elem_of_colas. tauto.
  - intros r Hr. rewrite Hn in Hr. by destruct (Hprep r Hr) as (_ & _ & ? & _).
  - intros r Hr. unfold en_sistema, residentes in Hr.
    rewrite Hls, Hl, Hrun in Hr. by apply elem_of_nil in Hr.
  - intros r. rewrite Ht. by intros ?%elem_of_nil.
  - intros _. split; [done|]. rewrite Hls. by intros c ?%elem_of_nil.
Qed.

(** The part of New that the arrival step of the console tick leaves: the
    processes that arrive later. *)
Lemma consola_futuros s n :
  inv procesos s → procesos_nuevos s = drop n (cohorte procesos) →
  (∀ r, r ∈ procesos_nuevos s → reloj s ≤ t_arribo (procesos !!! r)) →
  let k := cuenta_prefijo (λ r, t_arribo (proc s r) =? reloj s) (procesos_nuevos s) in
  ∀ r, r ∈ drop k (procesos_nuevos s) → reloj s < t_arribo (procesos !!! r).
Proof.
  intros Hinv Hn Hfut k r Hr.
  assert (StronglySorted (λ a b, t_arribo (procesos !!! a) ≤ t_arribo (procesos !!! b))
            (procesos_nuevos s)) as Hsort.
  { rewrite Hn. pose proof (cohorte_sorted procesos) as H.
    rewrite <- (take_drop n (cohorte procesos)) in H.
    apply StronglySorted_app_1_r in H.
    eapply StronglySorted_impl; [|exact H]. intros a b. apply antes_por_arribo_le. }
  destruct (cuenta_prefijo_sorted (λ r, t_arribo (procesos !!! r)) (reloj s) _ Hsort)
    as [_ Hd].
  apply Hd. replace (cuenta_prefijo _ _) with k; [done|].
  unfold k. apply cuenta_prefijo_ext. intros q Hq. specialize (Hfut q Hq).
  rewrite (inv_t_arribo procesos s q Hinv).
  destruct (Z.eqb_spec (t_arribo (procesos !!! q)) (reloj s)),
    (Z.leb_spec (t_arribo (procesos !!! q)) (reloj s)); lia.
Qed.

(** An iteration of the loop of [run] keeps what the console states
    guarantee. *)
Lemma inv_consola_paso s s' :
  inv procesos s → inv_memoria s → inv_consola procesos s →
  consola_paso s = Some s' → inv_consola procesos s'.
Proof.
  intros Hinv Hmem [Hrel [n Hn] Hfut Hrn Hrs Hrt Hocio] Hpaso.
  unfold consola_paso in Hpaso. apply bind_Some in Hpaso as (sf & Htick & [= <-]).
  destruct (consola_tick_pasos s sf Htick) as (s1 & s3 & H1 & H3 & H4).
  set (t := con_reloj (reloj s - 1) s) in *.
  assert (inv procesos t) as Hinvt by (by apply inv_con_reloj).
  assert (inv_memoria t) as Hmemt by (by apply inv_memoria_con_reloj).
  pose proof (inv_antes_de_arribos procesos t s1 Hinvt H1) as Hinv1.
  pose proof (inv_memoria_servicio procesos t s1 Hinvt Hmemt H1) as Hmem1.
  pose proof (servicio_restante procesos t s1) as Hrest1.
  destruct (servicio_colas procesos t s1 Hinvt H1) as (Hn1 & Hls1 & Hl1 & Hrel1 & Hcasos).
  change (procesos_nuevos t) with (procesos_nuevos s) in Hn1.
  change (cola_listos_suspendidos t) with (cola_listos_suspendidos s) in Hls1.
  change (cola_listos t) with (cola_listos s) in Hl1.
  change (reloj t) with (reloj s - 1) in Hrel1.
  assert (reloj s1 = reloj s) as Hrel1' by lia.
  destruct (consola_arribos_efecto s1)
    as (Hn2 & Hls2 & Hl2 & Hrun2 & Ht2 & Hrel2 & Hrest2 & Htam2).
  cbn zeta in Hn2, Hls2. set (k := cuenta_prefijo _ _) in Hn2, Hls2.
  pose proof (inv_consola_arribos procesos s1 Hinv1) as Hinv2.
  pose proof (inv_memoria_consola_arribos procesos s1 Hinv1 Hmem1) as Hmem2.
  destruct (consola_admision_efecto procesos _ Hinv2)
    as (s3' & H3' & Hinv3 & Hmem3 & Hm3 & Hfin3 & _).
  assert (s3' = s3) as -> by congruence.
  pose proof (planificador_mismo_sistema _ _ H4) as Hm4.
  pose proof (mismo_sistema_trans _ _ _ Hm3 Hm4) as Hm.
  destruct Hm as (HnM & HtM & _ & HrelM & HsisM & _ & HrestM & _).
  destruct (inv_disjuntos s (inv_nodup _ _ Hinv))
    as (_ & _ & Hndres & _ & Hdn & Hdls & Hdres).
  assert (∀ r, t_restante (proc sf r) =
               t_restante (proc s r) -
               (if decide (proceso_en_ejecucion s = Some r) then 1 else 0)) as Hrestf.
  { intros r. rewrite HrestM, Hrest2. by rewrite (Hrest1 r Hinvt H1). }
  assert (∀ r, r ∈ procesos_nuevos s → proceso_en_ejecucion s ≠ Some r) as Hnorun.
  { intros r Hr Hrun. destruct (Hdn r Hr) as [Hno _].
    apply Hno, elem_of_en_sistema. right. apply elem_of_residentes. by right. }
  assert (∀ r, r ∈ take k (procesos_nuevos s) → r ∈ procesos_nuevos s) as Htk.
  { intros r Hr. eapply elem_of_sublist; [exact Hr|apply sublist_take]. }
  assert (∀ r, r ∈ drop k (procesos_nuevos s) → r ∈ procesos_nuevos s) as Hdk.
  { intros r Hr. eapply elem_of_sublist; [exact Hr|apply sublist_drop]. }
  rewrite Hn1 in Hn2, Hls2. rewrite Hls1 in Hls2.
  split; cbn [reloj con_reloj procesos_nuevos cola_listos_suspendidos cola_listos
              proceso_en_ejecucion procesos_terminados todos_procesos].
  - rewrite HrelM, Hrel2. lia.
  - exists (n + k)%nat. rewrite HnM, Hn2, Hn. by rewrite drop_drop.
  - intros r Hr. rewrite HnM, Hn2 in Hr. rewrite HrelM, Hrel2, Hrel1'.
    assert (reloj s1 < t_arribo (procesos !!! r)); [|lia].
    apply (consola_futuros s1 n Hinv1).
    + by rewrite Hn1.
    + intros q Hq. rewrite Hn1 in Hq. rewrite Hrel1'. by apply Hfut.
    + fold k. by rewrite Hn1.
  - intros r Hr. rewrite HnM, Hn2 in Hr. apply Hdk in Hr.
    change (proc (con_reloj (reloj sf + 1) sf) r) with (proc sf r).
    rewrite Hrestf, decide_False by (by apply Hnorun). rewrite Z.sub_0_r. by apply Hrn.
  - intros r Hr.
    change (proc (con_reloj (reloj sf + 1) sf) r) with (proc sf r).
    change (en_sistema (con_reloj (reloj sf + 1) sf)) with (en_sistema sf) in Hr.
    rewrite HsisM in Hr. unfold en_sistema in Hr. rewrite Hls2 in Hr.
    rewrite Hrestf.
    rewrite !elem_of_app in Hr. destruct Hr as [[Hr|Hr]|Hr].
    + destruct (Hdls r Hr) as [Hnr _]. rewrite decide_False.
      * rewrite Z.sub_0_r. apply Hrs, elem_of_en_sistema. by left.
      * intros Hrun. apply Hnr, elem_of_residentes. by right.
    + apply Htk in Hr. rewrite decide_False by (by apply Hnorun).
      rewrite Z.sub_0_r, (Hrn r Hr).
      assert (1 ≤ t_irrupcion (procesos !!! r)); [|lia].
      apply Hirr, (en_cohorte s r Hinv), elem_of_colas. tauto.
    + unfold residentes in Hr. rewrite Hl2, Hrun2, Hl1 in Hr.
      destruct Hcasos as [(Hrun1 & _ & Hno)|(cur & Hcur & _ & Hrun1 & _)].
      * rewrite Hrun1 in Hr. fold (residentes s) in Hr.
        assert (r ∈ en_sistema s) as Hsis by (apply elem_of_en_sistema; by right).
        specialize (Hrs r Hsis).
        destruct (decide (proceso_en_ejecucion s = Some r)) as [Hrun|Hrun]; [|lia].
        specialize (Hno r Hrun). rewrite (Hrest1 r Hinvt H1) in Hno.
        change (proc t r) with (proc s r) in Hno.
        change (proceso_en_ejecucion t) with (proceso_en_ejecucion s) in Hno.
        rewrite decide_True in Hno by done. lia.
      * rewrite Hrun1 in Hr. cbn in Hr. rewrite app_nil_r in Hr.
        assert (r ∈ en_sistema s) as Hsis.
        { apply elem_of_en_sistema. right. apply elem_of_residentes. by left. }
        rewrite decide_False; [rewrite Z.sub_0_r; by apply Hrs|].
        intros Hrun. unfold residentes in Hndres. rewrite Hrun in Hndres.
        apply NoDup_app in Hndres as (_ & Hd & _). apply (Hd r Hr). by left.
  - intros r Hr.
    change (proc (con_reloj (reloj sf + 1) sf) r) with (proc sf r).
    rewrite HtM, Ht2 in Hr.
    destruct Hcasos as [(_ & Ht1 & _)|(cur & Hcur & Hcero & _ & Ht1)].
    + rewrite Ht1 in Hr. change (procesos_terminados t) with (procesos_terminados s) in Hr.
      rewrite Hrestf, decide_False; [rewrite Z.sub_0_r; by apply Hrt|].
      intros Hrun. apply (Hdres r); [|done]. apply elem_of_residentes. by right.
    + rewrite Ht1 in Hr. change (procesos_terminados t) with (procesos_terminados s) in Hr.
      apply elem_of_app in Hr as [Hr|Hr%list_elem_of_singleton].
      * rewrite Hrestf, decide_False; [rewrite Z.sub_0_r; by apply Hrt|].
        intros Hrun. apply (Hdres r); [|done]. apply elem_of_residentes. by right.
      * subst r. by rewrite HrestM, Hrest2.
  - intros Hrunf.
    change (todos_procesos (con_reloj (reloj sf + 1) sf)) with (todos_procesos sf).
    apply (consola_ocio procesos s3 sf Hinv3 (Hmem3 Hmem2) Hfin3 H4 Hrunf).
Qed.

Lemma consola_alcanzable_inv_consola s :
  consola_alcanzable procesos s → inv_consola procesos s.
Proof.
  induction 1 as [|s s' Halc IH H]; [apply inv_consola_init|].
  destruct (consola_alcanzable_inv procesos Hids s Halc) as [Hinv Hmem].
  by apply (inv_consola_paso s s').
Qed.
End ConsolaTiempo.

Lemma consola_preparar_reloj (procesos : list Proceso) :
  reloj (consola_preparar_colas (consola_init procesos)) = 0.
Proof.
  unfold consola_preparar_colas. cbn zeta. cbn [reloj con_reporte con_nuevos].
  match goal with
  | |- reloj (foldl _ ?s0 ?sel) = 0 =>
      destruct (reiniciar_foldl sel s0) as (_ & _ & _ & _ & _ & _ & _ & _ & H & _);
      by rewrite H
  end.
Qed.

Section ConsolaBucle.
Context (procesos : list Proceso).
Hypothesis Hids : ids_consola procesos.
Implicit Types (s : Simulador) (r q c v : ref) (l : list ref) (i k : nat).

(** What an iteration of the loop of [run] does to the clock, to New, to
    L/S and to the remaining times. *)
Lemma consola_paso_efecto s s' :
  inv procesos s → consola_paso s = Some s' →
  reloj s' = reloj s + 1 ∧
  (∃ k, procesos_nuevos s' = drop k (procesos_nuevos s)) ∧
  (∀ r, r ∈ procesos_nuevos s ++ cola_listos_suspendidos s →
        250 < tamano (proc s r) →
        r ∈ procesos_nuevos s' ++ cola_listos_suspendidos s') ∧
  (∀ r, t_restante (proc s' r) =
        t_restante (proc s r) -
        (if decide (proceso_en_ejecucion s = Some r) then 1 else 0)).
Proof.
  intros Hinv Hpaso.
  unfold consola_paso in Hpaso. apply bind_Some in Hpaso as (sf & Htick & [= <-]).
  destruct (consola_tick_pasos s sf Htick) as (s1 & s3 & H1 & H3 & H4).
  set (t := con_reloj (reloj s - 1) s) in *.
  assert (inv procesos t) as Hinvt by (by apply inv_con_reloj).
  pose proof (inv_antes_de_arribos procesos t s1 Hinvt H1) as Hinv1.
  pose proof (servicio_restante procesos t s1) as Hrest1.
  destruct (servicio_colas procesos t s1 Hinvt H1) as (Hn1 & Hls1 & Hl1 & Hrel1 & _).
  change (procesos_nuevos t) with (procesos_nuevos s) in Hn1.
  change (cola_listos_suspendidos t) with (cola_listos_suspendidos s) in Hls1.
  change (reloj t) with (reloj s - 1) in Hrel1.
  destruct (consola_arribos_efecto s1)
    as (Hn2 & Hls2 & _ & _ & _ & Hrel2 & Hrest2 & Htam2).
  cbn zeta in Hn2, Hls2. set (k := cuenta_prefijo _ _) in Hn2, Hls2.
  pose proof (inv_consola_arribos procesos s1 Hinv1) as Hinv2.
  destruct (consola_admision_efecto procesos _ Hinv2)
    as (s3' & H3' & Hinv3 & _ & Hm3 & _ & _ & _ & _ & Hg3).
  assert (s3' = s3) as -> by congruence.
  pose proof (planificador_mismo_sistema _ _ H4) as Hm4.
  pose proof (planificador_suspendidos _ _ H4) as Hls4.
  destruct Hm3 as (Hn3 & _ & _ & Hrel3 & _ & _ & Hrest3 & _).
  destruct Hm4 as (Hn4 & _ & _ & Hrel4 & _ & _ & Hrest4 & _).
  cbn [reloj con_reloj procesos_nuevos cola_listos_suspendidos todos_procesos].
  split_and!.
  - rewrite Hrel4, Hrel3, Hrel2. lia.
  - exists k. by rewrite Hn4, Hn3, Hn2, Hn1.
  - intros r Hr Hg. rewrite Hn4, Hn3, Hn2, Hls4, Hn1.
    assert (r ∈ drop k (procesos_nuevos s) ∨
            r ∈ cola_listos_suspendidos (consola_arribos s1)) as [?|Hr2].
    { rewrite Hls2, Hls1, Hn1.
      rewrite <- (take_drop k (procesos_nuevos s)) in Hr.
      rewrite !elem_of_app in *. tauto. }
    + apply elem_of_app. by left.
    + apply elem_of_app. right. apply Hg3; [done|].
      rewrite Htam2, (inv_tamano procesos s1 r Hinv1).
      by rewrite <- (inv_tamano procesos s r Hinv).
  - intros r. rewrite Hrest4, Hrest3, Hrest2. by rewrite (Hrest1 r Hinvt H1).
Qed.

Lemma consola_paso_alcanzable s :
  consola_alcanzable procesos s →
  ∃ s', consola_paso s = Some s' ∧ consola_alcanzable procesos s'.
Proof.
  intros Halc. destruct (consola_alcanzable_inv procesos Hids s Halc) as [Hinv Hmem].
  destruct (consola_paso_Some procesos s Hinv Hmem) as (s1 & _ & H & _).
  eexists. split; [exact H|]. by eapply calc_paso.
Qed.

(** The loop of [run] ends: at the limit with the clock at 501, or before
    it with every queue empty. *)
Lemma consola_bucle_Some (n : nat) s :
  consola_alcanzable procesos s → reloj s ≤ 500 → 500 - reloj s < Z.of_nat n →
  ∃ s' b, consola_bucle n s = Some (s', b) ∧ consola_alcanzable procesos s' ∧
          (b = true → reloj s' = 501) ∧
          (b = false → consola_activo s' = false ∧ reloj s' ≤ 500).
Proof.
  revert s. induction n as [|n IH]; intros s Halc Hrel Hn; [lia|].
  cbn [consola_bucle]. destruct (consola_activo s) eqn:Hact.
  - destruct (consola_paso_alcanzable s Halc) as (s1 & H1 & Halc1).
    destruct (consola_alcanzable_inv procesos Hids s Halc) as [Hinv _].
    destruct (consola_paso_efecto s s1 Hinv H1) as (Hrel1 & _).
    rewrite H1. cbn [mbind option_bind].
    destruct (Z.ltb_spec 500 (reloj s1)) as [Hlim|Hlim].
    + exists s1, true. split_and!; [done|done|intros _; lia|done].
    + apply IH; [done|lia|lia].
  - exists s, false. by split_and!.
Qed.
End ConsolaBucle.

Section ConsolaLimite.
Context (procesos : list Proceso).
Hypothesis Hids : ids_consola procesos.
Implicit Types (s : Simulador) (r q c v : ref) (l : list ref) (i k : nat).

Lemma consola_activo_true s r :
  r ∈ procesos_nuevos s ++ cola_listos_suspendidos s → consola_activo s = true.
Proof.
  intros Hr. unfold consola_activo.
  destruct (procesos_nuevos s) as [|x l]; [|done].
  destruct (cola_listos_suspendidos s) as [|y l']; [|done].
  by apply elem_of_nil in Hr.
Qed.

(** With a process that fits no partition the loop of [run] only ends at
    the limit. *)
Lemma consola_bucle_limite (n : nat) s r :
  consola_alcanzable procesos s →
  r ∈ procesos_nuevos s ++ cola_listos_suspendidos s →
  250 < tamano (procesos !!! r) →
  reloj s ≤ 500 → 500 - reloj s < Z.of_nat n →
  ∃ s', consola_bucle n s = Some (s', true) ∧ consola_alcanzable procesos s' ∧
        reloj s' = 501 ∧ r ∈ procesos_nuevos s' ++ cola_listos_suspendidos s'.
Proof.
  intros Halc Hr Hg. revert s Halc Hr. induction n as [|n IH]; intros s Halc Hr Hrel Hn; [lia|].
  cbn [consola_bucle]. rewrite (consola_activo_true s r Hr).
  destruct (consola_paso_alcanzable procesos Hids s Halc) as (s1 & H1 & Halc1).
  destruct (consola_alcanzable_inv procesos Hids s Halc) as [Hinv _].
  destruct (consola_paso_efecto procesos s s1 Hinv H1) as (Hrel1 & _ & Hq & _).
  assert (r ∈ procesos_nuevos s1 ++ cola_listos_suspendidos s1) as Hr1.
  { apply Hq; [done|]. by rewrite (inv_tamano procesos s r Hinv). }
  rewrite H1. cbn [mbind option_bind].
  destruct (Z.ltb_spec 500 (reloj s1)) as [Hlim|Hlim].
  - exists s1. split_and!; [done|done|lia|done].
  - apply IH; [done|done|lia|lia].
Qed.
End ConsolaLimite.

Section ConsolaTermina.
Context (procesos : list Proceso).
Hypothesis Hids : ids_consola procesos.
Hypothesis Hirr : irrupciones_validas procesos.
Hypothesis Harr : arribos_validos procesos.
Hypothesis Htam : tamanos_validos procesos.
Implicit Types (s : Simulador) (r q c v : ref) (l : list ref) (i k : nat).

Lemma espera_consola_le s (M : Z) :
  espera_consola s ≤ M ↔
  0 ≤ M ∧ ∀ r, r ∈ procesos_nuevos s → t_arribo (proc s r) - reloj s + 1 ≤ M.
Proof. apply max_lista_le. Qed.

Lemma espera_consola_cotas s :
  0 ≤ espera_consola s ∧
  ∀ r, r ∈ procesos_nuevos s → t_arribo (proc s r) - reloj s + 1 ≤ espera_consola s.
Proof. by apply espera_consola_le. Qed.

Lemma consola_inactivo s :
  inv procesos s →
  consola_activo s = false ↔ procesos_terminados s ≡ₚ cohorte procesos.
Proof.
  intros Hinv. split.
  - intros Hact. unfold consola_activo in Hact.
    rewrite <- (inv_cohorte _ _ Hinv), <- (inv_reporte _ _ Hinv). unfold colas.
    destruct (procesos_nuevos s), (cola_listos_suspendidos s), (cola_listos s),
      (proceso_en_ejecucion s); cbn in Hact; done.
  - intros Hperm.
    assert (colas s ≡ₚ procesos_terminados s) as Hcolas.
    { by rewrite (inv_reporte _ _ Hinv), (inv_cohorte _ _ Hinv). }
    rewrite colas_en_sistema, (assoc_L (++)) in Hcolas.
    assert (procesos_nuevos s ++ en_sistema s = []) as Hvac.
    { apply Permutation_length in Hcolas. rewrite length_app in Hcolas.
      apply length_zero_iff_nil. lia. }
    apply app_eq_nil in Hvac as [Hn Hsis].
    unfold en_sistema in Hsis. apply app_eq_nil in Hsis as [Hls Hres].
    unfold residentes in Hres. apply app_eq_nil in Hres as [Hl Hrun].
    unfold consola_activo. rewrite Hn, Hls, Hl.
    by destruct (proceso_en_ejecucion s).
Qed.

(** While the loop of [run] goes on, an iteration takes at least one unit
    from the work that is left. *)
Lemma consola_paso_pendiente s s' :
  consola_alcanzable procesos s → consola_activo s = true →
  consola_paso s = Some s' →
  pendiente_consola s' ≤ pendiente_consola s - 1.
Proof.
  intros Halc Hact Hpaso.
  destruct (consola_alcanzable_inv procesos Hids s Halc) as [Hinv Hmem].
  assert (consola_alcanzable procesos s') as Halc' by (by eapply calc_paso).
  destruct (consola_alcanzable_inv procesos Hids s' Halc') as [Hinv' _].
  destruct (consola_alcanzable_inv_consola procesos Hids Hirr Harr s Halc)
    as [Hrel _ Hfut _ _ _ Hocio].
  destruct (consola_paso_efecto procesos s s' Hinv Hpaso) as (Hrel' & [k Hn'] & _ & Hrest).
  assert (suma_restante s' (colas s') =
          suma_restante s (colas s) -
          match proceso_en_ejecucion s with Some _ => 1 | None => 0 end) as Hsuma.
  { assert (colas s' ≡ₚ colas s) as Hperm.
    { by rewrite (inv_reporte _ _ Hinv'), (inv_cohorte _ _ Hinv'),
        (inv_reporte _ _ Hinv), (inv_cohorte _ _ Hinv). }
    unfold suma_restante. rewrite (suma_perm _ _ _ Hperm).
    destruct (proceso_en_ejecucion s) as [cur|] eqn:Hrun.
    - apply (suma_menos_uno _ _ _ cur).
      + by apply (inv_nodup procesos).
      + apply elem_of_colas. tauto.
      + intros r. apply Hrest.
    - rewrite Z.sub_0_r. apply suma_ext. intros r _. rewrite Hrest.
      rewrite decide_False by done. lia. }
  destruct (espera_consola_cotas s) as [H0 Hmax].
  assert (∀ r, r ∈ procesos_nuevos s' →
               r ∈ procesos_nuevos s ∧ t_arribo (proc s' r) = t_arribo (proc s r)) as Hsub.
  { intros r Hr. split.
    - rewrite Hn' in Hr. eapply elem_of_sublist; [exact Hr|apply sublist_drop].
    - by rewrite (inv_t_arribo procesos s' r Hinv'), (inv_t_arribo procesos s r Hinv). }
  unfold pendiente_consola. rewrite Hsuma.
  destruct (proceso_en_ejecucion s) as [cur|] eqn:Hcur.
  - assert (espera_consola s' ≤ espera_consola s); [|lia].
    apply espera_consola_le. split; [done|]. intros r Hr.
    destruct (Hsub r Hr) as [Hr0 ->]. specialize (Hmax r Hr0). lia.
  - destruct (Hocio eq_refl) as [Hl Hg].
    assert (cola_listos_suspendidos s = []) as Hls.
    { assert (∀ c, c ∈ cola_listos_suspendidos s → False) as Hno.
      { intros c Hc. specialize (Hg c Hc).
        assert (tamano (proc s c) ≤ 250); [|lia].
        apply (cohorte_cabe procesos Htam s c Hinv), elem_of_colas. tauto. }
      destruct (cola_listos_suspendidos s) as [|c l]; [done|].
      exfalso. apply (Hno c). by left. }
    assert (∃ r, r ∈ procesos_nuevos s) as [r0 Hr0].
    { unfold consola_activo in Hact. rewrite Hls, Hl, Hcur in Hact.
      destruct (procesos_nuevos s) as [|r l]; [done|]. exists r. by left. }
    assert (espera_consola s' ≤ espera_consola s - 1); [|lia].
    apply espera_consola_le. split.
    + specialize (Hmax r0 Hr0). specialize (Hfut r0 Hr0).
      rewrite (inv_t_arribo procesos s r0 Hinv) in Hmax. lia.
    + intros r Hr. destruct (Hsub r Hr) as [Hr1 ->]. specialize (Hmax r Hr1). lia.
Qed.

Lemma pendiente_consola_cotas s :
  consola_alcanzable procesos s → 0 ≤ pendiente_consola s.
Proof.
  intros Halc.
  destruct (consola_alcanzable_inv procesos Hids s Halc) as [Hinv _].
  destruct (consola_alcanzable_inv_consola procesos Hids Hirr Harr s Halc)
    as [_ _ _ Hrn Hrs Hrt _].
  destruct (espera_consola_cotas s) as [H0 _].
  unfold pendiente_consola, suma_restante.
  assert (foldr Z.add 0 ((λ _ : ref, 0) <$> colas s)
          ≤ foldr Z.add 0 ((λ r, t_restante (proc s r)) <$> colas s)) as Hle.
  { apply suma_le. intros r Hr. rewrite colas_en_sistema, !elem_of_app in Hr.
    destruct Hr as [Hr|[Hr|Hr]].
    - rewrite (Hrn r Hr).
      assert (1 ≤ t_irrupcion (procesos !!! r)); [|lia].
      apply Hirr, (en_cohorte procesos s r Hinv). rewrite colas_en_sistema.
      apply elem_of_app. by left.
    - specialize (Hrs r Hr). lia.
    - rewrite (Hrt r Hr). lia. }
  assert (foldr Z.add 0 ((λ _ : ref, 0) <$> colas s) = 0) as E.
  { clear. induction (colas s) as [|x l IH]; cbn; [done|]. by rewrite IH. }
  lia.
Qed.

Lemma pendiente_consola_init :
  pendiente_consola (consola_preparar_colas (consola_init procesos)) ≤ carga procesos + 1.
Proof.
  pose proof (calc_init procesos) as Halc0.
  destruct (consola_alcanzable_inv procesos Hids _ Halc0) as [Hinv _].
  destruct (consola_alcanzable_inv_consola procesos Hids Hirr Harr _ Halc0)
    as [_ _ _ Hrn Hrs Hrt _].
  assert (reloj (consola_preparar_colas (consola_init procesos)) = 0) as Hrel0
    by apply consola_preparar_reloj.
  set (s0 := consola_preparar_colas (consola_init procesos)) in *.
  assert (colas s0 ≡ₚ cohorte procesos) as Hperm.
  { by rewrite (inv_reporte _ _ Hinv), (inv_cohorte _ _ Hinv). }
  unfold pendiente_consola, carga, suma_restante.
  assert (foldr Z.add 0 ((λ r, t_restante (proc s0 r)) <$> colas s0) ≤
          foldr Z.add 0 ((λ r, t_irrupcion (procesos !!! r)) <$> cohorte procesos)).
  { rewrite <- (suma_perm _ _ _ Hperm). apply suma_le.
    intros r Hr. pose proof Hr as Hr'.
    rewrite colas_en_sistema, !elem_of_app in Hr.
    destruct Hr as [Hr|[Hr|Hr]].
    - rewrite (Hrn r Hr). lia.
    - specialize (Hrs r Hr). lia.
    - rewrite (Hrt r Hr).
      assert (1 ≤ t_irrupcion (procesos !!! r)); [|lia].
      by apply Hirr, (en_cohorte procesos s0 r Hinv). }
  assert (espera_consola s0 ≤
          foldr Z.max 0 ((λ r, t_arribo (procesos !!! r)) <$> cohorte procesos) + 1).
  { destruct (max_lista_cotas (λ r, t_arribo (procesos !!! r)) (cohorte procesos))
      as [Hm0 Hmax].
    apply espera_consola_le. split; [lia|]. intros r Hr.
    rewrite (inv_t_arribo procesos s0 r Hinv), Hrel0.
    assert (r ∈ cohorte procesos) as Hc.
    { rewrite <- Hperm. apply elem_of_colas. tauto. }
    specialize (Hmax r Hc). cbn beta in Hmax. lia. }
  lia.
Qed.

(** With definitions that all fit and a load below the limit, the loop of
    [run] ends with every queue empty. *)
Lemma consola_bucle_termina (n : nat) s :
  consola_alcanzable procesos s →
  pendiente_consola s < Z.of_nat n → reloj s + pendiente_consola s ≤ 500 →
  ∃ s', consola_bucle n s = Some (s', false) ∧ consola_alcanzable procesos s' ∧
        consola_activo s' = false ∧
        reloj s' ≤ reloj s + pendiente_consola s.
Proof.
  revert s. induction n as [|n IH]; intros s Halc Hn Hlim.
  { pose proof (pendiente_consola_cotas s Halc). lia. }
  pose proof (pendiente_consola_cotas s Halc) as H0.
  cbn [consola_bucle]. destruct (consola_activo s) eqn:Hact.
  - destruct (consola_paso_alcanzable procesos Hids s Halc) as (s1 & H1 & Halc1).
    destruct (consola_alcanzable_inv procesos Hids s Halc) as [Hinv _].
    destruct (consola_paso_efecto procesos s s1 Hinv H1) as (Hrel1 & _).
    pose proof (consola_paso_pendiente s s1 Halc Hact H1) as Hpen.
    pose proof (pendiente_consola_cotas s1 Halc1) as H01.
    rewrite H1. cbn [mbind option_bind].
    destruct (Z.ltb_spec 500 (reloj s1)) as [Hlim1|Hlim1]; [lia|].
    destruct (IH s1 Halc1) as (s' & Hs' & Halc' & Hact' & Hrel'); [lia|lia|].
    exists s'. split_and!; [done|done|done|lia].
  - exists s. split_and!; [done|done|done|lia].
Qed.
End ConsolaTermina.

(** X20. The console simulation never raises and always ends. With every
    id in 1..10, in every state at the head of the loop of [run] the tick
    returns, so no partition lookup, [deque.remove] or [popleft] fails; and
    the loop ends after at most 501 ticks: either at the limit, with the
    clock at 501, or before it, with New, L/S, the Ready queue and the CPU
    empty. *)
Theorem consola_sin_excepciones (procesos : list Proceso) :
  ids_consola procesos →
  (∀ s, consola_alcanzable procesos s → is_Some (consola_tick s)) ∧
  ∃ s b, consola_run procesos = Some (s, b) ∧ consola_alcanzable procesos s ∧
         (b = true → reloj s = 501) ∧
         (b = false → reloj s ≤ 500 ∧ procesos_nuevos s = [] ∧
                      cola_listos_suspendidos s = [] ∧ cola_listos s = [] ∧
                      proceso_en_ejecucion s = None).
Proof.
  intros Hids. split.
  - intros s Halc. destruct (consola_alcanzable_inv procesos Hids s Halc) as [Hinv Hmem].
    destruct (consola_tick_Some procesos s Hinv Hmem) as (s' & -> & _). by eexists.
  - pose proof (calc_init procesos) as Halc0.
    destruct (consola_bucle_Some procesos Hids 502 _ Halc0) as (s & b & Hs & Halc & Hb1 & Hb0).
    + rewrite (consola_preparar_reloj procesos). lia.
    + rewrite (consola_preparar_reloj procesos). lia.
    + exists s, b. split_and!; try done. intros ->. destruct (Hb0 eq_refl) as [Hact ?].
      unfold consola_activo in Hact.
      destruct (procesos_nuevos s), (cola_listos_suspendidos s), (cola_listos s),
        (proceso_en_ejecucion s) eqn:E; cbn in Hact; done.
Qed.

Lemma consola_sin_excepciones_witness :
  ∃ s b, consola_run procesos_rafaga = Some (s, b) ∧
         consola_alcanzable procesos_rafaga s ∧
         (b = true → reloj s = 501) ∧
         (b = false → reloj s ≤ 500 ∧ procesos_nuevos s = [] ∧
                      cola_listos_suspendidos s = [] ∧ cola_listos s = [] ∧
                      proceso_en_ejecucion s = None).
Proof.
  apply (consola_sin_excepciones procesos_rafaga).
  intros p Hp. unfold procesos_rafaga in Hp.
  repeat (apply elem_of_cons in Hp as [->|Hp]; [cbn; lia|]).
  by apply elem_of_nil in Hp.
Defined.

(** X21. A process that fits no partition makes the console simulation run
    into its time limit. With every id in 1..10, when a process of the
    cohort is larger than 250 KB the loop of [run] never finds the queues
    empty: it ends at the limit, after 501 ticks, with that process still
    in New or in L/S. *)
Theorem consola_limite (procesos : list Proceso) (r : ref) :
  ids_consola procesos → r ∈ cohorte procesos → 250 < tamano (procesos !!! r) →
  ∃ s, consola_run procesos = Some (s, true) ∧ reloj s = 501 ∧
       r ∈ procesos_nuevos s ++ cola_listos_suspendidos s.
Proof.
  intros Hids Hr Hg. unfold consola_run.
  destruct (consola_bucle_limite procesos Hids 502 _ r (calc_init procesos))
    as (s & Hs & _ & Hrel & Hrs); try done.
  - rewrite (consola_preparar_igual procesos Hids).
    rewrite (preparar_colas_cohorte procesos). apply elem_of_app. by left.
  - rewrite (consola_preparar_reloj procesos). lia.
  - rewrite (consola_preparar_reloj procesos). lia.
  - by exists s.
Qed.

Lemma consola_limite_witness :
  ∃ s, consola_run procesos_detenido = Some (s, true) ∧ reloj s = 501 ∧
       0%nat ∈ procesos_nuevos s ++ cola_listos_suspendidos s.
Proof.
  apply (consola_limite procesos_detenido 0%nat).
  - intros p Hp. unfold procesos_detenido in Hp.
    repeat (apply elem_of_cons in Hp as [->|Hp]; [cbn; lia|]).
    by apply elem_of_nil in Hp.
  - apply (bool_decide_unpack _). by vm_compute.
  - by vm_compute.
Defined.

(** X22. The console simulation of a load that fits ends by itself. With
    every id in 1..10, bursts of at least 1, arrival times that are not
    negative and sizes of at most 250 KB, when the bursts of the cohort
    plus its last arrival time are less than 500 the loop of [run] ends
    before its limit: every queue is empty, the terminated processes are
    exactly the cohort, and the clock is at most that load plus one. *)
Theorem consola_termina (procesos : list Proceso) :
  ids_consola procesos → irrupciones_validas procesos → arribos_validos procesos →
  tamanos_validos procesos → carga procesos < 500 →
  ∃ s, consola_run procesos = Some (s, false) ∧
       procesos_terminados s ≡ₚ cohorte procesos ∧
       procesos_nuevos s = [] ∧ cola_listos_suspendidos s = [] ∧
       cola_listos s = [] ∧ proceso_en_ejecucion s = None ∧
       reloj s ≤ carga procesos + 1.
Proof.
  intros Hids Hirr Harr Htam Hcarga. unfold consola_run.
  pose proof (calc_init procesos) as Halc0.
  pose proof (pendiente_consola_init procesos Hids Hirr Harr) as Hpen0.
  pose proof (consola_preparar_reloj procesos) as Hrel0.
  destruct (consola_bucle_termina procesos Hids Hirr Harr Htam 502 _ Halc0)
    as (s & Hs & Halc & Hact & Hrel); [lia|lia|].
  destruct (consola_alcanzable_inv procesos Hids s Halc) as [Hinv _].
  exists s. split; [done|].
  split; [by apply (consola_inactivo procesos s Hinv)|].
  unfold consola_activo in Hact.
  destruct (procesos_nuevos s), (cola_listos_suspendidos s), (cola_listos s),
    (proceso_en_ejecucion s); cbn in Hact; try done.
  split_and!; try done. lia.
Qed.

Lemma consola_termina_witness :
  ∃ s, consola_run procesos_rafaga = Some (s, false) ∧
       procesos_terminados s ≡ₚ cohorte procesos_rafaga ∧
       procesos_nuevos s = [] ∧ cola_listos_suspendidos s = [] ∧
       cola_listos s = [] ∧ proceso_en_ejecucion s = None ∧
       reloj s ≤ carga procesos_rafaga + 1.
Proof.
  apply (consola_termina procesos_rafaga).
  - intros p Hp. unfold procesos_rafaga in Hp.
    repeat (apply elem_of_cons in Hp as [->|Hp]; [cbn; lia|]).
    by apply elem_of_nil in Hp.
  - intros p Hp. unfold procesos_rafaga in Hp.
    repeat (apply elem_of_cons in Hp as [->|Hp]; [cbn; lia|]).
    by apply elem_of_nil in Hp.
  - intros p Hp. unfold procesos_rafaga in Hp.
    repeat (apply elem_of_cons in Hp as [->|Hp]; [cbn; lia|]).
    by apply elem_of_nil in Hp.
  - intros p Hp. unfold procesos_rafaga in Hp.
    repeat (apply elem_of_cons in Hp as [->|Hp]; [cbn; lia|]).
    by apply elem_of_nil in Hp.
  - by vm_compute.
Defined.

(** X23. The partition table of the console engine agrees with its queues.
    With every id in 1..10, in every state at the head of the loop of
    [run]: a partition that holds a process is a user partition, the
    process is Ready or Running, points back to the partition and fits in
    it; every Ready or Running process holds one of the three user
    partitions; a process in New, in L/S or Terminated holds none; and at
    most three processes are in memory, so the test
    [procesos_en_memoria >= 5] of the admission loop never holds. *)
Theorem consola_memoria (procesos : list Proceso) (s : Simulador) :
  ids_consola procesos → consola_alcanzable procesos s →
  (∀ k r, (k < length (particiones s))%nat → proceso_asignado (part s k) = Some r →
     es_so (part s k) = false ∧ r ∈ residentes s ∧
     id_particion (proc s r) = Some k ∧ 0 ≤ fragmentacion_interna s k) ∧
  (∀ r, r ∈ residentes s →
     ∃ k, (0 < k < 4)%nat ∧ id_particion (proc s r) = Some k ∧
          proceso_asignado (part s k) = Some r) ∧
  (∀ r, r ∈ procesos_nuevos s ++ cola_listos_suspendidos s ++ procesos_terminados s →
     id_particion (proc s r) = None) ∧
  (procesos_en_memoria s ≤ 3)%nat ∧ (5 <=? procesos_en_memoria s)%nat = false.
Proof.
  intros Hids Halc.
  destruct (consola_alcanzable_inv procesos Hids s Halc) as [Hinv [Hoc Hcabe Hfuera _ _ _ _]].
  pose proof (residentes_a_lo_sumo_tres procesos s Hinv) as H3.
  split_and!.
  - intros k r Hk Has. destruct (Hoc k r Hk Has) as [Hr Hid].
    destruct (bien_alojado_usuario procesos s r k Hinv Hr Hid) as (_ & _ & Hso & _).
    split_and!; try done. unfold fragmentacion_interna. rewrite Has.
    specialize (Hcabe r k Hr Hid). lia.
  - intros r Hr. destruct (inv_residentes _ _ Hinv r Hr) as (k & Hk & _).
    destruct (bien_alojado_usuario procesos s r k Hinv Hr Hk) as (? & ? & _).
    by exists k.
  - done.
  - done.
  - apply Nat.leb_gt. lia.
Qed.

Lemma consola_memoria_witness :
  (procesos_en_memoria (consola_preparar_colas (consola_init procesos_rafaga)) ≤ 3)%nat.
Proof.
  apply (consola_memoria procesos_rafaga).
  - intros p Hp. unfold procesos_rafaga in Hp.
    repeat (apply elem_of_cons in Hp as [->|Hp]; [cbn; lia|]).
    by apply elem_of_nil in Hp.
  - apply calc_init.
Defined.

(** On a list of distinct objects the two constructors are the same. *)
Lemma Simulador_init_distintos (procesos : list Proceso) :
  Simulador_init procesos = Simulador_init_lista procesos (seq 0 (length procesos)).
Proof. reflexivity. Qed.

(** X25. A list that holds an object twice can make the engine raise. With
    the first object of [objetos_repetidos] listed twice, that object takes
    two partitions and stays in the Ready queue while it runs; the
    constructor returns, and the first tick terminates the object, frees one
    of its partitions, admits the next process and then fails in the victim
    loop of [_intentar_admision], at [self.particiones[v.id_particion]]
    with [v.id_particion] equal to [None]. *)
Lemma lista_repetida_falla :
  ∃ s, Simulador_init_lista objetos_repetidos lista_repetida = Some s ∧
       siguiente_tick s = None.
Proof.
  destruct (Simulador_init_lista objetos_repetidos lista_repetida) as [s|] eqn:E;
    [|vm_compute in E; discriminate].
  exists s. split; [done|]. vm_compute in E. injection E as <-. by vm_compute.
Qed.

(** C3. The arrival step of the constructor, which is tick 0. The six
    processes of [seis_procesos] are all due at tick 0 and the system is
    empty; keeping the count of the system at 5 or less means moving the
    first five to L/S and leaving the sixth in New.  The loop of
    [_guardar_estado_inicial] moves all six: New is left empty and the
    system holds 6 processes, before the admission and after the
    constructor has returned. *)
Theorem arribo_inicial_sin_limite :
  let s0 := _preparar_colas (estado_vacio seis_procesos) in
  let s1 := arribados_iniciales s0 in
  reloj s0 = 0 ∧ ids s0 (vencidos s0) = [1; 2; 3; 4; 5; 6] ∧ gdm_actual s0 = 0%nat ∧
  Simulador_init seis_procesos = _intentar_admision s1 ≫= _ejecutar_planificador ∧
  procesos_nuevos s1 = [] ∧
  ids s1 (cola_listos_suspendidos s1) = [1; 2; 3; 4; 5; 6] ∧
  gdm_actual s1 = 6%nat ∧
  ∃ s, Simulador_init seis_procesos = Some s ∧
       procesos_nuevos s = [] ∧ gdm_actual s = 6%nat.
Proof.
  cbn zeta. split_and!; try by vm_compute.
  destruct (Simulador_init seis_procesos) as [s|] eqn:E;
    [|vm_compute in E; discriminate].
  exists s. split; [done|]. vm_compute in E. injection E as <-. by vm_compute.
Qed.

(** ** The final report and the range of the floats *)

Section ReporteRango.
Implicit Types (s : Simulador) (a : Acumulado) (r : ref) (l : list ref).

Lemma acumular_cota (B : Z) s l a :
  (∀ r, r ∈ l → t_fin (proc s r) ≠ -1 →
        Z.abs (t_arribo (proc s r)) < B ∧ Z.abs (t_irrupcion (proc s r)) < B ∧
        Z.abs (t_fin (proc s r)) < B ∧ Z.abs (t_primera_ejecucion (proc s r)) < B) →
  cota_acumulado (4 * B) a → cota_acumulado (4 * B) (foldl (acumular s) a l).
Proof.
  revert a. induction l as [|r l IH]; intros a Hl Ha; cbn [foldl]; [done|].
  apply IH; [intros q Hq; apply Hl; by right|].
  unfold acumular.
  destruct (Z.eqb_spec (t_fin (proc s r)) (-1)) as [He|He]; cbn [negb].
  - by destruct (_ && _).
  - destruct (Hl r) as (? & ? & ? & ?); [by left|done|].
    destruct Ha as (? & ? & ? & ?). unfold cota_acumulado. cbn. lia.
Qed.

Lemma limite_float_cota : 4 * 2 ^ 1000 < limite_float.
Proof. by vm_compute. Qed.

Lemma desborda_cota (x n : Z) :
  0 < n → Z.abs x ≤ 4 * 2 ^ 1000 * n → desborda x n = false.
Proof.
  intros Hn Hx. unfold desborda. apply Z.leb_gt.
  pose proof limite_float_cota as Hl.
  rewrite (Z.abs_eq n) by lia.
  eapply Z.le_lt_trans; [exact Hx|]. by apply Z.mul_lt_mono_pos_r.
Qed.

Lemma desborda_pequeno (n t : Z) :
  0 ≤ n ≤ 10 → 0 < t → desborda n t = false.
Proof.
  intros Hn Ht. unfold desborda. apply Z.leb_gt.
  assert (11 ≤ limite_float) as Hl by (by vm_compute).
  rewrite (Z.abs_eq n), (Z.abs_eq t) by lia.
  apply Z.le_lt_trans with 10; [lia|].
  apply Z.lt_le_trans with (11 * 1); [lia|].
  apply Z.mul_le_mono_nonneg; lia.
Qed.
End ReporteRango.

Lemma cohorte_a_lo_sumo_diez (procesos : list Proceso) :
  (length (cohorte procesos) ≤ 10)%nat.
Proof. unfold cohorte. rewrite length_take. lia. Qed.


Lemma reporte_final_ok (procesos : list Proceso) (s : Simulador) :
  alcanzable procesos s → promedios_en_rango s →
  ∃ rep s',
    get_reporte_final s = Some (rep, s') ∧
    (reloj s = 0 → rep_throughput rep = Cero3) ∧
    ((∀ r, r ∈ procesos_reporte s → t_fin (proc s r) = -1) →
     rep_promedios rep = None ∧ rep_procesos_contados rep = 0) ∧
    texto_definido (rep_throughput rep) ∧
    (∀ p, rep_promedios rep = Some p →
          texto_definido (prom_espera p) ∧ texto_definido (prom_respuesta p) ∧
          texto_definido (prom_retorno p)) ∧
    rep_procesos_contados rep
    = Z.of_nat (length (filter (λ r, t_fin (proc s r) ≠ -1) (procesos_reporte s))) ∧
    (∀ f, f ∈ rep_procesos rep → fila_justificada s f).
Proof.
  intros Halc Hran.
  pose proof (alcanzable_inv procesos s Halc) as Hinv.
  unfold promedios_en_rango, totales in Hran. cbn zeta in Hran.
  unfold get_reporte_final.
  set (orden := sorted (λ r, id_proceso (proc s r)) Z.leb (procesos_reporte s)) in *.
  set (s1 := con_reporte orden s) in *.
  set (a := foldl (acumular s1) (mkAcumulado [] 0 0 0 0) (procesos_reporte s1)) in *.
  assert (ac_contados a
          = Z.of_nat (length (filter (λ r, t_fin (proc s r) ≠ -1) (procesos_reporte s))))
    as Hcont.
  { unfold a. rewrite acumular_contados. cbn. unfold orden.
    by rewrite sorted_perm. }
  assert (0 ≤ ac_contados a ≤ 10) as Hdiez.
  { rewrite Hcont. pose proof (length_filter (λ r, t_fin (proc s r) ≠ -1) (procesos_reporte s)).
    pose proof (cohorte_a_lo_sumo_diez procesos).
    rewrite <- (inv_cohorte _ _ Hinv) in *. lia. }
  assert (∀ f, f ∈ ac_filas a → fila_justificada s f) as Hfilas.
  { intros f Hf. apply acumular_filas in Hf as [Hf|Hf]; [by apply elem_of_nil in Hf|].
    destruct f; destruct Hf as (r & Hr & Hrest); exists r;
      (split; [cbn in Hr; unfold orden in Hr; by apply elem_of_sorted in Hr|done]). }
  clearbody a.
  assert (∃ pr, (if ac_contados a >? 0
                 then e ← dividir (ac_espera a) (ac_contados a);
                      r ← dividir (ac_respuesta a) (ac_contados a);
                      t ← dividir (ac_retorno a) (ac_contados a);
                      Some (Some (mkPromedios (Formato e 2) (Formato r 2) (Formato t 2)))
                 else Some None) = Some pr ∧
                (ac_contados a = 0 → pr = None) ∧
                (∀ p, pr = Some p →
                      texto_definido (prom_espera p) ∧ texto_definido (prom_respuesta p) ∧
                      texto_definido (prom_retorno p))) as (pr & -> & Hpr0 & Hprd).
  { destruct (Z.gtb_spec (ac_contados a) 0) as [Hpos|Hle].
    - destruct (Hran Hpos) as (He & Hr & Ht).
      rewrite !dividir_Some by (done || lia).
      cbn. eexists. split; [done|].
      split; [lia|]. intros p [= <-]. cbn. lia.
    - eexists. split; [done|]. split; [done|]. by intros p. }
  assert (∃ th, (if reloj s1 >? 0
                 then q ← dividir (ac_contados a) (reloj s1); Some (Formato q 3)
                 else Some Cero3) = Some th ∧
                (reloj s = 0 → th = Cero3) ∧ texto_definido th) as (th & -> & Hth0 & Hthd).
  { change (reloj s1) with (reloj s).
    destruct (Z.gtb_spec (reloj s) 0) as [Hpos|Hle].
    - rewrite dividir_Some by (lia || (apply desborda_pequeno; lia)).
      cbn. eexists. split; [done|].
      split; [lia|]. cbn. lia.
    - eexists. split; [done|]. done. }
  cbn. eexists _, _. split; [done|]. cbn.
  split_and!; try done.
  intros Hnone. assert (ac_contados a = 0) as H0.
  { rewrite Hcont, filter_ninguno; [done|]. intros r Hr Hne. apply Hne. by apply Hnone. }
  split; [by apply Hpr0|done].
Qed.

Lemma reporte_final_promedios (s : Simulador) :
  is_Some (get_reporte_final s) → promedios_en_rango s.
Proof.
  intros [[rep s'] H]. unfold get_reporte_final in H. cbn zeta in H.
  unfold promedios_en_rango, totales. cbn zeta.
  set (a := foldl _ _ _) in *. clearbody a. intros Hpos.
  apply bind_Some in H as (pr & Hpr & _).
  destruct (Z.gtb_spec (ac_contados a) 0) as [_|?]; [|lia].
  apply bind_Some in Hpr as (e & (_ & _ & ?)%dividir_inv & Hpr).
  apply bind_Some in Hpr as (r & (_ & _ & ?)%dividir_inv & Hpr).
  by apply bind_Some in Hpr as (t & (_ & _ & ?)%dividir_inv & _).
Qed.

Lemma tiempos_promedios (s : Simulador) :
  tiempos_en_rango s → promedios_en_rango s.
Proof.
  intros Hran. unfold promedios_en_rango, totales. cbn zeta.
  set (orden := sorted (λ r, id_proceso (proc s r)) Z.leb (procesos_reporte s)).
  set (s1 := con_reporte orden s).
  set (a := foldl (acumular s1) (mkAcumulado [] 0 0 0 0) (procesos_reporte s1)).
  assert (cota_acumulado (4 * 2 ^ 1000) a) as (_ & Hret & Hesp & Hres).
  { unfold a. apply acumular_cota.
    - intros r Hr. apply Hran. cbn in Hr. unfold orden in Hr.
      by apply elem_of_sorted in Hr.
    - unfold cota_acumulado. cbn. lia. }
  clearbody a. intros Hpos. split_and!; by apply desborda_cota.
Qed.



Lemma filas_de_nuevo (procesos : list Proceso) (s : Simulador) (r : ref) :
  inv procesos s → inv_memoria s → r ∈ procesos_nuevos s → filas_de s r = [].
Proof.
  intros Hinv Hmem Hr. unfold filas_de, acumular.
  rewrite (inv_tfin _ _ Hinv r) by (apply elem_of_app; by left).
  by rewrite (est_nuevos _ Hmem r Hr).
Qed.



(** An oversized process that the slot limit keeps in New: after three
    ticks the sixth process of [seis_grandes] is still in New, in state
    NUEVO, the report has the five rows of the others and none for it, and
    [is_running] is false. *)
Lemma grande_queda_en_nuevos :
  ∃ s rep s',
    Simulador_init seis_grandes ≫= ticks 3 = Some s ∧
    ids s (procesos_nuevos s) = [6] ∧ estado (proc s 5%nat) = NUEVO ∧
    ids s (cola_listos_suspendidos s) = [1; 2; 3; 4; 5] ∧
    is_running s = false ∧
    get_reporte_final s = Some (rep, s') ∧
    length (rep_procesos rep) = 5%nat ∧ filas_de s' 5%nat = [].
Proof.
  destruct (Simulador_init seis_grandes ≫= ticks 3) as [s|] eqn:E;
    [|vm_compute in E; discriminate].
  destruct (get_reporte_final s) as [[rep s']|] eqn:Hrep.
  2:{ vm_compute in E. injection E as <-. vm_compute in Hrep. discriminate. }
  exists s, rep, s'. vm_compute in E. injection E as <-.
  vm_compute in Hrep. injection Hrep as <- <-. by vm_compute.
Qed.

(** ** The queues of the console engine *)

Section ConsolaColas.
Implicit Types (s : Simulador) (r c : ref) (l : list ref) (i n : nat).

Lemma servicio_cpu_colas s s' : servicio_cpu s = Some s' → colas s' ≡ₚ colas s.
Proof.
  intros H. apply servicio_casos in H
    as [[_ ->]|[(cur & Hrun & _ & ->)|(cur & k & ev & Hrun & _ & _ & _ & ->)]].
  - done.
  - done.
  - unfold colas. cbn. autorewrite with campos. cbn. rewrite Hrun. cbn.
    do 3 f_equiv. symmetry. apply Permutation_cons_append.
Qed.

Lemma consola_arribos_colas s : colas (consola_arribos s) ≡ₚ colas s.
Proof.
  destruct (consola_arribos_efecto s) as (Hn & Hls & Hl & Hr & Ht & _).
  cbn zeta in Hn, Hls. unfold colas. rewrite Hn, Hls, Hl, Hr, Ht.
  set (k := cuenta_prefijo _ _).
  rewrite <- (take_drop k (procesos_nuevos s)) at 3.
  generalize (drop k (procesos_nuevos s)) (take k (procesos_nuevos s)).
  intros D T. rewrite <- !(assoc_L (++)).
  rewrite !(assoc_L (++) D (cola_listos_suspendidos s)).
  apply Permutation_app_swap_app.
Qed.

Lemma entrar_a_memoria_perm i c s s' :
  entrar_a_memoria i c s = Some s' → colas s' ≡ₚ colas s.
Proof.
  intros (Hls & Hl & Hn & Hr & Ht & _)%entrar_a_memoria_colas.
  apply py_remove_perm in Hls. unfold colas. rewrite Hn, Hl, Hr, Ht, Hls.
  f_equiv. cbn. rewrite <- !(assoc_L (++)). cbn.
  rewrite !(assoc_L (++) (cola_listos_suspendidos s')).
  symmetry. apply Permutation_middle.
Qed.

Lemma consola_bucle_admision_colas n s s' :
  consola_bucle_admision n s = Some s' → colas s' ≡ₚ colas s.
Proof.
  revert s. induction n as [|n IH]; intros s H; [done|].
  cbn [consola_bucle_admision] in H.
  apply bind_Some in H as ([s1|] & H1 & H); [|by injection H as <-].
  apply IH in H. rewrite H. clear H IH.
  unfold consola_admitir in H1.
  destruct (5 <=? procesos_en_memoria s)%nat; [done|].
  case_bool_decide; [done|].
  destruct (consola_seleccionar _ _ _ _ _) as [x|]; [|done].
  apply bind_Some in H1 as (s2 & H2 & [= <-]).
  cbn [aplicar] in H2. apply bind_Some in H2 as (s3 & H3 & [= <-]).
  by apply entrar_a_memoria_perm in H3.
Qed.

Lemma planificador_colas s s' :
  _ejecutar_planificador s = Some s' → colas s' ≡ₚ colas s.
Proof.
  intros H. apply planificador_casos in H
    as [[Hl ->]|[(r & l & ev & Hrun & Hs & ->)|[(run & c & l & Hrun & Hs & _ & ->)
       |(run & c & l & ent & l' & ev & Hrun & Hs & _ & Hs' & ->)]]].
  - done.
  - unfold colas. cbn. autorewrite with campos. cbn. rewrite Hrun. cbn.
    assert (cola_listos s ≡ₚ r :: l) as -> by (by rewrite <- Hs, sorted_perm).
    do 2 f_equiv. symmetry. apply Permutation_middle.
  - unfold colas.
    cbn [procesos_nuevos cola_listos_suspendidos cola_listos proceso_en_ejecucion
         procesos_terminados con_listos].
    by rewrite <- Hs, sorted_perm.
  - unfold colas. cbn. autorewrite with campos. cbn. rewrite Hrun. cbn.
    do 2 f_equiv.
    assert (ent :: l' ≡ₚ cola_listos s ++ [run]) as Hp.
    { rewrite <- Hs', sorted_perm.
      assert (cola_listos s ≡ₚ c :: l) as -> by (by rewrite <- Hs, sorted_perm).
      done. }
    rewrite <- (Permutation_middle l'), (app_comm_cons l'), Hp.
    by rewrite <- (assoc_L (++)).
Qed.

Lemma consola_paso_colas s s' : consola_paso s = Some s' → colas s' ≡ₚ colas s.
Proof.
  unfold consola_paso, consola_tick. cbn zeta.
  intros (s4 & H & [= <-])%bind_Some.
  apply bind_Some in H as (s1 & H1 & H). apply bind_Some in H as (s3 & H3 & H4).
  change (colas (con_reloj (reloj s4 + 1) s4)) with (colas s4).
  rewrite (planificador_colas _ _ H4).
  rewrite (consola_bucle_admision_colas _ _ _ H3).
  rewrite consola_arribos_colas.
  by rewrite (servicio_cpu_colas _ _ H1).
Qed.

Lemma consola_preparar_solo_nuevos (procesos : list Proceso) :
  let s := consola_preparar_colas (consola_init procesos) in
  colas s = procesos_nuevos s.
Proof.
  cbn zeta. unfold consola_preparar_colas. set (sel := take 10 _).
  destruct (reiniciar_foldl sel (consola_init procesos))
    as (_ & _ & _ & Hls & Hl & Hr & Ht & _).
  cbn zeta in *. unfold colas. cbn. rewrite Hls, Hl, Hr, Ht. cbn.
  by rewrite app_nil_r.
Qed.

Lemma consola_alcanzable_colas (procesos : list Proceso) s :
  consola_alcanzable procesos s →
  colas s ≡ₚ procesos_nuevos (consola_preparar_colas (consola_init procesos)).
Proof.
  induction 1 as [|s s' _ IH H].
  - by rewrite consola_preparar_solo_nuevos.
  - by rewrite (consola_paso_colas _ _ H).
Qed.
End ConsolaColas.

(** C9, as the code has it. The GUI engine selects the first min(10, n) of
    all n supplied definitions in ascending (arrival time, id) order; the
    console engine does the same among the definitions whose id lies in
    1..10. In both, every selected process starts in New, with its remaining
    time equal to its burst time, no partition and no finish, first-run or
    ready-since time, and is the only content of the queues; the other
    definitions are left untouched, and in every later state of either
    engine the queues hold exactly the selected processes. *)
Theorem seleccion_cohorte (procesos : list Proceso) :
  let s := _preparar_colas (estado_vacio procesos) in
  let c := consola_preparar_colas (consola_init procesos) in
  seleccion_de procesos (seq 0 (length procesos)) s ∧
  seleccion_de procesos (ids_validos procesos) c ∧
  (∀ s', alcanzable procesos s' → colas s' ≡ₚ procesos_nuevos s) ∧
  (∀ s', consola_alcanzable procesos s' → colas s' ≡ₚ procesos_nuevos c).
Proof.
  intros s c. split_and!.
  - apply seleccion_de_spec. intros r Hr%elem_of_seq. lia.
  - apply (seleccion_de_spec procesos (ids_validos procesos)).
    intros r [_ Hr%elem_of_seq]%list_elem_of_filter. lia.
  - intros s' Hinv%alcanzable_inv.
    by rewrite (inv_reporte _ _ Hinv), (inv_cohorte _ _ Hinv).
  - intros s' Hs'. by apply consola_alcanzable_colas.
Qed.

Lemma seleccion_cohorte_witness :
  ∃ s', alcanzable procesos_escenario s' ∧
        colas s' ≡ₚ procesos_nuevos (_preparar_colas (estado_vacio procesos_escenario)).
Proof.
  destruct (Simulador_init procesos_escenario) as [s'|] eqn:E;
    [|vm_compute in E; discriminate].
  exists s'. split; [by apply alc_init|].
  destruct (seleccion_cohorte procesos_escenario) as (_ & _ & H & _).
  apply H. by apply alc_init.
Defined.

(** X15. Every row after the header decision is accounted for. The first
    row is a data row when it has at least four cells and its first four
    are integers; otherwise it is taken as the header and gives neither a
    process nor an error.  Of the data rows, those whose four fields are
    empty are skipped, and each of the others gives one process or one
    error: the processes returned plus the errors reported are as many as
    the data rows that are not blank; the line numbers of the errors are
    increasing lines of data rows of the file; and the message is empty
    exactly when no error was found. *)
Theorem lector_cuenta (norm strip : string → string) (py_int : string → option Z)
    (first : list string) (resto : list (list string)) :
  let es_dato := (4 <=? length first)%nat && forallb (is_int strip py_int) (take 4 first) in
  let datos := if es_dato then first :: resto else resto in
  let inicio := if es_dato then 1%nat else 2%nat in
  let ix := (plan_lectura norm strip py_int first resto).1.1 in
  let '(ps, msg) := _parsear_csv_data norm strip py_int (first :: resto) in
  ∃ es,
    msg = match es with [] => SinErrores | _ => ConErrores es end ∧
    (length ps + length es =
     length (filter (λ row, en_blanco strip ix row = false) datos))%nat ∧
    StronglySorted lt (fila_de <$> es) ∧
    Forall (λ e, inicio ≤ fila_de e < inicio + length datos)%nat es.
Proof.
  cbn zeta. unfold _parsear_csv_data.
  assert ((plan_lectura norm strip py_int first resto).1.2 =
          (if (4 <=? length first)%nat && forallb (is_int strip py_int) (take 4 first)
           then first :: resto else resto) ∧
          (plan_lectura norm strip py_int first resto).2 =
          (if (4 <=? length first)%nat && forallb (is_int strip py_int) (take 4 first)
           then 1%nat else 2%nat)) as [Hd Hi].
  { unfold plan_lectura. by destruct (_ && _). }
  destruct (plan_lectura norm strip py_int first resto) as [[ix rows] start].
  cbn [fst snd] in Hd, Hi |- *. rewrite <- Hd, <- Hi.
  destruct (leer_filas_cuenta strip py_int ix (mkLectura [] ∅ []) start rows)
    as (Hlen & es & Hes & Hsort & Hran).
  cbn zeta in *. cbn [procs errores] in Hlen, Hes. rewrite app_nil_l in Hes.
  exists es. rewrite Hes in *. cbn in Hlen. split_and!; try done.
  by destruct es.
Qed.

(** A first row that is a malformed data row is taken as the header: the
    file of the rows 1,10,0,x and 2,20,1,3 gives the process of the second
    row and no message. *)
Lemma lector_toma_encabezado :
  _parsear_csv_data id id int_ejemplo
    [["1"; "10"; "0"; "x"]; ["2"; "20"; "1"; "3"]]%string
  = ([Proceso_init 2 20 1 3], SinErrores).
Proof. by vm_compute. Qed.

(** X1. The engine's constructor and its tick never raise on distinct
    process objects. From any list in which every position holds an object
    of its own (as both loaders build it, one fresh [Proceso] per row) the
    constructor returns an engine, and in every observable state a Tick
    returns: the lookups [self.particiones[p.id_particion]], [deque.remove]
    and [popleft] never fail there, and the [while True] loop of
    [_intentar_admision] ends. *)
Theorem motor_sin_excepciones (procesos : list Proceso) :
  (∃ s, Simulador_init procesos = Some s) ∧
  ∀ s, alcanzable procesos s →
    ∃ s', siguiente_tick s = Some s' ∧ alcanzable procesos s'.
Proof.
  split.
  - destruct (inv_init procesos) as (s & Hs & _). by exists s.
  - intros s Halc. by apply alcanzable_tick.
Qed.

Lemma motor_sin_excepciones_witness :
  ∃ s', siguiente_tick ejemplo_rafaga = Some s' ∧ alcanzable procesos_rafaga s'.
Proof.
  destruct (motor_sin_excepciones procesos_rafaga) as (_ & H).
  apply (H ejemplo_rafaga).
  apply alc_init. by vm_compute.
Defined.
